(* ===== verification/_CoqProject ===== *)
-Q . S2P
Prelude.v
GoErrors.v
GoStrings.v
Secrets.v
Store.v
StoreSpec.v
Keychain.v
SecretService.v
KeychainWindows.v
WindowsStore.v
KeychainLinux.v
LinuxStore.v
KeychainDarwin.v
DarwinStore.v
DateTime.v
CoreFoundation.v
Conversions.v
KeychainItems.v
Base64.v
RandomID.v
SecretFile.v
Posixage.v
PosixStore.v
Syscalls.v
Flock.v
FlockFile.v
SharedStore.v
LinuxShared.v
Api.v
Resolver.v
Client.v
AccessControl.v
Release.v
ReleaseGit.v
ReleaseGraph.v
Realms.v
Pass.v
PassRun.v
Backends.v
Memory.v
Identifiers.v
Cli.v
System.v
CredentialHelper.v
Ipc.v
IpcConn.v
HijackStream.v
IpcSession.v
Plugin.v
Rpc.v
Launch.v
Helpers.v
Logging.v
Telemetry.v
TestHelpers.v
