(* ===== verification/Prelude.v ===== *)
(** * Secrets Engine: a verification development

    The secrets engine keeps secrets for Docker tools. A secret has an
    identifier, a path of components; a client asks for the secrets that match a
    pattern; plugins answer from their stores. The development models the Go
    code of the repository under src/ as functions and transition systems and
    proves what each part promises, alone and together.

    ** The parts of the program

    - x/secrets has the identifiers, the patterns and the [Resolver] interface.
    - store declares the [Store] interface. store/keychain implements it over
      the keychain of each platform: the Credential Manager of Windows, the
      D-Bus Secret Service of Linux (through the client of
      internal/go-keychain/secretservice) and the Security framework of macOS
      (through internal/go-keychain). store/posixage implements it with files
      encrypted by age, under an advisory file lock.
    - plugins/pass keeps the secrets of a user in a store, has the commands that
      manage them, and runs programs whose environment refers to secrets.
      plugins/credentialhelper serves the credentials of the Docker CLI.
    - plugin is the SDK of plugins: a plugin is launched by the engine, registers
      over a connection of x/ipc and serves requests. x/api has the services
      and messages between them; client is what programs use.
    - x/release is the release tool of the repository.

    ** Conventions

    A Go function that can fail returns [result E A], [Ok] or [Err]; code that
    changes a state [S] is a computation [comp S E A], a function from a state to
    a result and the state left behind, also when it fails ([<-?] and [<-!] are
    their binds; [ensures] its Hoare rules). [GoErrors] models error values as
    the tree that wrapping and joining build, so that [errors.Is] is computed.
    Strings are Go's byte strings. Machine integers are [Z] with their wrap-around
    written out. A loop over a map takes the order in which the runtime visits it
    as an argument [ord], of which only [MapOrder] is known: a theorem over [ord]
    holds for every order. Code outside the repository (the D-Bus service, age,
    encoding/json and encoding/gob, wincred, the Security framework, git, the
    connect and net/http packages, the credential helper's process) is an
    argument or the instance of a class ([Bus], [Entropy], [Age], [WinCred],
    [SecurityFramework], [Repository], [FS], [Exec], [Helper], [Transport],
    [Connect]); what the code relies on is a second class or named hypotheses
    ([GrantedService], [GrantedKeychain], [SearchableKeychain], [WinCredSpec],
    [GitLaws], [ConnectSpec], [Utf8]), and each has an instance that runs the
    examples.

    ** Files

    Prelude has the results, the computations and their rules, map order and
    lists; GoErrors the errors; GoStrings the functions of [strings] the program
    uses, among them Split, Cut, Contains and ReplaceAll; Base64 the encoding
    of directory names, RandomID the identifiers of internal/go-keychain/util.go.

    Secrets: x/secrets/identifiers.go, pattern.go and secrets.go. The theorems
    give the grammar of identifiers and patterns, and show that the recursive
    matcher decides the documented meaning of patterns; [Includes] and [Filter] are
    inclusion and intersection for patterns shaped like realms, and not in
    general. Identifiers shows that whatever a platform holds, the maps the
    stores return have valid identifiers as keys.

    Store: store/store.go, the secret types of plugins/pass/store and
    store/mocks, and the in-memory stores of plugins/pass/teststore and
    store/mocks, with the contract [StoreLaws]. StoreSpec: the same interface as
    a machine, with [StoreMachine], what it means to implement a map of
    identifiers to secrets, the conventions of a backend being its errors.

    Keychain: store/keychain/keychain.go. SecretService, KeychainLinux,
    LinuxStore: the Secret Service client with its Diffie-Hellman session,
    keychain_linux.go over the interface [secretService], and the refinement of
    the map. KeychainWindows, WindowsStore: keychain_windows.go with its chunk
    credentials, and the refinement. KeychainDarwin, DarwinStore: keychain_darwin.go
    with the items, setters and queries of keychain.go and macos.go in
    internal/go-keychain, and the refinement; KeychainItems: its functions for
    generic passwords and bind/bind.go with the conformance test. CoreFoundation:
    corefoundation.go over a heap of reference-counted objects whose allocations
    can fail, with a proof that it agrees with the conversions KeychainDarwin
    uses; DateTime: the dates of datetime.go in IEEE arithmetic; Conversions: which items the setters can build convert, and the way
    back from objects to Go values. Memory: the slices that a secret shares with
    the store that saves it, and that every store clears.

    SecretFile, Posixage, PosixStore: internal/secretfile (secret.go, keys.go)
    over a model of [os.Root] whose calls fail by a script, prompt.go and
    store.go of store/posixage, and the refinement of the map. Flock: the lock
    of internal/flock as a transition system of any number of processes that
    interleave between system calls; FlockFile: the descriptors and locks of
    one call, whatever its system calls answer. Syscalls, SharedStore: the
    operations of the file store as sequences of system calls, interleaved with
    each other and with the lock by any number of processes; LinuxShared: the
    operations of the Linux keychain as requests to the service, interleaved
    without a lock. Backends compares the four
    stores call by call.

    Api: x/api (name.go, version.go, daemon.go, defaults*.go). Resolver:
    x/api/resolver. Client: client/client.go. AccessControl: x/api/accesscontrol.
    Realms: x/realms and client/realms. Ipc, IpcConn, HijackStream, IpcSession:
    x/ipc, the launch configuration, the connections with their descriptors and
    the handshake, its bytes and buffers at both ends as a transition system, the
    shutdown of a session. Plugin: the SDK, with the interceptor of lifecycle.go
    as a transition system. Rpc: the clients and handlers of every api.connect.go
    over the paths of requests, the mux of a plugin and the client over an
    engine's mux. Launch: the registration of a plugin and the calls of the
    engine, over the connection between them.

    Pass, PassRun: the pass plugin and its commands, the forwarding of signals
    as a transition system. CredentialHelper: plugins/credentialhelper. Cli: the
    example programs of store. System: the pass commands over the Linux
    keychain, end to end. Release, ReleaseGit, ReleaseGraph: x/release, the version
    arithmetic, the propagation through modules, the git commands, and the graph
    of modules [newRepoData] builds. Helpers: x/injector,
    x/oshelper, the options of x/logging and the endpoint of x/telemetry.
    Logging: the lines the loggers print, over a model of fmt's directives.
    Telemetry: the set-up of x/telemetry/otel.go and the clean-up it returns.
    TestHelpers: x/testhelper and the trackers of x/telemetry.

    ** What the theorems show

    - Refinement: each store implements a map, on Linux ([linux_refines_map]),
      Windows ([windows_refines_map]), macOS ([darwin_refines_map]) and in files
      ([posix_refines_map]), there also for several processes at a time
      ([posix_shared]); any two of them answer alike ([backends_agree]); a
      plugin's resolver and decisions reach the engine unchanged over the
      connection, and nothing else does ([plugin_provides],
      [access_over_connection]), once it is registered ([launch_serves]); a
      client's methods are the engine's services ([client_over_engine]); a value
      that was set is what a run resolves ([pass_set_then_run],
      [linux_set_then_run]); a release is the sequence of its modules in
      dependency order ([BumpIterative_order]), over the graph that the module
      files describe ([module_graph]).
    - Round trips of each platform's store, of the session encryption, of
      directory names, of dates ([CFDate_roundtrip]), of generic passwords ([generic_password_roundtrip]) and of
      the conversion to CoreFoundation objects ([conversion_roundtrip]).
    - Memory: a save leaves zeros in the caller's secret ([Save_clears_value]).
    - Concurrency: mutual exclusion of the file lock and the race of its
      recovery, its progress, the calls it serializes, what the clients of the
      Linux keychain can rely on without one ([linux_shared]) and what not, the interceptor of a plugin, signals, the two byte
      streams of a hijacked connection ([hijack_streams]).
    - Resources: connections and sessions are closed, descriptors given back,
      references released, shutdowns end, whatever the environment does.
    - Faults: one failing call during a file write; operations that are not
      atomic; access control that fails closed.

    ** Fuel

    Loops without a structural argument take fuel. Where the input bounds the
    loop the fuel is computed from it and lemmas show that it is enough:
    ReplaceAll, trimming and drop_schemes consume a byte per turn, chunkBlob and
    the CBC loops a block, bump_queue a module, the wait of IpcConn a tick of its
    timeout. Where the environment bounds it, the fuel is an argument and the
    theorems name the bound: the chunks of a credential that exist, the signals
    before a prompt completes, the draws of a key until one is in range.

    ** Not modelled

    - x/api/*/v1/api.pb.go, generated by protoc: the messages the program uses
      are records with the presence their schema gives them.
    - The HTTP server, yamux, cobra and OpenTelemetry: their outcomes are events
      or arguments. The log calls of the components are left out. The delays of
      the lock's back-off and the heartbeat's period are not modelled: the order
      of calls is what is shown.
    - The set-up of recorders and loggers for tests in x/testhelper.

    ** Plan

    What is left to do: clients of the Windows and macOS keychains at a time,
    which have no update in place, and a caller of the file store that dies with
    the lock in its hands. *)

From Stdlib Require Export Strings.Ascii Strings.Byte Strings.String.
From stdpp Require Export base numbers gmap strings list sorting countable.

(** ** Notation scope of the development *)

Declare Scope engine_scope.
Delimit Scope engine_scope with engine.
Open Scope engine_scope.
Open Scope string_scope.
Open Scope list_scope.

Abbreviation ID := string (only parsing).
Abbreviation Pattern := string (only parsing).
Abbreviation bytes := (list Byte.byte) (only parsing).

#[export] Instance byte_eq_dec : EqDecision Byte.byte := Byte.byte_eq_dec.

(** ** Results, panics and state-passing computations *)

(** A Go call [(value, error)]: the error is the second component of the sum. *)
Inductive result (E A : Type) : Type :=
| Ok (a : A)
| Err (e : E).
Arguments Ok {E A} a.
Arguments Err {E A} e.

(** A Go call that may panic. *)
Inductive outcome (E A : Type) : Type :=
| Returns (a : A)
| Panics (e : E).
Arguments Returns {E A} a.
Arguments Panics {E A} e.

Definition result_bind {E A B} (r : result E A) (f : A -> result E B) : result E B :=
  match r with
  | Ok a => f a
  | Err e => Err e
  end.

Definition is_ok {E A} (r : result E A) : bool :=
  match r with Ok _ => true | Err _ => false end.

Notation "x <-? m ;; k" := (result_bind m (fun x => k))
  (at level 100, m at next level, right associativity) : engine_scope.

(** A computation that threads a state [S] and fails with an error [E]; the
    state reached at the failure is kept, as the code's side effects are. *)
Definition comp (S E A : Type) : Type := S -> result E A * S.

Definition ret {S E A} (a : A) : comp S E A := fun s => (Ok a, s).
Definition throw {S E A} (e : E) : comp S E A := fun s => (Err e, s).
Definition bind {S E A B} (m : comp S E A) (f : A -> comp S E B) : comp S E B :=
  fun s => match m s with
           | (Ok a, s') => f a s'
           | (Err e, s') => (Err e, s')
           end.
(** Run [m] and hand its outcome, error included, to the continuation. *)
Definition try {S E F A B} (m : comp S E A) (f : result E A -> comp S F B) : comp S F B :=
  fun s => match m s with (r, s') => f r s' end.
Definition lift {S E A} (r : result E A) : comp S E A := fun s => (r, s).
(** A deferred call: [d] runs after [m] whatever [m] returned, its own outcome
    is dropped. *)
Definition deferring {S E A} (m : comp S E A) (d : result E A -> comp S E unit) : comp S E A :=
  fun s => match m s with (r, s') => (r, (d r s').2) end.

Notation "x <-! m ;; k" := (bind m (fun x => k))
  (at level 100, m at next level, right associativity) : engine_scope.

Notation "' x <-! m ;; k" := (bind m (fun x => k))
  (at level 20, x pattern, m at level 99, k at level 200, only parsing) : engine_scope.

Section comp_lemmas.
Context {S E : Type}.

Lemma bind_Ok {A B} (m : comp S E A) (f : A -> comp S E B) s a s' :
  m s = (Ok a, s') -> bind m f s = f a s'.
Proof. intros H. unfold bind. by rewrite H. Qed.

Lemma bind_Err {A B} (m : comp S E A) (f : A -> comp S E B) s e s' :
  m s = (Err e, s') -> bind m f s = (Err e, s').
Proof. intros H. unfold bind. by rewrite H. Qed.

Lemma bind_Ok_inv {A B} (m : comp S E A) (f : A -> comp S E B) s b s'' :
  bind m f s = (Ok b, s'') ->
  exists a s', m s = (Ok a, s') /\ f a s' = (Ok b, s'').
Proof.
  unfold bind. destruct (m s) as [[a|e] s'] eqn:Hm; intros H; [|congruence].
  by exists a, s'.
Qed.

Lemma bind_assoc {A B C} (m : comp S E A) (f : A -> comp S E B) (g : B -> comp S E C) s :
  bind (bind m f) g s = bind m (fun a => bind (f a) g) s.
Proof. unfold bind. by destruct (m s) as [[a|e] s']. Qed.
End comp_lemmas.

(** [m] returns a value from [s], and the value and the state it reaches
    satisfy [Q]. *)
Definition runs {S E A} (m : comp S E A) (s : S) (Q : A -> S -> Prop) : Prop :=
  exists a s', m s = (Ok a, s') /\ Q a s'.

Section runs.
Context {S E : Type}.

Lemma runs_ret {A} (a : A) s (Q : A -> S -> Prop) : Q a s -> runs (E := E) (ret a) s Q.
Proof. intros HQ. by exists a, s. Qed.

Lemma runs_lift {A} (r : result E A) a s (Q : A -> S -> Prop) : r = Ok a -> Q a s -> runs (lift r) s Q.
Proof. intros -> HQ. by exists a, s. Qed.

Lemma runs_bind {A B} (m : comp S E A) (f : A -> comp S E B) s Q :
  runs m s (fun a s' => runs (f a) s' Q) -> runs (bind m f) s Q.
Proof. intros (a & s' & Hm & b & s'' & Hf & HQ). exists b, s''. by rewrite (bind_Ok _ _ _ _ _ Hm). Qed.

Lemma runs_try {A B} (m : comp S E A) (f : result E A -> comp S E B) s Q :
  runs m s (fun a s' => runs (f (Ok a)) s' Q) -> runs (try m f) s Q.
Proof. intros (a & s' & Hm & b & s'' & Hf & HQ). exists b, s''. unfold try. by rewrite Hm. Qed.

Lemma runs_deferring {A} (m : comp S E A) d s (Q : A -> S -> Prop) :
  runs m s (fun a s' => Q a (d (Ok a) s').2) -> runs (deferring m d) s Q.
Proof. intros (a & s' & Hm & HQ). exists a, (d (Ok a) s').2. unfold deferring. by rewrite Hm. Qed.

Lemma runs_mono {A} (m : comp S E A) s (Q Q' : A -> S -> Prop) :
  runs m s Q -> (forall a s', Q a s' -> Q' a s') -> runs m s Q'.
Proof. intros (a & s' & Hm & HQ) Himp. exists a, s'. auto. Qed.
End runs.

(** The outcome of [m] from [s], an error included, satisfies [Q] with the state
    it reaches. *)
Definition yields {S E A} (m : comp S E A) (s : S) (Q : result E A -> S -> Prop) : Prop :=
  Q (m s).1 (m s).2.

Section yields.
Context {S E : Type}.

Lemma yields_ret {A} (a : A) s (Q : result E A -> S -> Prop) : Q (Ok a) s -> yields (ret a) s Q.
Proof. done. Qed.

Lemma yields_throw {A} (e : E) s (Q : result E A -> S -> Prop) : Q (Err e) s -> yields (throw e) s Q.
Proof. done. Qed.

Lemma yields_lift {A} (r : result E A) s (Q : result E A -> S -> Prop) : Q r s -> yields (lift r) s Q.
Proof. done. Qed.

Lemma yields_runs {A} (m : comp S E A) s (Q : result E A -> S -> Prop) :
  runs m s (fun a s' => Q (Ok a) s') -> yields m s Q.
Proof. intros (a & s' & Hm & HQ). unfold yields. by rewrite Hm. Qed.

(** A step that succeeds, and what follows. *)
Lemma yields_bind {A B} (m : comp S E A) (f : A -> comp S E B) s (Q : result E B -> S -> Prop) :
  runs m s (fun a s' => yields (f a) s' Q) -> yields (bind m f) s Q.
Proof. intros (a & s' & Hm & HQ). unfold yields. by rewrite (bind_Ok _ _ _ _ _ Hm). Qed.

Lemma yields_deferring {A} (m : comp S E A) d s (Q : result E A -> S -> Prop) :
  yields m s (fun r s' => Q r (d r s').2) -> yields (deferring m d) s Q.
Proof. unfold yields, deferring. by destruct (m s). Qed.

Lemma yields_mono {A} (m : comp S E A) s (Q Q' : result E A -> S -> Prop) :
  yields m s Q -> (forall r s', Q r s' -> Q' r s') -> yields m s Q'.
Proof. unfold yields. auto. Qed.
End yields.

(** Whatever state [m] starts in and whatever its calls do, a value it returns
    satisfies [P]. *)
Definition ensures {S E A} (m : comp S E A) (P : A -> Prop) : Prop :=
  forall s, match (m s).1 with Ok a => P a | Err _ => True end.

Section ensures.
Context {S E : Type}.

Lemma ensures_ret {A} (a : A) (P : A -> Prop) : P a -> ensures (S := S) (E := E) (ret a) P.
Proof. by intros HP s. Qed.

Lemma ensures_throw {A} (e : E) (P : A -> Prop) : ensures (S := S) (throw e) P.
Proof. done. Qed.

Lemma ensures_lift {A} (r : result E A) (P : A -> Prop) :
  (forall a, r = Ok a -> P a) -> ensures (S := S) (lift r) P.
Proof. intros HP s. destruct r; simpl; auto. Qed.

Lemma ensures_bind_post {A B} (m : comp S E A) (f : A -> comp S E B) (Q : A -> Prop) (P : B -> Prop) :
  ensures m Q -> (forall a, Q a -> ensures (f a) P) -> ensures (bind m f) P.
Proof.
  intros Hm Hf s. specialize (Hm s). unfold bind. destruct (m s) as [[a|e] s']; [by apply Hf|done].
Qed.

Lemma ensures_bind {A B} (m : comp S E A) (f : A -> comp S E B) (P : B -> Prop) :
  (forall a, ensures (f a) P) -> ensures (bind m f) P.
Proof. intros Hf. apply (ensures_bind_post m f (fun _ => True)); [|auto]. intros s. by destruct (m s).1. Qed.

Lemma ensures_try {F A B} (m : comp S F A) (f : result F A -> comp S E B) (P : B -> Prop) :
  (forall r, ensures (f r) P) -> ensures (try m f) P.
Proof. intros Hf s. unfold try. destruct (m s) as [r s']. apply Hf. Qed.

Lemma ensures_deferring {A} (m : comp S E A) d (P : A -> Prop) :
  ensures m P -> ensures (deferring m d) P.
Proof. intros Hm s. specialize (Hm s). unfold deferring. by destruct (m s). Qed.
End ensures.

Lemma result_bind_Ok_inv {E A B} (r : result E A) (f : A -> result E B) b :
  result_bind r f = Ok b -> exists a, r = Ok a /\ f a = Ok b.
Proof. destruct r; simpl; [eauto|discriminate]. Qed.

(** ** Tactics *)

(** Turn a boolean test in the context into its proposition. *)
Ltac breflect :=
  repeat match goal with
  | H : _ && _ = true |- _ => apply andb_true_iff in H as [? ?]
  | H : _ || _ = false |- _ => apply orb_false_iff in H as [? ?]
  | H : negb _ = true |- _ => apply negb_true_iff in H
  | H : negb _ = false |- _ => apply negb_false_iff in H
  | H : bool_decide _ = true |- _ => apply bool_decide_eq_true in H
  | H : bool_decide _ = false |- _ => apply bool_decide_eq_false in H
  | H : (_ <=? _)%Z = true |- _ => apply Z.leb_le in H
  | H : (_ <? _)%Z = true |- _ => apply Z.ltb_lt in H
  | H : (_ =? _)%Z = true |- _ => apply Z.eqb_eq in H
  | H : (_ <=? _)%Z = false |- _ => apply Z.leb_gt in H
  | H : (_ <? _)%Z = false |- _ => apply Z.ltb_ge in H
  | H : (_ =? _)%Z = false |- _ => apply Z.eqb_neq in H
  | H : String.eqb _ _ = true |- _ => apply String.eqb_eq in H
  | H : String.eqb _ _ = false |- _ => apply String.eqb_neq in H
  end.

(** Invert the binds of a successful run. *)
Ltac run_inv :=
  repeat match goal with
  | H : bind _ _ _ = (Ok _, _) |- _ =>
      apply bind_Ok_inv in H as (? & ? & ? & H)
  | H : result_bind _ _ = Ok _ |- _ =>
      apply result_bind_Ok_inv in H as (? & ? & H)
  | H : ret _ _ = (_, _) |- _ => unfold ret in H; simplify_eq/=
  | H : throw _ _ = (_, _) |- _ => unfold throw in H; simplify_eq/=
  | H : lift _ _ = (_, _) |- _ => unfold lift in H; simplify_eq/=
  end.

(** ** Go maps: iteration order *)

(** Go leaves the order in which [range] visits a map unspecified. A loop over
    a map is a loop over [range_map ord m], for an arbitrary reordering [ord]
    of the map's bindings. *)
Class MapOrder {A : Type} (ord : list A -> list A) : Prop :=
  map_order_perm l : ord l ≡ₚ l.

Definition range_map `{Countable K} {V} (ord : list (K * V) -> list (K * V)) (m : gmap K V)
  : list (K * V) := ord (map_to_list m).

#[export] Instance id_map_order {A} : MapOrder (fun l : list A => l).
Proof. by intros l. Qed.

#[export] Instance rev_map_order {A} : MapOrder (@rev A).
Proof. intros l. symmetry. apply Permutation_rev. Qed.

Section range_map.
Context `{Countable K} {V : Type} (ord : list (K * V) -> list (K * V)) `{!MapOrder ord}.

Lemma range_map_perm (m : gmap K V) : range_map ord m ≡ₚ map_to_list m.
Proof. exact (map_order_perm (ord := ord) (map_to_list m)). Qed.

Lemma elem_of_range_map (m : gmap K V) k v : (k, v) ∈ range_map ord m <-> m !! k = Some v.
Proof. rewrite <- elem_of_map_to_list. by rewrite (range_map_perm m). Qed.

Lemma NoDup_range_map (m : gmap K V) : NoDup (range_map ord m).*1.
Proof. rewrite (range_map_perm m). apply NoDup_fst_map_to_list. Qed.

Lemma range_map_nil (m : gmap K V) : range_map ord m = [] <-> m = ∅.
Proof.
  rewrite <- map_to_list_empty_iff. pose proof (range_map_perm m) as Hp. split.
  - intros Hn. rewrite Hn in Hp. by apply Permutation_nil in Hp.
  - intros Hn. rewrite Hn in Hp. symmetry in Hp. by apply Permutation_nil in Hp.
Qed.
End range_map.

(** ** Generic list lemmas *)

Lemma existsb_elem {A} (f : A -> bool) l : existsb f l = true <-> exists x, x ∈ l /\ f x = true.
Proof.
  rewrite existsb_exists. split; intros (x & Hin & Hf); exists x; split; try done;
    by apply list_elem_of_In.
Qed.

Lemma forallb_elem {A} (f : A -> bool) l : forallb f l = true <-> forall x, x ∈ l -> f x = true.
Proof.
  rewrite forallb_forall. split; intros H x Hin; apply H; by apply list_elem_of_In.
Qed.

(** All the suffixes of a list, the list itself first and [] last. *)
Fixpoint tails {A} (l : list A) : list (list A) :=
  l :: match l with [] => [] | _ :: l' => tails l' end.

Lemma elem_of_tails {A} (l t : list A) : t ∈ tails l <-> exists pre, l = pre ++ t.
Proof.
  revert t. induction l as [|x l IH]; intros t; simpl.
  - rewrite list_elem_of_singleton. split.
    + intros ->. by exists [].
    + intros [pre Hp]. by destruct pre, t.
  - rewrite elem_of_cons, IH. split.
    + intros [->|[pre ->]]; [by exists []|by exists (x :: pre)].
    + intros [[|y pre] Hp]; simpl in Hp; simplify_eq; [by left|right; eauto].
Qed.
