(* ===== verification/GoErrors.v ===== *)
(** Go's [error] values, as far as the program tells them apart: sentinels,
    typed errors, [fmt.Errorf] and [errors.Join] trees, with [errors.Is] and
    the two uses of [errors.As]. *)

From S2P Require Import Prelude.

(** ** The error values *)

(** The status codes of connectrpc.com/connect the program uses or meets. *)
Inductive ConnectCode : Type :=
| CodeUnknown
| CodeInvalidArgument
| CodeDeadlineExceeded
| CodeNotFound
| CodeInternal
| CodeUnavailable
| CodeOther (n : N).

(** An [error] value. A package-level [errors.New] variable is a [Sentinel],
    compared by identity, that is by its name. An error made inside a function
    is [ErrorNew] when it wraps nothing and [Wrap] when its format string has
    [%w] verbs: the format string and the wrapped operands are kept, the
    rendered arguments are not. [ErrInvalidID] is the comparable struct of
    x/secrets, [ConnectError] a connect error with its code, [OpError] a
    [net.OpError] with its operation, [DBusError] a [dbus.Error] with its
    name, [ExitCode] the [ExitCodeError] of the pass plugin. *)
Inductive goerror : Type :=
| Sentinel (name : string)
| ErrorNew (msg : string)
| ErrInvalidID (ID : string)
| ConnectError (code : ConnectCode) (err : goerror)
| OpError (Op : string) (err : goerror)
| DBusError (Name : string)
| ExitCode (code : Z)
| Wrap (format : string) (errs : list goerror)
| Join (errs : list goerror).

#[export] Instance ConnectCode_eq_dec : EqDecision ConnectCode.
Proof. solve_decision. Defined.

(** ** errors.Is *)

(** The comparison [err == target] of two interface values: only comparable
    dynamic values can be equal, and an [errors.New] made inside a function is
    a new pointer each time. *)
Definition same_error (err target : goerror) : bool :=
  match err, target with
  | Sentinel a, Sentinel b => String.eqb a b
  | ErrInvalidID a, ErrInvalidID b => String.eqb a b
  | _, _ => false
  end.

(** [errors.Is(err, target)]: a pre-order walk of the tree [err] wraps. *)
Fixpoint errors_Is (err target : goerror) : bool :=
  same_error err target ||
  match err with
  | ConnectError _ e => errors_Is e target
  | OpError _ e => errors_Is e target
  | Wrap _ es => existsb (fun e => errors_Is e target) es
  | Join es => existsb (fun e => errors_Is e target) es
  | _ => false
  end.

(** [errors.As(err, &oe)] for [*net.OpError]: the operation of the first one
    of the walk. *)
Fixpoint errors_As_OpError (err : goerror) : option string :=
  let first := fix first (es : list goerror) : option string :=
    match es with
    | [] => None
    | e :: es' => match errors_As_OpError e with Some op => Some op | None => first es' end
    end in
  match err with
  | OpError op _ => Some op
  | ConnectError _ e => errors_As_OpError e
  | Wrap _ es => first es
  | Join es => first es
  | _ => None
  end.

(** [errors.As(err, &dbusErr)] for [dbus.Error]. *)
Fixpoint errors_As_DBusError (err : goerror) : option string :=
  let first := fix first (es : list goerror) : option string :=
    match es with
    | [] => None
    | e :: es' => match errors_As_DBusError e with Some n => Some n | None => first es' end
    end in
  match err with
  | DBusError n => Some n
  | ConnectError _ e => errors_As_DBusError e
  | OpError _ e => errors_As_DBusError e
  | Wrap _ es => first es
  | Join es => first es
  | _ => None
  end.

(** [connect.CodeOf(err)]: the code of the first connect error of the walk. *)
Fixpoint errors_As_Connect (err : goerror) : option ConnectCode :=
  let first := fix first (es : list goerror) : option ConnectCode :=
    match es with
    | [] => None
    | e :: es' => match errors_As_Connect e with Some c => Some c | None => first es' end
    end in
  match err with
  | ConnectError c _ => Some c
  | OpError _ e => errors_As_Connect e
  | Wrap _ es => first es
  | Join es => first es
  | _ => None
  end.

Definition connect_CodeOf (err : goerror) : ConnectCode :=
  match errors_As_Connect err with Some c => c | None => CodeUnknown end.

(** [errors.Join(errs...)] over possibly nil errors: nil when all are nil. *)
Definition errors_Join (errs : list (option goerror)) : option goerror :=
  match omap id errs with
  | [] => None
  | es => Some (Join es)
  end.

(** ** Lemmas *)

Lemma errors_Is_refl n : errors_Is (Sentinel n) (Sentinel n) = true.
Proof. simpl. by rewrite String.eqb_refl. Qed.

Lemma errors_Is_Wrap f es t : same_error (Wrap f es) t = false.
Proof. done. Qed.

Lemma errors_Is_Wrap_in f es e t :
  e ∈ es -> errors_Is e t = true -> errors_Is (Wrap f es) t = true.
Proof. intros Hin He. simpl. apply existsb_elem. eauto. Qed.

Lemma errors_Is_Join_in es e t :
  e ∈ es -> errors_Is e t = true -> errors_Is (Join es) t = true.
Proof. intros Hin He. simpl. apply existsb_elem. eauto. Qed.

(** [errors.Join] is nil exactly when every operand is. *)
Lemma errors_Join_None errs : errors_Join errs = None <-> Forall (fun e => e = None) errs.
Proof.
  unfold errors_Join. induction errs as [|[e|] errs IH]; simpl.
  - split; auto.
  - split; [discriminate|]. intros H. by inversion H.
  - rewrite IH. split; intros H; [by constructor|by inversion H].
Qed.

Lemma errors_Join_Is errs e t :
  Some e ∈ errs -> errors_Is e t = true ->
  exists j, errors_Join errs = Some j /\ errors_Is j t = true.
Proof.
  intros Hin He.
  assert (Hom : e ∈ omap id errs).
  { apply list_elem_of_omap. by exists (Some e). }
  unfold errors_Join. destruct (omap id errs) as [|e0 es] eqn:Hes.
  - by apply elem_of_nil in Hom.
  - exists (Join (e0 :: es)). split; [done|]. by eapply errors_Is_Join_in.
Qed.

Create HintDb engine.
#[export] Hint Resolve errors_Is_refl errors_Is_Wrap_in errors_Is_Join_in : engine.
