(* ===== verification/GoStrings.v ===== *)
(** The parts of Go's [strings], [unicode/utf8] and [sort] packages the program
    uses, on byte strings, with the lemmas the components share. *)

From Stdlib Require DecimalString DecimalN DecimalPos DecimalFacts Decimal.
From S2P Require Import Prelude.

(** ** Bytes and runes *)

Definition rune_of (a : ascii) : Z := Z.of_N (N_of_ascii a).

(** [utf8.RuneError]. *)
Definition RuneError : Z := 0xFFFD.

Definition continuation (lo hi : Z) (a : ascii) : bool :=
  ((lo <=? rune_of a) && (rune_of a <=? hi))%Z.

Definition low6 (a : ascii) : Z := Z.land (rune_of a) 0x3F.

(** The range of the second byte that [unicode/utf8] accepts after a lead byte
    of a three- or four-byte sequence. *)
Definition accept_range (b0 : Z) : Z * Z :=
  (if b0 =? 0xE0 then (0xA0, 0xBF)
   else if b0 =? 0xED then (0x80, 0x9F)
   else if b0 =? 0xF0 then (0x90, 0xBF)
   else if b0 =? 0xF4 then (0x80, 0x8F)
   else (0x80, 0xBF))%Z.

(** The runes [for _, r := range s] visits: a byte that does not start a valid
    sequence yields [RuneError] and advances by one. *)
Fixpoint runes (s : string) : list Z :=
  match s with
  | EmptyString => []
  | String a s1 =>
      let b0 := rune_of a in
      if (b0 <? 0x80)%Z then b0 :: runes s1
      else if (b0 <? 0xC2)%Z || (0xF4 <? b0)%Z then RuneError :: runes s1
      else
        match s1 with
        | EmptyString => RuneError :: runes s1
        | String a1 s2 =>
            if (b0 <? 0xE0)%Z then
              if continuation 0x80 0xBF a1
              then Z.lor (Z.shiftl (Z.land b0 0x1F) 6) (low6 a1) :: runes s2
              else RuneError :: runes s1
            else
              let '(lo, hi) := accept_range b0 in
              if negb (continuation lo hi a1) then RuneError :: runes s1
              else
                match s2 with
                | EmptyString => RuneError :: runes s1
                | String a2 s3 =>
                    if negb (continuation 0x80 0xBF a2) then RuneError :: runes s1
                    else if (b0 <? 0xF0)%Z then
                      Z.lor (Z.shiftl (Z.land b0 0x0F) 12)
                        (Z.lor (Z.shiftl (low6 a1) 6) (low6 a2)) :: runes s3
                    else
                      match s3 with
                      | EmptyString => RuneError :: runes s1
                      | String a3 s4 =>
                          if continuation 0x80 0xBF a3 then
                            Z.lor (Z.shiftl (Z.land b0 0x07) 18)
                              (Z.lor (Z.shiftl (low6 a1) 12)
                                 (Z.lor (Z.shiftl (low6 a2) 6) (low6 a3))) :: runes s4
                          else RuneError :: runes s1
                      end
                end
        end
  end.

(** ** Package strings *)

Definition HasPrefix (s pre : string) : bool := String.prefix pre s.

Fixpoint drop_bytes (n : nat) (s : string) : string :=
  match n, s with
  | O, _ => s
  | _, EmptyString => ""
  | S n', String _ s' => drop_bytes n' s'
  end.

(** [strings.CutPrefix]. *)
Definition CutPrefix (s pre : string) : string * bool :=
  if HasPrefix s pre then (drop_bytes (String.length pre) s, true) else (s, false).

Definition TrimPrefix (s pre : string) : string := (CutPrefix s pre).1.

Definition HasSuffix (s suf : string) : bool :=
  let n := String.length s in
  let m := String.length suf in
  (m <=? n)%nat && String.eqb (drop_bytes (n - m) s) suf.

Fixpoint take_bytes (n : nat) (s : string) : string :=
  match n, s with
  | O, _ => ""
  | _, EmptyString => ""
  | S n', String a s' => String a (take_bytes n' s')
  end.

Definition TrimSuffix (s suf : string) : string :=
  if HasSuffix s suf then take_bytes (String.length s - String.length suf) s else s.

(** [strings.Cut] around the first occurrence of a one-byte separator. *)
Fixpoint Cut (s : string) (sep : ascii) : string * string * bool :=
  match s with
  | EmptyString => ("", "", false)
  | String a s' =>
      if Ascii.eqb a sep then ("", s', true)
      else let '(b, r, found) := Cut s' sep in (String a b, r, found)
  end.

(** [strings.IndexByte], [None] for -1. *)
Fixpoint IndexByte (s : string) (c : ascii) : option nat :=
  match s with
  | EmptyString => None
  | String a s' => if Ascii.eqb a c then Some 0 else S <$> IndexByte s' c
  end.

(** [strings.Contains] for a one-byte needle. *)
Definition ContainsByte (s : string) (c : ascii) : bool :=
  match IndexByte s c with Some _ => true | None => false end.

(** [strings.Split] on a one-byte separator. *)
Fixpoint Split (s : string) (sep : ascii) : list string :=
  match s with
  | EmptyString => [""]
  | String a s' =>
      if Ascii.eqb a sep then "" :: Split s' sep
      else match Split s' sep with
           | h :: t => String a h :: t
           | [] => [String a ""]
           end
  end.

(** [strings.SplitN] on a one-byte separator, for [n > 0]: the last part keeps
    the separators that are left. *)
Fixpoint SplitN (s : string) (sep : ascii) (n : nat) : list string :=
  match n with
  | O => []
  | S O => [s]
  | S n' => let '(b, r, found) := Cut s sep in if found then b :: SplitN r sep n' else [b]
  end.

(** [strings.Join]. *)
Definition StringsJoin (l : list string) (sep : string) : string := String.concat sep l.

(** [strings.Trim] with a one-byte cutset. *)
Fixpoint TrimLeftByte (s : string) (c : ascii) : string :=
  match s with
  | EmptyString => ""
  | String a s' => if Ascii.eqb a c then TrimLeftByte s' c else s
  end.

Fixpoint TrimRightByte (s : string) (c : ascii) : string :=
  match s with
  | EmptyString => ""
  | String a s' =>
      match TrimRightByte s' c with
      | EmptyString => if Ascii.eqb a c then "" else String a ""
      | r => String a r
      end
  end.

Definition TrimByte (s : string) (c : ascii) : string := TrimRightByte (TrimLeftByte s c) c.

(** [strings.ReplaceAll] for a non-empty [old]: leftmost, non-overlapping.
    The fuel is the length of the string, every step consumes a byte of it. *)
Fixpoint ReplaceAll_fuel (fuel : nat) (s old new : string) : string :=
  match fuel with
  | O => s
  | S fuel' =>
      match s with
      | EmptyString => ""
      | String a s' =>
          if HasPrefix s old
          then String.append new
                 (ReplaceAll_fuel fuel' (drop_bytes (String.length old) s) old new)
          else String a (ReplaceAll_fuel fuel' s' old new)
      end
  end.

Definition ReplaceAll (s old new : string) : string :=
  ReplaceAll_fuel (String.length s) s old new.

(** The byte order of [strings.Compare] and [sort.Strings]. *)
Definition string_leb (a b : string) : bool := String.leb a b.

Fixpoint string_forallb (f : ascii -> bool) (s : string) : bool :=
  match s with
  | EmptyString => true
  | String a s' => f a && string_forallb f s'
  end.

(** [s] has no byte [c]. *)
Definition byte_free (c : ascii) (s : string) : bool :=
  string_forallb (fun a => negb (Ascii.eqb a c)) s.

(** ** Lemmas: append, prefixes and suffixes *)

#[global] Arguments String.append !s1 s2 /.

Lemma append_nil_r s : s +:+ "" = s.
Proof. induction s as [|a s IH]; simpl; [done|]. by rewrite IH. Qed.

Lemma append_assoc a b c : (a +:+ b) +:+ c = a +:+ (b +:+ c).
Proof. induction a as [|x a IH]; simpl; [done|]. by rewrite IH. Qed.

Lemma length_append a b : String.length (a +:+ b) = (String.length a + String.length b)%nat.
Proof. induction a as [|x a IH]; simpl; [done|]. by rewrite IH. Qed.

Lemma append_inj_l a b c : a +:+ b = a +:+ c -> b = c.
Proof. induction a as [|x a IH]; simpl; [done|]. intros H. injection H. apply IH. Qed.

Lemma append_inj_r a b c : a +:+ c = b +:+ c -> a = b.
Proof.
  revert b. induction a as [|x a IH]; intros [|y b] H; simpl in *; try done.
  - apply (f_equal String.length) in H. simpl in H. rewrite length_append in H. lia.
  - apply (f_equal String.length) in H. simpl in H. rewrite length_append in H. lia.
  - injection H as -> H. f_equal. by apply IH.
Qed.

Lemma HasPrefix_spec s pre : HasPrefix s pre = true <-> exists r, s = pre +:+ r.
Proof.
  unfold HasPrefix. revert s. induction pre as [|p pre IH]; intros s.
  - split; [by exists s|]. by destruct s.
  - destruct s as [|a s]; simpl.
    + split; [done|]. by intros [r Hr].
    + destruct (ascii_dec p a) as [->|Hne].
      * rewrite IH. split.
        -- intros [r ->]. by exists r.
        -- intros [r Hr]. injection Hr as ->. by exists r.
      * split; [done|]. intros [r Hr]. congruence.
Qed.

Lemma HasPrefix_append pre s : HasPrefix (pre +:+ s) pre = true.
Proof. apply HasPrefix_spec. eauto. Qed.

Lemma drop_bytes_append pre s : drop_bytes (String.length pre) (pre +:+ s) = s.
Proof. induction pre; simpl; [by destruct s|done]. Qed.

Lemma CutPrefix_append pre s : CutPrefix (pre +:+ s) pre = (s, true).
Proof. unfold CutPrefix. by rewrite HasPrefix_append, drop_bytes_append. Qed.

Lemma CutPrefix_true s pre r : CutPrefix s pre = (r, true) <-> s = pre +:+ r.
Proof.
  split.
  - unfold CutPrefix. destruct (HasPrefix s pre) eqn:Hp; [|congruence].
    apply HasPrefix_spec in Hp as [r' ->]. rewrite drop_bytes_append. congruence.
  - intros ->. apply CutPrefix_append.
Qed.

Lemma CutPrefix_false s pre r : CutPrefix s pre = (r, false) <-> HasPrefix s pre = false /\ r = s.
Proof.
  unfold CutPrefix. destruct (HasPrefix s pre); split.
  - congruence.
  - by intros [? _].
  - intros Hc. split; congruence.
  - by intros [_ ->].
Qed.

Lemma TrimPrefix_append pre s : TrimPrefix (pre +:+ s) pre = s.
Proof. unfold TrimPrefix. by rewrite CutPrefix_append. Qed.

Lemma TrimPrefix_none s pre : HasPrefix s pre = false -> TrimPrefix s pre = s.
Proof. unfold TrimPrefix, CutPrefix. by intros ->. Qed.

Lemma take_bytes_append a b : take_bytes (String.length a) (a +:+ b) = a.
Proof. induction a as [|x a IH]; simpl; [by destruct b|]. by rewrite IH. Qed.

Lemma HasSuffix_append a suf : HasSuffix (a +:+ suf) suf = true.
Proof.
  unfold HasSuffix. rewrite length_append.
  replace (String.length a + String.length suf - String.length suf)%nat
    with (String.length a) by lia.
  rewrite drop_bytes_append, String.eqb_refl, andb_true_r. apply Nat.leb_le. lia.
Qed.

Lemma TrimSuffix_append a suf : TrimSuffix (a +:+ suf) suf = a.
Proof.
  unfold TrimSuffix. rewrite HasSuffix_append, length_append.
  replace (String.length a + String.length suf - String.length suf)%nat
    with (String.length a) by lia.
  apply take_bytes_append.
Qed.

(** ** Lemmas: runes *)

Lemma rune_of_range a : (0 <= rune_of a < 256)%Z.
Proof.
  unfold rune_of. pose proof (N_ascii_bounded a). lia.
Qed.

Lemma rune_of_inj a b : rune_of a = rune_of b -> a = b.
Proof.
  unfold rune_of. intros H. apply N2Z.inj in H.
  rewrite <- (ascii_N_embedding a), <- (ascii_N_embedding b). by rewrite H.
Qed.

(** An ASCII byte is a rune of its own. *)
Lemma runes_ascii a s : (rune_of a < 128)%Z -> runes (String a s) = rune_of a :: runes s.
Proof.
  intros H. simpl. by replace (rune_of a <? 128)%Z with true by (symmetry; by apply Z.ltb_lt).
Qed.

Lemma lor_ge_l a b : (0 <= b)%Z -> (a <= Z.lor a b)%Z.
Proof.
  intros Hb.
  assert (Hd : Z.land a (Z.land b (Z.lnot a)) = 0%Z).
  { apply Z.bits_inj'. intros n Hn. rewrite !Z.land_spec, Z.lnot_spec, Z.bits_0 by done.
    by destruct (Z.testbit a n), (Z.testbit b n). }
  assert (H : Z.lor a b = (a + Z.land b (Z.lnot a))%Z).
  { rewrite Z.add_nocarry_lxor, Z.lxor_lor by done.
    apply Z.bits_inj'. intros n Hn. rewrite !Z.lor_spec, Z.land_spec, Z.lnot_spec by done.
    by destruct (Z.testbit a n), (Z.testbit b n). }
  rewrite H. assert (0 <= Z.land b (Z.lnot a))%Z by (apply Z.land_nonneg; by left). lia.
Qed.

Lemma lor_ge_r a b : (0 <= a)%Z -> (b <= Z.lor a b)%Z.
Proof. intros Ha. rewrite Z.lor_comm. by apply lor_ge_l. Qed.

Lemma low6_nonneg a : (0 <= low6 a)%Z.
Proof. apply Z.land_nonneg. by right. Qed.

Lemma low6_ge lo hi a : continuation lo hi a = true -> (128 <= lo)%Z -> (hi <= 191)%Z ->
  (lo - 128 <= low6 a)%Z.
Proof.
  unfold continuation, low6. intros Hc Hlo Hhi. breflect.
  rewrite (Z.land_ones _ 6) by done.
  replace (rune_of a) with ((rune_of a - 128) + 2 * 2 ^ 6)%Z by lia.
  rewrite Z.mod_add by done. rewrite Z.mod_small by lia. lia.
Qed.

Lemma shiftl_lor_ge x n y k : (0 <= n)%Z -> (0 <= y)%Z -> (k <= x)%Z ->
  (k * 2 ^ n <= Z.lor (Z.shiftl x n) y)%Z.
Proof.
  intros Hn Hy Hx. etransitivity; [|by apply lor_ge_l].
  rewrite Z.shiftl_mul_pow2 by done. nia.
Qed.

(** The lead byte of a multi-byte sequence, less its length marker. *)
Lemma lead_bits a w base : (0 <= w)%Z -> (base <= rune_of a < base + 2 ^ w)%Z ->
  (base mod 2 ^ w = 0)%Z -> Z.land (rune_of a) (Z.ones w) = (rune_of a - base)%Z.
Proof.
  intros Hw Hr Hb. rewrite Z.land_ones by done.
  pose proof (Z.div_mod base (2 ^ w)) as Hd.
  assert (0 < 2 ^ w)%Z by (apply Z.pow_pos_nonneg; lia).
  replace (rune_of a) with ((rune_of a - base) + (base / 2 ^ w) * 2 ^ w)%Z at 1 by lia.
  rewrite Z.mod_add by lia. apply Z.mod_small. lia.
Qed.

(** The bound a decoded three- or four-byte sequence satisfies: [x] is the
    lead's payload, [y] the second byte's, either of which is not zero. *)
Lemma decoded_ge n x y z : (6 <= n)%Z -> (0 <= x)%Z -> (0 <= y)%Z -> (0 <= z)%Z ->
  (1 <= x \/ 16 <= y)%Z ->
  (128 <= Z.lor (Z.shiftl x (n + 6)) (Z.lor (Z.shiftl y n) z))%Z.
Proof.
  intros Hn Hx Hy Hz Hxy.
  assert (Hp : (2 ^ 6 <= 2 ^ n)%Z) by (apply Z.pow_le_mono_r; lia).
  assert (Hyz : (0 <= Z.lor (Z.shiftl y n) z)%Z).
  { apply Z.lor_nonneg. split; [by apply Z.shiftl_nonneg|done]. }
  destruct Hxy as [Hxy|Hxy].
  - etransitivity; [|apply shiftl_lor_ge; [lia|done|exact Hxy]].
    rewrite Z.pow_add_r by lia. nia.
  - etransitivity; [|apply lor_ge_r; by apply Z.shiftl_nonneg].
    etransitivity; [|apply shiftl_lor_ge; [lia|done|exact Hxy]]. nia.
Qed.

(** A byte outside ASCII starts a rune outside ASCII. *)
Lemma runes_non_ascii a s : (128 <= rune_of a)%Z ->
  exists r rs, runes (String a s) = r :: rs /\ (128 <= r)%Z.
Proof.
  intros Ha. pose proof (rune_of_range a) as Hr.
  assert (Herr : exists r rs, RuneError :: runes s = r :: rs /\ (128 <= r)%Z).
  { exists RuneError, (runes s). by split. }
  cbn [runes].
  replace (rune_of a <? 128)%Z with false by (symmetry; by apply Z.ltb_ge).
  destruct ((rune_of a <? 194) || (244 <? rune_of a))%Z eqn:Hb; [done|]. breflect.
  destruct s as [|a1 s2]; [done|].
  destruct (rune_of a <? 224)%Z eqn:H2; breflect.
  - destruct (continuation _ _ a1); [|done]. eexists _, _; split; [done|].
    etransitivity; [|apply (shiftl_lor_ge _ 6 _ 2); [done|apply low6_nonneg|]]; [done|].
    change 31%Z with (Z.ones 5). rewrite (lead_bits a 5 192) by (done || lia). lia.
  - destruct (accept_range (rune_of a)) as [lo hi] eqn:Hacc.
    assert (Hlo : (128 <= lo /\ hi <= 191 /\
      (rune_of a = 224 -> 160 <= lo) /\ (rune_of a = 240 -> 144 <= lo))%Z).
    { unfold accept_range in Hacc. repeat case_match; breflect; simplify_eq; lia. }
    destruct (continuation lo hi a1) eqn:Hc1; [cbn [negb]|done].
    apply low6_ge in Hc1; [|lia..].
    destruct s2 as [|a2 s3]; [done|].
    destruct (continuation _ _ a2); [cbn [negb]|done].
    destruct (rune_of a <? 240)%Z eqn:H3; breflect.
    + eexists _, _; split; [done|]. change 15%Z with (Z.ones 4).
      rewrite (lead_bits a 4 224) by (done || lia).
      apply (decoded_ge 6); try apply low6_nonneg; lia.
    + destruct s3 as [|a3 s4]; [done|]. destruct (continuation _ _ a3); [|done].
      eexists _, _; split; [done|]. change 7%Z with (Z.ones 3).
      rewrite (lead_bits a 3 240) by (done || lia).
      apply (decoded_ge 12); try apply low6_nonneg; try lia.
      apply Z.lor_nonneg. split; [apply Z.shiftl_nonneg|]; apply low6_nonneg.
Qed.

(** ** Lemmas: Split and Join *)

Lemma Split_cons_sep s c : Split (String c s) c = "" :: Split s c.
Proof. simpl. by rewrite Ascii.eqb_refl. Qed.

Lemma Split_not_nil s c : Split s c <> [].
Proof. destruct s as [|a s]; simpl; [done|]. by repeat case_match. Qed.

Lemma Split_cons s c : exists h t, Split s c = h :: t.
Proof. destruct (Split s c) as [|h t] eqn:H; [by apply Split_not_nil in H|eauto]. Qed.

Lemma byte_free_cons c a s :
  byte_free c (String a s) = negb (Ascii.eqb a c) && byte_free c s.
Proof. done. Qed.

Lemma Split_byte_free s c : byte_free c s = true -> Split s c = [s].
Proof.
  induction s as [|a s IH]; [done|]. rewrite byte_free_cons. simpl. intros H. breflect.
  rewrite H. by rewrite IH.
Qed.

Lemma Split_append a b c : byte_free c a = true ->
  Split (a +:+ String c b) c = a :: Split b c.
Proof.
  induction a as [|x a IH]; intros H.
  - simpl. by rewrite Ascii.eqb_refl.
  - rewrite byte_free_cons in H. simpl. breflect. rewrite H. by rewrite IH.
Qed.

Lemma StringsJoin_cons x y l sep :
  StringsJoin (x :: y :: l) sep = x +:+ (sep +:+ StringsJoin (y :: l) sep).
Proof. done. Qed.

Lemma Split_Join l c : l <> [] -> Forall (fun x => byte_free c x = true) l ->
  Split (StringsJoin l (String c "")) c = l.
Proof.
  intros Hl HF. induction HF as [|x l Hx HF IH]; [done|].
  destruct l as [|y l]; [by apply Split_byte_free|].
  rewrite StringsJoin_cons. simpl. rewrite Split_append by done.
  f_equal. by apply IH.
Qed.

Lemma Join_Split s c : StringsJoin (Split s c) (String c "") = s.
Proof.
  induction s as [|a s IH]; simpl; [done|].
  destruct (Split_cons s c) as (h & t & Hs). rewrite Hs in *.
  destruct (Ascii.eqb_spec a c) as [->|Hne].
  - rewrite StringsJoin_cons, IH. done.
  - destruct t as [|y t].
    + unfold StringsJoin in *. simpl in *. by f_equal.
    + rewrite StringsJoin_cons in *. simpl in *. by f_equal.
Qed.

Lemma Split_elem_free s c x : x ∈ Split s c -> byte_free c x = true.
Proof.
  revert x. induction s as [|a s IH]; simpl; intros x Hx.
  - by apply list_elem_of_singleton in Hx as ->.
  - destruct (Split_cons s c) as (h & t & Hs). rewrite Hs in *.
    destruct (Ascii.eqb_spec a c) as [->|Hne].
    + apply elem_of_cons in Hx as [->|Hx]; [done|]. by apply IH.
    + apply elem_of_cons in Hx as [->|Hx]; [|apply IH; by right].
      rewrite byte_free_cons. apply andb_true_iff. split; [|apply IH; by left].
      apply negb_true_iff. by apply Ascii.eqb_neq.
Qed.

Lemma Split_elem_forallb f s c x :
  string_forallb (fun a => Ascii.eqb a c || f a) s = true -> x ∈ Split s c ->
  string_forallb f x = true.
Proof.
  revert x. induction s as [|a s IH]; simpl; intros x Hs Hx.
  - by apply list_elem_of_singleton in Hx as ->.
  - apply andb_true_iff in Hs as [Ha Hs].
    destruct (Split_cons s c) as (h & t & Hsp). rewrite Hsp in *.
    destruct (Ascii.eqb_spec a c) as [->|Hne].
    + apply elem_of_cons in Hx as [->|Hx]; [done|]. by apply IH.
    + apply elem_of_cons in Hx as [->|Hx]; [|apply IH; [done|by right]].
      simpl in *. rewrite Ha. apply IH; [done|by left].
Qed.

Lemma string_forallb_Split f s c : f c = true ->
  Forall (fun x => string_forallb f x = true) (Split s c) -> string_forallb f s = true.
Proof.
  intros Hc. induction s as [|a s IH]; simpl; [done|].
  destruct (Ascii.eqb_spec a c) as [->|Hne]; intros HF.
  - rewrite Hc. inversion HF; subst. by apply IH.
  - destruct (Split_cons s c) as (h & t & Hs). rewrite Hs in HF, IH.
    inversion HF as [|? ? Hh Ht]; subst. simpl in Hh. apply andb_true_iff in Hh as [-> Hh].
    apply IH. by constructor.
Qed.

Lemma string_forallb_append f a b :
  string_forallb f (a +:+ b) = string_forallb f a && string_forallb f b.
Proof. induction a as [|x a IH]; simpl; [done|]. by rewrite IH, andb_assoc. Qed.

Lemma string_forallb_impl (f g : ascii -> bool) s :
  (forall a, f a = true -> g a = true) -> string_forallb f s = true -> string_forallb g s = true.
Proof.
  intros Hfg. induction s as [|a s IH]; simpl; [done|].
  rewrite !andb_true_iff. intros [Ha Hs]. auto.
Qed.

(** [strings.Trim] leaves a string alone that neither starts nor ends with the
    trimmed byte: here one whose first and last components are not empty. *)
Lemma TrimRightByte_Split s c :
  List.last (Split s c) "" <> "" -> TrimRightByte s c = s.
Proof.
  induction s as [|a s IH]; simpl; [done|]. intros H.
  destruct (Split_cons s c) as (h & t & Hs). rewrite Hs in *.
  destruct s as [|b s].
  - simpl in *. simplify_eq. simpl in *. by destruct (Ascii.eqb a c).
  - rewrite IH; [done|].
    destruct (Ascii.eqb a c); simpl in H; [done|].
    destruct t; simpl in *; [|done].
    intros ->. assert (Hs' : Split (String b s) c = [""]) by exact Hs.
    pose proof (Join_Split (String b s) c) as HJ. by rewrite Hs' in HJ.
Qed.

Lemma TrimByte_Split s c :
  List.hd "" (Split s c) <> "" -> List.last (Split s c) "" <> "" -> TrimByte s c = s.
Proof.
  intros Hh Hl. unfold TrimByte.
  replace (TrimLeftByte s c) with s; [by apply TrimRightByte_Split|].
  destruct s as [|a s]; simpl in *; [done|].
  by destruct (Ascii.eqb_spec a c) as [->|].
Qed.

Lemma TrimByte_Forall s c :
  Forall (fun x => x <> "") (Split s c) -> TrimByte s c = s.
Proof.
  intros HF. destruct (Split_cons s c) as (h & t & Hs). apply TrimByte_Split; rewrite Hs in *.
  - by inversion HF.
  - clear Hs. revert h HF. induction t as [|y t IH]; intros h HF; inversion HF; subst; [done|].
    simpl in *. by apply IH.
Qed.

(** ** Package strconv: decimal integers *)


(** ** Decimal integers *)

Import DecimalString DecimalN DecimalPos DecimalFacts Decimal.

(** [strconv.Itoa] and the verb [%d]. *)
Definition Itoa (z : Z) : string :=
  match z with
  | Z0 => "0"
  | Zpos p => NilZero.string_of_uint (Pos.to_uint p)
  | Zneg p => String "-" (NilZero.string_of_uint (Pos.to_uint p))
  end.

Definition int_min : Z := (- 2 ^ 63)%Z.
Definition int_max : Z := (2 ^ 63 - 1)%Z.

(** [strconv.Atoi]: an optional sign and at least one digit, within the range
    of a 64-bit [int]. *)
Definition Atoi (s : string) : result string Z :=
  let '(neg, body) :=
    match s with
    | String "-" r => (true, r)
    | String "+" r => (false, r)
    | _ => (false, s)
    end in
  match NilZero.uint_of_string body with
  | None => Err "invalid syntax"
  | Some u =>
      let n := Z.of_N (N.of_uint u) in
      let v := if neg : bool then (- n)%Z else n in
      if ((int_min <=? v) && (v <=? int_max))%Z then Ok v else Err "value out of range"
  end.

Lemma uint_of_string_head d : d <> Nil ->
  forall a r, NilZero.string_of_uint d = String a r -> a <> "-"%char /\ a <> "+"%char.
Proof.
  destruct d; intros Hd a r; simpl; try done; intros Heq; injection Heq as <- <-;
    split; discriminate.
Qed.

Lemma Pos_to_uint_not_nil p : Pos.to_uint p <> Nil.
Proof. apply DecimalPos.Unsigned.to_uint_nonnil. Qed.

Lemma Atoi_Itoa_nonneg z : (0 <= z <= int_max)%Z -> Atoi (Itoa z) = Ok z.
Proof.
  intros Hz. destruct z as [|p|p]; [done| |lia].
  unfold Atoi, Itoa. pose proof (Pos_to_uint_not_nil p) as Hn.
  pose proof (uint_of_string_head _ Hn) as Hhead.
  destruct (NilZero.string_of_uint (Pos.to_uint p)) as [|a r] eqn:Hs.
  { by destruct (Pos.to_uint p). }
  destruct (Hhead a r eq_refl) as [Hm Hp].
  assert (Hbody : NilZero.uint_of_string (String a r) = Some (Pos.to_uint p)).
  { rewrite <- Hs. by apply NilZero.usu. }
  assert (Hof : N.of_uint (Pos.to_uint p) = Npos p) by apply DecimalPos.Unsigned.of_to.
  assert (Hcase : (match String a r with
    | String "-" r0 => (true, r0) | String "+" r0 => (false, r0)
    | _ => (false, String a r) end) = (false, String a r)).
  { destruct a as [[] [] [] [] [] [] [] []]; try done. }
  rewrite Hcase, Hbody, Hof. change (Z.of_N (Npos p)) with (Zpos p). cbv zeta.
  assert (Hrange : ((int_min <=? Z.pos p) && (Z.pos p <=? int_max))%Z = true).
  { apply andb_true_iff. split; apply Z.leb_le; unfold int_min; lia. }
  by rewrite Hrange.
Qed.

Lemma Itoa_inj_nonneg a b : (0 <= a <= int_max)%Z -> (0 <= b <= int_max)%Z ->
  Itoa a = Itoa b -> a = b.
Proof.
  intros Ha Hb He. apply Atoi_Itoa_nonneg in Ha, Hb. rewrite He in Ha. congruence.
Qed.

(** The decimal form of a number that is not negative: digits only, and no
    leading zero but in "0" itself. *)
Definition is_digit (a : ascii) : bool := ((48 <=? rune_of a) && (rune_of a <=? 57))%Z.

Lemma string_of_uint_digits d : string_forallb is_digit (NilEmpty.string_of_uint d) = true.
Proof. induction d; simpl; auto. Qed.

Lemma Pos_to_uint_head p u : Pos.to_uint p <> D0 u.
Proof.
  intros Hp. pose proof (DecimalPos.Unsigned.to_of (Pos.to_uint p)) as Ho.
  rewrite DecimalPos.Unsigned.of_to in Ho. change (Pos.to_uint p = unorm (Pos.to_uint p)) in Ho.
  rewrite Hp in Ho. unfold unorm in Ho.
  pose proof (nzhead_nonzero (D0 u)) as Hz. destruct (nzhead (D0 u)) eqn:Hn; try discriminate Ho.
  - apply (DecimalPos.Unsigned.to_uint_nonzero p). congruence.
  - by apply (Hz u0).
Qed.

Lemma Itoa_head z : (0 <= z)%Z ->
  exists c r, Itoa z = String c r /\ string_forallb is_digit (String c r) = true /\
    (Ascii.eqb c "0" = true -> r = "").
Proof.
  intros Hz. destruct z as [|p|p]; [by eexists _, _| |lia].
  unfold Itoa. pose proof (string_of_uint_digits (Pos.to_uint p)) as Hd.
  pose proof (Pos_to_uint_head p) as Hh. pose proof (Pos_to_uint_not_nil p) as Hn.
  destruct (Pos.to_uint p) as [|u|u|u|u|u|u|u|u|u|u]; [done|by destruct (Hh u)|..];
    (eexists _, _; split; [reflexivity|split; [exact Hd|intros [=]]]).
Qed.

Lemma Itoa_digits z : (0 <= z)%Z -> string_forallb is_digit (Itoa z) = true.
Proof. intros Hz. by destruct (Itoa_head z Hz) as (c & r & -> & Hd & _). Qed.

Lemma digits_byte_free c s : is_digit c = false -> string_forallb is_digit s = true ->
  byte_free c s = true.
Proof.
  intros Hc. apply string_forallb_impl. intros a Ha. destruct (Ascii.eqb_spec a c) as [->|]; [congruence|done].
Qed.

(** ** Lemmas: cutting *)

Lemma Cut_append t sep r : byte_free sep t = true -> Cut (t +:+ String sep r) sep = (t, r, true).
Proof.
  induction t as [|a t IH]; simpl.
  - by rewrite Ascii.eqb_refl.
  - rewrite byte_free_cons. intros [Ha%negb_true_iff Hf]%andb_true_iff. by rewrite Ha, IH.
Qed.

Lemma IndexByte_None t c : byte_free c t = true -> IndexByte t c = None.
Proof.
  induction t as [|a t IH]; simpl; [done|].
  rewrite byte_free_cons. intros [Ha%negb_true_iff Hf]%andb_true_iff. by rewrite Ha, IH.
Qed.

Lemma IndexByte_append t c r : byte_free c t = true ->
  IndexByte (t +:+ String c r) c = Some (String.length t).
Proof.
  induction t as [|a t IH]; simpl; [by rewrite Ascii.eqb_refl|].
  rewrite byte_free_cons. intros [Ha%negb_true_iff Hf]%andb_true_iff. by rewrite Ha, IH.
Qed.

(** ** Lemmas: substrings *)

(** [s] contains [sub]. *)
Definition occurs (sub s : string) : Prop := exists a b, s = a +:+ sub +:+ b.

(** [strings.Contains]. *)
Fixpoint Contains (s sub : string) : bool :=
  HasPrefix s sub || match s with EmptyString => false | String _ s' => Contains s' sub end.

Lemma Contains_spec s sub : Contains s sub = true <-> occurs sub s.
Proof.
  induction s as [|c s IH]; cbn [Contains]; rewrite orb_true_iff, HasPrefix_spec.
  - split; [intros [[r Hr]|?]; [by exists "", r|done]|]. intros (a & b & Hs). left. exists b. by destruct a.
  - rewrite IH. split.
    + intros [[r Hr]|(a & b & ->)]; [by exists "", r|by exists (String c a), b].
    + intros ([|d a] & b & Hs); [left; by exists b|right]. exists a, b. by injection Hs.
Qed.

Lemma occurs_cons sub c s : occurs sub s -> occurs sub (String c s).
Proof. intros (a & b & ->). by exists (String c a), b. Qed.

Lemma ReplaceAll_absent s old new : ~ occurs old s -> ReplaceAll s old new = s.
Proof.
  unfold ReplaceAll. generalize (String.length s) as fuel. intros fuel. revert s.
  induction fuel as [|fuel IH]; intros [|c s] Ho; cbn [ReplaceAll_fuel]; [done..|].
  destruct (HasPrefix (String c s) old) eqn:Hp.
  - destruct Ho. apply HasPrefix_spec in Hp as [r Hr]. by exists "", r.
  - f_equal. apply IH. intros Hs. by apply Ho, occurs_cons.
Qed.

(** Cutting a prefix that does not occur again. *)
Lemma ReplaceAll_prefix old s new : old <> "" -> ~ occurs old s ->
  ReplaceAll (old +:+ s) old new = new +:+ s.
Proof.
  intros Hold Ho. unfold ReplaceAll. rewrite length_append.
  destruct old as [|c old]; [done|]. cbn [String.length Nat.add String.append ReplaceAll_fuel].
  change (String c (old +:+ s)) with (String c old +:+ s). rewrite HasPrefix_append. f_equal.
  change (Datatypes.S (String.length old)) with (String.length (String c old)). rewrite drop_bytes_append.
  generalize (String.length old + String.length s)%nat as fuel. intros fuel. revert s Ho.
  induction fuel as [|fuel IH]; intros [|a s] Ho; cbn [ReplaceAll_fuel]; [done..|].
  destruct (HasPrefix (String a s) (String c old)) eqn:Hp.
  - destruct Ho. apply HasPrefix_spec in Hp as [r Hr]. by exists "", r.
  - f_equal. apply IH. intros Hs. by apply Ho, occurs_cons.
Qed.

(** The last separator of a string is found from its end. *)
Lemma last_separator x y a b c : byte_free c a = true -> byte_free c b = true ->
  x +:+ String c a = y +:+ String c b -> x = y /\ a = b.
Proof.
  intros Ha Hb. revert y. induction x as [|d x IH]; intros [|e y] He; cbn in He.
  - by injection He as ->.
  - injection He as <- He. subst a. exfalso. clear -Ha. induction y as [|e y IHy]; cbn [String.append] in Ha.
    + by rewrite byte_free_cons, Ascii.eqb_refl in Ha.
    + rewrite byte_free_cons in Ha. apply andb_true_iff in Ha as [_ Ha]. by apply IHy.
  - injection He as -> He. subst b. exfalso. clear -Hb. induction x as [|e x IHx]; cbn [String.append] in Hb.
    + by rewrite byte_free_cons, Ascii.eqb_refl in Hb.
    + rewrite byte_free_cons in Hb. apply andb_true_iff in Hb as [_ Hb]. by apply IHx.
  - injection He as -> He. by destruct (IH y He) as [-> ->].
Qed.

Lemma Itoa_byte_free c z : is_digit c = false -> c <> "-"%char -> byte_free c (Itoa z) = true.
Proof.
  intros Hc Hm. destruct z as [|p|p].
  - apply digits_byte_free; [done|]. by apply Itoa_digits.
  - apply digits_byte_free; [done|]. by apply Itoa_digits.
  - change (Itoa (Zneg p)) with (String "-" (Itoa (Zpos p))). rewrite byte_free_cons.
    apply andb_true_iff. split; [by apply negb_true_iff, Ascii.eqb_neq, not_eq_sym|].
    apply digits_byte_free; [done|]. by apply Itoa_digits.
Qed.

(** ** Case folding *)

(** [strings.EqualFold]: equal rune by rune, up to the case of ASCII letters
    and, outside ASCII, up to the Unicode simple-folding table [fold]. *)
Definition ascii_lower (r : Z) : Z :=
  if ((65 <=? r) && (r <=? 90))%Z then (r + 32)%Z else r.

Definition rune_fold_eq (fold : Z -> Z -> bool) (a b : Z) : bool :=
  (a =? b)%Z ||
  (if ((a <? 128) && (b <? 128))%Z then (ascii_lower a =? ascii_lower b)%Z else fold a b).

Fixpoint runes_fold_eq (fold : Z -> Z -> bool) (s t : list Z) : bool :=
  match s, t with
  | [], [] => true
  | a :: s', b :: t' => rune_fold_eq fold a b && runes_fold_eq fold s' t'
  | _, _ => false
  end.

Definition EqualFold (fold : Z -> Z -> bool) (s t : string) : bool :=
  runes_fold_eq fold (runes s) (runes t).

Lemma EqualFold_refl fold s : EqualFold fold s s = true.
Proof.
  unfold EqualFold. induction (runes s) as [|a l IH]; simpl; [done|].
  unfold rune_fold_eq. by rewrite Z.eqb_refl.
Qed.

(** ** White space *)

(** The UTF-8 forms of the code points [unicode.IsSpace] accepts. *)
Definition space_runes : list string :=
  map (fun l => string_of_list_ascii (map ascii_of_nat l))
  [[9]; [10]; [11]; [12]; [13]; [32]; [194; 133]; [194; 160]; [225; 154; 128];
   [226; 128; 128]; [226; 128; 129]; [226; 128; 130]; [226; 128; 131]; [226; 128; 132];
   [226; 128; 133]; [226; 128; 134]; [226; 128; 135]; [226; 128; 136]; [226; 128; 137];
   [226; 128; 138]; [226; 128; 168]; [226; 128; 169]; [226; 128; 175]; [226; 129; 159];
   [227; 128; 128]]%nat.

Definition string_rev (s : string) : string := string_of_list_ascii (List.rev (list_ascii_of_string s)).

(** Cut the leading spaces, each one of [spaces]; every round cuts a byte. *)
Fixpoint trim_left_fuel (fuel : nat) (spaces : list string) (s : string) : string :=
  match fuel with
  | O => s
  | S fuel' =>
      match List.find (fun sp => HasPrefix s sp) spaces with
      | Some sp => trim_left_fuel fuel' spaces (drop_bytes (String.length sp) s)
      | None => s
      end
  end.

(** [strings.TrimSpace] and [bytes.TrimSpace]. *)
Definition TrimSpace (s : string) : string :=
  let s := trim_left_fuel (String.length s) space_runes s in
  string_rev (trim_left_fuel (String.length s) (map string_rev space_runes) (string_rev s)).
