(* ===== verification/Secrets.v ===== *)
(** Package x/secrets: identifiers (identifiers.go), patterns (pattern.go) and
    the envelope (secrets.go). A secret identifier and a pattern are strings of
    components separated by '/'; this file models their validation, the
    component matcher, and the operations built on it. *)

From S2P Require Import Prelude GoErrors GoStrings.

(** ** secrets.go *)

Definition ErrNotFound : goerror := Sentinel "secret not found".
Definition ErrAccessDenied : goerror := Sentinel "access denied".

(** [time.Time] as nanoseconds since the Unix epoch. The zero Time, January 1
    of year 1, is 62135596800 s earlier. *)
Definition time := Z.
Definition time_zero : time := (-62135596800 * 1000000000)%Z.
Definition time_IsZero (t : time) : bool := Z.eqb t time_zero.

Record Envelope : Type := {
  env_ID : ID;
  env_Value : bytes;
  env_Metadata : gmap string string;
  env_Provider : string;
  env_Version : string;
  env_CreatedAt : time;
  env_ResolvedAt : time;
  env_ExpiresAt : time
}.

(** ** identifiers.go *)

Definition in_range (lo hi : ascii) (c : Z) : bool :=
  ((rune_of lo <=? c) && (c <=? rune_of hi))%Z.

Definition isValidRune (c : Z) : bool :=
  in_range "A" "Z" c || in_range "a" "z" c || in_range "0" "9" c ||
  (c =? rune_of ".")%Z || (c =? rune_of "-")%Z || (c =? rune_of "_")%Z || (c =? rune_of ":")%Z.

(** The loop of [validIdentifier]: [None] when it returns false early. *)
Fixpoint validIdentifier_loop (rs : list Z) (componentLen : Z) : option Z :=
  match rs with
  | [] => Some componentLen
  | r :: rs' =>
      if (r =? rune_of "/")%Z then
        if (componentLen =? 0)%Z then None else validIdentifier_loop rs' 0
      else if isValidRune r then validIdentifier_loop rs' (componentLen + 1)
      else None
  end.

Definition validIdentifier (s : string) : bool :=
  if (String.length s =? 0)%nat then false
  else match validIdentifier_loop (runes s) 0 with
       | None => false
       | Some componentLen => (0 <? componentLen)%Z
       end.

Definition split (s : string) : list string :=
  let s := TrimByte s "/" in
  if String.eqb s "" then [] else Split s "/".

Fixpoint skip_globs (pattern : list string) : list string :=
  match pattern with
  | [] => []
  | p :: ps => if String.eqb p "**" then skip_globs ps else pattern
  end.

(** What [match] does once one of the two lists is exhausted. *)
Definition match_end (pattern path : list string) : bool :=
  match skip_globs pattern, path with
  | [], [] => true
  | _, _ => false
  end.

Fixpoint match_ (pattern path : list string) : bool :=
  match pattern, path with
  | p :: ps, s :: ss =>
      if String.eqb p "**" then
        match ps with
        | [] => true
        | _ => existsb (fun rest => match_ ps rest) (tails path)
        end
      else if String.eqb p "*" then match_ ps ss
      else if negb (String.eqb p s) && negb (String.eqb s "*") then false
      else match_ ps ss
  | _, _ => match_end pattern path
  end.

(** [valid], [nil] being [None]. *)
Definition valid (i : string) : option goerror :=
  if negb (validIdentifier i) then Some (ErrInvalidID i) else None.

Definition id_Match (i : ID) (pattern : Pattern) : bool :=
  let pathParts := split i in
  let patternParts := split pattern in
  match_ patternParts pathParts.

Definition ParseID (s : string) : result goerror ID :=
  match valid s with
  | Some err => Err err
  | None => Ok s
  end.

Definition MustParseID (s : string) : outcome goerror ID :=
  match valid s with
  | Some err => Panics err
  | None => Returns s
  end.

(** ** pattern.go *)

Definition ErrInvalidPattern : goerror := Sentinel "invalid pattern".

Definition isValidComponentMatcher (componentLen wildcardLen : Z) : bool :=
  if (2 <? wildcardLen)%Z then false
  else if (0 <? wildcardLen)%Z && negb (wildcardLen =? componentLen)%Z then false
  else (0 <? componentLen)%Z.

Definition isValidPatternRune (c : Z) : bool := isValidRune c || (c =? rune_of "*")%Z.

Fixpoint validPattern_loop (rs : list Z) (componentLen wildcardLen : Z) : bool :=
  match rs with
  | [] => isValidComponentMatcher componentLen wildcardLen
  | r :: rs' =>
      if (r =? rune_of "/")%Z then
        if negb (isValidComponentMatcher componentLen wildcardLen) then false
        else validPattern_loop rs' 0 0
      else if isValidPatternRune r then
        validPattern_loop rs' (componentLen + 1)
          (if (r =? rune_of "*")%Z then wildcardLen + 1 else wildcardLen)%Z
      else false
  end.

Definition validPattern (s : string) : bool :=
  if (String.length s =? 0)%nat then false else validPattern_loop (runes s) 0 0.

Definition pattern_Match (p : Pattern) (i : ID) : bool :=
  let pathParts := split i in
  let patternParts := split p in
  match_ patternParts pathParts.

Definition Includes (p other : Pattern) : bool :=
  let otherParts := split other in
  let patternParts := split p in
  match_ patternParts otherParts.

Definition ParsePattern (s : string) : result goerror Pattern :=
  if negb (validPattern s) then Err ErrInvalidPattern else Ok s.

Definition MustParsePattern (s : string) : outcome goerror Pattern :=
  if negb (validPattern s) then Panics ErrInvalidPattern else Returns s.

(** The indexes of the "**" components. *)
Fixpoint glob_candidates (idx : nat) (components : list string) : list nat :=
  match components with
  | [] => []
  | v :: vs =>
      if String.eqb v "**" then idx :: glob_candidates (S idx) vs
      else glob_candidates (S idx) vs
  end.

Definition replace1 (original other : string) : result goerror string :=
  let components := split original in
  match glob_candidates 0 components with
  | [i] => Ok (StringsJoin (<[i := other]> components) "/")
  | _ => Err (ErrorNew "expand only supports one expansion glob, pattern %s has %d")
  end.

Definition ExpandID (p : Pattern) (other : ID) : result goerror ID :=
  val <-? replace1 p other ;; Ok val.

Definition ExpandPattern (p other : Pattern) : result goerror Pattern :=
  val <-? replace1 p other ;; Ok val.

(** [Filter], [false] being [None]. *)
Definition Filter (filter other : Pattern) : option Pattern :=
  if Includes filter other then Some other
  else if Includes other filter then Some filter
  else None.

(** ** Lemmas: the grammar of identifiers *)

(** A byte that may occur in a component of an identifier. *)
Definition id_byte (a : ascii) : bool := isValidRune (rune_of a).

Definition id_component (c : string) : Prop := c <> "" /\ string_forallb id_byte c = true.

Lemma in_range_above lo hi r : (128 <= r)%Z -> (rune_of hi < 128)%Z -> in_range lo hi r = false.
Proof. intros Hr Hhi. unfold in_range. apply andb_false_iff. right. apply Z.leb_gt. lia. Qed.

Lemma eqb_above c r : (128 <= r)%Z -> (rune_of c < 128)%Z -> (r =? rune_of c)%Z = false.
Proof. intros Hr Hc. apply Z.eqb_neq. lia. Qed.

Lemma isValidRune_ascii r : (128 <= r)%Z -> isValidRune r = false.
Proof.
  intros H. unfold isValidRune. by rewrite !in_range_above, !eqb_above by done.
Qed.

Lemma isValidRune_not_slash a : id_byte a = true -> Ascii.eqb a "/" = false.
Proof. unfold id_byte. intros H. by destruct (Ascii.eqb_spec a "/") as [->|]. Qed.

Lemma isValidRune_not_star a : id_byte a = true -> Ascii.eqb a "*" = false.
Proof. unfold id_byte. intros H. by destruct (Ascii.eqb_spec a "*") as [->|]. Qed.

Lemma rune_slash a : (rune_of a =? rune_of "/")%Z = Ascii.eqb a "/".
Proof.
  destruct (Ascii.eqb_spec a "/") as [->|H]; [done|].
  apply Z.eqb_neq. intros Heq. by apply rune_of_inj in Heq.
Qed.

Lemma rune_star a : (rune_of a =? rune_of "*")%Z = Ascii.eqb a "*".
Proof.
  destruct (Ascii.eqb_spec a "*") as [->|H]; [done|].
  apply Z.eqb_neq. intros Heq. by apply rune_of_inj in Heq.
Qed.

(** A loop over runes sees each byte as itself, or fails at it. *)
Lemma runes_step a s :
  (exists r rs, runes (String a s) = r :: rs /\ (128 <= r)%Z /\ (128 <= rune_of a)%Z) \/
  (runes (String a s) = rune_of a :: runes s /\ (rune_of a < 128)%Z).
Proof.
  destruct (Z_lt_le_dec (rune_of a) 128) as [H|H].
  - right. split; [by apply runes_ascii|done].
  - left. destruct (runes_non_ascii a s H) as (r & rs & Hr & Hge). eauto.
Qed.

Lemma id_loop_spec s n : (0 <= n)%Z ->
  match validIdentifier_loop (runes s) n with Some m => (0 < m)%Z | None => False end <->
  exists h t, Split s "/" = h :: t /\ string_forallb id_byte h = true /\
    (0 < n + Z.of_nat (String.length h))%Z /\ Forall id_component t.
Proof.
  revert n. induction s as [|a s IH]; intros n Hn.
  - simpl. split.
    + intros H. exists "", []. simpl. repeat split; auto; lia.
    + intros (h & t & Heq & _ & Hlen & _). injection Heq as <- <-. simpl in Hlen. lia.
  - destruct (Split_cons s "/") as (h0 & t0 & Hs).
    destruct (runes_step a s) as [(r & rs & Hr & Hge & Ha)|[Hr Ha]]; rewrite Hr; simpl;
      rewrite Hs.
    + assert (Hsl : Ascii.eqb a "/" = false).
      { destruct (Ascii.eqb_spec a "/") as [->|]; [by vm_compute in Ha|done]. }
      rewrite Hsl. replace (r =? rune_of "/")%Z with false
        by (symmetry; apply Z.eqb_neq; vm_compute (rune_of "/"); lia).
      rewrite isValidRune_ascii by done. split; [done|].
      intros (h & t & Heq & Hall & _). injection Heq as <- <-. simpl in Hall.
      apply andb_true_iff in Hall as [Hb _]. unfold id_byte in Hb.
      by rewrite isValidRune_ascii in Hb.
    + rewrite rune_slash. destruct (Ascii.eqb_spec a "/") as [->|Hne].
      * destruct (Z.eqb_spec n 0) as [->|Hn0].
        -- split; [done|]. intros (h & t & Heq & _ & Hlen & _). injection Heq as <- <-.
           simpl in Hlen. lia.
        -- rewrite IH by done. rewrite Hs. split.
           ++ intros (h & t & Heq & Hall & Hlen & HF). injection Heq as -> ->.
              exists "", (h :: t). repeat split; try done; [simpl; lia|].
              constructor; [|done]. split; [intros ->; simpl in Hlen; lia|done].
           ++ intros (h & t & Heq & Hall & Hlen & HF). injection Heq as <- <-.
              inversion HF as [|? ? [Hne Hc] HF']; subst. exists h0, t0.
              repeat split; try done. destruct h0; [done|simpl; lia].
      * fold (id_byte a). destruct (id_byte a) eqn:Hb.
        -- rewrite IH by lia. rewrite Hs. split.
           ++ intros (h & t & Heq & Hall & Hlen & HF). injection Heq as -> ->.
              exists (String a h), t. simpl. rewrite Hb. repeat split; try done. lia.
           ++ intros (h & t & Heq & Hall & Hlen & HF). injection Heq as <- <-.
              simpl in *. rewrite Hb in Hall. exists h0, t0. repeat split; try done. lia.
        -- split; [done|]. intros (h & t & Heq & Hall & _). injection Heq as <- <-.
           simpl in Hall. by rewrite Hb in Hall.
Qed.

Lemma validIdentifier_components s :
  validIdentifier s = true <-> Forall id_component (Split s "/").
Proof.
  unfold validIdentifier. pose proof (id_loop_spec s 0 ltac:(done)) as Hspec.
  destruct (Split_cons s "/") as (h & t & Hs). rewrite Hs in *.
  assert (Heq : (if (String.length s =? 0)%nat then false
    else match validIdentifier_loop (runes s) 0 with
         | Some m => (0 <? m)%Z | None => false end) = true <->
    match validIdentifier_loop (runes s) 0 with Some m => (0 < m)%Z | None => False end).
  { destruct s as [|a s]; [simpl; split; [done|lia]|].
    cbn [String.length Nat.eqb].
    destruct (validIdentifier_loop _ _); [apply Z.ltb_lt|done]. }
  rewrite Heq, Hspec. split.
  - intros (h' & t' & Heq' & Hall & Hlen & HF). injection Heq' as <- <-.
    constructor; [|done]. split; [intros ->; simpl in Hlen; lia|done].
  - intros HF. inversion HF as [|? ? [Hne Hc] HF']; subst. exists h, t.
    repeat split; try done. destruct h; [done|simpl; lia].
Qed.

Lemma ParseID_valid s id : ParseID s = Ok id -> validIdentifier id = true.
Proof. unfold ParseID, valid. destruct (validIdentifier s) eqn:Hs; simpl; congruence. Qed.

(** ** Lemmas: the grammar of patterns *)

(** A component of a pattern: a wildcard or an identifier component. *)
Definition pattern_component (c : string) : Prop := c = "*" \/ c = "**" \/ id_component c.

Definition pat_byte (a : ascii) : bool := isValidPatternRune (rune_of a).

Fixpoint count_byte (c : ascii) (s : string) : nat :=
  match s with
  | EmptyString => 0
  | String a s' => (if Ascii.eqb a c then 1 else 0) + count_byte c s'
  end.

Lemma count_byte_le c s : (count_byte c s <= String.length s)%nat.
Proof. induction s as [|a s IH]; simpl; [lia|]. destruct (Ascii.eqb a c); lia. Qed.

(** What the counters of [validPattern]'s loop say of a component. *)
Definition counted_component (h : string) (n w : Z) : Prop :=
  string_forallb pat_byte h = true /\
  isValidComponentMatcher (n + Z.of_nat (String.length h)) (w + Z.of_nat (count_byte "*" h)) = true.

Lemma isValidPatternRune_ascii r : (128 <= r)%Z -> isValidPatternRune r = false.
Proof.
  intros H. unfold isValidPatternRune. by rewrite isValidRune_ascii, eqb_above by done.
Qed.

Lemma pat_byte_split a : pat_byte a = id_byte a || Ascii.eqb a "*".
Proof. unfold pat_byte, isValidPatternRune. by rewrite rune_star. Qed.

Lemma pat_loop_spec s n w :
  validPattern_loop (runes s) n w = true <->
  exists h t, Split s "/" = h :: t /\ counted_component h n w /\
    Forall (fun c => counted_component c 0 0) t.
Proof.
  revert n w. induction s as [|a s IH]; intros n w.
  - simpl. split.
    + intros H. exists "", []. unfold counted_component. simpl. rewrite !Z.add_0_r. auto.
    + intros (h & t & Heq & [_ Hc] & _). injection Heq as <- <-. simpl in Hc.
      by rewrite !Z.add_0_r in Hc.
  - destruct (Split_cons s "/") as (h0 & t0 & Hs).
    destruct (runes_step a s) as [(r & rs & Hr & Hge & Ha)|[Hr Ha]]; rewrite Hr; simpl;
      rewrite Hs.
    + assert (Hsl : Ascii.eqb a "/" = false).
      { destruct (Ascii.eqb_spec a "/") as [->|]; [by vm_compute in Ha|done]. }
      rewrite Hsl, eqb_above, isValidPatternRune_ascii by done. split; [done|].
      intros (h & t & Heq & [Hall _] & _). injection Heq as <- <-. simpl in Hall.
      apply andb_true_iff in Hall as [Hb _]. unfold pat_byte in Hb.
      by rewrite isValidPatternRune_ascii in Hb.
    + rewrite rune_slash. destruct (Ascii.eqb_spec a "/") as [->|Hne].
      * destruct (isValidComponentMatcher n w) eqn:Hv; simpl.
        -- rewrite IH, Hs. split.
           ++ intros (h & t & Heq & Hc & HF). injection Heq as -> ->.
              exists "", (h :: t). unfold counted_component at 1. simpl.
              rewrite !Z.add_0_r. auto.
           ++ intros (h & t & Heq & Hc & HF). injection Heq as <- <-.
              inversion HF; subst. eauto 10.
        -- split; [done|]. intros (h & t & Heq & [_ Hc] & _). injection Heq as <- <-.
           simpl in Hc. rewrite !Z.add_0_r in Hc. congruence.
      * fold (pat_byte a). destruct (pat_byte a) eqn:Hb.
        -- rewrite IH, Hs. rewrite rune_star.
           assert (Hcc : forall h, counted_component h (n + 1)
              (if Ascii.eqb a "*" then w + 1 else w) <-> counted_component (String a h) n w).
           { intros h. unfold counted_component. simpl. rewrite Hb. simpl.
             replace (n + 1 + Z.of_nat (String.length h))%Z
               with (n + Z.of_nat (S (String.length h)))%Z by lia.
             replace ((if Ascii.eqb a "*" then w + 1 else w) + Z.of_nat (count_byte "*" h))%Z
               with (w + Z.of_nat ((if Ascii.eqb a "*" then 1 else 0) + count_byte "*" h))%Z
               by (destruct (Ascii.eqb a "*"); lia).
             done. }
           split.
           ++ intros (h & t & Heq & Hc & HF). injection Heq as -> ->.
              exists (String a h), t. rewrite <- Hcc. auto.
           ++ intros (h & t & Heq & Hc & HF). injection Heq as <- <-. exists h0, t0.
              rewrite Hcc. auto.
        -- split; [done|]. intros (h & t & Heq & [Hall _] & _). injection Heq as <- <-.
           simpl in Hall. by rewrite Hb in Hall.
Qed.

Lemma count_all_stars s : count_byte "*" s = String.length s ->
  s = "" \/ s = "*" \/ s = "**" \/ (2 < String.length s)%nat.
Proof.
  destruct s as [|a1 [|a2 [|a3 s]]]; simpl; intros H; [by left|..].
  - destruct (Ascii.eqb a1 "*") eqn:E1; [|lia]. apply Ascii.eqb_eq in E1 as ->. auto.
  - destruct (Ascii.eqb a1 "*") eqn:E1; [|destruct (Ascii.eqb a2 "*"); lia].
    destruct (Ascii.eqb a2 "*") eqn:E2; [|lia].
    apply Ascii.eqb_eq in E1 as ->. apply Ascii.eqb_eq in E2 as ->. auto.
  - right; right; right; lia.
Qed.

Lemma count_no_star s : string_forallb pat_byte s = true -> count_byte "*" s = 0 ->
  string_forallb id_byte s = true.
Proof.
  induction s as [|a s IH]; simpl; [done|]. rewrite pat_byte_split.
  intros Hall Hc. apply andb_true_iff in Hall as [Ha Hs].
  destruct (Ascii.eqb a "*"); [lia|]. rewrite orb_false_r in Ha. rewrite Ha. by apply IH.
Qed.

Lemma id_byte_count s : string_forallb id_byte s = true ->
  string_forallb pat_byte s = true /\ count_byte "*" s = 0.
Proof.
  induction s as [|a s IH]; simpl; [done|]. intros H. apply andb_true_iff in H as [Ha Hs].
  rewrite pat_byte_split, Ha. apply IH in Hs as [-> ->].
  by rewrite isValidRune_not_star.
Qed.

Lemma counted_component_spec c : counted_component c 0 0 <-> pattern_component c.
Proof.
  unfold counted_component, pattern_component, isValidComponentMatcher, id_component.
  rewrite !Z.add_0_l. pose proof (count_byte_le "*" c) as Hle. split.
  - intros [Hall Hv]. repeat case_match; breflect; try done.
    + destruct (decide (count_byte "*" c = 0)) as [Hz|Hz].
      * right; right. split; [intros ->; simpl in *; lia|by apply count_no_star].
      * assert (Hcc : count_byte "*" c = String.length c).
        { match goal with H : (_ && negb _) = false |- _ =>
            apply andb_false_iff in H as [H|H]; breflect; lia end. }
        destruct (count_all_stars _ Hcc) as [->|[->|[->|Hbig]]]; auto; simpl in *; lia.
  - intros [->|[->|[Hne Hall]]]; [by vm_compute..|].
    apply id_byte_count in Hall as [Hp Hc]. split; [done|]. rewrite Hc. simpl.
    apply Z.ltb_lt. destruct c; [done|simpl; lia].
Qed.

Lemma validPattern_components s :
  validPattern s = true <-> Forall pattern_component (Split s "/").
Proof.
  unfold validPattern. pose proof (pat_loop_spec s 0 0) as Hspec.
  destruct (Split_cons s "/") as (h & t & Hs). rewrite Hs in *.
  assert (Heq : (if (String.length s =? 0)%nat then false
    else validPattern_loop (runes s) 0 0) = true <-> validPattern_loop (runes s) 0 0 = true).
  { by destruct s. }
  rewrite Heq, Hspec.
  rewrite <- (Forall_iff _ _ _ counted_component_spec). split.
  - intros (h' & t' & Heq' & Hc & HF). injection Heq' as <- <-. by constructor.
  - intros HF. inversion HF; subst. eauto.
Qed.

(** ** Lemmas: components *)

Lemma split_nonempty s : Forall (fun c => c <> "") (Split s "/") -> split s = Split s "/".
Proof.
  intros HF. unfold split. rewrite TrimByte_Forall by done.
  destruct (String.eqb_spec s "") as [->|]; [by inversion HF|done].
Qed.

Lemma split_id s : validIdentifier s = true -> split s = Split s "/".
Proof.
  rewrite validIdentifier_components. intros HF. apply split_nonempty.
  eapply Forall_impl; [|exact HF]. by intros c [? _].
Qed.

Lemma pattern_component_not_nil c : pattern_component c -> c <> "".
Proof. by intros [->|[->|[? _]]]. Qed.

Lemma split_pattern s : validPattern s = true -> split s = Split s "/".
Proof.
  rewrite validPattern_components. intros HF. apply split_nonempty.
  eapply Forall_impl; [|exact HF]. apply pattern_component_not_nil.
Qed.

Lemma id_component_not_star c : id_component c -> c <> "*" /\ c <> "**".
Proof. intros [_ H]. by split; intros ->. Qed.

Lemma id_component_free c : id_component c -> byte_free "/" c = true.
Proof.
  intros [_ H]. unfold byte_free. eapply string_forallb_impl; [|exact H].
  intros a Ha. apply isValidRune_not_slash in Ha. by rewrite Ha.
Qed.

Lemma pattern_component_free c : pattern_component c -> byte_free "/" c = true.
Proof. intros [->|[->|H]]; [done..|by apply id_component_free]. Qed.

Lemma Forall_pattern_component_free l : Forall pattern_component l ->
  Forall (fun c => byte_free "/" c = true) l.
Proof. intros HF. eapply Forall_impl; [|exact HF]. apply pattern_component_free. Qed.

(** A valid identifier is a valid pattern. *)
(** Identifiers and patterns are plain ASCII. *)
Definition ascii_byte (a : ascii) : bool := (rune_of a <? 128)%Z.

Lemma id_byte_ascii a : id_byte a = true -> ascii_byte a = true.
Proof.
  intros Ha. unfold ascii_byte. apply Z.ltb_lt. destruct (decide (rune_of a < 128)%Z); [done|].
  unfold id_byte in Ha. rewrite isValidRune_ascii in Ha by lia. done.
Qed.

Lemma validPattern_ascii s : validPattern s = true -> string_forallb ascii_byte s = true.
Proof.
  rewrite validPattern_components. intros HF. apply (string_forallb_Split _ _ "/"); [done|].
  eapply Forall_impl; [|exact HF]. intros c [->|[->|[_ Hc]]]; [done..|].
  eapply string_forallb_impl; [|exact Hc]. apply id_byte_ascii.
Qed.

Lemma valid_id_pattern s : validIdentifier s = true -> validPattern s = true.
Proof.
  rewrite validIdentifier_components, validPattern_components. intros HF.
  eapply Forall_impl; [|exact HF]. intros c Hc. by right; right.
Qed.

Lemma validIdentifier_Join l : l <> [] -> Forall id_component l ->
  validIdentifier (StringsJoin l "/") = true.
Proof.
  intros Hl HF. apply validIdentifier_components. rewrite Split_Join; [done..|].
  eapply Forall_impl; [|exact HF]. apply id_component_free.
Qed.

Lemma validPattern_Join l : l <> [] -> Forall pattern_component l ->
  validPattern (StringsJoin l "/") = true.
Proof.
  intros Hl HF. apply validPattern_components. rewrite Split_Join; [done..|].
  eapply Forall_impl; [|exact HF]. apply pattern_component_free.
Qed.

(** ** Lemmas: the matcher *)

(** What the doc comment of [ID.Match] promises of a list of components:
    "*" matches a single component, "**" zero or more. The last rule is the
    matcher's: a component "*" on the path side, which only patterns have,
    is matched by anything. *)
Inductive Matches : list string -> list string -> Prop :=
| Matches_nil : Matches [] []
| Matches_glob_skip ps ss : Matches ps ss -> Matches ("**" :: ps) ss
| Matches_glob_take ps s ss : Matches ("**" :: ps) ss -> Matches ("**" :: ps) (s :: ss)
| Matches_star ps s ss : Matches ps ss -> Matches ("*" :: ps) (s :: ss)
| Matches_literal p ps ss : p <> "**" -> Matches ps ss -> Matches (p :: ps) (p :: ss)
| Matches_path_star p ps ss : p <> "**" -> Matches ps ss -> Matches (p :: ps) ("*" :: ss).

#[export] Hint Constructors Matches : engine.

Lemma Matches_glob_app ps pre ss : Matches ps ss -> Matches ("**" :: ps) (pre ++ ss).
Proof. intros H. induction pre; simpl; auto with engine. Qed.

Lemma Matches_glob_all ss : Matches ["**"] ss.
Proof. rewrite <- (app_nil_r ss). apply Matches_glob_app. auto with engine. Qed.

Lemma Matches_glob_inv ps ss :
  Matches ("**" :: ps) ss -> exists pre rest, ss = pre ++ rest /\ Matches ps rest.
Proof.
  intros H. remember ("**" :: ps) as q eqn:Hq. revert ps Hq.
  induction H as [|ps' ss H _|ps' s ss H IH|ps' s ss H _|p ps' ss Hp H _|p ps' ss Hp H _];
    intros ps Hq; simplify_eq.
  - by exists [], ss.
  - destruct (IH _ eq_refl) as (pre & rest & -> & Hr). by exists (s :: pre), rest.
Qed.

Lemma skip_globs_nil ps : skip_globs ps = [] <-> Matches ps [].
Proof.
  induction ps as [|p ps IH]; simpl.
  - split; auto with engine.
  - destruct (String.eqb_spec p "**") as [->|Hne].
    + rewrite IH. split; [auto with engine|]. intros H.
      apply Matches_glob_inv in H as ([|? ?] & rest & Hr & H); [|done].
      simpl in Hr. by subst.
    + split; [done|]. intros H. inversion H; subst; done.
Qed.

Lemma match_end_spec ps ss : (ps = [] \/ ss = []) ->
  match_end ps ss = true <-> Matches ps ss.
Proof.
  intros Hor. unfold match_end. destruct ss as [|s ss].
  - rewrite <- skip_globs_nil. by destruct (skip_globs ps).
  - destruct Hor as [->|]; [|done]. simpl. split; [done|]. intros H. inversion H.
Qed.

Lemma Matches_cons_inv p ps s ss : p <> "**" -> Matches (p :: ps) (s :: ss) <->
  (p = "*" \/ p = s \/ s = "*") /\ Matches ps ss.
Proof.
  intros Hp. split.
  - intros H. inversion H; subst; auto; done.
  - intros [[->|[->| ->]] H]; auto with engine.
Qed.

Lemma match_spec pattern path : match_ pattern path = true <-> Matches pattern path.
Proof.
  revert path. induction pattern as [|p ps IH]; intros path.
  { destruct path; apply match_end_spec; auto. }
  destruct path as [|s ss]; [apply match_end_spec; auto|].
  cbn [match_]. destruct (String.eqb_spec p "**") as [->|Hp].
  - assert (Hex : existsb (fun rest => match_ ps rest) (tails (s :: ss)) = true <->
      Matches ("**" :: ps) (s :: ss)).
    { rewrite existsb_elem. split.
      - intros (rest & Hin & Hm). apply elem_of_tails in Hin as [pre ->].
        apply Matches_glob_app. by apply IH.
      - intros H. apply Matches_glob_inv in H as (pre & rest & -> & Hm).
        exists rest. rewrite elem_of_tails, IH. eauto. }
    destruct ps as [|q qs]; [|exact Hex]. split; [|done]. intros _. apply Matches_glob_all.
  - rewrite Matches_cons_inv by done. rewrite <- IH.
    destruct (String.eqb_spec p "*") as [->|]; [naive_solver|].
    destruct (String.eqb_spec p s) as [->|], (String.eqb_spec s "*") as [->|]; simpl; naive_solver.
Qed.

(** ** The specification of matching *)

(** The components one pattern component selects. *)
Definition selects_segment (p : string) (seg : list string) : Prop :=
  if decide (p = "**") then True
  else if decide (p = "*") then length seg = 1
  else seg = [p].

(** [path] splits into one segment per pattern component. *)
Definition selects (pattern path : list string) : Prop :=
  exists segs, Forall2 selects_segment pattern segs /\ path = concat segs.

Lemma Matches_selects ps ss : Forall (fun s => s <> "*") ss ->
  Matches ps ss <-> selects ps ss.
Proof.
  intros HF. split.
  - intros H. induction H as [|ps ss H IH|ps s ss H IH|ps s ss H IH|p ps ss Hp H IH|p ps ss Hp H IH].
    + exists []. split; [constructor|done].
    + destruct (IH HF) as (segs & Hsegs & ->). exists ([] :: segs). split; [|done].
      constructor; [done|done].
    + inversion HF; subst. destruct (IH ltac:(done)) as (segs & Hsegs & ->).
      inversion Hsegs; subst. eexists ((s :: _) :: _). split; [|done]. by constructor.
    + inversion HF; subst. destruct (IH ltac:(done)) as (segs & Hsegs & ->).
      exists ([s] :: segs). split; [|done]. by constructor.
    + inversion HF; subst. destruct (IH ltac:(done)) as (segs & Hsegs & ->).
      exists ([p] :: segs). split; [|done]. constructor; [|done].
      unfold selects_segment. by rewrite !decide_False.
    + inversion HF; subst. done.
  - intros (segs & Hsegs & ->). clear HF. induction Hsegs as [|p seg ps segs Hp Hsegs IH]; simpl.
    + constructor.
    + unfold selects_segment in Hp. destruct (decide (p = "**")) as [->|Hne].
      * by apply Matches_glob_app.
      * destruct (decide (p = "*")) as [->|Hne'].
        -- destruct seg as [|s [|? ?]]; try done. simpl. by constructor.
        -- subst seg. simpl. by constructor.
Qed.

Lemma id_path_star_free i : validIdentifier i = true -> Forall (fun s => s <> "*") (Split i "/").
Proof.
  rewrite validIdentifier_components. intros HF. eapply Forall_impl; [|exact HF].
  intros c Hc. by apply id_component_not_star.
Qed.

Lemma id_Match_spec i p : validIdentifier i = true -> validPattern p = true ->
  id_Match i p = true <-> selects (Split p "/") (Split i "/").
Proof.
  intros Hi Hp. unfold id_Match. rewrite (split_id i), (split_pattern p) by done.
  rewrite match_spec. by apply Matches_selects, id_path_star_free.
Qed.

Lemma Includes_Matches p q : validPattern p = true -> validPattern q = true ->
  Includes p q = true <-> Matches (Split p "/") (Split q "/").
Proof.
  intros Hp Hq. unfold Includes. rewrite !split_pattern by done. apply match_spec.
Qed.

Lemma id_Match_Matches i p : validIdentifier i = true -> validPattern p = true ->
  id_Match i p = true <-> Matches (Split p "/") (Split i "/").
Proof.
  intros Hi Hp. unfold id_Match. rewrite (split_id i), (split_pattern p) by done. apply match_spec.
Qed.

(** ** Lemmas: replacing the expansion glob *)

Lemma glob_candidates_spec n l i : glob_candidates n l = [i] ->
  exists pre post, l = pre ++ "**" :: post /\ i = (n + length pre)%nat /\
    Forall (fun c => c <> "**") pre /\ Forall (fun c => c <> "**") post.
Proof.
  assert (Hnil : forall l n, glob_candidates n l = [] -> Forall (fun c => c <> "**") l).
  { clear. induction l as [|c l IH]; intros n H; [done|]. simpl in H.
    destruct (String.eqb_spec c "**"); [done|]. constructor; eauto. }
  revert n. induction l as [|c l IH]; intros n H; [done|]. simpl in H.
  destruct (String.eqb_spec c "**") as [->|Hne].
  - injection H as <- H. exists [], l. simpl. repeat split; eauto; lia.
  - destruct (IH _ H) as (pre & post & -> & -> & Hpre & Hpost).
    exists (c :: pre), post. simpl. repeat split; auto; lia.
Qed.

Lemma glob_candidates_app pre post n : Forall (fun c => c <> "**") pre ->
  Forall (fun c => c <> "**") post ->
  glob_candidates n (pre ++ "**" :: post) = [(n + length pre)%nat].
Proof.
  intros Hpre Hpost. revert n. induction Hpre as [|c pre Hc Hpre IH]; intros n; simpl.
  - rewrite Nat.add_0_r. f_equal. generalize (S n).
    induction Hpost as [|c post Hc Hpost IH]; intros m; simpl; [done|].
    destruct (String.eqb_spec c "**"); done.
  - destruct (String.eqb_spec c "**"); [done|]. rewrite IH. f_equal. lia.
Qed.

(** [replace1] succeeds exactly on one glob, and puts [other] in its place. *)
Lemma replace1_Ok original other r : replace1 original other = Ok r <->
  exists pre post, split original = pre ++ "**" :: post /\
    Forall (fun c => c <> "**") pre /\ Forall (fun c => c <> "**") post /\
    r = StringsJoin (pre ++ other :: post) "/".
Proof.
  unfold replace1. split.
  - destruct (glob_candidates 0 (split original)) as [|i [|? ?]] eqn:Hc; try discriminate.
    intros H. injection H as <-.
    apply glob_candidates_spec in Hc as (pre & post & Hs & -> & Hpre & Hpost).
    exists pre, post. rewrite Hs. repeat split; try done.
    rewrite (insert_app_r_alt pre) by lia. simpl.
    by rewrite Nat.sub_diag.
  - intros (pre & post & -> & Hpre & Hpost & ->).
    rewrite glob_candidates_app by done. simpl.
    rewrite (insert_app_r_alt pre) by lia. by rewrite Nat.sub_diag.
Qed.

Lemma StringsJoin_app l1 l2 sep : l1 <> [] -> l2 <> [] ->
  StringsJoin (l1 ++ l2) sep = StringsJoin l1 sep +:+ (sep +:+ StringsJoin l2 sep).
Proof.
  intros H1 H2. induction l1 as [|x [|y l1] IH]; [done|..].
  - destruct l2; [done|]. done.
  - change ((x :: y :: l1) ++ l2) with (x :: (y :: l1) ++ l2).
    rewrite (StringsJoin_cons x y (l1)).
    change (StringsJoin (x :: (y :: l1) ++ l2) sep)
      with (x +:+ (sep +:+ StringsJoin ((y :: l1) ++ l2) sep)).
    rewrite IH by done. by rewrite !append_assoc.
Qed.

(** Joining a component list that holds a joined string is joining the flat
    list. *)
Lemma StringsJoin_flat pre s post :
  StringsJoin (pre ++ s :: post) "/" = StringsJoin (pre ++ Split s "/" ++ post) "/".
Proof.
  pose proof (Split_not_nil s "/") as Hne.
  assert (Hs : StringsJoin [s] "/" = StringsJoin (Split s "/") "/") by (by rewrite Join_Split).
  assert (Hpost : StringsJoin ([s] ++ post) "/" = StringsJoin (Split s "/" ++ post) "/").
  { destruct post as [|x post]; [by rewrite !app_nil_r|].
    rewrite !StringsJoin_app by done. by rewrite Hs. }
  destruct pre as [|x pre]; [exact Hpost|].
  assert (Happ : Split s "/" ++ post <> []) by (intros [? _]%app_eq_nil; done).
  rewrite !StringsJoin_app by done. by rewrite <- Hpost.
Qed.

Lemma Split_StringsJoin_flat pre s post :
  Forall (fun c => byte_free "/" c = true) (pre ++ post) ->
  Split (StringsJoin (pre ++ s :: post) "/") "/" = pre ++ Split s "/" ++ post.
Proof.
  intros HF. rewrite StringsJoin_flat. apply Split_Join.
  - intros [_ [Hn _]%app_eq_nil]%app_eq_nil. by apply Split_not_nil in Hn.
  - apply Forall_app in HF as [Hpre Hpost]. rewrite !Forall_app. repeat split; try done.
    apply Forall_forall. intros c Hc. apply list_elem_of_In in Hc. by eapply Split_elem_free.
Qed.

(** ** Properties of identifiers and patterns *)


(** [ParsePattern] accepts exactly the '/'-separated lists whose
    components are "*", "**" or a non-empty identifier component, and fails
    with [ErrInvalidPattern] otherwise; the counters of its loop never let a
    third '*' or a mixed component through. *)
Theorem ParsePattern_grammar s :
  (Forall pattern_component (Split s "/") /\ ParsePattern s = Ok s) \/
  (~ Forall pattern_component (Split s "/") /\ ParsePattern s = Err ErrInvalidPattern).
Proof.
  rewrite <- validPattern_components. unfold ParsePattern.
  destruct (validPattern s); [left|right]; by split.
Qed.

(** C10: the recursive matcher decides the documented meaning of a pattern: a
    valid identifier matches a valid pattern exactly when its components split
    into one segment per pattern component, any segment for "**", one component
    for "*", and the component itself for a literal. Both [ID.Match] and
    [Pattern.Match] compute it. *)
Theorem Match_semantics i p :
  validIdentifier i = true -> validPattern p = true ->
  (id_Match i p = true <-> selects (Split p "/") (Split i "/")) /\
  pattern_Match p i = id_Match i p.
Proof. intros Hi Hp. split; [by apply id_Match_spec|done]. Qed.

Lemma Match_semantics_witness :
  (id_Match "docker/auth/hub/bob" "docker/**/bob" = true <->
    selects (Split "docker/**/bob" "/") (Split "docker/auth/hub/bob" "/")) /\
  pattern_Match "docker/**/bob" "docker/auth/hub/bob" = id_Match "docker/auth/hub/bob" "docker/**/bob".
Proof. apply Match_semantics; reflexivity. Defined.

(** A pattern of the form of the realms: literals and one trailing "**". *)
Definition prefix_pattern (p : Pattern) : Prop :=
  exists lits, Split p "/" = lits ++ ["**"] /\ Forall id_component lits.

Lemma prefix_pattern_valid p : prefix_pattern p -> validPattern p = true.
Proof.
  intros (lits & Hs & HF). apply validPattern_components. rewrite Hs.
  apply Forall_app. split; [|constructor; [by right; left|constructor]].
  eapply Forall_impl; [|exact HF]. intros c Hc. by right; right.
Qed.

Lemma Matches_literals lits ps ss : Forall id_component lits ->
  Forall (fun s => s <> "*") ss -> Matches (lits ++ ps) ss <->
  exists rest, ss = lits ++ rest /\ Matches ps rest.
Proof.
  intros HF. revert ss. induction HF as [|c lits Hc HF IH]; intros ss Hss; simpl.
  - naive_solver.
  - apply id_component_not_star in Hc as [Hc1 Hc2]. destruct ss as [|s ss].
    + split; [intros H; inversion H; done|]. by intros (rest & ? & _).
    + inversion Hss; subst. rewrite Matches_cons_inv by done. rewrite IH by done. split.
      * intros [[?|[->|?]] (rest & -> & Hm)]; [done| |done]. by exists rest.
      * intros (rest & Heq & Hm). injection Heq as -> ->. split; [auto|eauto].
Qed.

(** A literal prefix of a "*"-free pattern is a prefix of what it matches. *)
Lemma Matches_trans_literals lits rest ss : Forall id_component lits ->
  Matches (lits ++ rest) ss -> Forall (fun s => s <> "*") ss ->
  Matches (lits ++ ["**"]) ss.
Proof.
  intros HF Hm Hss. apply Matches_literals in Hm as (r & -> & _); [|done..].
  apply Matches_literals; [done..|]. exists r. split; [done|apply Matches_glob_all].
Qed.

(** for a realm-shaped pattern (literals, then "**") [Includes] is sound:
    when it says that a pattern without single-component wildcards is included,
    every identifier the included pattern matches is matched by the realm. *)
Theorem Includes_sound p other i :
  prefix_pattern p -> validPattern other = true ->
  Forall (fun c => c <> "*") (Split other "/") -> validIdentifier i = true ->
  Includes p other = true -> id_Match i other = true -> id_Match i p = true.
Proof.
  intros Hpp Ho Hstar Hi Hinc Hm. pose proof (prefix_pattern_valid p Hpp) as Hp.
  destruct Hpp as (lits & Hs & HF).
  apply Includes_Matches in Hinc; [|done..]. rewrite Hs in Hinc.
  apply Matches_literals in Hinc as (rest & Hrest & _); [|done..].
  apply id_Match_Matches in Hm; [|done..]. rewrite Hrest in Hm.
  apply id_Match_Matches; [done..|]. rewrite Hs.
  eapply Matches_trans_literals; [done|exact Hm|]. by apply id_path_star_free.
Qed.

Lemma Includes_sound_witness :
  id_Match "docker/auth/hub/bob" "docker/auth/hub/**" = true.
Proof.
  apply (Includes_sound "docker/auth/hub/**" "docker/auth/hub/**/bob"); try reflexivity.
  - exists ["docker"; "auth"; "hub"]. split; [reflexivity|].
    repeat constructor; discriminate.
  - repeat constructor; discriminate.
Defined.

(** outside that shape [Includes] is not the inclusion its doc comment
    describes ("returns true if all matches of Pattern [other] are also matches
    of the current pattern"): it accepts a literal against a "*" and a "*"
    against a "**", so [Filter], whose result is documented to be a subset of
    the filter, returns "docker/*/mcp/*" for the filter "docker/proj1/**". *)
Theorem Includes_Filter_unsound :
  Includes "docker/proj1/**" "docker/*/mcp/*" = true /\
  Filter "docker/proj1/**" "docker/*/mcp/*" = Some "docker/*/mcp/*" /\
  id_Match "docker/proj2/mcp/key" "docker/*/mcp/*" = true /\
  id_Match "docker/proj2/mcp/key" "docker/proj1/**" = false /\
  Includes "*" "**" = true /\ id_Match "a/b" "**" = true /\ id_Match "a/b" "*" = false.
Proof. repeat split; reflexivity. Qed.

(** C34: between realm-shaped patterns [Filter] computes an intersection: its
    result is one of the two arguments and matches an identifier exactly when
    both of them do, and it reports no overlap only when no identifier matches
    both. *)
Theorem Filter_intersection f o i :
  prefix_pattern f -> prefix_pattern o -> validIdentifier i = true ->
  match Filter f o with
  | Some r => (r = f \/ r = o) /\ id_Match i r = id_Match i f && id_Match i o
  | None => id_Match i f && id_Match i o = false
  end.
Proof.
  intros Hf Ho Hi.
  assert (Hstar : forall p, prefix_pattern p -> Forall (fun c => c <> "*") (Split p "/")).
  { intros p (lits & -> & HF). apply Forall_app. split; [|by repeat constructor].
    eapply Forall_impl; [|exact HF]. intros c Hc. by apply id_component_not_star. }
  pose proof (prefix_pattern_valid f Hf) as Hvf. pose proof (prefix_pattern_valid o Ho) as Hvo.
  unfold Filter. destruct (Includes f o) eqn:Hfo; [|destruct (Includes o f) eqn:Hof].
  - split; [by right|]. destruct (id_Match i o) eqn:Hm; [|by rewrite andb_false_r].
    rewrite (Includes_sound f o i) by auto. done.
  - split; [by left|]. destruct (id_Match i f) eqn:Hm; [|done].
    rewrite (Includes_sound o f i) by auto. done.
  - apply not_true_iff_false. rewrite andb_true_iff. intros [Hmf Hmo].
    apply not_true_iff_false in Hfo, Hof.
    apply id_Match_Matches in Hmf; [|done..]. apply id_Match_Matches in Hmo; [|done..].
    rewrite Includes_Matches in Hfo by done. rewrite Includes_Matches in Hof by done.
    pose proof (Hstar f Hf) as Hsf. pose proof (Hstar o Ho) as Hso.
    destruct Hf as (lf & Hsf' & HFf), Ho as (lo & Hso' & HFo). rewrite Hsf', Hso' in *.
    pose proof (id_path_star_free i Hi) as Hsi.
    apply Matches_literals in Hmf as (rf & Hif & _); [|done..].
    apply Matches_literals in Hmo as (ro & Hio & _); [|done..].
    rewrite Hif in Hio. apply app_eq_inv in Hio as [(k & -> & ->)|(k & -> & ->)].
    + apply Hof. apply Matches_literals; [done..|]. exists (k ++ ["**"]).
      rewrite app_assoc. split; [done|apply Matches_glob_all].
    + apply Hfo. apply Matches_literals; [done..|]. exists (k ++ ["**"]).
      rewrite app_assoc. split; [done|apply Matches_glob_all].
Qed.

Lemma Filter_intersection_witness :
  Filter "docker/**" "docker/mcp/**" = Some "docker/mcp/**" /\
  match Filter "docker/**" "docker/mcp/**" with
  | Some r => (r = "docker/**" \/ r = "docker/mcp/**") /\
      id_Match "docker/mcp/a" r = id_Match "docker/mcp/a" "docker/**" && id_Match "docker/mcp/a" "docker/mcp/**"
  | None => id_Match "docker/mcp/a" "docker/**" && id_Match "docker/mcp/a" "docker/mcp/**" = false
  end.
Proof.
  split; [reflexivity|]. apply Filter_intersection; [| |reflexivity].
  - exists ["docker"]. split; [reflexivity|]. repeat constructor; discriminate.
  - exists ["docker"; "mcp"]. split; [reflexivity|]. repeat constructor; discriminate.
Defined.

Lemma replace1_valid_components p other r :
  validPattern p = true -> replace1 p other = Ok r ->
  exists pre post, Split p "/" = pre ++ "**" :: post /\
    Forall (fun c => c <> "**") pre /\ Forall (fun c => c <> "**") post /\
    Split r "/" = pre ++ Split other "/" ++ post.
Proof.
  intros Hp Hr. apply replace1_Ok in Hr as (pre & post & Hs & Hpre & Hpost & ->).
  rewrite split_pattern in Hs by done. exists pre, post. repeat split; try done.
  apply Split_StringsJoin_flat. apply validPattern_components in Hp. rewrite Hs in Hp.
  apply Forall_app in Hp as [Hp1 Hp2]. inversion Hp2; subst.
  apply Forall_app; split; by apply Forall_pattern_component_free.
Qed.

(** Every component list is matched by itself when read as a pattern. *)
Lemma Matches_refl_app ps post ss : Forall (fun c => c <> "**") ps ->
  Matches post ss -> Matches (ps ++ post) (ps ++ ss).
Proof. intros HF Hm. induction HF; simpl; auto with engine. Qed.

Lemma Matches_refl ps : Forall (fun c => c <> "**") ps -> Matches ps ps.
Proof. intros HF. rewrite <- (app_nil_r ps). apply Matches_refl_app; auto with engine. Qed.

Lemma Matches_expand pre post mid :
  Forall (fun c => c <> "**") pre -> Forall (fun c => c <> "**") post ->
  Matches (pre ++ "**" :: post) (pre ++ mid ++ post).
Proof. intros Hpre Hpost. by apply Matches_refl_app, Matches_glob_app, Matches_refl. Qed.

(** expanding a valid pattern that has no "*" with a valid identifier gives
    a valid identifier that the pattern matches; it fails exactly when the
    pattern does not have a single "**". *)
Theorem ExpandID_matches p other :
  validPattern p = true -> Forall (fun c => c <> "*") (Split p "/") ->
  validIdentifier other = true ->
  match ExpandID p other with
  | Ok r => validIdentifier r = true /\ id_Match r p = true
  | Err _ => length (filter (fun c => c = "**") (Split p "/")) <> 1
  end.
Proof.
  intros Hp Hstar Ho. destruct (ExpandID p other) as [r|e] eqn:Hr.
  - unfold ExpandID in Hr. run_inv. simplify_eq.
    pose proof Hp as Hcomp. apply validPattern_components in Hcomp.
    apply replace1_valid_components in H as (pre & post & Hs & Hpre & Hpost & Hsr); [|done].
    assert (Hv : validIdentifier r = true).
    { apply validIdentifier_components. rewrite Hsr. rewrite Hs in Hcomp, Hstar.
      apply validIdentifier_components in Ho.
      assert (Hid : forall c, c ∈ pre \/ c ∈ post -> id_component c).
      { intros c Hc. assert (Hin : c ∈ pre ++ "**" :: post) by (rewrite elem_of_app, elem_of_cons; tauto).
        rewrite Forall_forall in Hcomp, Hstar, Hpre, Hpost. rewrite list_elem_of_In in Hin.
        pose proof (Hstar _ Hin). rewrite !list_elem_of_In in Hc.
        assert (c <> "**") by (destruct Hc; auto).
        by destruct (Hcomp _ Hin) as [?|[?|?]]. }
      rewrite !Forall_app. repeat split; [|done|]; apply Forall_forall; intros c Hc;
        apply Hid; rewrite !list_elem_of_In; auto. }
    split; [done|]. apply id_Match_Matches; [done..|]. rewrite Hs, Hsr. by apply Matches_expand.
  - intros Hlen. assert (Hok : exists r, replace1 p other = Ok r).
    { assert (Hf : exists x, x ∈ filter (fun c => c = "**") (Split p "/")).
      { destruct (filter _ _) as [|x ?]; [done|]. exists x. by left. }
      destruct Hf as (x & [-> Hin]%list_elem_of_filter).
      apply list_elem_of_split in Hin as (pre & post & Hs).
      eexists. apply replace1_Ok. exists pre, post. rewrite split_pattern by done.
      rewrite Hs in Hlen |- *. rewrite list.filter_app, filter_cons_True, length_app in Hlen by done.
      simpl in Hlen. split; [done|].
      assert (Hnone : forall l, length (filter (fun c => c = "**") l) = 0 ->
        Forall (fun c => c <> "**") l).
      { intros l Hl. apply Forall_forall. intros c Hc ->. apply list_elem_of_In in Hc.
        assert (Hin : "**" ∈ filter (fun c => c = "**") l) by (by apply list_elem_of_filter).
        apply length_zero_iff_nil in Hl. rewrite Hl in Hin. by apply elem_of_nil in Hin. }
      repeat split; try (apply Hnone; lia). }
    destruct Hok as [r Hok]. unfold ExpandID in Hr. by rewrite Hok in Hr.
Qed.

Lemma ExpandID_matches_witness :
  ExpandID "docker/auth/hub/**" "bob/token" = Ok "docker/auth/hub/bob/token" /\
  match ExpandID "docker/auth/hub/**" "bob/token" with
  | Ok r => validIdentifier r = true /\ id_Match r "docker/auth/hub/**" = true
  | Err _ => length (filter (fun c => c = "**") (Split "docker/auth/hub/**" "/")) <> 1
  end.
Proof.
  split; [reflexivity|].
  apply ExpandID_matches; [reflexivity| |reflexivity]. repeat constructor; discriminate.
Defined.

(** expanding a valid pattern with a valid pattern gives a valid pattern
    that the first one [Includes], whatever wildcards the two have besides the
    single "**" that is replaced. *)
Theorem ExpandPattern_included p other r :
  validPattern p = true -> validPattern other = true -> ExpandPattern p other = Ok r ->
  validPattern r = true /\ Includes p r = true.
Proof.
  intros Hp Ho Hr. unfold ExpandPattern in Hr. run_inv. simplify_eq.
  pose proof Hp as Hcomp. apply validPattern_components in Hcomp.
  apply replace1_valid_components in H as (pre & post & Hs & Hpre & Hpost & Hsr); [|done].
  assert (Hv : validPattern r = true).
  { apply validPattern_components. rewrite Hsr. rewrite Hs in Hcomp.
    apply validPattern_components in Ho. apply Forall_app in Hcomp as [H1 H2].
    inversion H2; subst. by rewrite !Forall_app. }
  split; [done|]. apply Includes_Matches; [done..|]. rewrite Hs, Hsr. by apply Matches_expand.
Qed.

Lemma ExpandPattern_included_witness :
  validPattern "docker/auth/*/a" = true /\ Includes "docker/**/a" "docker/auth/*/a" = true.
Proof. apply (ExpandPattern_included "docker/**/a" "auth/*"); reflexivity. Defined.

(** Expanding a pattern that has a "*" returns, without an error, an identifier
    that [ParseID] rejects. *)
Lemma ExpandID_invalid :
  validPattern "*/**" = true /\ ExpandID "*/**" "a" = Ok "*/a" /\ validIdentifier "*/a" = false.
Proof. repeat split; reflexivity. Qed.
