(* ===== verification/Store.v ===== *)
(** Package store: the [Secret] and [Store] interfaces (store.go), the secret
    types that implement the first (plugins/pass/store/store.go,
    store/mocks/mock_credential.go) and the in-memory stores that implement the
    second (plugins/pass/teststore/teststore.go, store/mocks/mock_store.go). *)

From S2P Require Import Prelude GoErrors GoStrings Secrets.

(** ** store.go *)

(** [store.Secret]: the methods mutate the receiver, so [Unmarshal] and
    [SetMetadata] return the updated value. A nil map is the empty map. *)
Class Secret (T : Type) : Type := {
  Marshal : T -> result goerror bytes;
  Unmarshal : T -> bytes -> result goerror T;
  Metadata : T -> gmap string string;
  SetMetadata : T -> gmap string string -> result goerror T
}.

(** [store.Factory]. *)
Definition Factory (T : Type) : Type := ID -> T.

Definition ErrCredentialNotFound : goerror := ErrNotFound.

(** [store.Store]: the operations of a store of secrets [T] over a state [S]. *)
Class Store (S T : Type) : Type := {
  store_Delete : ID -> comp S goerror unit;
  store_Get : ID -> comp S goerror T;
  store_GetAllMetadata : comp S goerror (gmap ID T);
  store_Save : ID -> T -> comp S goerror unit;
  store_Upsert : ID -> T -> comp S goerror unit;
  store_Filter : Pattern -> comp S goerror (gmap ID T)
}.

(** How every backend turns stored metadata and plaintext into a secret:
    [SetMetadata], then [Unmarshal], on a value fresh from the factory. *)
Definition restore_secret `{Secret T} (factory : Factory T) (id : ID)
    (metadata : gmap string string) (data : bytes) : result goerror T :=
  secret <-? SetMetadata (factory id) metadata ;;
  Unmarshal secret data.

(** A secret is storable when its marshalled bytes and its metadata bring it
    back. *)
Definition storable `{Secret T} (factory : Factory T) (s : T) : Prop :=
  exists data, Marshal s = Ok data /\
    forall id, restore_secret factory id (Metadata s) data = Ok s.

(** ** The contract of a store *)

(** The secrets of [m] a pattern selects. *)
Definition matching {T} (pattern : Pattern) (m : gmap ID T) : gmap ID T :=
  base.filter (fun kv => pattern_Match pattern kv.1 = true) m.

(** What a client may rely on: [wf] is the invariant of the states the store
    keeps, [ok] are the secrets it can hold, [view] is the abstract content of
    a state. A successful operation acts on the content as on a map, one that
    fails leaves it unchanged, and every operation preserves the invariant. *)
Class StoreLaws (S T : Type) `{Store S T} (wf : S -> Prop) (ok : ID -> T -> Prop)
    (view : S -> gmap ID T) : Prop := {
  law_Delete id s s' r : wf s -> store_Delete id s = (r, s') ->
    wf s' /\ view s' = (if is_ok r then delete id (view s) else view s);
  law_Get id s s' r : wf s -> store_Get id s = (r, s') ->
    wf s' /\ view s' = view s /\
    match r with
    | Ok v => view s !! id = Some v
    | Err _ => True
    end;
  law_GetAllMetadata s s' r : wf s -> store_GetAllMetadata s = (r, s') ->
    wf s' /\ view s' = view s /\
    match r with
    | Ok m => dom m = dom (view s)
    | Err _ => True
    end;
  law_Save id v s s' r : wf s -> ok id v -> store_Save id v s = (r, s') ->
    wf s' /\ view s' = (if is_ok r then <[id := v]> (view s) else view s);
  law_Upsert id v s s' r : wf s -> ok id v -> store_Upsert id v s = (r, s') ->
    wf s' /\ view s' = (if is_ok r then <[id := v]> (view s) else view s);
  law_Filter p s s' r : wf s -> store_Filter p s = (r, s') ->
    wf s' /\ view s' = view s /\
    match r with
    | Ok m => m = matching p (view s)
    | Err _ => True
    end
}.

Section store_laws.
Context `{StoreLaws St T wf ok view}.

Lemma Save_then_Get id v s s1 s2 r : wf s -> ok id v ->
  store_Save id v s = (Ok tt, s1) -> store_Get id s1 = (Ok r, s2) -> r = v.
Proof.
  intros Hwf Hok Hs Hg. apply law_Save in Hs as [Hwf1 Hs]; [|done..].
  apply law_Get in Hg as (_ & _ & Hg); [|done].
  rewrite Hs in Hg. cbn [is_ok] in Hg. rewrite lookup_insert_eq in Hg. by injection Hg.
Qed.

Lemma Delete_then_Get id s s1 s2 v : wf s ->
  store_Delete id s = (Ok tt, s1) -> store_Get id s1 <> (Ok v, s2).
Proof.
  intros Hwf Hd Hg. apply law_Delete in Hd as [Hwf1 Hd]; [|done].
  apply law_Get in Hg as (_ & _ & Hg); [|done].
  rewrite Hd in Hg. cbn [is_ok] in Hg. by rewrite lookup_delete_eq in Hg.
Qed.
End store_laws.

(** A store without restrictions on its states and its secrets. *)
Abbreviation any_state := (fun _ => True) (only parsing).
Abbreviation any_secret := (fun _ _ => True) (only parsing).

(** ** plugins/pass/store: PassValue *)

Record PassValue : Type := {
  pv_value : bytes;
  pv_metadata : gmap string string
}.

Definition NewPassValue (value : bytes) : PassValue :=
  {| pv_value := value; pv_metadata := ∅ |}.

Definition PassValue_Marshal (m : PassValue) : result goerror bytes := Ok (pv_value m).

Definition PassValue_Unmarshal (m : PassValue) (data : bytes) : result goerror PassValue :=
  Ok {| pv_value := data; pv_metadata := pv_metadata m |}.

Definition PassValue_Metadata (m : PassValue) : gmap string string := pv_metadata m.

Definition PassValue_SetMetadata (m : PassValue) (md : gmap string string)
  : result goerror PassValue :=
  Ok {| pv_value := pv_value m; pv_metadata := md |}.

#[export] Instance PassValue_Secret : Secret PassValue := {
  Marshal := PassValue_Marshal;
  Unmarshal := PassValue_Unmarshal;
  Metadata := PassValue_Metadata;
  SetMetadata := PassValue_SetMetadata
}.

(** The factory [PassStore] gives the keychain. *)
Definition PassValue_factory : Factory PassValue := fun _ => NewPassValue [].

Lemma PassValue_storable (s : PassValue) : storable PassValue_factory s.
Proof. exists (pv_value s). split; [done|]. intros id. by destruct s. Qed.

(** ** store/mocks: MockCredential *)

Record MockCredential : Type := {
  mc_Username : string;
  mc_Password : string;
  mc_Attributes : gmap string string
}.

Definition bytes_of (s : string) : bytes := list_byte_of_string s.
Definition string_of (b : bytes) : string := string_of_list_byte b.

Definition MockCredential_Marshal (m : MockCredential) : result goerror bytes :=
  Ok (bytes_of (mc_Username m +:+ ":" +:+ mc_Password m)).

Definition MockCredential_Unmarshal (m : MockCredential) (data : bytes)
  : result goerror MockCredential :=
  match Split (string_of data) ":" with
  | [username; password] =>
      Ok {| mc_Username := username; mc_Password := password;
            mc_Attributes := mc_Attributes m |}
  | _ => Err (ErrorNew "failed to unmarshal data into mock credential type")
  end.

Definition MockCredential_Metadata (m : MockCredential) : gmap string string := mc_Attributes m.

Definition MockCredential_SetMetadata (m : MockCredential) (attributes : gmap string string)
  : result goerror MockCredential :=
  Ok {| mc_Username := mc_Username m; mc_Password := mc_Password m;
        mc_Attributes := attributes |}.

#[export] Instance MockCredential_Secret : Secret MockCredential := {
  Marshal := MockCredential_Marshal;
  Unmarshal := MockCredential_Unmarshal;
  Metadata := MockCredential_Metadata;
  SetMetadata := MockCredential_SetMetadata
}.

Lemma string_of_bytes_of s : string_of (bytes_of s) = s.
Proof. apply string_of_list_byte_of_string. Qed.

Lemma bytes_of_string_of b : bytes_of (string_of b) = b.
Proof. apply list_byte_of_string_of_list_byte. Qed.

Lemma MockCredential_storable factory s :
  byte_free ":" (mc_Username s) = true -> byte_free ":" (mc_Password s) = true ->
  storable factory s.
Proof.
  intros Hu Hp. eexists. split; [done|]. intros id. unfold restore_secret. simpl.
  unfold MockCredential_Unmarshal. rewrite string_of_bytes_of.
  change (":" +:+ mc_Password s) with (String ":" (mc_Password s)).
  rewrite Split_append, Split_byte_free by done. by destruct s.
Qed.

(** ** plugins/pass/teststore: MockStore *)

Section teststore.
Context {T : Type}.

Record TestStore : Type := {
  ts_errSave : option goerror;
  ts_errGetAll : option goerror;
  ts_errDelete : option goerror;
  ts_errGet : option goerror;
  ts_errFilter : option goerror;
  ts_errUpsert : option goerror;
  ts_store : gmap ID T
}.

Definition ts_set_store (m : TestStore) (store : gmap ID T) : TestStore :=
  {| ts_errSave := ts_errSave m; ts_errGetAll := ts_errGetAll m;
     ts_errDelete := ts_errDelete m; ts_errGet := ts_errGet m;
     ts_errFilter := ts_errFilter m; ts_errUpsert := ts_errUpsert m;
     ts_store := store |}.

Definition TestStore_empty : TestStore :=
  {| ts_errSave := None; ts_errGetAll := None; ts_errDelete := None;
     ts_errGet := None; ts_errFilter := None; ts_errUpsert := None; ts_store := ∅ |}.

(** [NewMockStore] folds its options over an empty store. *)
Definition NewMockStore (options : list (TestStore -> TestStore)) : TestStore :=
  foldl (fun s option => option s) TestStore_empty options.

Definition WithStore (store : gmap ID T) (m : TestStore) : TestStore := ts_set_store m store.

(** The options that make an operation fail; a nil error takes it back. *)
Definition WithStoreSaveErr (err : option goerror) (m : TestStore) : TestStore :=
  {| ts_errSave := err; ts_errGetAll := ts_errGetAll m; ts_errDelete := ts_errDelete m; ts_errGet := ts_errGet m; ts_errFilter := ts_errFilter m; ts_errUpsert := ts_errUpsert m;
     ts_store := ts_store m |}.
Definition WithStoreFilterErr (err : option goerror) (m : TestStore) : TestStore :=
  {| ts_errSave := ts_errSave m; ts_errGetAll := ts_errGetAll m; ts_errDelete := ts_errDelete m; ts_errGet := ts_errGet m; ts_errFilter := err; ts_errUpsert := ts_errUpsert m;
     ts_store := ts_store m |}.
Definition WithStoreGetErr (err : option goerror) (m : TestStore) : TestStore :=
  {| ts_errSave := ts_errSave m; ts_errGetAll := ts_errGetAll m; ts_errDelete := ts_errDelete m; ts_errGet := err; ts_errFilter := ts_errFilter m; ts_errUpsert := ts_errUpsert m;
     ts_store := ts_store m |}.
Definition WithStoreGetAllErr (err : option goerror) (m : TestStore) : TestStore :=
  {| ts_errSave := ts_errSave m; ts_errGetAll := err; ts_errDelete := ts_errDelete m; ts_errGet := ts_errGet m; ts_errFilter := ts_errFilter m; ts_errUpsert := ts_errUpsert m;
     ts_store := ts_store m |}.
Definition WithStoreDeleteErr (err : option goerror) (m : TestStore) : TestStore :=
  {| ts_errSave := ts_errSave m; ts_errGetAll := ts_errGetAll m; ts_errDelete := err; ts_errGet := ts_errGet m; ts_errFilter := ts_errFilter m; ts_errUpsert := ts_errUpsert m;
     ts_store := ts_store m |}.
Definition WithStoreUpsertErr (err : option goerror) (m : TestStore) : TestStore :=
  {| ts_errSave := ts_errSave m; ts_errGetAll := ts_errGetAll m; ts_errDelete := ts_errDelete m; ts_errGet := ts_errGet m; ts_errFilter := ts_errFilter m; ts_errUpsert := err;
     ts_store := ts_store m |}.

Definition TestStore_Delete (id : ID) : comp TestStore goerror unit := fun m =>
  match ts_errDelete m with
  | Some e => (Err e, m)
  | None => (Ok tt, ts_set_store m (delete id (ts_store m)))
  end.

Definition TestStore_Get (id : ID) : comp TestStore goerror T := fun m =>
  match ts_errGet m with
  | Some e => (Err e, m)
  | None => match ts_store m !! id with
            | None => (Err ErrCredentialNotFound, m)
            | Some secret => (Ok secret, m)
            end
  end.

Definition TestStore_GetAllMetadata : comp TestStore goerror (gmap ID T) := fun m =>
  match ts_errGetAll m with
  | Some e => (Err e, m)
  | None => (Ok (ts_store m), m)
  end.

Definition TestStore_Save (id : ID) (secret : T) : comp TestStore goerror unit := fun m =>
  match ts_errSave m with
  | Some e => (Err e, m)
  | None => (Ok tt, ts_set_store m (<[id := secret]> (ts_store m)))
  end.

Definition TestStore_Upsert (id : ID) (secret : T) : comp TestStore goerror unit := fun m =>
  match ts_errUpsert m with
  | Some e => (Err e, m)
  | None => (Ok tt, ts_set_store m (<[id := secret]> (ts_store m)))
  end.

(** The loop of [Filter]: the bindings of the map, in iteration order. *)
Definition filter_loop (pattern : Pattern) (l : list (ID * T)) : gmap ID T :=
  foldl (fun filtered '(id, f) =>
           if pattern_Match pattern id then <[id := f]> filtered else filtered) ∅ l.

Definition TestStore_Filter (ord : list (ID * T) -> list (ID * T)) (pattern : Pattern)
  : comp TestStore goerror (gmap ID T) := fun m =>
  match ts_errFilter m with
  | Some e => (Err e, m)
  | None => (Ok (filter_loop pattern (range_map ord (ts_store m))), m)
  end.
End teststore.
Arguments TestStore T : clear implicits.

Section filter_loop.
Context {T : Type}.

Lemma filter_loop_app (p : Pattern) (l : list (ID * T)) (acc : gmap ID T) :
  foldl (fun filtered '(id, f) =>
           if pattern_Match p id then <[id := f]> filtered else filtered) acc l =
  (list_to_map (rev (base.filter (fun kv => pattern_Match p kv.1 = true) l)) : gmap ID T) ∪ acc.
Proof.
  revert acc. induction l as [|[k v] l IH]; intros acc; simpl.
  - by rewrite (left_id_L ∅ (∪)).
  - rewrite IH. rewrite filter_cons. simpl.
    destruct (decide (pattern_Match p k = true)) as [Hm|Hm].
    + rewrite Hm. simpl. rewrite list_to_map_app. simpl.
      rewrite insert_empty, <- map_union_assoc. f_equal. apply insert_union_singleton_l.
    + by destruct (pattern_Match p k).
Qed.

Lemma filter_loop_spec `{!MapOrder ord} (p : Pattern) (m : gmap ID T) :
  filter_loop p (range_map ord m) = matching p m.
Proof.
  unfold filter_loop. rewrite filter_loop_app, (right_id_L ∅ (∪)).
  set (l := base.filter _ _).
  assert (Hnd : NoDup l.*1).
  { pose proof (NoDup_range_map ord m) as Hr. revert Hr. subst l.
    generalize (range_map ord m). intros l Hr. induction l as [|[k v] l IH]; [done|].
    inversion Hr; subst. rewrite filter_cons. case_decide; [|auto].
    simpl. constructor; [|auto]. intros Hin. apply list_elem_of_fmap in Hin as ([k' v'] & Hk & Hin).
    apply list_elem_of_filter in Hin as [_ Hin]. simpl in Hk. subst k'.
    match goal with H : k ∉ _ |- _ => apply H end.
    apply list_elem_of_fmap. by exists (k, v'). }
  rewrite <- (list_to_map_proper l (rev l)); [|done|apply Permutation_rev].
  apply map_eq. intros k. apply option_eq. intros v.
  rewrite <- elem_of_list_to_map by done. subst l. unfold matching.
  rewrite list_elem_of_filter, (elem_of_range_map ord), map_lookup_filter_Some. naive_solver.
Qed.
End filter_loop.

#[export] Instance TestStore_Store {T} (ord : list (ID * T) -> list (ID * T)) : Store (TestStore T) T := {
  store_Delete := TestStore_Delete;
  store_Get := TestStore_Get;
  store_GetAllMetadata := TestStore_GetAllMetadata;
  store_Save := TestStore_Save;
  store_Upsert := TestStore_Upsert;
  store_Filter := TestStore_Filter ord
}.

(** ** store/mocks: MockStore *)

(** [mocks.MockStore] keeps its map only ([init] makes it on first use); it is
    the test store without injected errors. *)
Definition mocks_Delete {T} (id : ID) : comp (gmap ID T) goerror unit := fun m =>
  (Ok tt, delete id m).

Definition mocks_Get {T} (id : ID) : comp (gmap ID T) goerror T := fun m =>
  match m !! id with
  | None => (Err ErrCredentialNotFound, m)
  | Some secret => (Ok secret, m)
  end.

Definition mocks_GetAllMetadata {T} : comp (gmap ID T) goerror (gmap ID T) := fun m => (Ok m, m).

Definition mocks_Save {T} (id : ID) (secret : T) : comp (gmap ID T) goerror unit := fun m =>
  (Ok tt, <[id := secret]> m).

Definition mocks_Upsert {T} (id : ID) (secret : T) : comp (gmap ID T) goerror unit :=
  mocks_Save id secret.

Definition mocks_Filter {T} (ord : list (ID * T) -> list (ID * T)) (pattern : Pattern)
  : comp (gmap ID T) goerror (gmap ID T) := fun m =>
  (Ok (filter_loop pattern (range_map ord m)), m).

Definition mocks_Store {T} (ord : list (ID * T) -> list (ID * T)) : Store (gmap ID T) T := {|
  store_Delete := mocks_Delete;
  store_Get := mocks_Get;
  store_GetAllMetadata := mocks_GetAllMetadata;
  store_Save := mocks_Save;
  store_Upsert := mocks_Upsert;
  store_Filter := mocks_Filter ord
|}.

(** ** The in-memory stores honour the contract *)

#[export] Instance mocks_laws {T} (ord : list (ID * T) -> list (ID * T)) `{!MapOrder ord} :
  @StoreLaws (gmap ID T) T (mocks_Store ord) any_state any_secret id.
Proof.
  split; simpl; unfold id, mocks_Delete, mocks_Get, mocks_GetAllMetadata, mocks_Upsert,
    mocks_Save, mocks_Filter; intros; try case_match; simplify_eq; auto.
  by rewrite filter_loop_spec.
Qed.

#[export] Instance TestStore_laws {T} (ord : list (ID * T) -> list (ID * T)) `{!MapOrder ord} :
  @StoreLaws (TestStore T) T (TestStore_Store ord) any_state any_secret ts_store.
Proof.
  split; simpl; unfold TestStore_Delete, TestStore_Get, TestStore_GetAllMetadata,
    TestStore_Save, TestStore_Upsert, TestStore_Filter; intros;
    repeat case_match; simplify_eq; auto.
  by rewrite filter_loop_spec.
Qed.
