(* ===== verification/StoreSpec.v ===== *)
(** What a store is to its clients (store/store.go): a machine that answers
    calls from a map of identifiers to secrets. Backends differ in the errors
    with which they report that there is nothing; the machine takes these
    conventions as a parameter, so that two backends can be compared. *)

From S2P Require Import Prelude GoErrors Secrets Store.

(** The calls of the interface. *)
Inductive store_call (T : Type) : Type :=
| CallDelete (id : ID)
| CallGet (id : ID)
| CallGetAllMetadata
| CallSave (id : ID) (v : T)
| CallUpsert (id : ID) (v : T)
| CallFilter (pattern : Pattern).
Arguments CallDelete {T} id.
Arguments CallGet {T} id.
Arguments CallGetAllMetadata {T}.
Arguments CallSave {T} id v.
Arguments CallUpsert {T} id v.
Arguments CallFilter {T} pattern.

(** What a client sees; of a listing, the identifiers. *)
Inductive store_reply (T : Type) : Type :=
| ReplyDone
| ReplySecret (v : T)
| ReplySecrets (m : gmap ID T)
| ReplyListing (ids : gset ID)
| ReplyError (err : goerror).
Arguments ReplyDone {T}.
Arguments ReplySecret {T} v.
Arguments ReplySecrets {T} m.
Arguments ReplyListing {T} ids.
Arguments ReplyError {T} err.

Definition reply_of {A T} (f : A -> store_reply T) (r : result goerror A) : store_reply T :=
  match r with Ok a => f a | Err err => ReplyError err end.

(** A call on an implementation. *)
Definition perform {S T} `{Store S T} (c : store_call T) (s : S) : store_reply T * S :=
  let run {A} (f : A -> store_reply T) (m : comp S goerror A) := let '(r, s') := m s in (reply_of f r, s') in
  match c with
  | CallDelete id => run (fun _ => ReplyDone) (store_Delete id)
  | CallGet id => run ReplySecret (store_Get id)
  | CallGetAllMetadata => run (fun m => ReplyListing (dom m)) store_GetAllMetadata
  | CallSave id v => run (fun _ => ReplyDone) (store_Save id v)
  | CallUpsert id v => run (fun _ => ReplyDone) (store_Upsert id v)
  | CallFilter pattern => run ReplySecrets (store_Filter pattern)
  end.

(** How a backend says that there is nothing: for an absent identifier, for a
    listing of an empty store and for a pattern nothing matches; [None] is an
    empty answer. And what [Save] says when the identifier has a secret; [None]
    if it overwrites it. *)
Record conventions : Type := {
  on_absent : goerror;
  on_no_listing : option goerror;
  on_no_match : option goerror;
  on_duplicate : option goerror
}.

Definition or_error {T} (empty : bool) (err : option goerror) (r : store_reply T) : store_reply T :=
  match empty, err with true, Some e => ReplyError e | _, _ => r end.

(** The same call on a map. *)
Definition spec_perform {T} (cv : conventions) (c : store_call T) (m : gmap ID T)
  : store_reply T * gmap ID T :=
  match c with
  | CallDelete id => (ReplyDone, delete id m)
  | CallGet id => (match m !! id with Some v => ReplySecret v | None => ReplyError (on_absent cv) end, m)
  | CallGetAllMetadata => (or_error (bool_decide (m = ∅)) (on_no_listing cv) (ReplyListing (dom m)), m)
  | CallSave id v =>
      match on_duplicate cv, m !! id with
      | Some err, Some _ => (ReplyError err, m)
      | _, _ => (ReplyDone, <[id := v]> m)
      end
  | CallUpsert id v => (ReplyDone, <[id := v]> m)
  | CallFilter pattern =>
      let found := matching pattern m in
      (or_error (bool_decide (found = ∅)) (on_no_match cv) (ReplySecrets found), m)
  end.

(** The calls of a client that uses identifiers and secrets the backend can
    hold. *)
Definition permitted {T} (named : ID -> Prop) (ok : ID -> T -> Prop) (c : store_call T) : Prop :=
  match c with
  | CallDelete id | CallGet id => named id
  | CallSave id v | CallUpsert id v => ok id v
  | CallGetAllMetadata | CallFilter _ => True
  end.

(** A backend implements the machine: [wf] is its invariant, [named] are the
    identifiers and [ok] the secrets it can hold, [view] is its content. *)
Class StoreMachine (S T : Type) `{Store S T} (wf : S -> Prop) (named : ID -> Prop) (ok : ID -> T -> Prop)
    (view : S -> gmap ID T) (cv : conventions) : Prop := {
  machine_step c s : wf s -> permitted named ok c ->
    let '(r, s') := perform c s in wf s' /\ (r, view s') = spec_perform cv c (view s)
}.

(** ** Sequences of calls *)

Fixpoint perform_all {S T} `{Store S T} (cs : list (store_call T)) (s : S) : list (store_reply T) * S :=
  match cs with
  | [] => ([], s)
  | c :: cs' =>
      let '(r, s1) := perform c s in
      let '(rs, s2) := perform_all cs' s1 in
      (r :: rs, s2)
  end.

Fixpoint spec_all {T} (cv : conventions) (cs : list (store_call T)) (m : gmap ID T)
  : list (store_reply T) * gmap ID T :=
  match cs with
  | [] => ([], m)
  | c :: cs' =>
      let '(r, m1) := spec_perform cv c m in
      let '(rs, m2) := spec_all cv cs' m1 in
      (r :: rs, m2)
  end.

Lemma machine_all {S T} `{StoreMachine S T wf named ok view cv} cs s :
  wf s -> Forall (permitted named ok) cs ->
  let '(rs, s') := perform_all cs s in wf s' /\ (rs, view s') = spec_all cv cs (view s).
Proof.
  intros Hwf HF. revert s Hwf. induction HF as [|c cs Hc HF IH]; intros s Hwf; [done|].
  cbn [perform_all spec_all]. pose proof (machine_step c s Hwf Hc) as Hstep.
  destruct (perform c s) as [r s1]. destruct Hstep as [Hwf1 Hstep].
  destruct (spec_perform cv c (view s)) as [r' m1]. injection Hstep as -> <-.
  specialize (IH s1 Hwf1). destruct (perform_all cs s1) as [rs s2]. destruct IH as [Hwf2 IH].
  destruct (spec_all cv cs (view s1)) as [rs' m2]. by injection IH as -> <-.
Qed.

(** Two conventions give the same replies, up to the errors and empty answers
    that say there is nothing. *)
Definition says_nothing {T} (cv : conventions) (r : store_reply T) : Prop :=
  r = ReplyError (on_absent cv) \/
  r = or_error true (on_no_listing cv) (ReplyListing ∅) \/
  r = or_error true (on_no_match cv) (ReplySecrets ∅).

Definition same_reply {T} (cv cv' : conventions) (r r' : store_reply T) : Prop :=
  r = r' \/ says_nothing cv r /\ says_nothing cv' r'.

(** Whether [Save] overwrites shows, unless the client uses [Upsert]. *)
Definition overwriting_agrees {T} (cv cv' : conventions) (c : store_call T) : Prop :=
  match c with CallSave _ _ => on_duplicate cv = on_duplicate cv' | _ => True end.

Lemma spec_agree {T} cv cv' (c : store_call T) m : overwriting_agrees cv cv' c ->
  (spec_perform cv c m).2 = (spec_perform cv' c m).2 /\
  same_reply cv cv' (spec_perform cv c m).1 (spec_perform cv' c m).1.
Proof.
  intros Hd. destruct c; cbn in *; try rewrite <- Hd;
    (split; [done|]); unfold same_reply, says_nothing; try by left.
  - destruct (m !! id); [by left|]. right. split; by left.
  - case_bool_decide as Hm; [|by left]. right. subst m. rewrite dom_empty_L. split; right; by left.
  - case_bool_decide as Hm; [|by left]. right. rewrite Hm. split; right; by right.
Qed.

Lemma spec_all_agree {T} cv cv' (cs : list (store_call T)) m : Forall (overwriting_agrees cv cv') cs ->
  (spec_all cv cs m).2 = (spec_all cv' cs m).2 /\
  Forall2 (same_reply cv cv') (spec_all cv cs m).1 (spec_all cv' cs m).1.
Proof.
  intros HF. revert m. induction HF as [|c cs Hc HF IH]; intros m; cbn [spec_all]; [split; [done|constructor]|].
  destruct (spec_agree cv cv' c m Hc) as [Hm Hr].
  destruct (spec_perform cv c m) as [r m1], (spec_perform cv' c m) as [r' m1']. cbn in Hm, Hr. subst m1'.
  specialize (IH m1). destruct (spec_all cv cs m1), (spec_all cv' cs m1). cbn in *.
  destruct IH as [-> HF']. by split; [|constructor].
Qed.

(** Two implementations of the machine with the same content cannot be told
    apart, up to the way they say that there is nothing. *)
Lemma machines_agree {S S' T} `{StoreMachine S T wf named ok view cv} `{StoreMachine S' T wf' named' ok' view' cv'}
    cs s s' : wf s -> wf' s' -> view s = view' s' ->
  Forall (permitted named ok) cs -> Forall (permitted named' ok') cs -> Forall (overwriting_agrees cv cv') cs ->
  view (perform_all cs s).2 = view' (perform_all cs s').2 /\
  Forall2 (same_reply cv cv') (perform_all cs s).1 (perform_all cs s').1.
Proof.
  intros Hs Hs' Hv HF HF' Hd. pose proof (machine_all cs s Hs HF) as Hm. pose proof (machine_all cs s' Hs' HF') as Hm'.
  destruct (perform_all cs s) as [rs s1], (perform_all cs s') as [rs' s1']. cbn [fst snd].
  destruct Hm as [_ Hm], Hm' as [_ Hm']. rewrite <- Hv in Hm'.
  destruct (spec_all_agree cv cv' cs (view s) Hd) as [He HF2]. rewrite <- Hm, <- Hm' in He, HF2. by split.
Qed.


(** ** Reading a map out of the entries of a backend *)

Section gathered.
Context {X V : Type} (h : X -> option (ID * V)).

(** The bindings [h] reads from the entries. *)
Definition gathered (l : list X) : gmap ID V := list_to_map (omap h l).

(** No two entries give the same identifier. *)
Definition apart (l : list X) : Prop :=
  forall x y id v u, x ∈ l -> y ∈ l -> h x = Some (id, v) -> h y = Some (id, u) -> x = y.

Lemma NoDup_gathered l : NoDup l -> apart l -> NoDup (omap h l).*1.
Proof.
  intros Hnd Hap. induction Hnd as [|x l Hx Hnd IH]; [constructor|].
  assert (Hap' : apart l) by (intros y z i v u ? ?; apply Hap; by right).
  cbn. destruct (h x) as [[id v]|] eqn:Hh; [|by apply IH]. cbn. apply list.NoDup_cons.
  split; [|by apply IH]. intros Hin. apply list_elem_of_fmap in Hin as ([id' u] & Heq & Hin).
  cbn in Heq. subst id'. apply list_elem_of_omap in Hin as (y & Hy & Hhy). apply Hx.
  rewrite (Hap x y id v u); [done|by left|by right|done|done].
Qed.

Lemma gathered_lookup l id v : NoDup l -> apart l ->
  gathered l !! id = Some v <-> exists x, x ∈ l /\ h x = Some (id, v).
Proof.
  intros Hnd Hap. unfold gathered. rewrite <- elem_of_list_to_map by by apply NoDup_gathered.
  apply list_elem_of_omap.
Qed.

(** The loops insert into a map as they go, so a later binding wins. *)
Lemma gathered_loop l : NoDup l -> apart l ->
  (list_to_map (reverse (omap h l)) : gmap ID V) = gathered l.
Proof.
  intros Hnd Hap. symmetry. apply list_to_map_proper; [by apply NoDup_gathered|].
  symmetry. apply reverse_Permutation.
Qed.

Lemma gathered_step x l acc :
  (list_to_map (reverse (omap h (x :: l))) : gmap ID V) ∪ acc =
  list_to_map (reverse (omap h l)) ∪ match h x with Some kv => <[kv.1 := kv.2]> acc | None => acc end.
Proof.
  change (omap h (x :: l)) with (match h x with Some kv => kv :: omap h l | None => omap h l end).
  destruct (h x) as [[id v]|]; [|done]. rewrite reverse_cons, list_to_map_app. cbn.
  by rewrite insert_empty, <- (assoc_L (∪)), <- insert_union_singleton_l.
Qed.

Lemma gathered_perm l l' : NoDup l -> apart l -> l ≡ₚ l' -> gathered l = gathered l'.
Proof.
  intros Hnd Hap Hp. unfold gathered. apply list_to_map_proper; [by apply NoDup_gathered|].
  by apply omap_Permutation.
Qed.
End gathered.

(** The secrets a pattern selects, of those [h] reads. *)
Definition selecting {X V} (pattern : Pattern) (h : X -> option (ID * V)) (x : X) : option (ID * V) :=
  '(id, v) ← h x; if pattern_Match pattern id then Some (id, v) else None.

Lemma selecting_Some {X V} pattern (h : X -> option (ID * V)) x id v :
  selecting pattern h x = Some (id, v) <-> h x = Some (id, v) /\ pattern_Match pattern id = true.
Proof.
  unfold selecting. destruct (h x) as [[i u]|]; [|naive_solver]. cbn.
  destruct (pattern_Match pattern i) eqn:Hp; naive_solver congruence.
Qed.

Lemma apart_selecting {X V} pattern (h : X -> option (ID * V)) l : apart h l -> apart (selecting pattern h) l.
Proof.
  intros Hap x y id v u Hx Hy [Hhx _]%selecting_Some [Hhy _]%selecting_Some. by apply (Hap x y id v u).
Qed.

Lemma gathered_selecting {X V} pattern (h : X -> option (ID * V)) l : NoDup l -> apart h l ->
  gathered (selecting pattern h) l = matching pattern (gathered h l).
Proof.
  intros Hnd Hap. apply map_eq. intros id. apply option_eq. intros v.
  rewrite gathered_lookup by auto using apart_selecting.
  unfold matching. rewrite map_lookup_filter_Some, gathered_lookup by done. cbn [fst].
  setoid_rewrite selecting_Some. naive_solver.
Qed.
