(* ===== verification/Keychain.v ===== *)
(** Package store/keychain, the part every platform shares (keychain.go): the
    constructor with its options, the item label, and the prefixing of the
    caller's metadata that keeps it apart from the attributes the store sets. *)

From S2P Require Import Prelude GoErrors GoStrings Secrets Store.

(** ** keychain.go *)

Definition ErrNoDefaultCollection : goerror := Sentinel "no default keychain collection available".
Definition ErrKeychainUnavailable : goerror := Sentinel "keychain backend unavailable".
Definition errSkipOptions : goerror := Sentinel "skip unsupported option".

(** The fields the platforms' [keychainStore] structs share, and the one that
    only macOS has. *)
Record keychainStore (T : Type) : Type := {
  serviceGroup : string;
  serviceName : string;
  factory : Factory T;
  useDataProtectionKeychain : bool
}.
Arguments serviceGroup {T}. Arguments serviceName {T}.
Arguments factory {T}. Arguments useDataProtectionKeychain {T}.

(** An [Option] is applied to the store, which it may update or reject. *)
Definition KeychainOption (T : Type) : Type := keychainStore T -> result goerror (keychainStore T).

Definition set_useDataProtectionKeychain {T} (k : keychainStore T) (v : bool) : keychainStore T :=
  {| serviceGroup := serviceGroup k; serviceName := serviceName k; factory := factory k;
     useDataProtectionKeychain := v |}.

(** [WithDarwinOptions(opt)]: [darwin] tells whether the platform's store
    implements [darwinOptions]. *)
Definition WithDarwinOptions {T} (darwin : bool) (opt : KeychainOption T) : KeychainOption T :=
  fun settings => if negb darwin then Err errSkipOptions else opt settings.

Definition WithUseDataProtectionKeychain {T} : KeychainOption T :=
  fun k => Ok (set_useDataProtectionKeychain k true).

(** The option loop of [New]: an unsupported option is skipped. *)
Fixpoint apply_options {T} (k : keychainStore T) (opts : list (KeychainOption T))
  : result goerror (keychainStore T) :=
  match opts with
  | [] => Ok k
  | opt :: opts' =>
      match opt k with
      | Ok k' => apply_options k' opts'
      | Err err => if errors_Is err errSkipOptions then apply_options k opts' else Err err
      end
  end.

(** [New]; [ensureAvailable] is the per-platform hook, [None] for nil. *)
Definition New {T} (ensureAvailable : option goerror) (group name : string)
    (fac : Factory T) (opts : list (KeychainOption T)) : result goerror (keychainStore T) :=
  if String.eqb group "" || String.eqb name "" then
    Err (ErrorNew "serviceGroup and serviceName are required")
  else
    let k := {| serviceGroup := group; serviceName := name; factory := fac;
                useDataProtectionKeychain := false |} in
    k <-? apply_options k opts ;;
    match ensureAvailable with
    | Some err => Err err
    | None => Ok k
    end.

Definition itemLabel {T} (k : keychainStore T) (id : string) : string :=
  serviceGroup k +:+ ":" +:+ serviceName k +:+ ":" +:+ id.

Definition serviceGroupKey : string := "service:group".
Definition serviceNameKey : string := "service:name".
Definition secretIDKey : string := "id".

(** Reading a missing key of a Go map gives the zero value. *)
Definition map_get (m : gmap string string) (k : string) : string := default "" (m !! k).

(** [safelySetMetadata]. The keys are collected before the loop; [ord] is the
    order [maps.Keys] yields them in. *)
Definition safelySetMetadata (ord : list (string * string) -> list (string * string))
    (group name : string) (attributes : gmap string string) : gmap string string :=
  let keys := (range_map ord attributes).*1 in
  let attributes := foldl (fun attributes k =>
    delete k (<["x_" +:+ k := map_get attributes k]> attributes)) attributes keys in
  <[serviceNameKey := name]> (<[serviceGroupKey := group]> attributes).

(** [safelyCleanMetadata]. *)
Definition safelyCleanMetadata (ord : list (string * string) -> list (string * string))
    (attributes : gmap string string) : gmap string string :=
  let attributes := delete secretIDKey (delete serviceNameKey (delete serviceGroupKey attributes)) in
  let keys := (range_map ord attributes).*1 in
  foldl (fun attributes key =>
    let '(after, found) := CutPrefix key "x_" in
    delete key (if found : bool then <[after := map_get attributes key]> attributes
                else attributes)) attributes keys.

Definition safelySetID (id : ID) (attributes : gmap string string) : gmap string string :=
  let attributes :=
    match attributes !! secretIDKey with
    | Some v => <["x_" +:+ secretIDKey := v]> attributes
    | None => attributes
    end in
  <[secretIDKey := id]> attributes.

(** ** Lemmas: a loop that renames the keys of a map *)

Section rename.
Context (f : string -> option string).

Definition rename_step (m : gmap string string) (k : string) : gmap string string :=
  delete k (match f k with Some k' => <[k' := map_get m k]> m | None => m end).

Context (Hinj : forall k1 k2 k', f k1 = Some k' -> f k2 = Some k' -> k1 = k2).

(** No new name is the old name of a key the loop visits. *)
Definition fresh_names (l : list string) : Prop :=
  forall k k', k ∈ l -> f k = Some k' -> k' ∉ l.

Lemma fresh_names_cons k l : fresh_names (k :: l) -> fresh_names l.
Proof. intros H k1 k2 Hk Hf Hin. apply (H k1 k2); [by right|done|by right]. Qed.

Lemma rename_step_None m k j : m !! j = None -> f k <> Some j -> rename_step m k !! j = None.
Proof.
  intros Hm Hf. unfold rename_step. destruct (decide (j = k)) as [->|Hne].
  - apply lookup_delete_eq.
  - rewrite lookup_delete_ne by done. destruct (f k) as [k'|] eqn:Hk; [|done].
    rewrite lookup_insert_ne; [done|]. intros ->. done.
Qed.

Lemma rename_loop_None l m j : m !! j = None -> (forall k, k ∈ l -> f k <> Some j) ->
  foldl rename_step m l !! j = None.
Proof.
  revert m. induction l as [|k l IH]; intros m Hm Hf; [done|]. simpl. apply IH.
  - apply rename_step_None; [done|]. apply Hf. by left.
  - intros k' Hk'. apply Hf. by right.
Qed.

Lemma rename_loop_gone l m j : NoDup l -> fresh_names l -> j ∈ l ->
  foldl rename_step m l !! j = None.
Proof.
  revert m. induction l as [|k l IH]; intros m Hnd Hfr Hj; [by apply elem_of_nil in Hj|].
  apply list.NoDup_cons in Hnd as [Hkl Hnd]. simpl. apply elem_of_cons in Hj as [->|Hj].
  - apply rename_loop_None; [apply lookup_delete_eq|].
    intros k' Hk' Hf. apply (Hfr k' k); [by right|done|by left].
  - apply IH; [done|by eapply fresh_names_cons|done].
Qed.

Lemma rename_step_other m k j : j <> k -> f k <> Some j -> rename_step m k !! j = m !! j.
Proof.
  intros Hne Hf. unfold rename_step. rewrite lookup_delete_ne by done.
  destruct (f k); [|done]. rewrite lookup_insert_ne; [done|]. congruence.
Qed.

Lemma rename_loop_other l m j : j ∉ l -> (forall k, k ∈ l -> f k <> Some j) ->
  foldl rename_step m l !! j = m !! j.
Proof.
  revert m. induction l as [|k l IH]; intros m Hj Hf; [done|]. simpl.
  rewrite IH; [|by intros ?; apply Hj; right|by intros k' ?; apply Hf; right].
  apply rename_step_other; [intros ->; apply Hj; by left|apply Hf; by left].
Qed.

Lemma rename_loop_renamed l m k k' : NoDup l -> fresh_names l -> k ∈ l -> f k = Some k' ->
  foldl rename_step m l !! k' = Some (map_get m k).
Proof.
  revert m. induction l as [|k0 l IH]; intros m Hnd Hfr Hk Hf; [by apply elem_of_nil in Hk|].
  apply list.NoDup_cons in Hnd as [Hkl Hnd]. simpl. apply elem_of_cons in Hk as [->|Hk].
  - rewrite rename_loop_other.
    + unfold rename_step. rewrite Hf, lookup_delete_ne, lookup_insert_eq; [done|].
      intros ->. apply (Hfr k' k'); [by left|done|by left].
    + intros Hin. apply (Hfr k0 k'); [by left|done|by right].
    + intros k Hin Hf'. assert (k = k0) by eauto. by subst.
  - rewrite IH; [|done|by eapply fresh_names_cons|done|done].
    unfold map_get. rewrite rename_step_other; [done|by intros ->|].
    intros Hf0. apply (Hfr k0 k); [by left|done|by right].
Qed.
End rename.

(** ** Lemmas: the metadata prefix *)

(** The caller's keys do not start with the prefix the store adds. *)
Definition unprefixed (attributes : gmap string string) : Prop :=
  forall k v, attributes !! k = Some v -> HasPrefix k "x_" = false.

Definition add_prefix (k : string) : option string := Some ("x_" +:+ k).
Definition cut_prefix (k : string) : option string :=
  let '(after, found) := CutPrefix k "x_" in if found : bool then Some after else None.

Lemma prefixed_absurd attributes k v :
  unprefixed attributes -> attributes !! ("x_" +:+ k) = Some v -> False.
Proof. intros Hun Hv. apply Hun in Hv. by rewrite HasPrefix_append in Hv. Qed.

Lemma cut_prefix_Some k k' : cut_prefix k = Some k' <-> k = "x_" +:+ k'.
Proof.
  unfold cut_prefix. destruct (CutPrefix k "x_") as [after []] eqn:Hc.
  - apply CutPrefix_true in Hc as ->. split; [by intros [= ->]|].
    intros Heq. by apply append_inj_l in Heq as ->.
  - split; [done|]. intros ->. rewrite CutPrefix_append in Hc. done.
Qed.

Lemma cut_prefix_step m key :
  (let '(after, found) := CutPrefix key "x_" in
   delete key (if found : bool then <[after := map_get m key]> m else m)) =
  rename_step cut_prefix m key.
Proof. unfold rename_step, cut_prefix. by destruct (CutPrefix key "x_") as [? []]. Qed.

Lemma foldl_ext' {A B} (f g : A -> B -> A) l a :
  (forall a b, f a b = g a b) -> foldl f a l = foldl g a l.
Proof. intros H. revert a. induction l; intros ?; simpl; [done|]. by rewrite H. Qed.

Section metadata.
Context (ord : list (string * string) -> list (string * string)) `{!MapOrder ord}.

(** Where every key of the caller ends up, and that nothing else is there. *)
Lemma safelySetMetadata_lookup group name attributes j :
  unprefixed attributes ->
  safelySetMetadata ord group name attributes !! j =
    if decide (j = serviceNameKey) then Some name
    else if decide (j = serviceGroupKey) then Some group
    else match cut_prefix j with Some k => attributes !! k | None => None end.
Proof.
  intros Hun. unfold safelySetMetadata. rewrite !lookup_insert.
  repeat (case_decide; [subst; repeat case_decide; congruence|]).
  repeat case_decide; try congruence.
  set (keys := (range_map ord attributes).*1).
  assert (Hkeys : forall k, k ∈ keys <-> is_Some (attributes !! k)).
  { intros k. subst keys. rewrite list_elem_of_fmap. split.
    - intros ([k' v] & -> & Hin). apply elem_of_range_map in Hin; [|done]. eauto.
    - intros [v Hv]. exists (k, v). split; [done|]. by apply elem_of_range_map. }
  assert (Hnd : NoDup keys) by (by apply NoDup_range_map).
  assert (Hfr : fresh_names add_prefix keys).
  { intros k k' Hk Hf [v Hv]%Hkeys. injection Hf as <-. exact (prefixed_absurd _ _ _ Hun Hv). }
  assert (Hin : forall k1 k2 k', add_prefix k1 = Some k' -> add_prefix k2 = Some k' -> k1 = k2).
  { unfold add_prefix. intros k1 k2 k' Ha Hb. rewrite <- Hb in Ha. injection Ha. auto. }
  change (foldl (rename_step add_prefix) attributes keys !! j = match cut_prefix j with
    | Some k => attributes !! k | None => None end).
  destruct (decide (j ∈ keys)) as [Hj|Hj].
  { rewrite rename_loop_gone by done. apply Hkeys in Hj as [v Hv].
    destruct (cut_prefix j) as [k|] eqn:Hc; [|done]. apply cut_prefix_Some in Hc as ->.
    destruct (prefixed_absurd _ _ _ Hun Hv). }
  destruct (cut_prefix j) as [k|] eqn:Hc.
  - apply cut_prefix_Some in Hc as ->. destruct (decide (k ∈ keys)) as [Hk|Hk].
    + rewrite (rename_loop_renamed _ Hin _ _ k) by done. apply Hkeys in Hk as [v Hv].
      unfold map_get. by rewrite Hv.
    + rewrite rename_loop_other; [|done|].
      * rewrite Hkeys in Hj, Hk. rewrite <- !eq_None_not_Some in Hj, Hk. congruence.
      * unfold add_prefix. intros k' Hk' Heq. injection Heq as ->. done.
  - rewrite rename_loop_other; [|done|].
    + rewrite Hkeys in Hj. by rewrite <- eq_None_not_Some in Hj.
    + unfold add_prefix. intros k' Hk' Heq. injection Heq as Heq.
      assert (Hs : cut_prefix j = Some k') by (by apply cut_prefix_Some). congruence.
Qed.

Lemma prefix_absurd_key k : "x_" +:+ k <> secretIDKey /\ "x_" +:+ k <> serviceNameKey /\
  "x_" +:+ k <> serviceGroupKey.
Proof. done. Qed.

(** Cleaning reads every key back under the prefix, whatever the iteration
    order, when no prefixed key strips to another key of the map. *)
Lemma safelyCleanMetadata_lookup attributes j :
  (forall k, is_Some (attributes !! ("x_" +:+ k)) -> attributes !! k = None \/
     k = secretIDKey \/ k = serviceNameKey \/ k = serviceGroupKey) ->
  safelyCleanMetadata ord attributes !! j = attributes !! ("x_" +:+ j).
Proof.
  intros Hfresh. unfold safelyCleanMetadata.
  set (a := delete secretIDKey (delete serviceNameKey (delete serviceGroupKey attributes))).
  assert (Ha : forall k, a !! ("x_" +:+ k) = attributes !! ("x_" +:+ k)).
  { intros k. subst a. destruct (prefix_absurd_key k) as (? & ? & ?).
    by rewrite !lookup_delete_ne by done. }
  assert (Hsub : forall k, is_Some (a !! k) -> is_Some (attributes !! k) /\
    k <> secretIDKey /\ k <> serviceNameKey /\ k <> serviceGroupKey).
  { intros k. subst a. rewrite !lookup_delete. repeat case_decide; intros [? ?]; done. }
  set (keys := (range_map ord a).*1).
  assert (Hkeys : forall k, k ∈ keys <-> is_Some (a !! k)).
  { intros k. subst keys. rewrite list_elem_of_fmap. split.
    - intros ([k' v] & -> & Hin). apply elem_of_range_map in Hin; [|done]. eauto.
    - intros [v Hv]. exists (k, v). split; [done|]. by apply elem_of_range_map. }
  assert (Hnd : NoDup keys) by (by apply NoDup_range_map).
  assert (Hinj : forall k1 k2 k', cut_prefix k1 = Some k' -> cut_prefix k2 = Some k' -> k1 = k2).
  { intros k1 k2 k' ->%cut_prefix_Some ->%cut_prefix_Some. done. }
  assert (Hfr : fresh_names cut_prefix keys).
  { intros k k' Hk ->%cut_prefix_Some Hk'. apply Hkeys in Hk, Hk'. rewrite Ha in Hk.
    apply Hsub in Hk' as ([v Hv] & ? & ? & ?). apply Hfresh in Hk. naive_solver congruence. }
  rewrite (foldl_ext' _ (rename_step cut_prefix)) by (intros; apply cut_prefix_step).
  rewrite <- Ha. destruct (decide ("x_" +:+ j ∈ keys)) as [Hj|Hj].
  - rewrite (rename_loop_renamed _ Hinj _ _ ("x_" +:+ j)); [|done..|by apply cut_prefix_Some].
    apply Hkeys in Hj as [v Hv]. unfold map_get. by rewrite Hv.
  - assert (Hnone : a !! ("x_" +:+ j) = None) by (by rewrite eq_None_not_Some, <- Hkeys).
    rewrite Hnone. destruct (decide (j ∈ keys)) as [Hj'|Hj'].
    + by apply rename_loop_gone.
    + rewrite rename_loop_other; [by rewrite eq_None_not_Some, <- Hkeys|done|].
      intros k Hk Hc. apply cut_prefix_Some in Hc as ->. done.
Qed.
End metadata.

(** What a backend stores as the attributes of a secret. *)
Definition stored_metadata (ord : list (string * string) -> list (string * string))
    {T} (k : keychainStore T) (id : ID) (md : gmap string string) : gmap string string :=
  safelySetID id (safelySetMetadata ord (serviceGroup k) (serviceName k) md).

Lemma stored_metadata_lookup `{!MapOrder ord} {T} (k : keychainStore T) id md j :
  unprefixed md ->
  stored_metadata ord k id md !! j =
    if decide (j = secretIDKey) then Some id
    else if decide (j = serviceNameKey) then Some (serviceName k)
    else if decide (j = serviceGroupKey) then Some (serviceGroup k)
    else match cut_prefix j with Some k => md !! k | None => None end.
Proof.
  intros Hun. unfold stored_metadata, safelySetID.
  pose proof (safelySetMetadata_lookup ord (serviceGroup k) (serviceName k) md) as Hl.
  rewrite (Hl secretIDKey) by done. simpl. rewrite lookup_insert.
  repeat case_decide; subst; try congruence; rewrite Hl by done; repeat case_decide; congruence.
Qed.

Lemma metadata_stored_clean ord1 ord2 `{!MapOrder ord1} `{!MapOrder ord2} {T}
    (k : keychainStore T) id md extra :
  unprefixed md ->
  (forall j, is_Some (extra !! j) -> HasPrefix j "x_" = false) ->
  (forall j, is_Some (extra !! j) -> md !! j = None) ->
  safelyCleanMetadata ord2 (extra ∪ stored_metadata ord1 k id md) = md.
Proof.
  intros Hun Hex Hdis. set (stored := stored_metadata ord1 k id md).
  assert (Hst : forall j, stored !! j = _) by (intros j; by apply stored_metadata_lookup).
  clearbody stored.
  assert (Hx : forall j, (extra ∪ stored) !! ("x_" +:+ j) = md !! j).
  { intros j. rewrite lookup_union_r.
    - rewrite Hst. destruct (prefix_absurd_key j) as (? & ? & ?).
      rewrite !decide_False by done.
      assert (Hc : cut_prefix ("x_" +:+ j) = Some j) by (by apply cut_prefix_Some).
      by rewrite Hc.
    - apply eq_None_not_Some. intros Hs. apply Hex in Hs. by rewrite HasPrefix_append in Hs. }
  apply map_eq. intros j. rewrite safelyCleanMetadata_lookup; [apply Hx|done|].
  intros i. rewrite Hx. intros [v Hv]. pose proof Hv as Hv'. apply Hun in Hv'.
  destruct (decide (i = secretIDKey)); [auto|]. destruct (decide (i = serviceNameKey)); [auto|].
  destruct (decide (i = serviceGroupKey)); [auto|]. left.
  rewrite lookup_union_r.
  - rewrite Hst, !decide_False by done. destruct (cut_prefix i) as [i'|] eqn:Hc; [|done].
    apply cut_prefix_Some in Hc as ->. by rewrite HasPrefix_append in Hv'.
  - apply eq_None_not_Some. intros Hs. apply Hdis in Hs. congruence.
Qed.

(** ** Properties of the shared part *)

(** the metadata a caller saves comes back unchanged: prefixing, storing
    the identifier and cleaning are inverse on any metadata without keys that
    start with "x_", for every iteration order of the two loops and whatever
    unprefixed attributes the platform adds ("chunk:count" on Windows,
    "xdg:schema" on Linux); the stored map also holds the service group, the
    service name and the identifier, which no caller key can shadow. *)
Theorem metadata_roundtrip {T} ord1 ord2 (k : keychainStore T) id md extra :
  MapOrder ord1 -> MapOrder ord2 -> unprefixed md ->
  (forall j, is_Some (extra !! j) -> HasPrefix j "x_" = false) ->
  (forall j, is_Some (extra !! j) -> md !! j = None) ->
  let stored := stored_metadata ord1 k id md in
  safelyCleanMetadata ord2 (extra ∪ stored) = md /\
  stored !! secretIDKey = Some id /\
  stored !! serviceGroupKey = Some (serviceGroup k) /\
  stored !! serviceNameKey = Some (serviceName k).
Proof.
  intros Ho1 Ho2 Hun Hex Hdis stored. subst stored.
  split; [by apply metadata_stored_clean|]. by rewrite !stored_metadata_lookup.
Qed.

Lemma metadata_roundtrip_witness :
  let k := {| serviceGroup := "io.docker"; serviceName := "pass"; factory := PassValue_factory;
              useDataProtectionKeychain := false |} in
  let md := {["id" := "mine"; "service:name" := "other"]} in
  let stored := stored_metadata (fun l => l) k "docker/key" md in
  safelyCleanMetadata (@rev _) ({["xdg:schema" := "generic"]} ∪ stored) = md /\
  stored !! secretIDKey = Some "docker/key" /\
  stored !! serviceGroupKey = Some "io.docker" /\ stored !! serviceNameKey = Some "pass".
Proof.
  apply metadata_roundtrip; [apply _|apply _|..].
  - intros k v Hk. apply lookup_insert_Some in Hk as [[<- _]|[_ Hk]]; [reflexivity|].
    apply lookup_singleton_Some in Hk as [<- _]. reflexivity.
  - intros j [v Hv]. apply lookup_singleton_Some in Hv as [<- _]. reflexivity.
  - intros j [v Hv]. apply lookup_singleton_Some in Hv as [<- _]. reflexivity.
Defined.

(** a caller key that starts with "x_" breaks that promise ("so that no
    collisions can ever occur"): with the keys "foo" and "x_foo", the order in
    which the map yields its keys decides whether the saved metadata comes back
    or one value replaces the other. *)
Theorem metadata_collision :
  let md : gmap string string := {["foo" := "1"; "x_foo" := "2"]} in
  let store ord := safelySetMetadata ord "g" "n" md in
  exists ord1 ord2, MapOrder ord1 /\ MapOrder ord2 /\
    store ord1 = {["x_foo" := "1"; "x_x_foo" := "2"; "service:group" := "g"; "service:name" := "n"]} /\
    store ord2 = {["x_x_foo" := "1"; "service:group" := "g"; "service:name" := "n"]}.
Proof.
  intros md store. exists (@rev _), (fun l => l).
  repeat split; try apply _; vm_compute; reflexivity.
Qed.
