(* ===== verification/SecretService.v ===== *)
(** Package store/keychain/internal/go-keychain/secretservice: the client of
    the D-Bus Secret Service (secretservice.go) and the Diffie-Hellman and
    AES-CBC session it encrypts secrets with
    (dh_ietf1024_sha256_aes128_cbc_pkcs7.go). *)

From S2P Require Import Prelude GoErrors GoStrings.

Abbreviation ObjectPath := string (only parsing).
Abbreviation AuthenticationMode := string (only parsing).

(** ** PKCS #7 padding *)

Definition byte_of_Z (z : Z) : Byte.byte := default Byte.x00 (Byte.of_N (Z.to_N (z `mod` 256))).
Definition Z_of_byte (b : Byte.byte) : Z := Z.of_N (Byte.to_N b).

Definition padPKCS7 (xs : bytes) (n : Z) : bytes :=
  let m := byte_of_Z (n - Z.of_nat (length xs) `mod` n) in
  let m := if Byte.eqb m Byte.x00 then byte_of_Z 16 else m in
  xs ++ repeat m (Z.to_nat (Z_of_byte m)).

Definition unpadPKCS7 (xs : bytes) (n : Z) : result goerror bytes :=
  match list.last xs with
  | None => Err (ErrorNew "cannot unpad empty bytearray")
  | Some lastByte =>
      if negb (Z.of_nat (length xs) `mod` n =? 0)%Z then
        Err (ErrorNew "length of bytearray not a multiple of blocksize")
      else
        let padStartIdx := (Z.of_nat (length xs) - Z_of_byte lastByte)%Z in
        if (padStartIdx <? 0)%Z then
          Err (ErrorNew "invalid pkcs7 padding; pad byte larger than number of characters")
        else if negb (forallb (Byte.eqb lastByte) (drop (Z.to_nat padStartIdx) xs)) then
          Err (ErrorNew "expected pad character %x, got %x")
        else Ok (take (Z.to_nat padStartIdx) xs)
  end.

(** ** AES in CBC mode *)

Definition BlockSize : nat := 16.

Definition byte_xor (a b : Byte.byte) : Byte.byte :=
  default Byte.x00 (Byte.of_N (N.lxor (Byte.to_N a) (Byte.to_N b))).

Definition xor_bytes (a b : bytes) : bytes := zip_with byte_xor a b.

(** [aes.NewCipher] rejects a key that is not 16, 24 or 32 bytes long. *)
Definition aes_NewCipher (key : bytes) : result goerror unit :=
  if existsb (Nat.eqb (length key)) [16; 24; 32] then Ok tt else Err (ErrorNew "KeySizeError").

(** The random source of crypto/rand. *)
Class Entropy (W : Type) : Type := {
  rand_Int : Z -> comp W goerror Z;
  rand_Read : nat -> comp W goerror bytes
}.

Section aes.
(** The AES block cipher under a key, and its inverse. *)
Context (aes_encrypt aes_decrypt : bytes -> bytes -> bytes).

(** [CryptBlocks] of the CBC modes, block by block. *)
Fixpoint cbc_encrypt (fuel : nat) (key prev xs : bytes) : bytes :=
  match fuel, xs with
  | S fuel', _ :: _ =>
      let c := aes_encrypt key (xor_bytes prev (take BlockSize xs)) in
      c ++ cbc_encrypt fuel' key c (drop BlockSize xs)
  | _, _ => []
  end.

Fixpoint cbc_decrypt (fuel : nat) (key prev xs : bytes) : bytes :=
  match fuel, xs with
  | S fuel', _ :: _ =>
      let c := take BlockSize xs in
      xor_bytes prev (aes_decrypt key c) ++ cbc_decrypt fuel' key c (drop BlockSize xs)
  | _, _ => []
  end.

Definition unauthenticatedAESCBCEncrypt `{Entropy W} (unpaddedPlaintext key : bytes)
  : comp W goerror (bytes * bytes) :=
  let paddedPlaintext := padPKCS7 unpaddedPlaintext (Z.of_nat BlockSize) in
  _ <-! lift (aes_NewCipher key) ;;
  iv <-! rand_Read BlockSize ;;
  ret (iv, cbc_encrypt (length paddedPlaintext) key iv paddedPlaintext).

Definition unauthenticatedAESCBCDecrypt (iv ciphertext key : bytes) : result goerror bytes :=
  _ <-? aes_NewCipher key ;;
  if negb (length iv =? BlockSize)%nat then Err (ErrorNew "iv length not aes blocksize")
  else if (length ciphertext <? BlockSize)%nat then
    Err (ErrorNew "ciphertext smaller than AES block size")
  else if negb (length ciphertext mod BlockSize =? 0)%nat then
    Err (ErrorNew "aes ciphertext not a multiple of blocksize")
  else unpadPKCS7 (cbc_decrypt (length ciphertext) key iv ciphertext) (Z.of_nat BlockSize).
End aes.

(** ** Diffie-Hellman *)

(** [big.Int.Exp], by squaring. *)
Fixpoint powmod_pos (b m : Z) (e : positive) : Z :=
  match e with
  | xH => b `mod` m
  | xO e' => let r := powmod_pos b m e' in (r * r) `mod` m
  | xI e' => let r := powmod_pos b m e' in (r * r * b) `mod` m
  end.

Definition Exp (b e m : Z) : Z :=
  match e with Zpos p => powmod_pos b m p | _ => 1 `mod` m end.

(** [big.Int.FillBytes] into [n] bytes, big endian. *)
Fixpoint FillBytes (n : nat) (z : Z) : bytes :=
  match n with
  | O => []
  | S n' => FillBytes n' (z / 256) ++ [byte_of_Z z]
  end.

Definition SetBytes (b : bytes) : Z :=
  fold_left (fun acc x => (acc * 256 + Z_of_byte x)%Z) b 0%Z.

(** [big.Int.BitLen] and [big.Int.Bytes], the minimal big-endian form. *)
Definition BitLen (z : Z) : Z := if (z =? 0)%Z then 0 else Z.log2 z + 1.
Definition big_Bytes (z : Z) : bytes := FillBytes (Z.to_nat ((BitLen z + 7) / 8)) z.

Record dhGroup : Type := { dh_g : Z; dh_p : Z; dh_pMinus1 : Z }.

Definition bigOne : Z := 1.

(** The loop of [NewKeypair] draws until the draw is positive. *)
Fixpoint NewKeypair `{Entropy W} (fuel : nat) (group : dhGroup) : comp W goerror (Z * Z) :=
  match fuel with
  | O => throw (Sentinel "model: out of fuel")
  | S fuel' =>
      private <-! rand_Int (dh_pMinus1 group) ;;
      if (0 <? private)%Z then ret (private, Exp (dh_g group) private (dh_p group))
      else NewKeypair fuel' group
  end.

Definition diffieHellman (group : dhGroup) (theirPublic myPrivate : Z) : result goerror Z :=
  if ((theirPublic <=? bigOne) || (dh_pMinus1 group <=? theirPublic))%Z
  then Err (ErrorNew "ssh: DH parameter out of bounds")
  else Ok (Exp theirPublic myPrivate (dh_p group)).

Definition secondOakleyPrime : Z :=
  0xFFFFFFFFFFFFFFFFC90FDAA22168C234C4C6628B80DC1CD129024E088A67CC74020BBEA63B139B22514A08798E3404DDEF9519B3CD3A431B302B0A6DF25F14374FE1356D6D51C245E485B576625E7EC6F44C42E9A637ED6B0BFF5CB6F406B7EDEE386BFB5A899FA5AE9F24117C4B1FE649286651ECE65381FFFFFFFFFFFFFFFF.

Definition rfc2409SecondOakleyGroup : dhGroup :=
  {| dh_g := 2; dh_p := secondOakleyPrime; dh_pMinus1 := secondOakleyPrime - bigOne |}.

(** [keygenHKDFSHA256AES128]; [hkdf] reads a number of bytes of HKDF-SHA256 of
    the input keying material. *)
Definition keygenHKDFSHA256AES128 (hkdf : bytes -> nat -> result goerror bytes) (group : dhGroup)
    (theirPublic myPrivate : Z) : result goerror bytes :=
  sharedSecret <-? diffieHellman group theirPublic myPrivate ;;
  let sharedSecretBytes := FillBytes (Z.to_nat ((BitLen (dh_p group) + 7) / 8)) sharedSecret in
  hkdf sharedSecretBytes 16.

(** ** The bus *)

Record Secret : Type := {
  sec_Session : ObjectPath;
  sec_Parameters : bytes;
  sec_Value : bytes;
  sec_ContentType : string
}.

Record Session : Type := {
  ses_Mode : AuthenticationMode;
  ses_Path : ObjectPath;
  ses_Public : Z;
  ses_Private : Z;
  ses_AESKey : bytes
}.

(** The D-Bus values the client sends and expects. *)
Inductive Variant : Type :=
| VString (s : string)
| VPath (p : ObjectPath)
| VPaths (ps : list ObjectPath)
| VBool (b : bool)
| VBytes (b : bytes)
| VAttributes (a : gmap string string)
| VProperties (p : list (string * Variant))
| VSecret (s : Secret)
| VVariant (v : Variant)
| VOther.

(** What a receive on the signal channel, raced with a 30 second timer, gives. *)
Inductive SignalEvent : Type :=
| Signal (Name : string) (Body : list Variant)
| NilSignal
| ChannelClosed
| TimerFired.

(** The D-Bus connection (github.com/godbus/dbus) over a state [W]. *)
Class Bus (W : Type) : Type := {
  SessionBusPrivateNoAutoStartup : comp W goerror unit;
  Conn_Auth : comp W goerror unit;
  Conn_Hello : comp W goerror unit;
  Conn_Close : comp W goerror unit;
  Conn_Call : ObjectPath -> string -> list Variant -> comp W goerror (list Variant);
  BusObject_Call : string -> list Variant -> comp W goerror (list Variant);
  Conn_GetProperty : ObjectPath -> string -> comp W goerror Variant;
  Conn_SetProperty : ObjectPath -> string -> Variant -> comp W goerror unit;
  next_signal : W -> SignalEvent * W;
  session_timer : W -> bool * W
}.

Definition SecretServiceInterface : string := "org.freedesktop.secrets".
Definition SecretServiceObjectPath : ObjectPath := "/org/freedesktop/secrets".
Definition AuthenticationInsecurePlain : AuthenticationMode := "plain".
Definition AuthenticationDHAES : AuthenticationMode := "dh-ietf1024-sha256-aes128-cbc-pkcs7".
Definition NullPrompt : ObjectPath := "/".
Definition ReplaceBehaviorDoNotReplace : Z := 0.
Definition ReplaceBehaviorReplace : Z := 1.
Definition ErrNoSessionBus : goerror := Sentinel "no D-Bus session bus available".
Definition ErrNoSecretService : goerror :=
  Sentinel "no org.freedesktop.secrets owner on the session bus".
Definition PromptDismissedError : goerror := ErrorNew "prompt dismissed".
Definition nameHasOwnerMethod : string := "org.freedesktop.DBus.NameHasOwner".
Definition collectionsProperty : string := "org.freedesktop.Secret.Service.Collections".
Definition readAliasMethod : string := "org.freedesktop.Secret.Service.ReadAlias".
Definition collectionLockedProp : string := "org.freedesktop.Secret.Collection.Locked".

(** [dbus.Store] into destinations of a type: an error when the number or the
    types of the values do not fit. *)
Definition storeError : goerror := ErrorNew "dbus.Store: type mismatch".
Definition store_path (vs : list Variant) : result goerror ObjectPath :=
  match vs with [VPath p] => Ok p | _ => Err storeError end.
Definition store_paths (vs : list Variant) : result goerror (list ObjectPath) :=
  match vs with [VPaths p] => Ok p | _ => Err storeError end.
Definition store_bool (vs : list Variant) : result goerror bool :=
  match vs with [VBool b] => Ok b | _ => Err storeError end.
Definition store_variant_path (vs : list Variant) : result goerror (Variant * ObjectPath) :=
  match vs with [VVariant v; VPath p] => Ok (v, p) | _ => Err storeError end.
Definition store_path_path (vs : list Variant) : result goerror (ObjectPath * ObjectPath) :=
  match vs with [VPath i; VPath p] => Ok (i, p) | _ => Err storeError end.
Definition store_paths_path (vs : list Variant) : result goerror (list ObjectPath * ObjectPath) :=
  match vs with [VPaths i; VPath p] => Ok (i, p) | _ => Err storeError end.
Definition store_secret (vs : list Variant) : result goerror Secret :=
  match vs with [VSecret s] => Ok s | _ => Err storeError end.
Definition store_prompt (vs : list Variant) : result goerror (bool * Variant) :=
  match vs with [VBool d; VVariant v] => Ok (d, v) | _ => Err storeError end.

(** Wrap an error with a format string. *)
Definition wrapped {W A} (format : string) (m : comp W goerror A) : comp W goerror A := fun w =>
  match m w with
  | (Ok a, w') => (Ok a, w')
  | (Err e, w') => (Err (Wrap format [e]), w')
  end.

Definition store_nothing (vs : list Variant) : result goerror unit :=
  match vs with [] => Ok tt | _ => Err storeError end.

(** ** The session bus address *)

(** The entries of a [unix:] address; [unescape] is
    [dbus.UnescapeBusAddressValue]. *)
Fixpoint unix_path_entry (unescape : string -> result goerror string) (kvs : list string)
  : option string :=
  match kvs with
  | [] => None
  | kv :: kvs' =>
      let '(key, value, found) := Cut kv "=" in
      if found && String.eqb key "path" then
        match unescape value with
        | Ok unescaped => Some unescaped
        | Err _ => Some value
        end
      else unix_path_entry unescape kvs'
  end.

Definition unixSocketPath (unescape : string -> result goerror string) (entry : string)
  : option string :=
  if negb (HasPrefix entry "unix:") then None
  else unix_path_entry unescape (Split (TrimPrefix entry "unix:") ",").

(** The loop over the entries: [None] for "cannot rule the bus out". *)
Fixpoint missing_sockets (unescape : string -> result goerror string)
    (stat : string -> option goerror) (entries missing : list string) : option (list string) :=
  match entries with
  | [] => Some missing
  | entry :: entries' =>
      if String.eqb entry "" then missing_sockets unescape stat entries' missing
      else match unixSocketPath unescape entry with
           | None => None
           | Some path =>
               match stat path with
               | Some err =>
                   if errors_Is err (Sentinel "os.ErrNotExist")
                   then missing_sockets unescape stat entries' (missing ++ [path])
                   else None
               | None => None
               end
           end
  end.

(** [sessionBusMissingSocket]; [addr] is DBUS_SESSION_BUS_ADDRESS, [stat] the
    error of [os.Stat]. *)
Definition sessionBusMissingSocket (unescape : string -> result goerror string)
    (stat : string -> option goerror) (addr : string) : string * bool :=
  if String.eqb addr "" || String.eqb addr "autolaunch:" then ("", false)
  else match missing_sockets unescape stat (Split addr ";") [] with
       | None => ("", false)
       | Some [] => ("", false)
       | Some missing => (StringsJoin missing ", ", true)
       end.

(** ** The client *)

Section client.
Context {W : Type} `{Bus W} `{Entropy W}.
Context (aes_encrypt aes_decrypt : bytes -> bytes -> bytes).
Context (hkdf : bytes -> nat -> result goerror bytes).

(** [NewService]; [missing] is the outcome of [sessionBusMissingSocket]. *)
Definition NewService (missing : string * bool) : comp W goerror unit :=
  if missing.2 then throw (Wrap "%w: no session bus socket exists (%s)" [ErrNoSessionBus])
  else
    _ <-! (fun w => match SessionBusPrivateNoAutoStartup w with
                    | (Ok a, w') => (Ok a, w')
                    | (Err err, w') => (Err (Wrap "%w: %w" [ErrNoSessionBus; err]), w')
                    end) ;;
    _ <-! try Conn_Auth (fun r => match r with
            | Ok a => ret a
            | Err err => try Conn_Close (fun _ =>
                throw (Wrap "failed to authenticate to dbus session bus: %w" [err]))
            end) ;;
    try Conn_Hello (fun r => match r with
            | Ok a => ret a
            | Err err => try Conn_Close (fun _ =>
                throw (Wrap "failed to complete dbus Hello handshake: %w" [err]))
            end).

Definition Close : comp W goerror unit := Conn_Close.

Definition Available : comp W goerror unit :=
  body <-! BusObject_Call nameHasOwnerMethod [VString SecretServiceInterface] ;;
  hasOwner <-! lift (store_bool body) ;;
  if negb hasOwner then throw ErrNoSecretService else ret tt.

Definition Collections : comp W goerror (list ObjectPath) :=
  variant <-! Conn_GetProperty SecretServiceObjectPath collectionsProperty ;;
  match variant with
  | VPaths collections => ret collections
  | _ => throw (ErrorNew "could not list keychain collections")
  end.

Definition ReadAlias (alias : string) : comp W goerror ObjectPath :=
  body <-! Conn_Call SecretServiceObjectPath readAliasMethod [VString alias] ;;
  lift (store_path body).

Definition IsLocked (collection : ObjectPath) : comp W goerror bool :=
  variant <-! Conn_GetProperty collection collectionLockedProp ;;
  match variant with
  | VBool locked => ret locked
  | _ => throw (ErrorNew "unexpected type for collection locked property")
  end.

Definition openSessionRaw (mode : AuthenticationMode) (sessionAlgorithmInput : Variant)
  : comp W goerror (Variant * ObjectPath) :=
  wrapped "failed to open secretservice session: %w" (
    body <-! Conn_Call SecretServiceObjectPath "org.freedesktop.Secret.Service.OpenSession"
               [VString mode; VVariant sessionAlgorithmInput] ;;
    lift (store_variant_path body)).

(** The [select] of [OpenSession]: the answer of the goroutine or the timer,
    whichever comes first. *)
Definition await_session (mode : AuthenticationMode) (input : Variant)
  : comp W goerror (Variant * ObjectPath) := fun w =>
  let '(r, w) := openSessionRaw mode input w in
  let '(elapsed, w) := session_timer w in
  if elapsed : bool then (Err (ErrorNew "timed out after %s"), w) else (r, w).

Definition OpenSession (fuel : nat) (mode : AuthenticationMode) : comp W goerror Session :=
  if String.eqb mode AuthenticationInsecurePlain then
    '(_, path) <-! await_session mode (VString "") ;;
    ret {| ses_Mode := mode; ses_Path := path; ses_Public := 0; ses_Private := 0;
           ses_AESKey := [] |}
  else if String.eqb mode AuthenticationDHAES then
    let group := rfc2409SecondOakleyGroup in
    '(private, public) <-! NewKeypair fuel group ;;
    '(output, path) <-! await_session mode (VBytes (big_Bytes public)) ;;
    match output with
    | VBytes theirPublicBigEndian =>
        aesKey <-! lift (keygenHKDFSHA256AES128 hkdf group (SetBytes theirPublicBigEndian) private) ;;
        ret {| ses_Mode := mode; ses_Path := path; ses_Public := public; ses_Private := private;
               ses_AESKey := aesKey |}
    | _ => throw (ErrorNew "failed to coerce algorithm output value to byteslice")
    end
  else throw (ErrorNew "unknown authentication mode %v").

Definition CloseSession (session : Session) : comp W goerror unit :=
  try (Conn_Call (ses_Path session) "org.freedesktop.Secret.Session.Close" []) (fun _ => ret tt).

Definition SearchCollection (collection : ObjectPath) (attributes : gmap string string)
  : comp W goerror (list ObjectPath) :=
  wrapped "failed to search collection: %w" (
    body <-! Conn_Call collection "org.freedesktop.Secret.Collection.SearchItems"
               [VAttributes attributes] ;;
    lift (store_paths body)).

(** The receive loop of [PromptAndWait]: [fuel] bounds the number of signals
    that are not the completion of a prompt. *)
Fixpoint await_prompt (fuel : nat) : comp W goerror (option Variant) :=
  match fuel with
  | O => throw (Sentinel "model: out of fuel")
  | S fuel' => fun w =>
      let '(ev, w) := next_signal w in
      match ev with
      | ChannelClosed => (Err (ErrorNew "prompt channel closed"), w)
      | NilSignal => await_prompt fuel' w
      | TimerFired => (Err (ErrorNew "prompt timed out"), w)
      | Signal name body =>
          if negb (String.eqb name "org.freedesktop.Secret.Prompt.Completed")
          then await_prompt fuel' w
          else match store_prompt body with
               | Err err => (Err (Wrap "failed to unmarshal prompt result: %w" [err]), w)
               | Ok (dismissed, paths) =>
                   if dismissed : bool then (Err PromptDismissedError, w)
                   else (Ok (Some paths), w)
               end
      end
  end.

Definition PromptAndWait (fuel : nat) (prompt : ObjectPath) : comp W goerror (option Variant) :=
  if String.eqb prompt NullPrompt then ret None
  else
    _ <-! wrapped "failed to prompt: %w"
            (Conn_Call prompt "org.freedesktop.Secret.Prompt.Prompt" [VString "Keyring Prompt"]) ;;
    await_prompt fuel.

Definition CreateItem (fuel : nat) (collection : ObjectPath) (properties : list (string * Variant))
    (secret : Secret) (replaceBehavior : Z) : comp W goerror ObjectPath :=
  replace <-! (if (replaceBehavior =? ReplaceBehaviorDoNotReplace)%Z then ret false
               else if (replaceBehavior =? ReplaceBehaviorReplace)%Z then ret true
               else throw (ErrorNew "unknown replace behavior %d")) ;;
  '(item, prompt) <-! wrapped "failed to create item: %w" (
    body <-! Conn_Call collection "org.freedesktop.Secret.Collection.CreateItem"
               [VProperties properties; VSecret secret; VBool replace] ;;
    lift (store_path_path body)) ;;
  _ <-! PromptAndWait fuel prompt ;;
  ret item.

Definition DeleteItem (fuel : nat) (item : ObjectPath) : comp W goerror unit :=
  prompt <-! wrapped "failed to delete item: %w" (
    body <-! Conn_Call item "org.freedesktop.Secret.Item.Delete" [] ;;
    lift (store_path body)) ;;
  _ <-! PromptAndWait fuel prompt ;;
  ret tt.

Definition GetAttributes (item : ObjectPath) : comp W goerror (gmap string string) :=
  attributesV <-! wrapped "failed to get attributes: %w"
                    (Conn_GetProperty item "org.freedesktop.Secret.Item.Attributes") ;;
  match attributesV with
  | VAttributes attributesMap => ret attributesMap
  | _ => throw (ErrorNew "failed to coerce item attributes")
  end.

(** The mode switch of [GetSecret]. *)
Definition decryptValue (session : Session) (secret : Secret) : result goerror bytes :=
  if String.eqb (ses_Mode session) AuthenticationInsecurePlain then Ok (sec_Value secret)
  else if String.eqb (ses_Mode session) AuthenticationDHAES then
    match unauthenticatedAESCBCDecrypt aes_decrypt (sec_Parameters secret) (sec_Value secret)
            (ses_AESKey session) with
    | Ok plaintext => Ok plaintext
    | Err err => Err (Wrap "failed to decrypt secret: %w" [err])
    end
  else Err (ErrorNew "cannot make secret for authentication mode %v").

Definition GetSecret (item : ObjectPath) (session : Session) : comp W goerror bytes :=
  body <-! wrapped "failed to get secret: %w"
             (Conn_Call item "org.freedesktop.Secret.Item.GetSecret" [VPath (ses_Path session)]) ;;
  secret <-! wrapped "failed to unmarshal get secret result: %w" (lift (store_secret body)) ;;
  lift (decryptValue session secret).

(** [Unlock] and [LockItems] differ in the method they call. *)
Definition change_lock (method what : string) (fuel : nat) (items : list ObjectPath)
  : comp W goerror unit :=
  '(_, prompt) <-! wrapped what (
    body <-! Conn_Call SecretServiceObjectPath method [VPaths items] ;;
    lift (store_paths_path body)) ;;
  _ <-! wrapped "failed to prompt: %w" (PromptAndWait fuel prompt) ;;
  ret tt.

Definition Unlock : nat -> list ObjectPath -> comp W goerror unit :=
  change_lock "org.freedesktop.Secret.Service.Unlock" "failed to unlock items: %w".

Definition LockItems : nat -> list ObjectPath -> comp W goerror unit :=
  change_lock "org.freedesktop.Secret.Service.Lock" "failed to lock items: %w".

Definition SetItemSecret (item : ObjectPath) (secret : Secret) : comp W goerror unit :=
  wrapped "failed to set item secret: %w" (
    body <-! Conn_Call item "org.freedesktop.Secret.Item.SetSecret" [VSecret secret] ;;
    lift (store_nothing body)).

Definition SetItemAttributes (item : ObjectPath) (attributes : gmap string string)
  : comp W goerror unit :=
  wrapped "failed to set item attributes: %w"
    (Conn_SetProperty item "org.freedesktop.Secret.Item.Attributes" (VAttributes attributes)).

Definition SetItemLabel (item : ObjectPath) (label : string) : comp W goerror unit :=
  wrapped "failed to set item label: %w"
    (Conn_SetProperty item "org.freedesktop.Secret.Item.Label" (VString label)).

Definition NewSecretProperties (label : string) (attributes : gmap string string)
  : list (string * Variant) :=
  [("org.freedesktop.Secret.Item.Label", VString label);
   ("org.freedesktop.Secret.Item.Attributes", VAttributes attributes)].

Definition NewSecret (session : Session) (secretBytes : bytes) : comp W goerror Secret :=
  if String.eqb (ses_Mode session) AuthenticationInsecurePlain then
    ret {| sec_Session := ses_Path session; sec_Parameters := []; sec_Value := secretBytes;
           sec_ContentType := "application/octet-stream" |}
  else if String.eqb (ses_Mode session) AuthenticationDHAES then
    '(iv, ciphertext) <-! unauthenticatedAESCBCEncrypt aes_encrypt secretBytes (ses_AESKey session) ;;
    ret {| sec_Session := ses_Path session; sec_Parameters := iv; sec_Value := ciphertext;
           sec_ContentType := "application/octet-stream" |}
  else throw (ErrorNew "cannot make secret for authentication mode %v").
End client.

Lemma runs_wrapped {W A} format (m : comp W goerror A) w Q :
  runs m w Q -> runs (wrapped format m) w Q.
Proof. intros (a & w' & Hm & HQ). exists a, w'. unfold wrapped. by rewrite Hm. Qed.

(** ** Lemmas: bytes *)

Lemma Z_of_byte_of_Z z : Z_of_byte (byte_of_Z z) = (z `mod` 256)%Z.
Proof.
  unfold Z_of_byte, byte_of_Z.
  assert (Hm : (0 <= z `mod` 256 < 256)%Z) by (apply Z.mod_pos_bound; lia).
  destruct (Byte.of_N (Z.to_N (z `mod` 256))) as [b|] eqn:Hb; simpl.
  - apply Byte.to_of_N in Hb. rewrite Hb. lia.
  - exfalso. apply Byte.of_N_None_iff in Hb. lia.
Qed.

Lemma byte_of_Z_of_byte b : byte_of_Z (Z_of_byte b) = b.
Proof.
  unfold Z_of_byte, byte_of_Z. pose proof (Byte.to_N_bounded b) as Hb.
  rewrite Z.mod_small by lia. rewrite N2Z.id, Byte.of_to_N. done.
Qed.

Lemma Z_of_byte_range b : (0 <= Z_of_byte b < 256)%Z.
Proof. unfold Z_of_byte. pose proof (Byte.to_N_bounded b). lia. Qed.

Lemma byte_xor_cancel a b : byte_xor a (byte_xor a b) = b.
Proof.
  assert (Hx : forall x y, Byte.of_N (N.lxor (Byte.to_N x) (Byte.to_N y)) =
    Some (byte_xor x y)).
  { intros x y. unfold byte_xor. destruct (Byte.of_N _) eqn:Hn; [done|].
    exfalso. apply Byte.of_N_None_iff in Hn.
    pose proof (Byte.to_N_bounded x) as Hbx. pose proof (Byte.to_N_bounded y) as Hby.
    assert (Hlt : (N.lxor (Byte.to_N x) (Byte.to_N y) < 2 ^ 8)%N); [|change (2 ^ 8)%N with 256%N in Hlt; lia].
    destruct (decide (N.lxor (Byte.to_N x) (Byte.to_N y) = 0%N)) as [->|Hne]; [done|].
    apply N.log2_lt_pow2; [lia|]. eapply N.le_lt_trans; [apply N.log2_lxor|].
    apply N.max_lub_lt.
    - destruct (decide (Byte.to_N x = 0%N)) as [->|?]; [done|]. apply N.log2_lt_pow2; [lia|].
      change (2 ^ 8)%N with 256%N. lia.
    - destruct (decide (Byte.to_N y = 0%N)) as [->|?]; [done|]. apply N.log2_lt_pow2; [lia|].
      change (2 ^ 8)%N with 256%N. lia. }
  pose proof (Hx a b) as Hab. apply Byte.to_of_N in Hab.
  pose proof (Hx a (byte_xor a b)) as H2. rewrite Hab in H2.
  rewrite <- N.lxor_assoc, N.lxor_nilpotent, N.lxor_0_l in H2.
  rewrite Byte.of_to_N in H2. by injection H2.
Qed.

Lemma length_xor_bytes a b : length (xor_bytes a b) = Nat.min (length a) (length b).
Proof. apply length_zip_with. Qed.

Lemma xor_bytes_cancel a b : (length b <= length a)%nat -> xor_bytes a (xor_bytes a b) = b.
Proof.
  unfold xor_bytes. revert b. induction a as [|x a IH]; intros [|y b] Hl; simpl in *; try done.
  - lia.
  - rewrite byte_xor_cancel, IH; [done|lia].
Qed.

(** ** Lemmas: padding *)

Lemma pad_amount (l n : Z) : (0 < n < 256)%Z -> (0 <= l)%Z ->
  (0 < n - l `mod` n <= n)%Z /\ ((l + (n - l `mod` n)) `mod` n = 0)%Z.
Proof.
  intros Hn Hl. pose proof (Z.mod_pos_bound l n ltac:(lia)). split; [lia|].
  replace (l + (n - l `mod` n))%Z with (((l / n) + 1) * n)%Z.
  - apply Z.mod_mul. lia.
  - pose proof (Z.div_mod l n ltac:(lia)). lia.
Qed.

(** The padding is [m] bytes of value [m], where [m] completes the last block. *)
Lemma padPKCS7_eq xs n : (0 < n < 256)%Z ->
  let m := (n - Z.of_nat (length xs) `mod` n)%Z in
  padPKCS7 xs n = xs ++ repeat (byte_of_Z m) (Z.to_nat m) /\ Z_of_byte (byte_of_Z m) = m.
Proof.
  intros Hn m. destruct (pad_amount (Z.of_nat (length xs)) n Hn) as [Hm _]; [lia|].
  fold m in Hm. assert (Hz : Z_of_byte (byte_of_Z m) = m).
  { rewrite Z_of_byte_of_Z, Z.mod_small; lia. }
  split; [|done]. unfold padPKCS7. fold m.
  destruct (Byte.eqb (byte_of_Z m) Byte.x00) eqn:He.
  - apply Byte.byte_dec_bl in He. rewrite He in Hz. change (0 = m)%Z in Hz. lia.
  - by rewrite Hz.
Qed.

Lemma length_padPKCS7 xs n : (0 < n < 256)%Z ->
  (Z.of_nat (length (padPKCS7 xs n)) `mod` n = 0)%Z /\
  (Z.of_nat (length xs) < Z.of_nat (length (padPKCS7 xs n)))%Z.
Proof.
  intros Hn. destruct (padPKCS7_eq xs n Hn) as [-> _].
  destruct (pad_amount (Z.of_nat (length xs)) n Hn) as [Hm Hd]; [lia|].
  set (m := (n - _)%Z) in *. clearbody m.
  rewrite length_app, repeat_length, Nat2Z.inj_add, Z2Nat.id by lia. split; [done|lia].
Qed.

Lemma last_repeat {A} (xs : list A) (b : A) n : (0 < n)%nat ->
  list.last (xs ++ repeat b n) = Some b.
Proof.
  intros Hn. destruct n as [|n]; [lia|]. cbn [repeat]. rewrite repeat_cons, app_assoc. apply last_snoc.
Qed.

Lemma unpad_pad xs n : (0 < n < 256)%Z -> unpadPKCS7 (padPKCS7 xs n) n = Ok xs.
Proof.
  intros Hn. pose proof (length_padPKCS7 xs n Hn) as [Hmod _].
  destruct (padPKCS7_eq xs n Hn) as [He Hz].
  set (m := (n - Z.of_nat (length xs) `mod` n)%Z) in *.
  destruct (pad_amount (Z.of_nat (length xs)) n Hn) as [Hm _]; [lia|]. fold m in Hm.
  unfold unpadPKCS7. rewrite Hmod. rewrite He at 1. rewrite last_repeat by lia.
  rewrite Z.eqb_refl. simpl negb. cbv iota.
  assert (Hidx : (Z.of_nat (length (padPKCS7 xs n)) - Z_of_byte (byte_of_Z m))%Z
    = Z.of_nat (length xs)).
  { rewrite Hz, He, length_app, repeat_length. lia. }
  rewrite Hidx, Nat2Z.id. cbv zeta.
  assert (Hneg : (Z.of_nat (length xs) <? 0)%Z = false) by (apply Z.ltb_ge; lia).
  rewrite Hneg, He, drop_app_length, take_app_length.
  assert (Hall : forallb (Byte.eqb (byte_of_Z m)) (repeat (byte_of_Z m) (Z.to_nat m)) = true).
  { apply forallb_forall. intros y Hy. apply repeat_spec in Hy as ->. by apply Byte.byte_dec_lb. }
  by rewrite Hall.
Qed.

(** ** Lemmas: CBC *)

Section cbc.
Context (aes_encrypt aes_decrypt : bytes -> bytes -> bytes).
(** AES is a permutation of the 16-byte blocks under every key. *)
Context (aes_block : forall key b, length b = BlockSize ->
  length (aes_encrypt key b) = BlockSize /\ aes_decrypt key (aes_encrypt key b) = b).

Lemma cbc_decrypt_encrypt k fuel fuel' key prev xs :
  length prev = BlockSize -> length xs = (k * BlockSize)%nat -> (k <= fuel)%nat -> (k <= fuel')%nat ->
  length (cbc_encrypt aes_encrypt fuel key prev xs) = length xs /\
  cbc_decrypt aes_decrypt fuel' key prev (cbc_encrypt aes_encrypt fuel key prev xs) = xs.
Proof.
  revert fuel fuel' prev xs.
  induction k as [|k IH]; intros fuel fuel' prev xs Hp Hl Hf Hf'.
  { apply nil_length_inv in Hl as ->. by destruct fuel, fuel'. }
  destruct fuel as [|fuel]; [lia|]. destruct fuel' as [|fuel']; [lia|].
  assert (Hne : xs <> []) by (intros ->; simpl in Hl; unfold BlockSize in Hl; lia).
  cbn [cbc_encrypt]. destruct xs as [|x xs']; [done|]. set (xs := x :: xs') in *. clearbody xs.
  set (c := aes_encrypt key (xor_bytes prev (take BlockSize xs))).
  assert (Hb : length (xor_bytes prev (take BlockSize xs)) = BlockSize).
  { rewrite length_xor_bytes, length_take, Hp, Hl. lia. }
  destruct (aes_block key _ Hb) as [Hlc Hdc]. fold c in Hlc, Hdc.
  assert (Hrest : length (drop BlockSize xs) = (k * BlockSize)%nat) by (rewrite length_drop; lia).
  destruct (IH fuel fuel' c (drop BlockSize xs) Hlc Hrest) as [Hle Hde]; [lia..|].
  split.
  - rewrite length_app, Hle, length_drop, Hlc. lia.
  - assert (Hcne : exists c0 c', c = c0 :: c').
    { destruct c as [|c0 c']; [discriminate Hlc|eauto]. }
    cbn [cbc_decrypt]. destruct Hcne as (c0 & c' & Hc). rewrite Hc at 1. cbn [app].
    rewrite take_app_length', drop_app_length', Hde, Hdc by done.
    rewrite xor_bytes_cancel; [apply take_drop|]. rewrite length_take. lia.
Qed.

Lemma aes_cbc_roundtrip `{Entropy W} xs key iv ciphertext w w' :
  (forall n u b u', rand_Read n u = (Ok b, u') -> length b = n) ->
  unauthenticatedAESCBCEncrypt aes_encrypt xs key w = (Ok (iv, ciphertext), w') ->
  unauthenticatedAESCBCDecrypt aes_decrypt iv ciphertext key = Ok xs.
Proof.
  intros Hrand Hrun. unfold unauthenticatedAESCBCEncrypt in Hrun.
  apply bind_Ok_inv in Hrun as (u & w1 & Hkey & Hrun).
  apply bind_Ok_inv in Hrun as (iv' & w2 & Hiv & Hrun).
  unfold lift in Hkey. unfold ret in Hrun. simplify_eq/=. apply Hrand in Hiv.
  set (p := padPKCS7 xs (Z.of_nat BlockSize)).
  destruct (length_padPKCS7 xs (Z.of_nat BlockSize)) as [Hmod Hlong]; [unfold BlockSize; lia|].
  fold p in Hmod, Hlong. rewrite <- Nat2Z.inj_mod in Hmod.
  assert (Hmul : length p = (length p / BlockSize * BlockSize)%nat).
  { pose proof (Nat.div_mod_eq (length p) BlockSize). lia. }
  assert (Hk : (length p / BlockSize <= length p)%nat) by (apply Nat.Div0.div_le_upper_bound; unfold BlockSize; lia).
  destruct (cbc_decrypt_encrypt (length p / BlockSize) (length p) (length p) key iv p)
    as [Hle Hde]; [done..|].
  unfold unauthenticatedAESCBCDecrypt. fold p.
  match goal with Hk : aes_NewCipher key = Ok _ |- _ => rewrite Hk end. unfold result_bind.
  rewrite Hle, Hiv, Nat.eqb_refl, Hde.
  assert (Hlt : (length p <? BlockSize)%nat = false).
  { apply Nat.ltb_ge. destruct (length p / BlockSize)%nat eqn:Hq; [lia|]. unfold BlockSize in *. lia. }
  assert (Hm0 : (length p mod BlockSize =? 0)%nat = true) by (apply Nat.eqb_eq; lia).
  rewrite Hlt. rewrite Hm0. simpl negb. apply unpad_pad. unfold BlockSize. lia.
Qed.
End cbc.

(** ** Lemmas: modular exponentiation *)

Lemma powmod_pos_spec b m e : (0 < m)%Z -> powmod_pos b m e = (b ^ Zpos e `mod` m)%Z.
Proof.
  intros Hm. induction e as [e IH|e IH|]; simpl powmod_pos.
  - rewrite IH. replace (Zpos e~1) with (Zpos e + Zpos e + 1)%Z by lia.
    rewrite !Z.pow_add_r, Z.pow_1_r by lia.
    rewrite <- Z.mul_mod_idemp_l by lia. rewrite <- Z.mul_mod by lia.
    by rewrite Z.mul_mod_idemp_l by lia.
  - rewrite IH. replace (Zpos e~0) with (Zpos e + Zpos e)%Z by lia.
    rewrite Z.pow_add_r by lia. by rewrite <- Z.mul_mod by lia.
  - by rewrite Z.pow_1_r.
Qed.

Lemma Exp_spec b e m : (0 < m)%Z -> (0 <= e)%Z -> Exp b e m = (b ^ e `mod` m)%Z.
Proof. intros Hm He. destruct e as [|e|e]; [done|by apply powmod_pos_spec|lia]. Qed.

Lemma pow_mod_l b e m : (0 < m)%Z -> (0 <= e)%Z -> ((b `mod` m) ^ e `mod` m = b ^ e `mod` m)%Z.
Proof.
  intros Hm. revert e. apply natlike_ind; [done|]. intros e He IH.
  rewrite !Z.pow_succ_r by done. rewrite Z.mul_mod, IH, Z.mod_mod by lia.
  by rewrite <- Z.mul_mod by lia.
Qed.

Lemma Exp_commutes g a b p : (0 < p)%Z -> (0 <= a)%Z -> (0 <= b)%Z ->
  Exp (Exp g a p) b p = Exp (Exp g b p) a p.
Proof.
  intros Hp Ha Hb. rewrite !Exp_spec by done. rewrite !pow_mod_l by done.
  rewrite <- !Z.pow_mul_r by done. by rewrite Z.mul_comm.
Qed.

(** ** Lemmas: the big-endian form of an integer *)

Lemma SetBytes_snoc b x : SetBytes (b ++ [x]) = (SetBytes b * 256 + Z_of_byte x)%Z.
Proof. unfold SetBytes. by rewrite fold_left_app. Qed.

Lemma SetBytes_FillBytes n z : (0 <= z < 256 ^ Z.of_nat n)%Z -> SetBytes (FillBytes n z) = z.
Proof.
  revert z. induction n as [|n IH]; intros z Hz; [simpl in *; unfold SetBytes; simpl; lia|].
  cbn [FillBytes]. rewrite SetBytes_snoc, Z_of_byte_of_Z, IH.
  - pose proof (Z.div_mod z 256). lia.
  - rewrite Nat2Z.inj_succ, Z.pow_succ_r in Hz by lia. split; [apply Z.div_pos; lia|].
    apply Z.div_lt_upper_bound; lia.
Qed.

Lemma length_FillBytes n z : length (FillBytes n z) = n.
Proof. revert z. induction n; intros z; [done|]. cbn [FillBytes]. rewrite length_app, IHn. simpl. lia. Qed.

Lemma BitLen_bound z : (0 <= z)%Z -> (z < 2 ^ BitLen z)%Z /\ (0 <= BitLen z)%Z.
Proof.
  intros Hz. unfold BitLen. destruct (z =? 0)%Z eqn:He; breflect; [lia|].
  pose proof (Z.log2_spec z ltac:(lia)). pose proof (Z.log2_nonneg z).
  replace (Z.log2 z + 1)%Z with (Z.succ (Z.log2 z)) by lia. lia.
Qed.

Lemma SetBytes_big_Bytes z : (0 <= z)%Z -> SetBytes (big_Bytes z) = z.
Proof.
  intros Hz. destruct (BitLen_bound z Hz) as [Hlt Hnn]. unfold big_Bytes.
  apply SetBytes_FillBytes. split; [done|]. eapply Z.lt_le_trans; [exact Hlt|].
  rewrite Z2Nat.id by (apply Z.div_pos; lia).
  change 256%Z with (2 ^ 8)%Z. rewrite <- Z.pow_mul_r by (try apply Z.div_pos; lia).
  apply Z.pow_le_mono_r; [lia|]. pose proof (Z.div_mod (BitLen z + 7) 8).
  pose proof (Z.mod_pos_bound (BitLen z + 7) 8). lia.
Qed.

(** ** Lemmas: the bus address *)

Section sockets.
Context (unescape : string -> result goerror string) (stat : string -> option goerror).

(** The entry is a unix socket path that does not exist. *)
Definition missing_entry (entry path : string) : Prop :=
  unixSocketPath unescape entry = Some path /\
  exists err, stat path = Some err /\ errors_Is err (Sentinel "os.ErrNotExist") = true.

Lemma missing_sockets_spec entries missing paths :
  missing_sockets unescape stat entries missing = Some paths <->
  exists found, paths = missing ++ found /\
    Forall2 missing_entry (base.filter (fun e => e <> "") entries) found.
Proof.
  revert missing. induction entries as [|e entries IH]; intros missing; simpl.
  - split; [intros [= <-]; exists []; by rewrite app_nil_r|].
    intros (found & -> & HF). inversion HF; subst. by rewrite app_nil_r.
  - rewrite filter_cons. destruct (String.eqb e "") eqn:He; breflect.
    { rewrite decide_False by naive_solver. apply IH. }
    rewrite decide_True by done.
    assert (Hinv : forall found, Forall2 missing_entry (e :: base.filter (fun e => e <> "") entries) found ->
      exists p found', found = p :: found' /\ missing_entry e p /\
        Forall2 missing_entry (base.filter (fun e => e <> "") entries) found').
    { intros found HF. inversion HF; subst; eauto. }
    destruct (unixSocketPath unescape e) as [p|] eqn:Hu.
    2: { split; [done|]. intros (? & _ & HF). apply Hinv in HF as (? & ? & _ & [Hp _] & _). congruence. }
    destruct (stat p) as [err|] eqn:Hs.
    2: { split; [done|]. intros (? & _ & HF).
         apply Hinv in HF as (? & ? & _ & [Hp (? & ? & _)] & _). congruence. }
    destruct (errors_Is err _) eqn:Hi.
    + rewrite IH. split.
      * intros (found & -> & HF). exists (p :: found). rewrite <- app_assoc. split; [done|].
        constructor; [|done]. split; eauto.
      * intros (found & -> & HF). apply Hinv in HF as (p' & found' & -> & [Hp _] & HF).
        exists found'. rewrite <- app_assoc. simpl. split; [congruence|done].
    + split; [done|]. intros (? & _ & HF).
      apply Hinv in HF as (? & ? & _ & [Hp (? & ? & ?)] & _). congruence.
Qed.
End sockets.

(** ** Properties of the secret service client *)

(** the PKCS #7 padding round-trips for every block size below 256: padding
    always adds between 1 and [n] bytes, gives whole blocks, and unpadding
    returns the original bytes. *)
Theorem pkcs7_roundtrip xs n : (0 < n < 256)%Z ->
  unpadPKCS7 (padPKCS7 xs n) n = Ok xs /\
  (Z.of_nat (length (padPKCS7 xs n)) `mod` n = 0)%Z /\
  (length xs < length (padPKCS7 xs n))%nat.
Proof.
  intros Hn. split; [by apply unpad_pad|]. destruct (length_padPKCS7 xs n Hn) as [Hm Hl].
  split; [done|lia].
Qed.

Lemma pkcs7_roundtrip_witness :
  let xs := [Byte.x01; Byte.x02] in
  unpadPKCS7 (padPKCS7 xs 4) 4 = Ok xs /\
  (Z.of_nat (length (padPKCS7 xs 4)) `mod` 4 = 0)%Z /\
  (length xs < length (padPKCS7 xs 4))%nat.
Proof. apply pkcs7_roundtrip. lia. Defined.

(** both ends of a session derive the same AES key: each sends its public
    value in the minimal big-endian form, and whatever the leading zeros of the
    shared secret the key material has the length of the group's prime. *)
Theorem dh_key_agreement hkdf group a b :
  let A := Exp (dh_g group) a (dh_p group) in
  let B := Exp (dh_g group) b (dh_p group) in
  (0 < dh_p group)%Z -> (0 <= a)%Z -> (0 <= b)%Z ->
  (1 < A < dh_pMinus1 group)%Z -> (1 < B < dh_pMinus1 group)%Z ->
  let key := hkdf (FillBytes (Z.to_nat ((BitLen (dh_p group) + 7) / 8)) (Exp B a (dh_p group))) 16%nat in
  keygenHKDFSHA256AES128 hkdf group (SetBytes (big_Bytes B)) a = key /\
  keygenHKDFSHA256AES128 hkdf group (SetBytes (big_Bytes A)) b = key /\
  SetBytes (FillBytes (Z.to_nat ((BitLen (dh_p group) + 7) / 8)) (Exp B a (dh_p group)))
    = Exp B a (dh_p group).
Proof.
  intros A B Hp Ha Hb HA HB key. rewrite !SetBytes_big_Bytes by lia.
  unfold keygenHKDFSHA256AES128, diffieHellman, bigOne.
  assert (HcA : ((A <=? 1) || (dh_pMinus1 group <=? A))%Z = false).
  { apply orb_false_iff. split; [apply Z.leb_gt|apply Z.leb_gt]; lia. }
  assert (HcB : ((B <=? 1) || (dh_pMinus1 group <=? B))%Z = false).
  { apply orb_false_iff. split; [apply Z.leb_gt|apply Z.leb_gt]; lia. }
  rewrite HcA, HcB. simpl. split; [done|]. split.
  - unfold key, A, B. by rewrite Exp_commutes.
  - apply SetBytes_FillBytes. rewrite Exp_spec by lia.
    pose proof (Z.mod_pos_bound (B ^ a) (dh_p group) Hp) as Hbd. split; [lia|].
    destruct (BitLen_bound (dh_p group)) as [Hlt Hnn]; [lia|].
    eapply Z.lt_le_trans; [apply Hbd|]. apply Z.lt_le_incl. eapply Z.lt_le_trans; [exact Hlt|].
    rewrite Z2Nat.id by (apply Z.div_pos; lia). change 256%Z with (2 ^ 8)%Z.
    rewrite <- Z.pow_mul_r by (try apply Z.div_pos; lia). apply Z.pow_le_mono_r; [lia|].
    pose proof (Z.div_mod (BitLen (dh_p group) + 7) 8).
    pose proof (Z.mod_pos_bound (BitLen (dh_p group) + 7) 8). lia.
Qed.

Lemma dh_key_agreement_witness :
  let group := {| dh_g := 2; dh_p := 1019; dh_pMinus1 := 1018 |} in
  let hkdf := fun ikm (n : nat) => Ok (take n (ikm ++ repeat Byte.x00 n)) in
  let key := hkdf (FillBytes 2 (Exp (Exp 2 77 1019) 300 1019)) 16%nat in
  keygenHKDFSHA256AES128 hkdf group (SetBytes (big_Bytes (Exp 2 77 1019))) 300 = key /\
  keygenHKDFSHA256AES128 hkdf group (SetBytes (big_Bytes (Exp 2 300 1019))) 77 = key /\
  SetBytes (FillBytes 2 (Exp (Exp 2 77 1019) 300 1019)) = Exp (Exp 2 77 1019) 300 1019.
Proof.
  apply (dh_key_agreement (fun ikm (n : nat) => Ok (take n (ikm ++ repeat Byte.x00 n)))
    {| dh_g := 2; dh_p := 1019; dh_pMinus1 := 1018 |} 300 77);
    try lia; vm_compute; split; reflexivity.
Defined.

(** C35: a secret encoded for a session is decoded by the same session, in both
    authentication modes: [GetSecret] returns the bytes [NewSecret] was given
    whenever the service answers with that secret. *)
Theorem session_secret_roundtrip {W} `{Bus W} `{Entropy W} aes_encrypt aes_decrypt session v w s w' item u u' :
  (forall key b, length b = BlockSize ->
    length (aes_encrypt key b) = BlockSize /\ aes_decrypt key (aes_encrypt key b) = b) ->
  (forall n w1 b w2, rand_Read n w1 = (Ok b, w2) -> length b = n) ->
  NewSecret aes_encrypt session v w = (Ok s, w') ->
  Conn_Call item "org.freedesktop.Secret.Item.GetSecret" [VPath (ses_Path session)] u
    = (Ok [VSecret s], u') ->
  GetSecret aes_decrypt item session u = (Ok v, u').
Proof.
  intros Haes Hrand Hnew Hcall.
  assert (Hdec : decryptValue aes_decrypt session s = Ok v).
  { unfold NewSecret in Hnew. unfold decryptValue.
    destruct (String.eqb (ses_Mode session) AuthenticationInsecurePlain).
    - unfold ret in Hnew. by simplify_eq.
    - destruct (String.eqb (ses_Mode session) AuthenticationDHAES).
      + apply bind_Ok_inv in Hnew as ([iv ct] & w1 & Henc & Hnew). unfold ret in Hnew. simplify_eq/=.
        by rewrite (aes_cbc_roundtrip aes_encrypt aes_decrypt Haes v _ iv ct w w').
      + unfold throw in Hnew. done. }
  unfold GetSecret, bind, wrapped. rewrite Hcall. unfold lift. simpl. by rewrite Hdec.
Qed.

(** A bus that serves one secret, with a constant random source. *)
Definition one_secret_Bus (s : Secret) : Bus unit := {|
  SessionBusPrivateNoAutoStartup := ret tt;
  Conn_Auth := ret tt;
  Conn_Hello := ret tt;
  Conn_Close := ret tt;
  Conn_Call _ method _ := if String.eqb method "org.freedesktop.Secret.Item.GetSecret"
    then ret [VSecret s] else ret [];
  BusObject_Call _ _ := ret [VBool true];
  Conn_GetProperty _ _ := ret VOther;
  Conn_SetProperty _ _ _ := ret tt;
  next_signal w := (NilSignal, w);
  session_timer w := (false, w)
|}.

#[export] Instance constant_Entropy : Entropy unit := {
  rand_Int max := ret (max - 1)%Z;
  rand_Read n := ret (repeat Byte.x2a n)
}.

(** A block permutation to stand for AES in the concrete run. *)
Definition toy_aes (key b : bytes) : bytes := xor_bytes (repeat Byte.x55 16) b.

Lemma session_secret_roundtrip_witness :
  let session := {| ses_Mode := AuthenticationDHAES; ses_Path := "/s/1"; ses_Public := 0;
    ses_Private := 0; ses_AESKey := repeat Byte.x01 16 |} in
  let v := repeat Byte.x41 20 in
  exists s, NewSecret toy_aes session v tt = (Ok s, tt) /\
    GetSecret (H := one_secret_Bus s) toy_aes "/i/1" session tt = (Ok v, tt).
Proof.
  intros session v. eexists. split; [vm_compute; reflexivity|].
  eapply (session_secret_roundtrip (H := one_secret_Bus _) (H0 := constant_Entropy)
    toy_aes toy_aes session v tt _ tt).
  - intros key b Hb. split; [|apply xor_bytes_cancel; rewrite Hb; reflexivity].
    unfold toy_aes. rewrite length_xor_bytes, Hb. reflexivity.
  - intros n w1 b w2 Hr. unfold rand_Read, constant_Entropy, ret in Hr.
    injection Hr as <- _. apply repeat_length.
  - vm_compute. reflexivity.
  - reflexivity.
Defined.

(** [NewService] gives up before dialling only when no endpoint of the
    address can connect: the check reports a missing socket exactly when the
    address is set, is not "autolaunch:", has a non-empty entry, and every
    non-empty entry is a unix socket path that does not exist; the message
    lists those paths in order. *)
Theorem sessionBusMissingSocket_spec unescape stat addr msg :
  sessionBusMissingSocket unescape stat addr = (msg, true) <->
  addr <> "" /\ addr <> "autolaunch:" /\
  exists paths, paths <> [] /\ msg = StringsJoin paths ", " /\
    Forall2 (missing_entry unescape stat) (base.filter (fun e => e <> "") (Split addr ";")) paths.
Proof.
  unfold sessionBusMissingSocket.
  destruct (String.eqb addr "") eqn:He; [breflect; split; [done|naive_solver]|].
  destruct (String.eqb addr "autolaunch:") eqn:Ha; [breflect; split; [done|naive_solver]|].
  breflect. simpl. destruct (missing_sockets unescape stat (Split addr ";") []) as [paths|] eqn:Hm.
  - pose proof Hm as Hm'. apply missing_sockets_spec in Hm' as (found & -> & HF).
    simpl in *. split.
    + destruct found as [|p found]; [done|]. intros [= <-]. split_and!; [done..|]. by exists (p :: found).
    + intros (_ & _ & paths & Hne & -> & HF').
      assert (Hs : missing_sockets unescape stat (Split addr ";") [] = Some paths).
      { apply missing_sockets_spec. by exists paths. }
      rewrite Hs in Hm. injection Hm as <-. by destruct paths.
  - split; [done|]. intros (_ & _ & paths & _ & _ & HF).
    assert (Hs : missing_sockets unescape stat (Split addr ";") [] = Some paths).
    { apply missing_sockets_spec. by exists paths. }
    congruence.
Qed.
