(* ===== verification/KeychainWindows.v ===== *)
(** Package store/keychain on Windows (keychain_windows.go): a store over the
    Windows Credential Manager, which splits a secret too large for one
    credential into chunk credentials. *)

From S2P Require Import Prelude GoErrors GoStrings Secrets Store Keychain.

(** ** The credential manager *)

Record CredentialAttribute : Type := { Keyword : string; Value : bytes }.

Record Credential : Type := {
  TargetName : string;
  UserName : string;
  CredentialBlob : bytes;
  Attributes : list CredentialAttribute
}.

Definition ErrElementNotFound : goerror := Sentinel "wincred.ErrElementNotFound".
Definition ErrBadUsername : goerror := Sentinel "wincred.ErrBadUsername".
Definition ErrInvalidParameter : goerror := Sentinel "wincred.ErrInvalidParameter".

(** The calls of github.com/danieljoos/wincred the store makes, over the state
    [W] of the credential manager. *)
Class WinCred (W : Type) : Type := {
  GetGenericCredential : string -> comp W goerror Credential;
  Write : Credential -> comp W goerror unit;
  Delete_credential : string -> comp W goerror unit;
  List_credentials : comp W goerror (list Credential)
}.

(** What those calls do when the system grants them: the credentials are a map
    keyed by target name. *)
Class WinCredSpec (W : Type) `{WinCred W} (creds : W -> gmap string Credential) : Prop := {
  wincred_get t w : GetGenericCredential t w =
    (match creds w !! t with Some c => Ok c | None => Err ErrElementNotFound end, w);
  wincred_write c w : exists w', Write c w = (Ok tt, w') /\
    creds w' = <[TargetName c := c]> (creds w);
  wincred_delete t w : exists w', Delete_credential t w =
    (match creds w !! t with Some _ => Ok tt | None => Err ErrElementNotFound end, w') /\
    creds w' = delete t (creds w);
  wincred_list w : exists l, List_credentials w = (Ok l, w) /\ l ≡ₚ (map_to_list (creds w)).*2
}.

Definition NewGenericCredential (targetName : string) : Credential :=
  {| TargetName := targetName; UserName := ""; CredentialBlob := []; Attributes := [] |}.

(** ** keychain_windows.go *)

Definition ErrCredentialBadUsername : goerror := Sentinel "credential username is invalid".
Definition ErrInvalidCredentialFlags : goerror :=
  Sentinel "an invalid flag was specified for the flags parameter".
Definition ErrInvalidCredentialParameter : goerror :=
  Sentinel "protected field does not match provided value for an existing credential".
Definition ErrNoLogonSession : goerror :=
  Sentinel "logon session does not exist or there is no credential set associated with this logon session".
Definition sysErrInvalidCredentialFlags : goerror := Sentinel "windows.ERROR_INVALID_FLAGS".
Definition sysErrNoSuchLogonSession : goerror := Sentinel "windows.ERROR_NO_SUCH_LOGON_SESSION".

Definition maxBlobSize : nat := 2560.
Definition chunkCountKey : string := "chunk:count".
Definition chunkIndexKey : string := "chunk:index".

Definition mapWindowsCredentialError (err : goerror) : goerror :=
  if same_error err ErrElementNotFound then ErrCredentialNotFound
  else if same_error err ErrBadUsername then ErrCredentialBadUsername
  else if same_error err ErrInvalidParameter then ErrInvalidCredentialParameter
  else if same_error err sysErrInvalidCredentialFlags then ErrInvalidCredentialFlags
  else if same_error err sysErrNoSuchLogonSession then ErrNoLogonSession
  else err.

(** A call whose error is mapped. *)
Definition mapped {S A} (m : comp S goerror A) : comp S goerror A := fun s =>
  match m s with
  | (Ok a, s') => (Ok a, s')
  | (Err e, s') => (Err (mapWindowsCredentialError e), s')
  end.

(** The loop of [chunkBlob]; every round takes at least one byte when [size]
    is positive, so the length of the blob is enough fuel. *)
Fixpoint chunkBlob_fuel (fuel : nat) (blob : bytes) (size : nat) : list bytes :=
  match fuel, blob with
  | S fuel', _ :: _ =>
      let n := Nat.min size (length blob) in
      take n blob :: chunkBlob_fuel fuel' (drop n blob) size
  | _, _ => []
  end.

Definition chunkBlob (blob : bytes) (size : nat) : list bytes :=
  chunkBlob_fuel (length blob) blob size.

Definition isChunkCredential (attrs : list CredentialAttribute) : bool :=
  existsb (fun attr => String.eqb (Keyword attr) chunkIndexKey) attrs.

Definition mapToWindowsAttributes (ord : list (string * string) -> list (string * string))
    (attributes : gmap string string) : list CredentialAttribute :=
  map (fun '(k, v) => {| Keyword := k; Value := bytes_of v |}) (range_map ord attributes).

Definition mapFromWindowsAttributes (winAttrs : list CredentialAttribute) : gmap string string :=
  foldl (fun attributes attr => <[Keyword attr := string_of (Value attr)]> attributes) ∅ winAttrs.

Section windows.
Context {T W : Type} `{Secret T} `{WinCred W}.
(** The UTF-16 transcoding of golang.org/x/text. *)
Context (utf16_encode utf16_decode : bytes -> result goerror bytes).
(** The Unicode simple-folding table behind [strings.EqualFold]. *)
Context (fold : Z -> Z -> bool).
(** The iteration order of the maps. *)
Context (ord : list (string * string) -> list (string * string)).
Context (k : keychainStore T).

Definition encodeSecret (secret : T) : result goerror bytes :=
  data <-? Marshal secret ;;
  utf16_encode data.

Definition decodeSecret (blob : bytes) (secret : T) : result goerror T :=
  val <-? utf16_decode blob ;;
  Unmarshal secret val.

Definition itemChunkLabel (id : ID) (index : Z) : string :=
  itemLabel k id +:+ ":chunk:" +:+ Itoa index.

(** The loop of [readChunks], [count] rounds from index [i] on. *)
Fixpoint readChunks_from (id : ID) (i : Z) (count : nat) (blob : bytes) : comp W goerror bytes :=
  match count with
  | O => ret blob
  | S count' =>
      gc <-! mapped (GetGenericCredential (itemChunkLabel id i)) ;;
      readChunks_from id (i + 1) count' (blob ++ CredentialBlob gc)
  end.

Definition readChunks (id : ID) (count : Z) : comp W goerror bytes :=
  readChunks_from id 0 (Z.to_nat count) [].

(** The error a loop of the model ends with when its fuel runs out. *)
Definition OutOfFuel : goerror := Sentinel "model: out of fuel".

(** The loop of [deleteChunks]. *)
Fixpoint deleteChunks_from (fuel : nat) (id : ID) (i : Z) : comp W goerror unit :=
  match fuel with
  | O => throw OutOfFuel
  | S fuel' =>
      try (Delete_credential (itemChunkLabel id i)) (fun r =>
        match r with
        | Ok _ => deleteChunks_from fuel' id (i + 1)
        | Err err =>
            if errors_Is err ErrElementNotFound then ret tt
            else throw (mapWindowsCredentialError err)
        end)
  end.

Definition deleteChunks (fuel : nat) (id : ID) : comp W goerror unit :=
  deleteChunks_from fuel id 0.

Definition Delete (fuel : nat) (id : ID) : comp W goerror unit :=
  _ <-! deleteChunks fuel id ;;
  try (Delete_credential (itemLabel k id)) (fun r =>
    match r with
    | Ok _ => ret tt
    | Err err =>
        if errors_Is err ErrElementNotFound then ret tt
        else throw (mapWindowsCredentialError err)
    end).

(** The raw blob of a primary credential: its own, or its chunks'. *)
Definition rawBlob (id : ID) (gc : Credential) (attributes : gmap string string)
  : comp W goerror bytes :=
  match attributes !! chunkCountKey with
  | Some countStr =>
      match Atoi countStr with
      | Err err => throw (Wrap "invalid chunk count %q: %w" [ErrorNew err])
      | Ok count => readChunks id count
      end
  | None => ret (CredentialBlob gc)
  end.

Definition Get (id : ID) : comp W goerror T :=
  gc <-! mapped (GetGenericCredential (itemLabel k id)) ;;
  let attributes := mapFromWindowsAttributes (Attributes gc) in
  rawBlob <-! rawBlob id gc attributes ;;
  let attributes := safelyCleanMetadata ord attributes in
  secret <-! lift (SetMetadata (factory k id) attributes) ;;
  lift (decodeSecret rawBlob secret).

(** The loop over the attributes: the last occurrence of a key counts. *)
Definition isServiceCredential (attrs : list CredentialAttribute) : bool :=
  let '(name, group) :=
    foldl (fun '(name, group) attr =>
      if String.eqb (Keyword attr) serviceGroupKey then (name, string_of (Value attr))
      else if String.eqb (Keyword attr) serviceNameKey then (string_of (Value attr), group)
      else (name, group)) ("", "") attrs in
  EqualFold fold group (serviceGroup k) && EqualFold fold name (serviceName k).

(** The credentials the iterator of [findServiceCredentials] yields. *)
Definition findServiceCredentials (pattern : Pattern) (credentials : list Credential)
  : list Credential :=
  List.filter (fun c =>
    if isChunkCredential (Attributes c) then false
    else if negb (isServiceCredential (Attributes c)) then false
    else match ParseID (UserName c) with
         | Err _ => false
         | Ok id => pattern_Match pattern id
         end) credentials.

(** The loop of [GetAllMetadata]. *)
Fixpoint collectMetadata (creds : list Credential) (secrets : gmap ID T)
  : result goerror (gmap ID T) :=
  match creds with
  | [] => Ok secrets
  | cred :: creds' =>
      id <-? ParseID (ReplaceAll (TargetName cred) (itemLabel k "") "") ;;
      let attributes := safelyCleanMetadata ord (mapFromWindowsAttributes (Attributes cred)) in
      secret <-? SetMetadata (factory k id) attributes ;;
      collectMetadata creds' (<[id := secret]> secrets)
  end.

Definition GetAllMetadata : comp W goerror (gmap ID T) :=
  credentials <-! mapped List_credentials ;;
  lift (collectMetadata (findServiceCredentials "**" credentials) ∅).

(** The credential [Save] writes for the [i]-th chunk. *)
Definition chunkCredential (id : ID) (i : Z) (chunk : bytes) : Credential :=
  {| TargetName := itemChunkLabel id i; UserName := id; CredentialBlob := chunk;
     Attributes := mapToWindowsAttributes ord {[chunkIndexKey := Itoa i]} |}.

(** The chunk loop of [Save]. *)
Fixpoint writeChunks (id : ID) (i : Z) (chunks : list bytes) : comp W goerror unit :=
  match chunks with
  | [] => ret tt
  | chunk :: chunks' =>
      _ <-! mapped (Write (chunkCredential id i chunk)) ;;
      writeChunks id (i + 1) chunks'
  end.

Definition primaryCredential (id : ID) (blob : bytes) (attributes : gmap string string)
  : Credential :=
  {| TargetName := itemLabel k id; UserName := id; CredentialBlob := blob;
     Attributes := mapToWindowsAttributes ord attributes |}.

Definition Save (fuel : nat) (id : ID) (secret : T) : comp W goerror unit :=
  blob <-! lift (encodeSecret secret) ;;
  let attributes := Metadata secret in
  let attributes := safelySetMetadata ord (serviceGroup k) (serviceName k) attributes in
  let attributes := safelySetID id attributes in
  _ <-! deleteChunks fuel id ;;
  if (maxBlobSize <? length blob)%nat then
    let chunks := chunkBlob blob maxBlobSize in
    _ <-! writeChunks id 0 chunks ;;
    let attributes := <[chunkCountKey := Itoa (Z.of_nat (length chunks))]> attributes in
    mapped (Write (primaryCredential id [] attributes))
  else
    mapped (Write (primaryCredential id blob attributes)).

Definition Upsert (fuel : nat) (id : ID) (secret : T) : comp W goerror unit :=
  Save fuel id secret.

Definition loadSecret (id : ID) (gc : Credential) : comp W goerror T :=
  let gcAttributes := mapFromWindowsAttributes (Attributes gc) in
  rawBlob <-! rawBlob id gc gcAttributes ;;
  let gcAttributes := safelyCleanMetadata ord gcAttributes in
  secret <-! lift (SetMetadata (factory k id) gcAttributes) ;;
  blob <-! lift (utf16_decode rawBlob) ;;
  lift (Unmarshal secret blob).

(** The loop of [Filter]. *)
Fixpoint collectSecrets (creds : list Credential) (secrets : gmap ID T)
  : comp W goerror (gmap ID T) :=
  match creds with
  | [] => ret secrets
  | cred :: creds' =>
      match ParseID (ReplaceAll (TargetName cred) (itemLabel k "") "") with
      | Err _ => collectSecrets creds' secrets
      | Ok id =>
          gc <-! mapped (GetGenericCredential (TargetName cred)) ;;
          secret <-! loadSecret id gc ;;
          collectSecrets creds' (<[id := secret]> secrets)
      end
  end.

Definition Filter (pattern : Pattern) : comp W goerror (gmap ID T) :=
  credentials <-! mapped List_credentials ;;
  collectSecrets (findServiceCredentials pattern credentials) ∅.
End windows.

(** ** Lemmas: chunks *)

Lemma chunkBlob_fuel_concat size fuel blob :
  (0 < size)%nat -> (length blob <= fuel)%nat -> concat (chunkBlob_fuel fuel blob size) = blob.
Proof.
  intros Hs. revert blob. induction fuel as [|fuel IH]; intros [|b blob] Hf; try done.
  { simpl in Hf. lia. }
  cbn [chunkBlob_fuel]. set (n := Nat.min size (length (b :: blob))). simpl.
  rewrite IH; [apply take_drop|]. rewrite length_drop. subst n. simpl in *. lia.
Qed.

Lemma chunkBlob_fuel_sizes size fuel blob : (0 < size)%nat ->
  Forall (fun c => 0 < length c <= size)%nat (chunkBlob_fuel fuel blob size).
Proof.
  intros Hs. revert blob. induction fuel as [|fuel IH]; intros [|b blob]; try constructor.
  - rewrite length_take. simpl. lia.
  - apply IH.
Qed.

Lemma chunkBlob_concat blob size : (0 < size)%nat -> concat (chunkBlob blob size) = blob.
Proof. intros Hs. by apply chunkBlob_fuel_concat. Qed.

Lemma length_concat_le (l : list bytes) :
  Forall (fun c => 0 < length c)%nat l -> (length l <= length (concat l))%nat.
Proof.
  induction 1 as [|c l Hc _ IH]; simpl; [lia|]. rewrite length_app. lia.
Qed.

Lemma length_chunkBlob blob size : (0 < size)%nat ->
  (length (chunkBlob blob size) <= length blob)%nat.
Proof.
  intros Hs. pose proof (chunkBlob_fuel_sizes size (length blob) blob Hs) as HF.
  rewrite <- (chunkBlob_concat blob size Hs) at 2. apply length_concat_le.
  eapply Forall_impl; [|exact HF]. simpl. lia.
Qed.

Lemma mapFrom_mapTo ord `{!MapOrder ord} m :
  mapFromWindowsAttributes (mapToWindowsAttributes ord m) = m.
Proof.
  unfold mapFromWindowsAttributes, mapToWindowsAttributes.
  assert (Hgen : forall l acc, foldl (fun attributes attr =>
      <[Keyword attr := string_of (Value attr)]> attributes) acc
      (map (fun '(k, v) => {| Keyword := k; Value := bytes_of v |}) l) =
    (list_to_map (rev l) : gmap string string) ∪ acc).
  { induction l as [|[k v] l IH]; intros acc; simpl; [by rewrite (left_id_L ∅ (∪))|].
    rewrite IH, string_of_bytes_of, list_to_map_app. simpl.
    rewrite insert_empty, <- map_union_assoc. f_equal. apply insert_union_singleton_l. }
  rewrite Hgen, (right_id_L ∅ (∪)).
  rewrite <- (list_to_map_proper (range_map ord m)); [|by apply NoDup_range_map|apply Permutation_rev].
  rewrite (list_to_map_proper _ (map_to_list m)); [apply list_to_map_to_list| |].
  - by apply NoDup_range_map.
  - by apply range_map_perm.
Qed.

(** A test of the keywords does not depend on the order of the attributes. *)
Lemma existsb_keyword ord `{!MapOrder ord} m key :
  existsb (fun attr => String.eqb (Keyword attr) key) (mapToWindowsAttributes ord m) =
  bool_decide (is_Some (m !! key)).
Proof.
  apply Bool.eq_iff_eq_true. rewrite existsb_elem, bool_decide_eq_true. unfold mapToWindowsAttributes. split.
  - intros (attr & Hin & Hk). apply list_elem_of_fmap in Hin as ([k' v] & -> & Hin).
    apply String.eqb_eq in Hk. cbn in Hk. subst k'. apply (elem_of_range_map ord) in Hin. by exists v.
  - intros [v Hv]. exists {| Keyword := key; Value := bytes_of v |}. split; [|apply String.eqb_refl].
    apply list_elem_of_fmap. exists (key, v). split; [reflexivity|]. by apply (elem_of_range_map ord).
Qed.

(** ** Lemmas: the calls when the credential manager grants them *)

Section granted.
Context {T W : Type} `{Secret T} `{WinCredSpec W creds}.
Context (ord : list (string * string) -> list (string * string)) `{!MapOrder ord}.
Context (k : keychainStore T).

Lemma itemChunkLabel_neq id i : itemChunkLabel k id i <> itemLabel k id.
Proof.
  intros Heq. apply (f_equal String.length) in Heq. unfold itemChunkLabel in Heq.
  rewrite !length_append in Heq. simpl in Heq. lia.
Qed.

Lemma itemChunkLabel_inj id i j : (0 <= i <= int_max)%Z -> (0 <= j <= int_max)%Z ->
  itemChunkLabel k id i = itemChunkLabel k id j -> i = j.
Proof.
  intros Hi Hj Heq. apply append_inj_l, append_inj_l in Heq. by apply Itoa_inj_nonneg.
Qed.

(** A name that is not one of the chunk names of [id]. *)
Definition not_chunk (id : ID) (t : string) : Prop := forall i, t <> itemChunkLabel k id i.

(** The loop that deletes the chunks ends within one round per credential, and
    removes nothing but chunks. *)
Lemma deleteChunks_granted fuel id i w : (size (creds w) < fuel)%nat ->
  exists w', deleteChunks_from k fuel id i w = (Ok tt, w') /\
    (forall t, not_chunk id t -> creds w' !! t = creds w !! t) /\ creds w' ⊆ creds w.
Proof.
  revert i w. induction fuel as [|fuel IH]; intros i w Hf; [lia|].
  simpl. unfold try. destruct (wincred_delete (itemChunkLabel k id i) w) as (w1 & -> & Hw1).
  destruct (creds w !! itemChunkLabel k id i) as [c|] eqn:Hc.
  - destruct (IH (i + 1)%Z w1) as (w2 & Hr & Hfr & Hsub).
    { rewrite Hw1, map_size_delete_Some by eauto.
      assert (size (creds w) <> 0)%nat; [|lia]. intros Hz. apply map_size_empty_inv in Hz. by rewrite Hz, lookup_empty in Hc. }
    exists w2. split; [done|]. split.
    + intros t Ht. rewrite Hfr, Hw1 by done. by rewrite lookup_delete_ne by (intros Heq; by apply (Ht i)).
    + etrans; [exact Hsub|]. rewrite Hw1. apply delete_subseteq.
  - exists w1. split; [done|]. rewrite Hw1. split; [|apply delete_subseteq].
    intros t Ht. by rewrite lookup_delete_ne by (intros Heq; by apply (Ht i)).
Qed.

Lemma writeChunks_granted id chunks i w : (0 <= i)%Z -> (i + Z.of_nat (length chunks) <= int_max)%Z ->
  exists w', writeChunks ord k id i chunks w = (Ok tt, w') /\
    (forall n c, chunks !! n = Some c -> creds w' !! itemChunkLabel k id (i + Z.of_nat n) =
       Some (chunkCredential ord k id (i + Z.of_nat n) c)) /\
    (forall t, (forall n, (n < length chunks)%nat -> t <> itemChunkLabel k id (i + Z.of_nat n)) ->
       creds w' !! t = creds w !! t).
Proof.
  revert i w. induction chunks as [|c chunks IH]; intros i w Hi Hlen.
  { exists w. split; [done|]. split; [|done]. intros n c Hc. by rewrite lookup_nil in Hc. }
  simpl in Hlen. simpl. destruct (wincred_write (chunkCredential ord k id i c) w) as (w1 & Hw & Hc1).
  unfold bind, mapped. rewrite Hw.
  destruct (IH (i + 1)%Z w1) as (w2 & Hr & Hin & Hfr); [lia..|].
  exists w2. split; [exact Hr|]. split.
  - intros [|n] c' Hn; simpl in Hn.
    + injection Hn as <-. rewrite Z.add_0_r. rewrite Hfr.
      * rewrite Hc1. apply lookup_insert_eq.
      * intros n Hn Heq. apply itemChunkLabel_inj in Heq; lia.
    + apply Hin in Hn. replace (i + Z.of_nat (Datatypes.S n))%Z with (i + 1 + Z.of_nat n)%Z by lia. done.
  - intros t Ht. rewrite Hfr.
    + rewrite Hc1. apply lookup_insert_ne. intros <-. apply (Ht 0%nat); [lia|].
      simpl. by rewrite Z.add_0_r.
    + intros n Hn. specialize (Ht (Datatypes.S n)). replace (i + 1 + Z.of_nat n)%Z with
        (i + Z.of_nat (Datatypes.S n))%Z by lia. apply Ht. lia.
Qed.

(** The bytes of a secret, read from the credentials: those of the chunks from
    index [i] on, and those of a primary credential. *)
Fixpoint chunks_at (m : gmap string Credential) (id : ID) (i : Z) (count : nat) : option bytes :=
  match count with
  | O => Some []
  | Datatypes.S count' =>
      c ← m !! itemChunkLabel k id i;
      rest ← chunks_at m id (i + 1) count';
      Some (CredentialBlob c ++ rest)
  end.

Definition blob_of (m : gmap string Credential) (id : ID) (c : Credential) : option bytes :=
  match mapFromWindowsAttributes (Attributes c) !! chunkCountKey with
  | Some countStr =>
      match Atoi countStr with
      | Ok count => chunks_at m id 0 (Z.to_nat count)
      | Err _ => None
      end
  | None => Some (CredentialBlob c)
  end.

Lemma readChunks_granted id i count acc blob w : chunks_at (creds w) id i count = Some blob ->
  readChunks_from k id i count acc w = (Ok (acc ++ blob), w).
Proof.
  revert i acc blob. induction count as [|count IH]; intros i acc blob Hc; cbn in Hc.
  { injection Hc as <-. by rewrite app_nil_r. }
  destruct (creds w !! itemChunkLabel k id i) as [c|] eqn:Hl; [|done]. cbn in Hc.
  destruct (chunks_at (creds w) id (i + 1) count) as [rest|] eqn:Hr; [|done]. injection Hc as <-.
  cbn [readChunks_from]. unfold bind, mapped. rewrite wincred_get, Hl, (IH _ _ _ Hr).
  by rewrite <- app_assoc.
Qed.

Lemma rawBlob_granted id c blob w : blob_of (creds w) id c = Some blob ->
  rawBlob k id c (mapFromWindowsAttributes (Attributes c)) w = (Ok blob, w).
Proof.
  unfold blob_of, rawBlob. destruct (_ !! chunkCountKey) as [n|]; [|by intros [= ->]].
  destruct (Atoi n) as [count|]; [|done]. apply readChunks_granted.
Qed.

Lemma chunks_at_written m id i chunks :
  (forall n c, chunks !! n = Some c ->
     m !! itemChunkLabel k id (i + Z.of_nat n) = Some (chunkCredential ord k id (i + Z.of_nat n) c)) ->
  chunks_at m id i (length chunks) = Some (concat chunks).
Proof.
  revert i. induction chunks as [|c chunks IH]; intros i Hc; [done|]. cbn [length chunks_at].
  pose proof (Hc 0%nat c eq_refl) as Hfirst. rewrite Z.add_0_r in Hfirst. rewrite Hfirst. cbn.
  rewrite IH; [done|]. intros n c' Hn.
  replace (i + 1 + Z.of_nat n)%Z with (i + Z.of_nat (Datatypes.S n))%Z by lia. by apply Hc.
Qed.

Lemma isChunk_written id i c : isChunkCredential (Attributes (chunkCredential ord k id i c)) = true.
Proof.
  unfold isChunkCredential, chunkCredential. cbn. rewrite existsb_keyword by done.
  apply bool_decide_eq_true. eexists. apply lookup_insert_eq.
Qed.

(** What [Save] adds to the attributes: nothing, or the number of chunks. *)
Definition marks (extra : gmap string string) : Prop :=
  extra = ∅ \/ exists n, extra = {[chunkCountKey := n]}.

(** A primary credential with the metadata [md]. *)
Definition is_primary (id : ID) (md : gmap string string) (c : Credential) : Prop :=
  TargetName c = itemLabel k id /\ UserName c = id /\
  exists extra, marks extra /\
    Attributes c = mapToWindowsAttributes ord (extra ∪ stored_metadata ord k id md).

Lemma primary_clean ord' `{!MapOrder ord'} id md c : unprefixed md -> md !! chunkCountKey = None ->
  is_primary id md c -> safelyCleanMetadata ord' (mapFromWindowsAttributes (Attributes c)) = md.
Proof.
  intros Hun Hcc (_ & _ & extra & Hex & Ha). rewrite Ha, mapFrom_mapTo by done.
  apply (metadata_stored_clean ord ord' k id md); [done|..]; intros j [v Hj]; destruct Hex as [->|[n ->]];
    try (by rewrite lookup_empty in Hj); by apply lookup_singleton_Some in Hj as [<- _].
Qed.

(** The credentials after a [Save]: the primary one, readable, chunks, and all
    others as before. *)
Lemma Save_granted utf16_encode fuel id s blob w :
  encodeSecret utf16_encode s = Ok blob -> unprefixed (Metadata s) -> Metadata s !! chunkCountKey = None ->
  (Z.of_nat (length blob) <= int_max)%Z -> (size (creds w) < fuel)%nat ->
  exists w' c, Save utf16_encode ord k fuel id s w = (Ok tt, w') /\
    creds w' !! itemLabel k id = Some c /\ is_primary id (Metadata s) c /\
    blob_of (creds w') id c = Some blob /\
    (forall t, t <> itemLabel k id -> not_chunk id t -> creds w' !! t = creds w !! t) /\
    (forall t x, creds w' !! t = Some x -> t <> itemLabel k id -> creds w !! t = Some x \/
       TargetName x = t /\ isChunkCredential (Attributes x) = true).
Proof.
  intros He Hun Hcc Hlen Hf.
  destruct (deleteChunks_granted fuel id 0 w Hf) as (w1 & Hdel & Hfr1 & Hsub).
  unfold Save, deleteChunks, lift. rewrite He. unfold bind at 1. unfold bind at 1. rewrite Hdel.
  change (safelySetID id _) with (stored_metadata ord k id (Metadata s)).
  set (attrs := stored_metadata ord k id (Metadata s)).
  assert (Hnone : attrs !! chunkCountKey = None).
  { subst attrs. by rewrite stored_metadata_lookup by done. }
  destruct (maxBlobSize <? length blob)%nat.
  - set (chunks := chunkBlob blob maxBlobSize).
    assert (Hcl : (length chunks <= length blob)%nat)
      by (apply length_chunkBlob; unfold maxBlobSize; lia).
    destruct (writeChunks_granted id chunks 0 w1) as (w2 & Hw2 & Hin & Hfr2); [lia..|].
    unfold bind at 1. rewrite Hw2.
    set (p := primaryCredential ord k id [] _).
    destruct (wincred_write p w2) as (w3 & Hw3 & Hc3). unfold mapped at 1. rewrite Hw3.
    exists w3, p. split; [done|]. split; [rewrite Hc3; apply lookup_insert_eq|]. split; [|split; [|split]].
    + split; [done|]. split; [done|]. exists {[chunkCountKey := Itoa (Z.of_nat (length chunks))]}.
      split; [right; by eexists|]. cbn. by rewrite insert_union_singleton_l.
    + unfold blob_of. subst p. cbn [Attributes primaryCredential]. rewrite mapFrom_mapTo by done.
      rewrite lookup_insert_eq, Atoi_Itoa_nonneg by lia.
      rewrite Nat2Z.id, chunks_at_written.
      { subst chunks. by rewrite chunkBlob_concat by (unfold maxBlobSize; lia). }
      intros n c Hn. rewrite Hc3, lookup_insert_ne by apply not_eq_sym, itemChunkLabel_neq.
      by apply Hin.
    + intros t Ht Hnc. rewrite Hc3, lookup_insert_ne by (by apply not_eq_sym).
      rewrite Hfr2 by (intros n _; apply Hnc). by apply Hfr1.
    + intros t x Hx Ht. rewrite Hc3, lookup_insert_ne in Hx by (by apply not_eq_sym).
      destruct (decide (t ∈ map (fun n => itemChunkLabel k id (0 + Z.of_nat n)) (seq 0 (length chunks))))
        as [(n & -> & [_ Hn]%elem_of_seq)%list_elem_of_fmap|Hno].
      * right. destruct (lookup_lt_is_Some_2 chunks n Hn) as [c Hc]. rewrite (Hin n c Hc) in Hx.
        injection Hx as <-. split; [done|]. apply isChunk_written.
      * left. rewrite Hfr2 in Hx; [by eapply lookup_weaken|]. intros n Hn ->. apply Hno, list_elem_of_fmap.
        exists n. split; [done|]. apply elem_of_seq. lia.
  - set (p := primaryCredential ord k id blob _).
    destruct (wincred_write p w1) as (w3 & Hw3 & Hc3). unfold mapped at 1. rewrite Hw3.
    exists w3, p. split; [done|]. split; [rewrite Hc3; apply lookup_insert_eq|]. split; [|split; [|split]].
    + split; [done|]. split; [done|]. exists ∅. split; [by left|]. cbn. by rewrite (left_id_L ∅ (∪)).
    + unfold blob_of. cbn. rewrite mapFrom_mapTo by done. fold attrs. by rewrite Hnone.
    + intros t Ht Hnc. rewrite Hc3, lookup_insert_ne by (by apply not_eq_sym). by apply Hfr1.
    + intros t x Hx Ht. left. rewrite Hc3, lookup_insert_ne in Hx by (by apply not_eq_sym).
      by eapply lookup_weaken.
Qed.

(** Reading back a primary credential whose blob can be read. *)
Lemma Get_restores utf16_decode ord' `{!MapOrder ord'} id w c md blob data s :
  creds w !! itemLabel k id = Some c -> unprefixed md -> md !! chunkCountKey = None ->
  is_primary id md c -> blob_of (creds w) id c = Some blob -> utf16_decode blob = Ok data ->
  restore_secret (factory k) id md data = Ok s -> Get utf16_decode ord' k id w = (Ok s, w).
Proof.
  intros Hl Hun Hcc Hp Hb Hd Hs. unfold Get, bind, mapped, lift.
  rewrite wincred_get, Hl, (rawBlob_granted id c blob w Hb), (primary_clean ord' id md c Hun Hcc Hp).
  unfold restore_secret in Hs. destruct (SetMetadata (factory k id) md) as [x|]; cbn in Hs; [|done].
  unfold decodeSecret. rewrite Hd. cbn. by rewrite Hs.
Qed.
End granted.

(** ** A scripted credential manager *)

(** A credential manager that fails its calls by a script: one entry per call,
    no entry left means the call is granted. *)
Record ScriptedWin : Type := {
  sw_creds : gmap string Credential;
  sw_faults : list (option goerror)
}.

Definition sw_call {A} (f : gmap string Credential -> result goerror A * gmap string Credential)
  : comp ScriptedWin goerror A := fun w =>
  match sw_faults w with
  | Some e :: faults => (Err e, {| sw_creds := sw_creds w; sw_faults := faults |})
  | None :: faults =>
      let '(r, c) := f (sw_creds w) in (r, {| sw_creds := c; sw_faults := faults |})
  | [] => let '(r, c) := f (sw_creds w) in (r, {| sw_creds := c; sw_faults := [] |})
  end.

#[export] Instance ScriptedWin_WinCred : WinCred ScriptedWin := {
  GetGenericCredential t := sw_call (fun m =>
    (match m !! t with Some c => Ok c | None => Err ErrElementNotFound end, m));
  Write c := sw_call (fun m => (Ok tt, <[TargetName c := c]> m));
  Delete_credential t := sw_call (fun m =>
    (match m !! t with Some _ => Ok tt | None => Err ErrElementNotFound end, delete t m));
  List_credentials := sw_call (fun m => (Ok (map_to_list m).*2, m))
}.

(** The same credential manager, without a script. *)
Definition granted_WinCred : WinCred (gmap string Credential) := {|
  GetGenericCredential t := fun m =>
    (match m !! t with Some c => Ok c | None => Err ErrElementNotFound end, m);
  Write c := fun m => (Ok tt, <[TargetName c := c]> m);
  Delete_credential t := fun m =>
    (match m !! t with Some _ => Ok tt | None => Err ErrElementNotFound end, delete t m);
  List_credentials := fun m => (Ok (map_to_list m).*2, m)
|}.

#[export] Instance granted_WinCredSpec :
  @WinCredSpec (gmap string Credential) granted_WinCred (fun m => m).
Proof. split; simpl; eauto. Qed.

(** UTF-16 as the two-byte little-endian form of single-byte text, for the
    concrete runs below. *)
Definition latin_encode (b : bytes) : result goerror bytes :=
  Ok (mjoin (map (fun x => [x; Byte.x00]) b)).

Fixpoint latin_decode_loop (b : bytes) : bytes :=
  match b with x :: _ :: b' => x :: latin_decode_loop b' | _ => [] end.

Definition latin_decode (b : bytes) : result goerror bytes := Ok (latin_decode_loop b).

Lemma latin_decode_encode b : (blob <-? latin_encode b ;; latin_decode blob) = Ok b.
Proof. simpl. unfold latin_decode. f_equal. induction b as [|x b IH]; simpl; [done|]. by f_equal. Qed.

(** The store the concrete runs use. *)
Definition sample_store : keychainStore PassValue :=
  {| serviceGroup := "g"; serviceName := "n"; factory := PassValue_factory;
     useDataProtectionKeychain := false |}.

(** ** Properties of the Windows store *)

(** Splitting a blob into chunks loses nothing: the chunks concatenate to
    the blob, each one is non-empty and at most [size] bytes long. *)
Theorem chunkBlob_spec blob size : (0 < size)%nat ->
  concat (chunkBlob blob size) = blob /\
  Forall (fun c => 0 < length c <= size)%nat (chunkBlob blob size).
Proof. intros Hs. split; [by apply chunkBlob_concat|by apply chunkBlob_fuel_sizes]. Qed.

Lemma chunkBlob_spec_witness :
  concat (chunkBlob (bytes_of "abcde") 2) = bytes_of "abcde" /\
  Forall (fun c => 0 < length c <= 2)%nat (chunkBlob (bytes_of "abcde") 2).
Proof. apply chunkBlob_spec. lia. Defined.

(** a secret saved on Windows is read back unchanged, whether its encoded
    form fits in one credential or is split into any number of chunks, and no
    credential but the ones named after the identifier changes. [Save] ends
    within one round per credential. *)
Theorem windows_Save_Get {T W} `{Secret T} `{WinCredSpec W creds}
    utf16_encode utf16_decode ord ord' `{!MapOrder ord} `{!MapOrder ord'}
    (k : keychainStore T) fuel id s data blob w :
  Marshal s = Ok data -> utf16_encode data = Ok blob -> utf16_decode blob = Ok data ->
  restore_secret (factory k) id (Metadata s) data = Ok s ->
  unprefixed (Metadata s) -> Metadata s !! chunkCountKey = None ->
  (Z.of_nat (length blob) <= int_max)%Z -> (size (creds w) < fuel)%nat ->
  exists w', Save utf16_encode ord k fuel id s w = (Ok tt, w') /\
    Get utf16_decode ord' k id w' = (Ok s, w') /\
    forall t, t <> itemLabel k id -> not_chunk k id t -> creds w' !! t = creds w !! t.
Proof.
  intros Hm He Hd Hr Hun Hcc Hlen Hf.
  assert (Henc : encodeSecret utf16_encode s = Ok blob) by (unfold encodeSecret; by rewrite Hm).
  destruct (Save_granted ord k utf16_encode fuel id s blob w Henc Hun Hcc Hlen Hf)
    as (w' & c & Hs & Hl & Hp & Hb & Ho & _).
  exists w'. split; [exact Hs|]. split; [|exact Ho].
  by eapply (Get_restores ord k utf16_decode ord' id w' c (Metadata s) blob data s).
Qed.

Lemma windows_Save_Get_witness :
  let s := {| pv_value := repeat Byte.x41 1500; pv_metadata := {["k" := "v"]} |} in
  exists w', Save (H0 := granted_WinCred) latin_encode (fun l => l) sample_store 1 "a/b" s
      (∅ : gmap string Credential) = (Ok tt, w') /\
    Get (H0 := granted_WinCred) latin_decode (@rev _) sample_store "a/b" w' = (Ok s, w') /\
    forall t, t <> itemLabel sample_store "a/b" -> not_chunk sample_store "a/b" t ->
      w' !! t = (∅ : gmap string Credential) !! t.
Proof.
  intros s.
  apply (windows_Save_Get (H0 := granted_WinCred) (creds := fun m => m) latin_encode latin_decode
    (fun l => l) (@rev _) sample_store 1 "a/b" s (pv_value s)
    (mjoin (map (fun x => [x; Byte.x00]) (pv_value s)))); try reflexivity.
  - intros k v Hk. simpl in Hk. apply lookup_singleton_Some in Hk as [<- _]. reflexivity.
  - apply Z.leb_le. vm_compute. reflexivity.
  - simpl. rewrite map_size_empty. lia.
Defined.

(** deleting a secret on Windows ends, removes it whatever its number of
    chunks - a [Get] then reports [ErrCredentialNotFound] - and changes no
    credential but the ones named after the identifier; deleting an absent
    secret succeeds too. *)
Theorem windows_Delete_Get {T W} `{Secret T} `{WinCredSpec W creds} utf16_decode ord
    (k : keychainStore T) fuel id w : (size (creds w) < fuel)%nat ->
  exists w', Delete k fuel id w = (Ok tt, w') /\
    Get utf16_decode ord k id w' = (Err ErrCredentialNotFound, w') /\
    forall t, t <> itemLabel k id -> not_chunk k id t -> creds w' !! t = creds w !! t.
Proof.
  intros Hf. destruct (deleteChunks_granted k fuel id 0 w Hf) as (w1 & Hdel & Hfr1 & _).
  unfold Delete, deleteChunks, bind at 1. rewrite Hdel. unfold try.
  destruct (wincred_delete (itemLabel k id) w1) as (w2 & -> & Hc2).
  exists w2. repeat split.
  - by destruct (creds w1 !! itemLabel k id).
  - unfold Get, bind, mapped. by rewrite wincred_get, Hc2, lookup_delete_eq.
  - intros t Ht Hnc. rewrite Hc2, lookup_delete_ne by (by apply not_eq_sym). by apply Hfr1.
Qed.

Lemma windows_Delete_Get_witness :
  exists w', Delete (H0 := granted_WinCred) sample_store 1 "a" (∅ : gmap string Credential)
      = (Ok tt, w') /\
    Get (H0 := granted_WinCred) latin_decode (@rev _) sample_store "a" w'
      = (Err ErrCredentialNotFound, w') /\
    forall t, t <> itemLabel sample_store "a" -> not_chunk sample_store "a" t ->
      w' !! t = (∅ : gmap string Credential) !! t.
Proof.
  apply (windows_Delete_Get (H0 := granted_WinCred) (creds := fun m => m)).
  rewrite map_size_empty. lia.
Defined.

(** A secret of [n] bytes. *)
Definition sample_secret (b : Byte.byte) (n : nat) : PassValue := NewPassValue (repeat b n).

Definition run_Save (id : ID) (s : PassValue) (w : ScriptedWin) : result goerror unit * ScriptedWin :=
  Save latin_encode (fun l => l) sample_store 20 id s w.

Definition run_Get (id : ID) (w : ScriptedWin) : result goerror PassValue :=
  (Get latin_decode (fun l => l) sample_store id w).1.

(** the names of the chunk credentials are not kept apart from identifiers:
    "foo:chunk:0" is a valid identifier, and saving "foo" deletes the secret
    saved under it. The label is also cut out of the name wherever it occurs,
    so a secret whose identifier contains the store's own prefix is listed
    under another identifier. *)
Theorem windows_label_collisions :
  is_ok (ParseID "foo:chunk:0") = true /\ is_ok (ParseID "xg:n:y") = true /\
  let w1 := (run_Save "foo:chunk:0" (sample_secret Byte.x41 3)
               {| sw_creds := ∅; sw_faults := [] |}).2 in
  let w2 := (run_Save "foo" (sample_secret Byte.x42 3) w1).2 in
  run_Get "foo:chunk:0" w1 = Ok (sample_secret Byte.x41 3) /\
  run_Get "foo:chunk:0" w2 = Err ErrCredentialNotFound /\
  let w3 := (run_Save "xg:n:y" (sample_secret Byte.x41 3)
               {| sw_creds := ∅; sw_faults := [] |}).2 in
  (Filter latin_decode (fun _ _ => false) (fun l => l) sample_store "**" w3).1
    = Ok {["xy" := sample_secret Byte.x41 3]}.
Proof. repeat split; vm_compute; reflexivity. Qed.

(** a failed [Save] of a chunked secret over another one can leave a torn
    secret that [Get] returns without an error: the old chunks are deleted and
    the new ones written before the primary credential, which holds the chunk
    count. Here the write of the primary credential fails (the 7th call), and
    the next [Get] answers the first 2560 bytes of the new secret only. *)
Theorem windows_torn_Save :
  let old := sample_secret Byte.x41 2000 in
  let new := sample_secret Byte.x42 3000 in
  let w1 := (run_Save "foo" old {| sw_creds := ∅; sw_faults := [] |}).2 in
  let failing := {| sw_creds := sw_creds w1; sw_faults := repeat None 6 ++ [Some ErrInvalidParameter] |} in
  let w2 := run_Save "foo" new failing in
  w2.1 = Err ErrInvalidCredentialParameter /\
  run_Get "foo" w2.2 = Ok (sample_secret Byte.x42 2560).
Proof. split; vm_compute; reflexivity. Qed.
