(* ===== verification/WindowsStore.v ===== *)
(** The Windows store as a map: over a credential manager that grants its calls,
    and for identifiers that keep clear of the names of chunks and labels, the
    store of keychain_windows.go refines the abstract map from identifiers to
    secrets that package store promises. *)

From S2P Require Import Prelude GoErrors GoStrings Secrets Store StoreSpec Keychain KeychainWindows.

(** The loop that deletes chunks runs until one is missing: one round more than
    there are credentials is enough. *)
Definition windows_Store {T W} `{Store.Secret T} `{WinCred W} (creds : W -> gmap string Credential)
    (utf16_encode utf16_decode : bytes -> result goerror bytes) (fold : Z -> Z -> bool)
    (ord : list (string * string) -> list (string * string)) (k : keychainStore T) : Store W T := {|
  store_Delete id := fun w => Delete k (Datatypes.S (size (creds w))) id w;
  store_Get := Get utf16_decode ord k;
  store_GetAllMetadata := GetAllMetadata fold ord k;
  store_Save id s := fun w => Save utf16_encode ord k (Datatypes.S (size (creds w))) id s w;
  store_Upsert id s := fun w => Upsert utf16_encode ord k (Datatypes.S (size (creds w))) id s w;
  store_Filter := Filter utf16_decode fold ord k
|}.

(** ** Names *)

Section names.
Context {T : Type} (k : keychainStore T).

(** Identifiers whose credentials cannot be taken for others: no part of them
    reads like the name of a chunk or like the label of the store. *)
Definition regular (id : ID) : Prop :=
  validIdentifier id = true /\ ~ occurs ":chunk:" id /\ ~ occurs (itemLabel k "") id.

Lemma itemLabel_split id : itemLabel k id = itemLabel k "" +:+ id.
Proof. unfold itemLabel. by rewrite !append_assoc. Qed.

Lemma itemLabel_inj id id' : itemLabel k id = itemLabel k id' -> id = id'.
Proof. rewrite (itemLabel_split id), (itemLabel_split id'). apply append_inj_l. Qed.

Lemma itemLabel_prefix_nonempty : itemLabel k "" <> "".
Proof.
  intros He. apply (f_equal String.length) in He. unfold itemLabel in He.
  rewrite !length_append in He. cbn in He. lia.
Qed.

Lemma label_cut id : regular id -> ReplaceAll (itemLabel k id) (itemLabel k "") "" = id.
Proof.
  intros (_ & _ & Ho). rewrite itemLabel_split, ReplaceAll_prefix; [done| |done].
  apply itemLabel_prefix_nonempty.
Qed.

Lemma chunk_label id i : itemChunkLabel k id i = (itemLabel k id +:+ ":chunk") +:+ String ":" (Itoa i).
Proof. unfold itemChunkLabel. by rewrite append_assoc. Qed.

Lemma chunk_label_id id id' i j : itemChunkLabel k id i = itemChunkLabel k id' j -> id = id'.
Proof.
  rewrite !chunk_label. intros He. apply last_separator in He as [He _]; [|by apply Itoa_byte_free..].
  by apply append_inj_r, itemLabel_inj in He.
Qed.

Lemma regular_not_chunk id id' : regular id -> not_chunk k id' (itemLabel k id).
Proof.
  intros (_ & Hc & _) i He. apply Hc. unfold itemChunkLabel in He.
  rewrite (itemLabel_split id), (itemLabel_split id'), append_assoc in He. apply append_inj_l in He.
  exists id', (Itoa i). exact He.
Qed.

Lemma regular_labels id id' i : regular id -> itemChunkLabel k id' i <> itemLabel k id.
Proof. intros Hr He. by apply (regular_not_chunk id id' Hr i). Qed.
End names.

(** ** The content of the credential manager *)

Section content.
Context {T W : Type} `{Store.Secret T} `{WinCredSpec W creds}.
Context (utf16_encode utf16_decode : bytes -> result goerror bytes) (fold : Z -> Z -> bool).
Context (ord : list (string * string) -> list (string * string)) `{!MapOrder ord}.
Context (k : keychainStore T).

(** The store takes the credential for one of its own. *)
Definition ours (c : Credential) : bool :=
  negb (isChunkCredential (Attributes c)) && isServiceCredential fold k (Attributes c) &&
  validIdentifier (UserName c).

(** What [f] makes of a credential of the store. *)
Definition cred_with {V} (f : ID -> gmap string string -> result goerror V) (c : Credential) : option (ID * V) :=
  if ours c then
    match f (UserName c) (safelyCleanMetadata ord (mapFromWindowsAttributes (Attributes c))) with
    | Ok v => Some (UserName c, v)
    | Err _ => None
    end
  else None.

(** Its secret, and its metadata only. *)
Definition cred_secret (m : gmap string Credential) (c : Credential) : option (ID * T) :=
  blob ← blob_of k m (UserName c) c;
  cred_with (fun id md => data <-? utf16_decode blob ;; restore_secret (factory k) id md data) c.
Definition cred_metadata : Credential -> option (ID * T) :=
  cred_with (fun id md => SetMetadata (factory k id) md).

Definition windows_content (m : gmap string Credential) : gmap ID T :=
  gathered (cred_secret m) (map_to_list m).*2.

(** The credential holds the secret [s] of [id], as [Save] would have stored
    it. *)
Definition cred_holds (m : gmap string Credential) (id : ID) (s : T) (c : Credential) : Prop :=
  regular k id /\ unprefixed (Metadata s) /\ Metadata s !! chunkCountKey = None /\
  is_primary ord k id (Metadata s) c /\
  exists blob data, blob_of k m id c = Some blob /\ utf16_decode blob = Ok data /\
    restore_secret (factory k) id (Metadata s) data = Ok s.

(** Credentials are stored under their names; what the store takes for its own
    is a secret it saved, and so is what has one of its labels. *)
Definition windows_kept (m : gmap string Credential) : Prop :=
  (forall t c, m !! t = Some c -> TargetName c = t) /\
  (forall t c, m !! t = Some c -> ours c = true \/ (exists id, regular k id /\ t = itemLabel k id) ->
     exists id s, cred_holds m id s c).

(** A secret the store can hold under [id]. *)
Definition windows_acceptable (id : ID) (s : T) : Prop :=
  regular k id /\ unprefixed (Metadata s) /\ Metadata s !! chunkCountKey = None /\
  exists data blob, Marshal s = Ok data /\ utf16_encode data = Ok blob /\ utf16_decode blob = Ok data /\
    (Z.of_nat (length blob) <= int_max)%Z /\ restore_secret (factory k) id (Metadata s) data = Ok s.

(** The last attribute of a name counts, and names do not repeat. *)
Lemma isService_attributes m :
  isServiceCredential fold k (mapToWindowsAttributes ord m) =
  EqualFold fold (default "" (m !! serviceGroupKey)) (serviceGroup k) &&
  EqualFold fold (default "" (m !! serviceNameKey)) (serviceName k).
Proof.
  unfold isServiceCredential, mapToWindowsAttributes.
  assert (Hgen : forall l name group, NoDup l.*1 ->
    foldl (fun '(name, group) attr =>
      if String.eqb (Keyword attr) serviceGroupKey then (name, string_of (Value attr))
      else if String.eqb (Keyword attr) serviceNameKey then (string_of (Value attr), group)
      else (name, group)) (name, group)
      (map (fun '(k, v) => {| Keyword := k; Value := bytes_of v |}) l) =
    (default name ((list_to_map l : gmap string string) !! serviceNameKey),
     default group ((list_to_map l : gmap string string) !! serviceGroupKey))).
  { induction l as [|[key v] l IH]; intros name group Hnd; [done|]. cbn in Hnd.
    apply list.NoDup_cons in Hnd as [Hk Hnd]. cbn [map foldl Keyword Value]. rewrite list_to_map_cons, string_of_bytes_of.
    apply not_elem_of_list_to_map_1 in Hk.
    destruct (String.eqb_spec key serviceGroupKey) as [->|Hg].
    { rewrite IH, lookup_insert_eq, lookup_insert_ne by done. by rewrite Hk. }
    rewrite (lookup_insert_ne _ key serviceGroupKey) by done.
    destruct (String.eqb_spec key serviceNameKey) as [->|Hn].
    { rewrite IH, lookup_insert_eq by done. by rewrite Hk. }
    by rewrite IH, lookup_insert_ne by done. }
  rewrite Hgen by by apply NoDup_range_map.
  assert (Hl : list_to_map (range_map ord m) = m).
  { apply map_eq. intros j. apply option_eq. intros v.
    rewrite <- elem_of_list_to_map by by apply NoDup_range_map. by rewrite (elem_of_range_map ord). }
  by rewrite Hl.
Qed.

Lemma marks_lookup extra j : marks extra -> j <> chunkCountKey -> extra !! j = None.
Proof. intros [->|[n ->]] Hj; [apply lookup_empty|by rewrite lookup_singleton_ne]. Qed.

Lemma primary_ours id md c : validIdentifier id = true -> unprefixed md -> is_primary ord k id md c ->
  ours c = true.
Proof.
  intros Hv Hun (_ & Hu & extra & Hex & Ha). unfold ours. rewrite Hu, Hv, andb_true_r, Ha.
  unfold isChunkCredential. rewrite existsb_keyword by done. rewrite isService_attributes.
  rewrite !lookup_union_r by (by apply marks_lookup). rewrite !stored_metadata_lookup by done.
  cbn. by rewrite !EqualFold_refl.
Qed.

Lemma holds_ours m id s c : cred_holds m id s c -> ours c = true.
Proof. intros ((Hv & _) & Hun & _ & Hp & _). by eapply primary_ours. Qed.

Lemma cred_holds_name m id s c : cred_holds m id s c -> TargetName c = itemLabel k id /\ UserName c = id.
Proof. intros (_ & _ & _ & (Ht & Hu & _) & _). by split. Qed.

Lemma cred_holds_with {V} (f : ID -> gmap string string -> result goerror V) m id s c v :
  cred_holds m id s c -> f id (Metadata s) = Ok v -> cred_with f c = Some (id, v).
Proof.
  intros Hh Hf. unfold cred_with. rewrite (holds_ours _ _ _ _ Hh).
  destruct Hh as (_ & Hun & Hcc & Hp & _). rewrite (primary_clean ord k ord id (Metadata s) c) by done.
  destruct Hp as (_ & -> & _). by rewrite Hf.
Qed.

Lemma cred_holds_secret m id s c : cred_holds m id s c -> cred_secret m c = Some (id, s).
Proof.
  intros Hh. destruct (cred_holds_name _ _ _ _ Hh) as [_ Hu]. pose proof Hh as (_ & _ & _ & _ & blob & data & Hb & Hd & Hr).
  unfold cred_secret. rewrite Hu, Hb. cbn. apply (cred_holds_with _ m id s); [done|]. by rewrite Hd.
Qed.

Lemma cred_holds_metadata m id s c : cred_holds m id s c ->
  exists v, SetMetadata (factory k id) (Metadata s) = Ok v /\ cred_metadata c = Some (id, v).
Proof.
  intros Hh. pose proof Hh as (_ & _ & _ & _ & blob & data & _ & _ & Hr). unfold restore_secret in Hr.
  apply result_bind_Ok_inv in Hr as (v & Hv & _). exists v. split; [done|].
  by apply (cred_holds_with _ m id s).
Qed.

(** The credentials, as a list without repetition. *)
Lemma NoDup_creds m : windows_kept m -> NoDup (map_to_list m).*2.
Proof.
  intros [Hn _]. apply (NoDup_fmap_1 TargetName).
  assert (He : TargetName <$> (map_to_list m).*2 = (map_to_list m).*1).
  { rewrite <- list_fmap_compose. apply list_fmap_ext. intros i [t c] Hi. cbn. apply Hn.
    apply elem_of_map_to_list. by apply list_elem_of_lookup_2 in Hi. }
  rewrite He. apply NoDup_fst_map_to_list.
Qed.

Lemma elem_of_creds m c : windows_kept m -> c ∈ (map_to_list m).*2 <-> m !! TargetName c = Some c.
Proof.
  intros [Hn _]. rewrite list_elem_of_fmap. split.
  - intros ([t c'] & -> & Hin). apply elem_of_map_to_list in Hin. cbn. by rewrite (Hn t c').
  - intros Hc. exists (TargetName c, c). split; [done|]. by apply elem_of_map_to_list.
Qed.

(** Readers that answer for credentials of the store only. *)
Definition cred_reads {V} (h : Credential -> option (ID * V)) : Prop :=
  forall c id v, h c = Some (id, v) -> ours c = true /\ UserName c = id.

Lemma cred_with_reads {V} (f : ID -> gmap string string -> result goerror V) : cred_reads (cred_with f).
Proof. intros c id v. unfold cred_with. destruct (ours c); [|done]. by destruct (f _ _); intros [= <- _]. Qed.

Lemma cred_secret_reads m : cred_reads (cred_secret m).
Proof. intros c id v. unfold cred_secret. destruct (blob_of _ _ _ _); [|done]. cbn. apply cred_with_reads. Qed.

Lemma cred_reads_apart {V} (h : Credential -> option (ID * V)) m : cred_reads h -> windows_kept m ->
  apart h (map_to_list m).*2.
Proof.
  intros Hr Hk c c' id v u Hc Hc' Hh Hh'. apply elem_of_creds in Hc, Hc'; [|done..].
  apply Hr in Hh as [Ho Hu], Hh' as [Ho' Hu']. destruct Hk as [_ Hk].
  destruct (Hk _ c Hc (or_introl Ho)) as (i & s & Hi). destruct (Hk _ c' Hc' (or_introl Ho')) as (i' & s' & Hi').
  apply cred_holds_name in Hi as [Ht Hi], Hi' as [Ht' Hi']. congruence.
Qed.

Lemma windows_content_lookup m id s : windows_kept m ->
  windows_content m !! id = Some s <-> exists c, m !! itemLabel k id = Some c /\ cred_holds m id s c.
Proof.
  intros Hk. unfold windows_content.
  rewrite gathered_lookup; [|by apply NoDup_creds|apply cred_reads_apart; [apply cred_secret_reads|done]].
  split.
  - intros (c & Hc & Hs). apply elem_of_creds in Hc; [|done]. pose proof (cred_secret_reads _ _ _ _ Hs) as [Ho Hu].
    pose proof Hk as [_ Hk']. destruct (Hk' _ c Hc (or_introl Ho)) as (i & s' & Hi).
    pose proof (cred_holds_secret _ _ _ _ Hi) as Hs'. destruct (cred_holds_name _ _ _ _ Hi) as [Ht _].
    rewrite Hs in Hs'. injection Hs' as -> ->. rewrite Ht in Hc. eauto.
  - intros (c & Hc & Hh). exists c. split; [|by apply cred_holds_secret].
    apply elem_of_creds; [done|]. by destruct (cred_holds_name _ _ _ _ Hh) as [-> _].
Qed.

(** A label of the store names a secret or nothing. *)
Lemma windows_at m id : windows_kept m -> regular k id ->
  match m !! itemLabel k id with
  | Some c => exists s, cred_holds m id s c /\ windows_content m !! id = Some s
  | None => windows_content m !! id = None
  end.
Proof.
  intros Hk Hr. destruct (m !! itemLabel k id) as [c|] eqn:Hc.
  - pose proof Hk as [Hn Hk']. destruct (Hk' _ c Hc) as (i & s & Hi); [right; by exists id|].
    destruct (cred_holds_name _ _ _ _ Hi) as [Ht _]. rewrite (Hn _ _ Hc) in Ht. apply itemLabel_inj in Ht as ->.
    exists s. split; [done|]. apply windows_content_lookup; eauto.
  - apply eq_None_not_Some. intros [s Hs]. apply windows_content_lookup in Hs as (c & Hc' & _); [|done]. congruence.
Qed.
End content.

(** ** Changes under one identifier *)

Section change.
Context {T W : Type} `{Store.Secret T} `{WinCredSpec W creds}.
Context (utf16_decode : bytes -> result goerror bytes) (fold : Z -> Z -> bool).
Context (ord : list (string * string) -> list (string * string)) `{!MapOrder ord}.
Context (k : keychainStore T).
Abbreviation kept := (windows_kept utf16_decode fold ord k) (only parsing).
Abbreviation content := (windows_content utf16_decode fold ord k) (only parsing).
Abbreviation holds := (cred_holds utf16_decode ord k) (only parsing).

Lemma blob_of_ext m m' id c :
  (forall i, m' !! itemChunkLabel k id i = m !! itemChunkLabel k id i) -> blob_of k m' id c = blob_of k m id c.
Proof.
  intros Hm. assert (Hc : forall count i, chunks_at k m' id i count = chunks_at k m id i count).
  { induction count as [|count IH]; intros i; cbn; [done|]. by rewrite Hm, IH. }
  unfold blob_of. destruct (_ !! chunkCountKey); [|done]. by destruct (Atoi _).
Qed.

(** Only the credentials of [id] differ, and what is new is its secret or a
    chunk. *)
Context (m m' : gmap string Credential) (id : ID) (Hid : regular k id).
Context (Hother : forall t, t <> itemLabel k id -> not_chunk k id t -> m' !! t = m !! t).
Context (Hnew : forall t x, m' !! t = Some x -> t <> itemLabel k id ->
  m !! t = Some x \/ TargetName x = t /\ isChunkCredential (Attributes x) = true).
Context (Hsecret : forall c, m' !! itemLabel k id = Some c -> exists s, holds m' id s c).

Lemma other_label j : j <> id -> regular k j -> m' !! itemLabel k j = m !! itemLabel k j.
Proof.
  intros Hj Hr. apply Hother; [|by apply regular_not_chunk]. intros He. by apply Hj, (itemLabel_inj k).
Qed.

Lemma other_blob j c : j <> id -> blob_of k m' j c = blob_of k m j c.
Proof.
  intros Hj. apply blob_of_ext. intros i. apply Hother; [by apply regular_labels|].
  intros i' He. by apply Hj, (chunk_label_id k j id i i').
Qed.

Lemma other_holds j s c : j <> id -> holds m' j s c <-> holds m j s c.
Proof. intros Hj. unfold cred_holds. by rewrite (other_blob j c Hj). Qed.

Lemma kept_change : kept m -> kept m'.
Proof.
  intros [Hn Hk].
  assert (Hold : forall t c, t <> itemLabel k id -> m !! t = Some c ->
    ours fold k c = true \/ (exists j, regular k j /\ t = itemLabel k j) -> exists j s, holds m' j s c).
  { intros t c Ht Hc Ho. destruct (Hk t c Hc Ho) as (j & s & Hj). exists j, s.
    apply other_holds; [|done]. intros ->. apply Ht. rewrite <- (Hn t c Hc). by destruct (cred_holds_name _ _ _ _ _ _ _ Hj). }
  split; intros t c Hc.
  - destruct (decide (t = itemLabel k id)) as [->|Ht].
    + destruct (Hsecret c Hc) as [s Hs]. by destruct (cred_holds_name _ _ _ _ _ _ _ Hs).
    + destruct (Hnew t c Hc Ht) as [Ho|[? _]]; [by apply Hn|done].
  - intros Ho. destruct (decide (t = itemLabel k id)) as [->|Ht]; [eauto|].
    destruct Ho as [Ho|(j & Hj & ->)].
    + destruct (Hnew t c Hc Ht) as [Hm|[_ Hch]]; [by eapply Hold; eauto|]. unfold ours in Ho. by rewrite Hch in Ho.
    + eapply Hold; [done| |right; by exists j]. rewrite <- Hc. symmetry. apply other_label; [|done]. by intros ->.
Qed.

Lemma content_change j : kept m -> j <> id -> content m' !! j = content m !! j.
Proof.
  intros Hk Hj. apply option_eq. intros s.
  rewrite !(windows_content_lookup utf16_decode fold ord k) by (done || by apply kept_change).
  split; intros (c & Hc & Hh); pose proof Hh as (Hr & _); exists c.
  - rewrite <- (other_label j Hj Hr). by rewrite <- (other_holds j s c Hj).
  - rewrite (other_label j Hj Hr). by rewrite (other_holds j s c Hj).
Qed.

Lemma content_saved s c : kept m -> m' !! itemLabel k id = Some c -> holds m' id s c ->
  content m' = <[id := s]> (content m).
Proof.
  intros Hk Hc Hh. apply map_eq. intros j. destruct (decide (j = id)) as [->|Hj].
  - rewrite lookup_insert_eq. apply windows_content_lookup; [done|by apply kept_change|eauto].
  - rewrite lookup_insert_ne by done. by apply content_change.
Qed.

Lemma content_deleted : kept m -> m' !! itemLabel k id = None -> content m' = delete id (content m).
Proof.
  intros Hk Hc. apply map_eq. intros j. destruct (decide (j = id)) as [->|Hj].
  - rewrite lookup_delete_eq. apply eq_None_not_Some. intros [s Hs].
    apply windows_content_lookup in Hs as (c & Hc' & _); [congruence|done|by apply kept_change].
  - rewrite lookup_delete_ne by done. by apply content_change.
Qed.
End change.

(** ** The operations *)

Section operations.
Context {T W : Type} `{Store.Secret T} `{WinCredSpec W creds}.
Context (utf16_encode utf16_decode : bytes -> result goerror bytes) (fold : Z -> Z -> bool).
Context (ord : list (string * string) -> list (string * string)) `{!MapOrder ord}.
Context (k : keychainStore T).
Abbreviation kept := (windows_kept utf16_decode fold ord k) (only parsing).
Abbreviation content := (windows_content utf16_decode fold ord k) (only parsing).
Abbreviation holds := (cred_holds utf16_decode ord k) (only parsing).

Lemma runs_windows_Save fuel id s w : (size (creds w) < fuel)%nat -> kept (creds w) ->
  windows_acceptable utf16_encode utf16_decode k id s ->
  runs (Save utf16_encode ord k fuel id s) w (fun _ w' =>
    kept (creds w') /\ content (creds w') = <[id := s]> (content (creds w))).
Proof.
  intros Hf Hk (Hid & Hun & Hcc & data & blob & Hm & He & Hd & Hlen & Hr).
  assert (Henc : encodeSecret utf16_encode s = Ok blob) by (unfold encodeSecret; by rewrite Hm).
  destruct (Save_granted ord k utf16_encode fuel id s blob w Henc Hun Hcc Hlen Hf)
    as (w' & c & Hs & Hl & Hp & Hb & Ho & Hn).
  assert (Hh : holds (creds w') id s c) by (split_and!; [done..|by exists blob, data]).
  assert (Hsec : forall c', creds w' !! itemLabel k id = Some c' -> exists s', holds (creds w') id s' c').
  { intros c' Hc'. rewrite Hl in Hc'. injection Hc' as <-. by exists s. }
  exists tt, w'. split; [exact Hs|]. split.
  - by apply (kept_change utf16_decode fold ord k (creds w) (creds w') id Hid Ho Hn Hsec).
  - by apply (content_saved utf16_decode fold ord k (creds w) (creds w') id Hid Ho Hn Hsec s c).
Qed.

Lemma runs_windows_Delete fuel id w : (size (creds w) < fuel)%nat -> kept (creds w) -> regular k id ->
  runs (Delete k fuel id) w (fun _ w' =>
    kept (creds w') /\ content (creds w') = delete id (content (creds w))).
Proof.
  intros Hf Hk Hid. destruct (deleteChunks_granted k fuel id 0 w Hf) as (w1 & Hdel & Hfr & Hsub).
  destruct (wincred_delete (itemLabel k id) w1) as (w2 & Hd & Hc2).
  assert (Hnone : creds w2 !! itemLabel k id = None) by (rewrite Hc2; apply lookup_delete_eq).
  assert (Ho : forall t, t <> itemLabel k id -> not_chunk k id t -> creds w2 !! t = creds w !! t).
  { intros t Ht Hnc. rewrite Hc2, lookup_delete_ne by (by apply not_eq_sym). by apply Hfr. }
  assert (Hn : forall t x, creds w2 !! t = Some x -> t <> itemLabel k id -> creds w !! t = Some x \/
      TargetName x = t /\ isChunkCredential (Attributes x) = true).
  { intros t x Hx Ht. left. rewrite Hc2, lookup_delete_ne in Hx by (by apply not_eq_sym).
    by eapply lookup_weaken. }
  assert (Hsec : forall c, creds w2 !! itemLabel k id = Some c -> exists s, holds (creds w2) id s c).
  { intros c. by rewrite Hnone. }
  exists tt, w2. split; [|split].
  - unfold Delete, deleteChunks, bind, try. rewrite Hdel, Hd. by destruct (creds w1 !! itemLabel k id).
  - by apply (kept_change utf16_decode fold ord k (creds w) (creds w2) id Hid Ho Hn Hsec).
  - by apply (content_deleted utf16_decode fold ord k (creds w) (creds w2) id Hid Ho Hn Hsec).
Qed.

Lemma yields_windows_Get id w : kept (creds w) -> regular k id ->
  yields (Get utf16_decode ord k id) w (fun r w' => w' = w /\
    r = match content (creds w) !! id with Some s => Ok s | None => Err ErrCredentialNotFound end).
Proof.
  intros Hk Hid. pose proof (windows_at utf16_decode fold ord k (creds w) id Hk Hid) as Ha.
  unfold yields. destruct (creds w !! itemLabel k id) as [c|] eqn:Hc.
  - destruct Ha as (s & (_ & Hun & Hcc & Hp & blob & data & Hb & Hd & Hr) & ->).
    by rewrite (Get_restores ord k utf16_decode ord id w c (Metadata s) blob data s).
  - rewrite Ha. unfold Get, bind, mapped. by rewrite wincred_get, Hc.
Qed.

(** What the iterator yields. *)
Lemma findServiceCredentials_filter pattern l :
  findServiceCredentials fold k pattern l =
  List.filter (fun c => ours fold k c && pattern_Match pattern (UserName c)) l.
Proof.
  unfold findServiceCredentials. apply filter_ext. intros c. unfold ours, ParseID, valid.
  destruct (isChunkCredential _); [done|]. destruct (isServiceCredential _ _ _); [|done]. cbn.
  by destruct (validIdentifier _).
Qed.

Lemma Match_everything id : pattern_Match "**" id = true.
Proof. apply match_spec. apply Matches_glob_all. Qed.

(** A loop over the credentials of the store gathers what it reads of them. *)
Definition known (w : W) (l : list Credential) : Prop :=
  Forall (fun c => exists s, creds w !! TargetName c = Some c /\ holds (creds w) (UserName c) s c) l.

Lemma found_known pattern w l : kept (creds w) -> l ≡ₚ (map_to_list (creds w)).*2 ->
  known w (findServiceCredentials fold k pattern l).
Proof.
  intros Hk Hl. rewrite findServiceCredentials_filter. apply List.Forall_forall. intros c Hc.
  apply filter_In in Hc as [Hc Ho]. apply andb_true_iff in Ho as [Ho _].
  assert (Hin : c ∈ (map_to_list (creds w)).*2) by (rewrite <- Hl; by apply list_elem_of_In).
  apply (elem_of_creds utf16_decode fold ord k) in Hin; [|done]. pose proof Hk as [_ Hk'].
  destruct (Hk' _ c Hin (or_introl Ho)) as (id & s & Hh). pose proof Hh as Hh'.
  apply cred_holds_name in Hh' as [_ ->]. by exists s.
Qed.

(** What they contribute is what all credentials do, as far as the pattern
    selects it. *)
Lemma found_gathers {V} (h : Credential -> option (ID * V)) pattern l : cred_reads fold k h ->
  omap h (findServiceCredentials fold k pattern l) = omap (selecting pattern h) l.
Proof.
  intros Hr. rewrite findServiceCredentials_filter. induction l as [|c l IH]; [done|].
  cbn [List.filter]. unfold selecting at 1. destruct (ours fold k c && pattern_Match pattern (UserName c)) eqn:Hc; cbn.
  - rewrite IH. destruct (h c) as [[id v]|] eqn:Hh; [|done]. apply Hr in Hh as [_ <-].
    apply andb_true_iff in Hc as [_ Hc]. cbn. by rewrite Hc.
  - rewrite IH. destruct (h c) as [[id v]|] eqn:Hh; [|done]. apply Hr in Hh as [Ho <-].
    rewrite Ho in Hc. cbn in *. by rewrite Hc.
Qed.

Lemma found_content {V} (h : Credential -> option (ID * V)) pattern m l : cred_reads fold k h ->
  kept m -> l ≡ₚ (map_to_list m).*2 ->
  (list_to_map (reverse (omap h (findServiceCredentials fold k pattern l))) : gmap ID V) =
  matching pattern (gathered h (map_to_list m).*2).
Proof.
  intros Hr Hk Hl. pose proof (NoDup_creds utf16_decode fold ord k _ Hk) as Hnd.
  pose proof (cred_reads_apart utf16_decode fold ord k h _ Hr Hk) as Hap.
  rewrite found_gathers, <- (gathered_selecting pattern h) by done.
  apply (apart_selecting pattern) in Hap. rewrite gathered_loop.
  - symmetry. by apply gathered_perm.
  - by rewrite Hl.
  - intros x y id v u Hx Hy. rewrite Hl in Hx, Hy. by apply Hap.
Qed.

Lemma matching_everything {V} (m : gmap ID V) : matching "**" m = m.
Proof. apply map_filter_id. intros id v _. apply Match_everything. Qed.

Lemma collectMetadata_known w l acc : known w l -> collectMetadata ord k l acc =
  Ok (list_to_map (reverse (omap (cred_metadata fold ord k) l)) ∪ acc).
Proof.
  intros Hl. revert acc. induction Hl as [|c l (s & Hc & Hh) Hl IH]; intros acc.
  { cbn. by rewrite (left_id_L ∅ (∪)). }
  destruct (cred_holds_metadata utf16_decode fold ord k _ _ _ _ Hh) as (v & Hv & Hg).
  pose proof Hh as (Hr & Hun & Hcc & Hp & _). pose proof Hp as (Ht & _). pose proof Hr as (Hv' & _).
  rewrite gathered_step, Hg. cbn [fst snd collectMetadata]. rewrite Ht, label_cut by done.
  unfold ParseID, valid. rewrite Hv'. cbn. rewrite (primary_clean ord k ord _ _ _ Hun Hcc Hp), Hv. apply IH.
Qed.

Lemma runs_windows_collectSecrets w l acc : known w l ->
  runs (collectSecrets utf16_decode ord k l acc) w (fun m w' => w' = w /\
    m = list_to_map (reverse (omap (cred_secret utf16_decode fold ord k (creds w)) l)) ∪ acc).
Proof.
  intros Hl. revert acc. induction Hl as [|c l (s & Hc & Hh) Hl IH]; intros acc.
  { apply runs_ret. cbn. by rewrite (left_id_L ∅ (∪)). }
  pose proof (cred_holds_secret utf16_decode fold ord k _ _ _ _ Hh) as Hg.
  pose proof Hh as (Hr & Hun & Hcc & Hp & blob & data & Hb & Hd & Hs).
  pose proof Hp as (Ht & _). pose proof Hr as (Hv & _).
  rewrite gathered_step, Hg. cbn [fst snd collectSecrets]. rewrite Ht, label_cut by done.
  unfold ParseID, valid. rewrite Hv. cbn [negb]. rewrite Ht in Hc.
  apply runs_bind. exists c, w. split; [unfold mapped; by rewrite wincred_get, Hc|].
  apply runs_bind. exists s, w. split; [|apply IH].
  unfold loadSecret, bind, lift. rewrite (rawBlob_granted k _ c blob w Hb), (primary_clean ord k ord _ _ _ Hun Hcc Hp).
  unfold restore_secret in Hs. destruct (SetMetadata (factory k (UserName c)) (Metadata s)); cbn in Hs; [|done].
  by rewrite Hd, Hs.
Qed.

Lemma runs_windows_GetAllMetadata w : kept (creds w) ->
  runs (GetAllMetadata fold ord k) w (fun m w' => w' = w /\ dom m = dom (content (creds w)) /\
    forall id v, m !! id = Some v -> exists s, content (creds w) !! id = Some s /\
      SetMetadata (factory k id) (Metadata s) = Ok v).
Proof.
  intros Hk. destruct (wincred_list w) as (l & Hls & Hl). unfold GetAllMetadata.
  apply runs_bind. exists l, w. split; [unfold mapped; by rewrite Hls|].
  eapply runs_lift; [apply (collectMetadata_known w), found_known; [exact Hk|exact Hl]|]. split; [done|].
  rewrite (right_id_L ∅ (∪)), (found_content _ "**" (creds w)), matching_everything; [|apply cred_with_reads|done|done].
  set (m := gathered _ _).
  assert (Hm : forall id v, m !! id = Some v <-> exists c s, creds w !! itemLabel k id = Some c /\
    holds (creds w) id s c /\ SetMetadata (factory k id) (Metadata s) = Ok v).
  { intros id v. subst m. rewrite gathered_lookup;
      [|by apply (NoDup_creds utf16_decode fold ord k)
       |apply (cred_reads_apart utf16_decode fold ord k); [apply cred_with_reads|done]].
    split.
    - intros (c & Hc & Hv). apply (elem_of_creds utf16_decode fold ord k) in Hc; [|done].
      pose proof (cred_with_reads fold ord k _ _ _ _ Hv) as [Ho Hu]. pose proof Hk as [_ Hk'].
      destruct (Hk' _ c Hc (or_introl Ho)) as (i & s & Hh).
      destruct (cred_holds_name _ _ _ _ _ _ _ Hh) as [Ht Hu']. assert (i = id) as -> by congruence.
      destruct (cred_holds_metadata utf16_decode fold ord k _ _ _ _ Hh) as (v' & Hv' & Hg).
      rewrite Hg in Hv. injection Hv as ->. exists c, s. by rewrite <- Ht.
    - intros (c & s & Hc & Hh & Hv). exists c. destruct (cred_holds_name _ _ _ _ _ _ _ Hh) as [Ht _].
      split; [by apply (elem_of_creds utf16_decode fold ord k); rewrite ?Ht|].
      destruct (cred_holds_metadata utf16_decode fold ord k _ _ _ _ Hh) as (v' & Hv' & Hg). congruence. }
  split.
  - apply set_eq. intros id. rewrite !elem_of_dom. split.
    + intros [v Hv]. apply Hm in Hv as (c & s & Hc & Hh & _). exists s. apply windows_content_lookup; eauto.
    + intros [s Hs]. apply windows_content_lookup in Hs as (c & Hc & Hh); [|done|done].
      destruct (cred_holds_metadata utf16_decode fold ord k _ _ _ _ Hh) as (v & Hv & _). exists v. apply Hm. eauto.
  - intros id v Hv. apply Hm in Hv as (c & s & Hc & Hh & Hv). exists s. split; [|done].
    apply windows_content_lookup; eauto.
Qed.

Lemma runs_windows_Filter pattern w : kept (creds w) ->
  runs (Filter utf16_decode fold ord k pattern) w (fun m w' => w' = w /\
    m = matching pattern (content (creds w))).
Proof.
  intros Hk. destruct (wincred_list w) as (l & Hls & Hl). unfold Filter.
  apply runs_bind. exists l, w. split; [unfold mapped; by rewrite Hls|].
  eapply runs_mono; [apply runs_windows_collectSecrets, found_known; [exact Hk|exact Hl]|].
  cbv beta. intros m w' [-> ->]. split; [done|].
  rewrite (right_id_L ∅ (∪)). by apply found_content; [apply cred_secret_reads|..].
Qed.
End operations.

(** ** Properties *)


Lemma windows_kept_empty {T} `{Store.Secret T} utf16_decode fold ord (k : keychainStore T) :
  windows_kept utf16_decode fold ord k ∅.
Proof. split; intros t c Hc; by rewrite lookup_empty in Hc. Qed.

(** A secret that takes two chunks is stored and read back. *)
Definition large_secret : PassValue := {| pv_value := repeat Byte.x41 1500; pv_metadata := {["k" := "v"]} |}.

Lemma large_acceptable : windows_acceptable latin_encode latin_decode sample_store "a/b" large_secret.
Proof.
  split; [split; [reflexivity|]; split; rewrite <- Contains_spec; by vm_compute|].
  split; [|split; [reflexivity|]].
  - intros j v Hj. cbn in Hj. apply lookup_singleton_Some in Hj as [<- _]. reflexivity.
  - exists (pv_value large_secret), (mjoin (map (fun x => [x; Byte.x00]) (pv_value large_secret))).
    split_and!; [reflexivity..| |reflexivity]. apply Z.leb_le. vm_compute. reflexivity.
Qed.


(** The Windows store is a machine over a map. *)
Definition windows_conventions : conventions :=
  {| on_absent := ErrCredentialNotFound; on_no_listing := None; on_no_match := None; on_duplicate := None |}.

#[export] Instance windows_machine {T W} `{Store.Secret T} `{WinCredSpec W creds}
    utf16_encode utf16_decode fold ord `{!MapOrder ord} (k : keychainStore T) :
  @StoreMachine W T (windows_Store creds utf16_encode utf16_decode fold ord k)
    (fun w => windows_kept utf16_decode fold ord k (creds w)) (regular k)
    (windows_acceptable utf16_encode utf16_decode k)
    (fun w => windows_content utf16_decode fold ord k (creds w)) windows_conventions.
Proof.
  split. intros call w Hk Hok.
  destruct call as [id|id| |id v|id v|pattern]; cbn [perform spec_perform permitted] in *.
  - destruct (runs_windows_Delete utf16_decode fold ord k (Datatypes.S (size (creds w))) id w
      (Nat.lt_succ_diag_r _) Hk Hok) as (a & w' & Hd & Hw & Hv). cbn. rewrite Hd. by rewrite <- Hv.
  - pose proof (yields_windows_Get utf16_decode fold ord k id w Hk Hok) as Hy. unfold yields in Hy. cbn.
    destruct (Get utf16_decode ord k id w) as [x w']. cbn [fst snd] in Hy. destruct Hy as [-> ->].
    split; [done|]. by destruct (_ !! id).
  - destruct (runs_windows_GetAllMetadata utf16_decode fold ord k w Hk) as (m & w' & Ha & -> & Hd & _).
    cbn. rewrite Ha. cbn. rewrite Hd. split; [done|]. unfold or_error. by case_bool_decide.
  - destruct (runs_windows_Save utf16_encode utf16_decode fold ord k (Datatypes.S (size (creds w))) id v w
      (Nat.lt_succ_diag_r _) Hk Hok) as (a & w' & Hd & Hw & Hv). cbn [store_Save windows_Store]. rewrite Hd. by rewrite <- Hv.
  - destruct (runs_windows_Save utf16_encode utf16_decode fold ord k (Datatypes.S (size (creds w))) id v w
      (Nat.lt_succ_diag_r _) Hk Hok) as (a & w' & Hd & Hw & Hv). cbn [store_Upsert windows_Store]. unfold Upsert. rewrite Hd. by rewrite <- Hv.
  - destruct (runs_windows_Filter utf16_decode fold ord k pattern w Hk) as (m & w' & Ha & -> & ->).
    cbn. rewrite Ha. cbn. split; [done|]. unfold or_error. by case_bool_decide.
Qed.
