(* ===== verification/KeychainLinux.v ===== *)
(** Package store/keychain on Linux (keychain_linux.go): a store over the
    D-Bus Secret Service. Every operation dials its own connection, opens a
    session, finds and unlocks the default collection, and retries the calls a
    relocked collection rejects. *)

From S2P Require Import Prelude GoErrors GoStrings Secrets Store Keychain SecretService.

(** ** The secret service the store depends on *)

(** The interface [secretService] of keychain_linux.go with its constructor,
    the session method [NewSecret], and the sleep seam [sleepFn], over a state
    [W]. *)
Class secretService (W : Type) : Type := {
  newService : comp W goerror unit;
  svc_Close : comp W goerror unit;
  svc_OpenSession : AuthenticationMode -> comp W goerror Session;
  svc_CloseSession : Session -> comp W goerror unit;
  svc_Collections : comp W goerror (list ObjectPath);
  svc_ReadAlias : string -> comp W goerror ObjectPath;
  svc_IsLocked : ObjectPath -> comp W goerror bool;
  svc_Unlock : list ObjectPath -> comp W goerror unit;
  svc_SearchCollection : ObjectPath -> gmap string string -> comp W goerror (list ObjectPath);
  svc_CreateItem : ObjectPath -> list (string * Variant) -> SecretService.Secret -> Z ->
    comp W goerror ObjectPath;
  svc_DeleteItem : ObjectPath -> comp W goerror unit;
  svc_GetAttributes : ObjectPath -> comp W goerror (gmap string string);
  svc_GetSecret : ObjectPath -> Session -> comp W goerror bytes;
  svc_SetItemSecret : ObjectPath -> SecretService.Secret -> comp W goerror unit;
  svc_SetItemAttributes : ObjectPath -> gmap string string -> comp W goerror unit;
  svc_SetItemLabel : ObjectPath -> string -> comp W goerror unit;
  svc_Available : comp W goerror unit;
  session_NewSecret : Session -> bytes -> comp W goerror SecretService.Secret;
  sleepFn : Z -> W -> W
}.

(** The client of package secretservice is such a service: [fuel] bounds the
    random draws and the signals a prompt waits through, [missing] is the
    outcome of the socket check. *)
Definition bus_secretService {W} `{Bus W} `{Entropy W}
    (aes_encrypt aes_decrypt : bytes -> bytes -> bytes)
    (hkdf : bytes -> nat -> result goerror bytes) (fuel : nat) (missing : string * bool)
    (sleep : Z -> W -> W) : secretService W := {|
  newService := NewService missing;
  svc_Close := Close;
  svc_OpenSession := OpenSession hkdf fuel;
  svc_CloseSession := CloseSession;
  svc_Collections := Collections;
  svc_ReadAlias := ReadAlias;
  svc_IsLocked := IsLocked;
  svc_Unlock := Unlock fuel;
  svc_SearchCollection := SearchCollection;
  svc_CreateItem := CreateItem fuel;
  svc_DeleteItem := DeleteItem fuel;
  svc_GetAttributes := GetAttributes;
  svc_GetSecret := GetSecret aes_decrypt;
  svc_SetItemSecret := SetItemSecret;
  svc_SetItemAttributes := SetItemAttributes;
  svc_SetItemLabel := SetItemLabel;
  svc_Available := Available;
  session_NewSecret := NewSecret aes_encrypt;
  sleepFn := sleep
|}.

(** ** keychain_linux.go *)

Definition loginKeychainObjectPath : ObjectPath := "/org/freedesktop/secrets/collection/login".
Definition nullObjectPath : ObjectPath := "/".
Definition errSessionBusUnavailable : goerror := Sentinel "D-Bus session bus unavailable".
Definition errNoSecretServiceOwner : goerror :=
  Sentinel "keychain: no org.freedesktop.secrets owner on the session bus".
Definition errCollectionLocked : goerror := Sentinel "collection is locked".
Definition secretServiceIsLockedError : string := "org.freedesktop.Secret.Error.IsLocked".

(** Milliseconds. *)
Definition maxRelockRetries : nat := 5.
Definition relockRetryBaseDelay : Z := 20.
Definition relockRetryMaxDelay : Z := 500.

(** [dbus.ObjectPath.IsValid] is code of godbus. *)
Definition resolveDefaultCollection (IsValid : ObjectPath -> bool)
    (collections : list ObjectPath) (aliasPath : ObjectPath) : result goerror ObjectPath :=
  if existsb (String.eqb loginKeychainObjectPath) collections then Ok loginKeychainObjectPath
  else if negb (IsValid aliasPath) then
    Err (ErrorNew "the default collection object path is invalid")
  else if String.eqb aliasPath nullObjectPath then Err ErrNoDefaultCollection
  else Ok aliasPath.

Definition isLockedDBusError (err : goerror) : bool :=
  match errors_As_DBusError err with
  | Some name => String.eqb name secretServiceIsLockedError
  | None => false
  end.

Section linux.
Context {T W : Type} `{Store.Secret T} `{secretService W}.
Context (IsValid : ObjectPath -> bool).
(** The iteration order of the maps. *)
Context (ord : list (string * string) -> list (string * string)).
Context (k : keychainStore T).

(** [ensureAvailable]; the deadline only bounds the two calls. *)
Definition ensureAvailable : comp W goerror unit :=
  try newService (fun r =>
    match r with
    | Err err => throw (Wrap "%w: %w: %w" [ErrKeychainUnavailable; errSessionBusUnavailable; err])
    | Ok _ =>
        deferring (try svc_Available (fun r =>
          match r with
          | Ok _ => ret tt
          | Err err =>
              if errors_Is err ErrNoSecretService
              then throw (Wrap "%w: %w" [ErrKeychainUnavailable; errNoSecretServiceOwner])
              else throw (Wrap "%w: %w" [ErrKeychainUnavailable; err])
          end)) (fun _ => svc_Close)
    end).

Definition getDefaultCollection : comp W goerror ObjectPath :=
  collections <-! svc_Collections ;;
  if existsb (String.eqb loginKeychainObjectPath) collections then ret loginKeychainObjectPath
  else
    defaultKeychainObjectPath <-! svc_ReadAlias "default" ;;
    lift (resolveDefaultCollection IsValid collections defaultKeychainObjectPath).

Definition isCollectionUnlocked (collectionPath : ObjectPath) : comp W goerror unit :=
  locked <-! svc_IsLocked collectionPath ;;
  if negb locked then ret tt else throw errCollectionLocked.

(** The loop of [withRelockRetry]: [attempts] retries are left, [r] is the
    outcome of the last run of [op]. *)
Fixpoint relock_loop {A} (attempts : nat) (delay : Z) (collectionPath : ObjectPath)
    (op : comp W goerror A) (r : result goerror A) : comp W goerror A :=
  match attempts, r with
  | S attempts', Err err =>
      if isLockedDBusError err then fun w =>
        try (svc_Unlock [collectionPath]) (fun unlocked =>
          match unlocked with
          | Err unlockErr => throw (Wrap "unlock after relock: %w" [unlockErr])
          | Ok _ =>
              try op (relock_loop attempts' (Z.min (delay * 2) relockRetryMaxDelay) collectionPath op)
          end) (sleepFn delay w)
      else throw err
  | _, _ => lift r
  end.

Definition withRelockRetry {A} (collectionPath : ObjectPath) (op : comp W goerror A)
  : comp W goerror A :=
  try op (relock_loop maxRelockRetries relockRetryBaseDelay collectionPath op).

(** The prologue every operation starts with, and its deferred calls. *)
Definition with_session {A} (body : Session -> comp W goerror A) : comp W goerror A :=
  _ <-! newService ;;
  deferring (
    session <-! svc_OpenSession AuthenticationDHAES ;;
    deferring (body session) (fun _ => svc_CloseSession session))
  (fun _ => svc_Close).

(** The next steps every operation takes: find the collection, unlock it. *)
Definition unlockedCollection : comp W goerror ObjectPath :=
  objectPath <-! getDefaultCollection ;;
  _ <-! try (isCollectionUnlocked objectPath) (fun r =>
    match r with
    | Ok _ => ret tt
    | Err err =>
        if negb (errors_Is err errCollectionLocked) then throw err
        else svc_Unlock [objectPath]
    end) ;;
  ret objectPath.

(** The attributes that identify a secret, and those every secret of the store
    has. *)
Definition identity (id : ID) : gmap string string :=
  safelySetID id (safelySetMetadata ord (serviceGroup k) (serviceName k) ∅).
Definition service_identity : gmap string string :=
  safelySetMetadata ord (serviceGroup k) (serviceName k) ∅.

Definition Delete (id : ID) : comp W goerror unit :=
  with_session (fun session =>
    objectPath <-! unlockedCollection ;;
    items <-! svc_SearchCollection objectPath (identity id) ;;
    match items with
    | [] => ret tt
    | item :: _ => withRelockRetry objectPath (svc_DeleteItem item)
    end).

Definition Get (id : ID) : comp W goerror T :=
  with_session (fun session =>
    objectPath <-! unlockedCollection ;;
    items <-! wrapped "failed to search collection: %w"
                (svc_SearchCollection objectPath (identity id)) ;;
    match items with
    | [] => throw ErrCredentialNotFound
    | item :: _ =>
        attributes <-! svc_GetAttributes item ;;
        let attributes := safelyCleanMetadata ord attributes in
        value <-! withRelockRetry objectPath (svc_GetSecret item session) ;;
        lift (restore_secret (factory k) id attributes value)
    end).

(** The loop of [GetAllMetadata]. *)
Fixpoint collectMetadata (itemPaths : list ObjectPath) (credentials : gmap ID T)
  : comp W goerror (gmap ID T) :=
  match itemPaths with
  | [] => ret credentials
  | itemPath :: itemPaths' =>
      attributes <-! svc_GetAttributes itemPath ;;
      match attributes !! "id" with
      | None => throw (ErrorNew "secret attributes does not contain `id` field")
      | Some attrID =>
          secretID <-! lift (ParseID attrID) ;;
          let attributes := safelyCleanMetadata ord attributes in
          secret <-! lift (SetMetadata (factory k secretID) attributes) ;;
          collectMetadata itemPaths' (<[secretID := secret]> credentials)
      end
  end.

Definition GetAllMetadata : comp W goerror (gmap ID T) :=
  with_session (fun session =>
    objectPath <-! unlockedCollection ;;
    itemPaths <-! wrapped "failed to search collection: %w"
                    (svc_SearchCollection objectPath service_identity) ;;
    collectMetadata itemPaths ∅).

(** The best-effort loop over the duplicates: every error is dropped. *)
Fixpoint delete_duplicates (objectPath : ObjectPath) (dups : list ObjectPath) : comp W goerror unit :=
  match dups with
  | [] => ret tt
  | dup :: dups' =>
      try (withRelockRetry objectPath (svc_DeleteItem dup)) (fun _ => delete_duplicates objectPath dups')
  end.

Definition Save (id : ID) (secret : T) : comp W goerror unit :=
  with_session (fun session =>
    objectPath <-! unlockedCollection ;;
    value <-! lift (Marshal secret) ;;
    sessSecret <-! session_NewSecret session value ;;
    let attributes := stored_metadata ord k id (Metadata secret) in
    let label := itemLabel k id in
    items <-! svc_SearchCollection objectPath (identity id) ;;
    match items with
    | [] =>
        let properties := NewSecretProperties label attributes in
        _ <-! withRelockRetry objectPath
                (svc_CreateItem objectPath properties sessSecret ReplaceBehaviorReplace) ;;
        ret tt
    | primary :: dups =>
        _ <-! withRelockRetry objectPath (svc_SetItemSecret primary sessSecret) ;;
        try (svc_SetItemAttributes primary attributes) (fun _ =>
        try (svc_SetItemLabel primary label) (fun _ =>
        delete_duplicates objectPath dups))
    end).

Definition Upsert (id : ID) (secret : T) : comp W goerror unit := Save id secret.

Definition loadSecret (id : ID) (collectionPath itemPath : ObjectPath) (session : Session)
    (attributes : gmap string string) : comp W goerror T :=
  value <-! withRelockRetry collectionPath (svc_GetSecret itemPath session) ;;
  let attributes := safelyCleanMetadata ord attributes in
  lift (restore_secret (factory k) id attributes value).

(** The loop of [Filter]. *)
Fixpoint collectSecrets (pattern : Pattern) (objectPath : ObjectPath) (session : Session)
    (itemPaths : list ObjectPath) (credentials : gmap ID T) : comp W goerror (gmap ID T) :=
  match itemPaths with
  | [] => ret credentials
  | itemPath :: itemPaths' =>
      attributes <-! svc_GetAttributes itemPath ;;
      match attributes !! "id" with
      | None => collectSecrets pattern objectPath session itemPaths' credentials
      | Some attrID =>
          match ParseID attrID with
          | Err _ => collectSecrets pattern objectPath session itemPaths' credentials
          | Ok secretID =>
              if negb (pattern_Match pattern secretID) then
                collectSecrets pattern objectPath session itemPaths' credentials
              else
                secret <-! loadSecret secretID objectPath itemPath session attributes ;;
                collectSecrets pattern objectPath session itemPaths' (<[secretID := secret]> credentials)
          end
      end
  end.

Definition Filter (pattern : Pattern) : comp W goerror (gmap ID T) :=
  with_session (fun session =>
    objectPath <-! unlockedCollection ;;
    itemPaths <-! wrapped "failed to search collection: %w"
                    (svc_SearchCollection objectPath service_identity) ;;
    match itemPaths with
    | [] => throw ErrCredentialNotFound
    | _ =>
        credentials <-! collectSecrets pattern objectPath session itemPaths ∅ ;;
        if decide (credentials = ∅) then throw ErrCredentialNotFound else ret credentials
    end).
End linux.

(** ** The calls a service receives *)

Inductive call : Type :=
| CNew (ok : bool)
| COpen (session : option Session)
| CCloseSession (session : Session)
| CClose
| CUnlock (items : list ObjectPath)
| CSleep (ms : Z)
| COp (name : string).

(** A call that neither opens nor closes anything. *)
Definition inner_call (c : call) : bool :=
  match c with CUnlock _ | CSleep _ | COp _ => true | _ => false end.

Definition logged {W A} (c : result goerror A -> call) (m : comp W goerror A)
  : comp (W * list call) goerror A := fun wl =>
  let '(r, w') := m wl.1 in (r, (w', wl.2 ++ [c r])).

(** Any service, with the calls it receives appended to a log. *)
#[export] Instance logged_service {W} `{secretService W} : secretService (W * list call) := {
  newService := logged (fun r => CNew (is_ok r)) newService;
  svc_Close := logged (fun _ => CClose) svc_Close;
  svc_OpenSession mode := logged (fun r => COpen (match r with Ok s => Some s | _ => None end))
                            (svc_OpenSession mode);
  svc_CloseSession s := logged (fun _ => CCloseSession s) (svc_CloseSession s);
  svc_Collections := logged (fun _ => COp "Collections") svc_Collections;
  svc_ReadAlias a := logged (fun _ => COp "ReadAlias") (svc_ReadAlias a);
  svc_IsLocked p := logged (fun _ => COp "IsLocked") (svc_IsLocked p);
  svc_Unlock ps := logged (fun _ => CUnlock ps) (svc_Unlock ps);
  svc_SearchCollection p a := logged (fun _ => COp "SearchCollection") (svc_SearchCollection p a);
  svc_CreateItem p q s r := logged (fun _ => COp "CreateItem") (svc_CreateItem p q s r);
  svc_DeleteItem p := logged (fun _ => COp "DeleteItem") (svc_DeleteItem p);
  svc_GetAttributes p := logged (fun _ => COp "GetAttributes") (svc_GetAttributes p);
  svc_GetSecret p s := logged (fun _ => COp "GetSecret") (svc_GetSecret p s);
  svc_SetItemSecret p s := logged (fun _ => COp "SetItemSecret") (svc_SetItemSecret p s);
  svc_SetItemAttributes p a := logged (fun _ => COp "SetItemAttributes") (svc_SetItemAttributes p a);
  svc_SetItemLabel p l := logged (fun _ => COp "SetItemLabel") (svc_SetItemLabel p l);
  svc_Available := logged (fun _ => COp "Available") svc_Available;
  session_NewSecret s v := logged (fun _ => COp "NewSecret") (session_NewSecret s v);
  sleepFn d := fun wl => (sleepFn d wl.1, wl.2 ++ [CSleep d])
}.

(** The computation logs inner calls only. *)
Definition inner_only {W A} (m : comp (W * list call) goerror A) : Prop :=
  forall w l, exists mid, (m (w, l)).2.2 = l ++ mid /\ forallb inner_call mid = true.

Section inner.
Context {W : Type}.

Lemma inner_ret {A} (a : A) : inner_only (W := W) (ret a).
Proof. intros w l. exists []. by rewrite app_nil_r. Qed.

Lemma inner_lift {A} (r : result goerror A) : inner_only (W := W) (lift r).
Proof. intros w l. exists []. by rewrite app_nil_r. Qed.

Lemma inner_throw {A} e : inner_only (W := W) (A := A) (throw e).
Proof. intros w l. exists []. by rewrite app_nil_r. Qed.

Lemma inner_logged {A} c (m : comp W goerror A) :
  (forall r, inner_call (c r) = true) -> inner_only (logged c m).
Proof.
  intros Hc w l. unfold logged. simpl. destruct (m w) as [r w']. exists [c r]. simpl.
  by rewrite Hc.
Qed.

Lemma inner_then l mid1 (l2 : list call) mid2 :
  forallb inner_call mid1 = true -> l2 = (l ++ mid1) ++ mid2 -> forallb inner_call mid2 = true ->
  exists mid, l2 = l ++ mid /\ forallb inner_call mid = true.
Proof.
  intros H1 -> H2. exists (mid1 ++ mid2). rewrite <- app_assoc, forallb_app, H1, H2. done.
Qed.

Lemma inner_bind {A B} (m : comp (W * list call) goerror A) (f : A -> comp _ goerror B) :
  inner_only m -> (forall a, inner_only (f a)) -> inner_only (bind m f).
Proof.
  intros Hm Hf w l. unfold bind. destruct (Hm w l) as (mid & Hl & Hin).
  destruct (m (w, l)) as [[a|e] [w' l']]; simpl in *; [|eauto]. subst l'.
  destruct (Hf a w' (l ++ mid)) as (mid2 & Hl2 & Hin2). eauto using inner_then.
Qed.

Lemma inner_try {A B} (m : comp (W * list call) goerror A) (f : _ -> comp _ goerror B) :
  inner_only m -> (forall r, inner_only (f r)) -> inner_only (try m f).
Proof.
  intros Hm Hf w l. unfold try. destruct (Hm w l) as (mid & Hl & Hin).
  destruct (m (w, l)) as [r [w' l']]; simpl in *. subst l'.
  destruct (Hf r w' (l ++ mid)) as (mid2 & Hl2 & Hin2). eauto using inner_then.
Qed.

Lemma inner_wrapped {A} fmt (m : comp (W * list call) goerror A) :
  inner_only m -> inner_only (wrapped fmt m).
Proof.
  intros Hm w l. destruct (Hm w l) as (mid & Hl & Hin). exists mid. split; [|done].
  unfold wrapped. by destruct (m (w, l)) as [[a|e] [w' l']].
Qed.
End inner.

Create HintDb inner.
#[export] Hint Resolve inner_ret inner_lift inner_throw inner_bind inner_try inner_wrapped : inner.
#[export] Hint Extern 1 (inner_only (logged _ _)) => apply inner_logged; intros; reflexivity : inner.
#[export] Hint Extern 1 (inner_only (match ?x with _ => _ end)) => destruct x : inner.

Section released.
Context {T W : Type} `{Store.Secret T} `{secretService W}.
Context (IsValid : ObjectPath -> bool) (ord : list (string * string) -> list (string * string)).
Context (k : keychainStore T).

Lemma inner_relock {A} p (op : comp (W * list call) goerror A) :
  inner_only op -> inner_only (withRelockRetry p op).
Proof.
  intros Hop. unfold withRelockRetry. apply inner_try; [done|].
  generalize maxRelockRetries relockRetryBaseDelay.
  induction n as [|n IH]; intros d r; simpl; [destruct r; auto with inner|].
  destruct r as [a|err]; [auto with inner|]. destruct (isLockedDBusError err); [|auto with inner].
  intros w l. simpl.
  assert (Hrest : inner_only (try (svc_Unlock [p]) (fun unlocked =>
    match unlocked with
    | Err unlockErr => throw (Wrap "unlock after relock: %w" [unlockErr])
    | Ok _ => try op (relock_loop n (Z.min (d * 2) relockRetryMaxDelay) p op)
    end))) by (simpl; auto with inner).
  destruct (Hrest (sleepFn d w) (l ++ [CSleep d])) as (mid & Hl & Hin).
  exists (CSleep d :: mid). simpl in *. rewrite Hl, <- app_assoc. done.
Qed.
Hint Resolve inner_relock : inner.

Lemma inner_unlockedCollection : inner_only (W := W) (unlockedCollection IsValid).
Proof.
  unfold unlockedCollection, getDefaultCollection, isCollectionUnlocked. simpl.
  repeat (apply inner_bind; [|intros]); auto with inner.
Qed.
Hint Resolve inner_unlockedCollection : inner.

Lemma inner_collectMetadata paths acc : inner_only (W := W) (collectMetadata ord k paths acc).
Proof.
  revert acc. induction paths as [|p paths IH]; intros acc; simpl; [auto with inner|].
  apply inner_bind; [auto with inner|]. intros a. destruct (a !! "id"); auto with inner.
Qed.

Lemma inner_collectSecrets pat o s paths acc :
  inner_only (W := W) (collectSecrets ord k pat o s paths acc).
Proof.
  revert acc. induction paths as [|p paths IH]; intros acc; simpl; [auto with inner|].
  apply inner_bind; [auto with inner|]. intros a. destruct (a !! "id"); [|auto with inner].
  destruct (ParseID _); [|auto with inner]. destruct (pattern_Match pat _); simpl; [|auto with inner].
  unfold loadSecret. simpl. auto 6 with inner.
Qed.

Lemma inner_duplicates o dups : inner_only (W := W) (delete_duplicates o dups).
Proof. induction dups; simpl; auto with inner. Qed.
Hint Resolve inner_collectMetadata inner_collectSecrets inner_duplicates : inner.

(** The shape of the log of an operation. *)
Definition released (log : list call) : Prop :=
  log = [CNew false] \/
  log = [CNew true; COpen None; CClose] \/
  exists s mid, log = CNew true :: COpen (Some s) :: mid ++ [CCloseSession s; CClose] /\
    forallb inner_call mid = true.

Lemma with_session_released {A} (body : Session -> comp (W * list call) goerror A) w :
  (forall s, inner_only (body s)) -> released ((with_session body (w, [])).2.2).
Proof.
  intros Hb. unfold with_session, bind, deferring. simpl. unfold logged. simpl.
  destruct (newService w) as [[[]|e] w1]; simpl; [|by left]. right.
  destruct (svc_OpenSession AuthenticationDHAES w1) as [[s|e] w2]; simpl.
  - destruct (Hb s w2 [CNew true; COpen (Some s)]) as (mid & Hl & Hin). right.
    destruct (body s (w2, _)) as [r [w3 l3]]. simpl in *. subst l3.
    destruct (svc_CloseSession s w3) as [r4 w4]. simpl.
    destruct (svc_Close w4) as [r5 w5]. simpl. exists s, mid. split; [|done].
    by rewrite <- app_assoc.
  - destruct (svc_Close w2) as [r3 w3]. simpl. by left.
Qed.
End released.

#[export] Hint Resolve inner_relock inner_unlockedCollection inner_collectMetadata
  inner_collectSecrets inner_duplicates : inner.

(** ** The retries, as a log *)

(** The delays before the retries. *)
Definition relock_delays : list Z := [20; 40; 80; 160; 320]%Z.

(** The calls of [n] retries after the first run of the operation [c]. *)
Definition retries (coll : ObjectPath) (c : call) (ds : list Z) : list call :=
  mjoin (map (fun d => [CSleep d; CUnlock [coll]; c]) ds).

Lemma relock_loop_log {W} `{secretService W} {A} coll c (op : comp (W * list call) goerror A) ds d r w l :
  (forall w l, (op (w, l)).2.2 = l ++ [c]) ->
  (ds = [] \/ exists ds', ds = d :: ds') ->
  (forall ds1 x y ds2, ds = ds1 ++ x :: y :: ds2 -> y = Z.min (x * 2) relockRetryMaxDelay) ->
  let '(r', (w', l')) := relock_loop (length ds) d coll op r (w, l) in
  exists n, (n <= length ds)%nat /\
    ((l' = l ++ retries coll c (take n ds) /\
      (forall err, r' = Err err -> isLockedDBusError err = true -> n = length ds)) \/
     (exists x err, ds !! n = Some x /\
      l' = l ++ retries coll c (take n ds) ++ [CSleep x; CUnlock [coll]] /\
      r' = Err (Wrap "unlock after relock: %w" [err]))).
Proof.
  intros Hop. revert d r w l. induction ds as [|x ds IH]; intros d r w l Hd Hdbl.
  { simpl. exists 0%nat. split; [done|]. left. by rewrite app_nil_r. }
  destruct Hd as [?|[ds' Hd]]; [done|]. injection Hd as -> <-. simpl length.
  destruct r as [a|err]; simpl relock_loop.
  { exists 0%nat. split; [lia|]. left. unfold lift. by rewrite app_nil_r. }
  destruct (isLockedDBusError err) eqn:Hlk.
  2: { exists 0%nat. split; [lia|]. left. rewrite app_nil_r. split; [done|]. intros ? [= <-]. congruence. }
  simpl. unfold try, logged. simpl.
  destruct (svc_Unlock [coll] (sleepFn d w)) as [[u|ue] w1]; simpl.
  2: { exists 0%nat. split; [lia|]. right. exists d, ue. split; [done|]. by rewrite <- app_assoc. }
  pose proof (Hop w1 ((l ++ [CSleep d]) ++ [CUnlock [coll]])) as Hlog.
  destruct (op (w1, (l ++ [CSleep d]) ++ [CUnlock [coll]])) as [r1 [w2 l2]].
  simpl in Hlog. subst l2.
  assert (Hnext : ds = [] \/ exists ds', ds = Z.min (d * 2) relockRetryMaxDelay :: ds').
  { destruct ds as [|y ds2]; [by left|right]. rewrite <- (Hdbl [] d y ds2 eq_refl). eauto. }
  specialize (IH (Z.min (d * 2) relockRetryMaxDelay) r1 w2
    (((l ++ [CSleep d]) ++ [CUnlock [coll]]) ++ [c]) Hnext).
  destruct (relock_loop (length ds) _ coll op r1 _) as [r' [w' l']].
  destruct IH as (n & Hn & Hor).
  { intros ds1 x y ds2 ->. exact (Hdbl (d :: ds1) x y ds2 eq_refl). }
  exists (Datatypes.S n). split; [simpl; lia|]. destruct Hor as [[-> Hr]|(x & e & Hx & -> & Hr)].
  - left. split; [|intros; f_equal; eauto]. unfold retries. simpl. by rewrite <- !app_assoc.
  - right. exists x, e. split_and!; [done| |done]. unfold retries. simpl. by rewrite <- !app_assoc.
Qed.

(** ** A service that grants every call *)

Record Item : Type := {
  it_label : string;
  it_attributes : gmap string string;
  it_value : bytes
}.

(** What the Secret Service specification promises for calls that succeed: an
    item has attributes, a label and a secret value; a search returns the
    items that have all the given attributes; a created item is new; the value
    a session encoded is the value another session decodes. [extra] are the
    attributes the daemon itself adds. *)
Class GrantedService (W : Type) `{secretService W} (items : W -> gmap ObjectPath Item)
    (plain : SecretService.Secret -> bytes) (extra : gmap string string) : Prop := {
  gs_new w : runs newService w (fun _ w' => items w' = items w);
  gs_close w : items (svc_Close w).2 = items w;
  gs_open mode w : runs (svc_OpenSession mode) w (fun _ w' => items w' = items w);
  gs_closesession s w : items (svc_CloseSession s w).2 = items w;
  gs_collections w : runs svc_Collections w
    (fun cs w' => In loginKeychainObjectPath cs /\ items w' = items w);
  gs_islocked p w : runs (svc_IsLocked p) w (fun _ w' => items w' = items w);
  gs_unlock ps w : runs (svc_Unlock ps) w (fun _ w' => items w' = items w);
  gs_search c a w : runs (svc_SearchCollection c a) w (fun l w' => items w' = items w /\
    NoDup l /\ forall p, p ∈ l <-> exists it, items w !! p = Some it /\ a ⊆ it_attributes it);
  gs_newsecret s v w : runs (session_NewSecret s v) w (fun sec w' => plain sec = v /\ items w' = items w);
  gs_create c label attrs sec w : (forall p it, items w !! p = Some it -> it_attributes it <> attrs) ->
    runs (svc_CreateItem c (NewSecretProperties label attrs) sec ReplaceBehaviorReplace) w
      (fun p w' => items w !! p = None /\ items w' =
         <[p := {| it_label := label; it_attributes := attrs; it_value := plain sec |}]> (items w));
  gs_delete p w : runs (svc_DeleteItem p) w (fun _ w' => items w' = delete p (items w));
  gs_getattributes p it w : items w !! p = Some it ->
    runs (svc_GetAttributes p) w (fun a w' => a = extra ∪ it_attributes it /\ items w' = items w);
  gs_getsecret p it s w : items w !! p = Some it ->
    runs (svc_GetSecret p s) w (fun v w' => v = it_value it /\ items w' = items w);
  gs_setsecret p sec it w : items w !! p = Some it ->
    runs (svc_SetItemSecret p sec) w (fun _ w' => items w' = <[p := {| it_label := it_label it;
      it_attributes := it_attributes it; it_value := plain sec |}]> (items w));
  gs_setattributes p a it w : items w !! p = Some it ->
    runs (svc_SetItemAttributes p a) w (fun _ w' => items w' = <[p := {| it_label := it_label it;
      it_attributes := a; it_value := it_value it |}]> (items w));
  gs_setlabel p lb it w : items w !! p = Some it ->
    runs (svc_SetItemLabel p lb) w (fun _ w' => items w' = <[p := {| it_label := lb;
      it_attributes := it_attributes it; it_value := it_value it |}]> (items w))
}.

Section granted.
Context {T W : Type} `{Store.Secret T} `{GrantedService W items plain extra}.
Context (IsValid : ObjectPath -> bool).
Context (ord : list (string * string) -> list (string * string)) `{!MapOrder ord}.
Context (k : keychainStore T).

Lemma runs_relock {A} p (op : comp W goerror A) w Q : runs op w Q -> runs (withRelockRetry p op) w Q.
Proof.
  intros Hop. apply runs_try. eapply runs_mono; [exact Hop|]. intros a s' HQ. by exists a, s'.
Qed.

Lemma runs_with_session {A} (body : Session -> comp W goerror A) w Q :
  (forall s w1, items w1 = items w ->
     runs (body s) w1 (fun a w2 => forall w3, items w3 = items w2 -> Q a w3)) ->
  runs (with_session body) w Q.
Proof.
  intros Hb. apply runs_bind. eapply runs_mono; [apply gs_new|]. intros [] w1 Hw1. simpl.
  apply runs_deferring, runs_bind. eapply runs_mono; [apply gs_open|]. intros s w2 Hw2. simpl.
  apply runs_deferring. eapply runs_mono; [apply Hb; congruence|]. intros a w3 HQ. simpl.
  apply HQ. by rewrite gs_close, gs_closesession.
Qed.

Lemma runs_unlocked w Q : (forall p w', items w' = items w -> Q p w') ->
  runs (unlockedCollection IsValid) w Q.
Proof.
  intros HQ. apply runs_bind. apply runs_bind. eapply runs_mono; [apply gs_collections|].
  intros cs w1 [Hcs Hw1]. cbv beta.
  assert (Hex : existsb (String.eqb loginKeychainObjectPath) cs = true).
  { apply existsb_exists. eexists. split; [exact Hcs|]. apply String.eqb_refl. }
  rewrite Hex. apply runs_ret, runs_bind.
  assert (Hfin : forall u w2, items w2 = items w1 -> runs (E := goerror)
     ((fun _ : unit => ret loginKeychainObjectPath) u) w2 Q).
  { intros u w2 Hw2. apply runs_ret, HQ. congruence. }
  unfold try, isCollectionUnlocked, bind.
  destruct (gs_islocked loginKeychainObjectPath w1) as (b & w2 & Hl & Hw2).
  destruct (gs_unlock [loginKeychainObjectPath] w2) as (u & w3 & Hu & Hw3).
  unfold runs at 1. rewrite Hl. destruct b; simpl.
  - exists u, w3. split; [done|]. apply (Hfin tt). congruence.
  - exists tt, w2. split; [done|]. apply (Hfin tt). congruence.
Qed.

Lemma runs_duplicates o dups w Q :
  (forall w', items w' = foldl (fun m p => delete p m) (items w) dups -> Q tt w') ->
  runs (delete_duplicates o dups) w Q.
Proof.
  revert w. induction dups as [|p dups IH]; intros w HQ; simpl.
  - apply runs_ret. by apply HQ.
  - apply runs_try, runs_relock. eapply runs_mono; [apply gs_delete|]. intros u w1 Hw1. simpl.
    apply IH. intros w' Hw'. apply HQ. by rewrite Hw', Hw1.
Qed.

Lemma lookup_foldl_delete (l : list ObjectPath) (m : gmap ObjectPath Item) p :
  foldl (fun m q => delete q m) m l !! p = if decide (p ∈ l) then None else m !! p.
Proof.
  revert m. induction l as [|q l IH]; intros m; cbn [foldl].
  - case_decide as Hin; [by apply elem_of_nil in Hin|done].
  - rewrite IH. rewrite lookup_delete. repeat case_decide; set_solver.
Qed.

Lemma identity_stored id md j v : unprefixed md ->
  identity ord k id !! j = Some v -> stored_metadata ord k id md !! j = Some v.
Proof.
  intros Hun. change (identity ord k id) with (stored_metadata ord k id ∅).
  assert (He : unprefixed ∅) by (intros ? ? Hl; by rewrite lookup_empty in Hl).
  rewrite !stored_metadata_lookup by done. repeat case_decide; auto.
  destruct (cut_prefix j); [by rewrite lookup_empty|done].
Qed.

Lemma identity_subseteq id md : unprefixed md -> identity ord k id ⊆ stored_metadata ord k id md.
Proof. intros Hun. apply map_subseteq_spec. intros j v. by apply identity_stored. Qed.

(** The item [Save] leaves for a secret. *)
Definition saved_item (id : ID) (md : gmap string string) (data : bytes) : Item :=
  {| it_label := itemLabel k id; it_attributes := stored_metadata ord k id md; it_value := data |}.

(** [p] holds the secret, no other item has its identity, and the items of
    other identities are those of [before], no more and no less. *)
Definition saved_at (id : ID) (it : Item) (p : ObjectPath) (before after : gmap ObjectPath Item) : Prop :=
  after !! p = Some it /\
  (forall q jt, after !! q = Some jt -> identity ord k id ⊆ it_attributes jt -> q = p) /\
  (forall q jt, before !! q = Some jt -> ~ identity ord k id ⊆ it_attributes jt -> after !! q = Some jt) /\
  (forall q jt, after !! q = Some jt -> q <> p -> before !! q = Some jt).

Lemma runs_Save id s data w : Marshal s = Ok data -> unprefixed (Metadata s) ->
  runs (Save IsValid ord k id s) w (fun _ w' =>
    exists p, saved_at id (saved_item id (Metadata s) data) p (items w) (items w')).
Proof.
  intros Hm Hun. apply runs_with_session. intros sess w0 Hw0.
  apply runs_bind, runs_unlocked. intros coll w1 Hw1.
  apply runs_bind. eapply runs_lift; [exact Hm|].
  apply runs_bind. eapply runs_mono; [apply gs_newsecret|]. intros sec w2 [Hsec Hw2]. simpl.
  apply runs_bind. eapply runs_mono; [apply gs_search|]. intros l w3 (Hw3 & Hnd & Hl). simpl.
  assert (Hits : items w3 = items w) by congruence. rewrite Hw2, Hw1, Hw0 in Hl.
  set (it := saved_item id (Metadata s) data).
  pose proof (identity_subseteq id (Metadata s) Hun) as Hsub.
  destruct l as [|p dups].
  - assert (Hnone : forall q jt, items w3 !! q = Some jt -> ~ identity ord k id ⊆ it_attributes jt).
    { intros q jt Hq Hs. rewrite Hits in Hq. apply (not_elem_of_nil q), Hl. eauto. }
    apply runs_bind, runs_relock. eapply runs_mono; [apply gs_create|].
    { intros q jt Hq He. apply (Hnone q jt Hq). by rewrite He. }
    intros p w4 [Hfresh Hw4]. simpl. apply runs_ret. intros w5 Hw5. exists p.
    rewrite Hsec in Hw4. fold it in Hw4. rewrite Hw5, Hw4, <- Hits. split_and!.
    + apply lookup_insert_eq.
    + intros q jt Hq Hs. destruct (decide (q = p)) as [|Hne]; [done|].
      rewrite lookup_insert_ne in Hq by done. destruct (Hnone q jt Hq Hs).
    + intros q jt Hq _. rewrite lookup_insert_ne; [done|]. congruence.
    + intros q jt Hq Hne. by rewrite lookup_insert_ne in Hq.
  - apply list.NoDup_cons in Hnd as [Hpd Hnd].
    destruct (proj1 (Hl p)) as (it0 & Hp & Hs0); [by left|]. rewrite <- Hits in Hp.
    apply runs_bind, runs_relock. eapply runs_mono; [by eapply gs_setsecret|]. intros [] w4 Hw4. simpl.
    apply runs_try. eapply runs_mono; [eapply gs_setattributes; rewrite Hw4; apply lookup_insert_eq|].
    intros [] w5 Hw5. simpl.
    apply runs_try. eapply runs_mono; [eapply gs_setlabel; rewrite Hw5; apply lookup_insert_eq|].
    intros [] w6 Hw6. simpl in Hw6. rewrite Hw5, Hw4, !insert_insert_eq, Hsec in Hw6.
    fold it in Hw6. apply runs_duplicates. intros w7 Hw7 w8 Hw8. exists p.
    rewrite Hw8, Hw7, Hw6. unfold saved_at. setoid_rewrite lookup_foldl_delete. split_and!.
    + rewrite decide_False by done. apply lookup_insert_eq.
    + intros q jt. case_decide as Hq; [done|]. destruct (decide (q = p)) as [|Hne]; [done|].
      rewrite lookup_insert_ne by done. intros Hjt Hs. exfalso. apply Hq.
      rewrite Hits in Hjt. assert (Hin : q ∈ p :: dups) by (apply Hl; eauto). set_solver.
    + intros q jt Hq Hns. rewrite decide_False, lookup_insert_ne; [by rewrite Hits|..].
      * intros <-. rewrite <- Hits in Hq. congruence.
      * intros Hin. destruct (proj1 (Hl q)) as (jt' & Hq' & Hs'); [by right|]. congruence.
    + intros q jt. case_decide; [done|]. intros Hq Hne. rewrite lookup_insert_ne in Hq by done.
      congruence.
Qed.

Lemma runs_Get id s data p w : restore_secret (factory k) id (Metadata s) data = Ok s ->
  unprefixed (Metadata s) ->
  (forall j, is_Some (extra !! j) -> HasPrefix j "x_" = false /\ Metadata s !! j = None) ->
  items w !! p = Some (saved_item id (Metadata s) data) ->
  (forall q jt, items w !! q = Some jt -> identity ord k id ⊆ it_attributes jt -> q = p) ->
  runs (Get IsValid ord k id) w (fun r w' => r = s /\ items w' = items w).
Proof.
  intros Hr Hun Hex Hp Huniq. apply runs_with_session. intros sess w0 Hw0.
  apply runs_bind, runs_unlocked. intros coll w1 Hw1.
  apply runs_bind, runs_wrapped. eapply runs_mono; [apply gs_search|].
  intros l w2 (Hw2 & Hnd & Hl). simpl. rewrite Hw1, Hw0 in Hl.
  destruct l as [|q l].
  { exfalso. apply (not_elem_of_nil p), Hl. eexists. split; [exact Hp|]. by apply identity_subseteq. }
  destruct (proj1 (Hl q)) as (jt & Hq & Hs); [by left|].
  assert (q = p) as -> by eauto. rewrite Hp in Hq. injection Hq as <-.
  assert (Hp2 : items w2 !! p = Some (saved_item id (Metadata s) data)) by congruence.
  apply runs_bind. eapply runs_mono; [by eapply gs_getattributes|]. intros a w3 [-> Hw3]. simpl.
  apply runs_bind, runs_relock. eapply runs_mono; [eapply gs_getsecret; by rewrite Hw3|].
  intros v w4 [-> Hw4]. simpl. rewrite metadata_stored_clean by naive_solver.
  eapply runs_lift; [exact Hr|]. intros w5 Hw5. split; [done|congruence].
Qed.
End granted.

(** ** A keyring in memory *)

#[export] Instance memory_service : secretService (gmap ObjectPath Item) := {
  newService := ret tt;
  svc_Close := ret tt;
  svc_OpenSession mode := ret {| ses_Mode := mode; ses_Path := "/s"; ses_Public := 0;
    ses_Private := 0; ses_AESKey := [] |};
  svc_CloseSession _ := ret tt;
  svc_Collections := ret [loginKeychainObjectPath];
  svc_ReadAlias _ := ret nullObjectPath;
  svc_IsLocked _ := ret true;
  svc_Unlock _ := ret tt;
  svc_SearchCollection _ a := fun m =>
    (Ok (base.filter (fun kv => map_Forall (fun j v => it_attributes kv.2 !! j = Some v) a)
          (map_to_list m)).*1, m);
  svc_CreateItem _ props sec _ := fun m =>
    match props with
    | [(_, VString label); (_, VAttributes attrs)] =>
        let p := fresh (dom m) in
        (Ok p, <[p := {| it_label := label; it_attributes := attrs; it_value := sec_Value sec |}]> m)
    | _ => (Err storeError, m)
    end;
  svc_DeleteItem p := fun m => (Ok tt, delete p m);
  svc_GetAttributes p := fun m =>
    (match m !! p with Some it => Ok (it_attributes it) | None => Err storeError end, m);
  svc_GetSecret p _ := fun m =>
    (match m !! p with Some it => Ok (it_value it) | None => Err storeError end, m);
  svc_SetItemSecret p sec := fun m => (Ok tt, alter (fun it =>
    {| it_label := it_label it; it_attributes := it_attributes it; it_value := sec_Value sec |}) p m);
  svc_SetItemAttributes p a := fun m => (Ok tt, alter (fun it =>
    {| it_label := it_label it; it_attributes := a; it_value := it_value it |}) p m);
  svc_SetItemLabel p lb := fun m => (Ok tt, alter (fun it =>
    {| it_label := lb; it_attributes := it_attributes it; it_value := it_value it |}) p m);
  svc_Available := ret tt;
  session_NewSecret s v := ret {| sec_Session := ses_Path s; sec_Parameters := []; sec_Value := v;
    sec_ContentType := "" |};
  sleepFn _ w := w
}.

Lemma alter_insert (f : Item -> Item) p it (m : gmap ObjectPath Item) :
  m !! p = Some it -> alter f p m = <[p := f it]> m.
Proof.
  intros Hp. apply map_eq. intros q. destruct (decide (q = p)) as [->|Hne].
  - by rewrite lookup_alter_eq, lookup_insert_eq, Hp.
  - by rewrite lookup_alter_ne, lookup_insert_ne by done.
Qed.

#[export] Instance memory_granted :
  GrantedService (gmap ObjectPath Item) (fun m => m) sec_Value ∅.
Proof.
  split; simpl; try done;
    try (intros; eexists _, _; split; [reflexivity|]; simpl; by auto using alter_insert).
  - intros c a w. eexists _, _. split; [reflexivity|]. split; [done|]. split.
    + pose proof (NoDup_fst_map_to_list w) as Hnd. revert Hnd.
      generalize (map_to_list w). intros l Hnd. induction l as [|[q it] l IH]; [done|].
      cbn in Hnd. apply list.NoDup_cons in Hnd as [Hq Hnd]. rewrite filter_cons. case_decide; [|auto].
      cbn. apply list.NoDup_cons. split; [|auto]. contradict Hq.
      apply list_elem_of_fmap in Hq as ([q' it'] & Heq & Hin). cbn in Heq. subst q'.
      apply list_elem_of_filter in Hin as [_ Hin]. apply list_elem_of_fmap. by exists (q, it').
    + intros p. rewrite list_elem_of_fmap. split.
      * intros ([q it] & -> & Hin). apply list_elem_of_filter in Hin as [Hf Hin].
        apply elem_of_map_to_list in Hin. exists it. split; [done|]. by apply map_subseteq_spec.
      * intros (it & Hp & Hs). exists (p, it). split; [done|]. apply list_elem_of_filter.
        split; [|by apply elem_of_map_to_list]. intros j v. simpl. by apply map_subseteq_spec.
  - intros c lb a sec w _. eexists _, _. split; [reflexivity|]. split; [|done].
    apply not_elem_of_dom, is_fresh.
  - intros p it w Hp. exists (it_attributes it), w. rewrite Hp. split; [done|].
    by rewrite (left_id_L ∅ (∪)).
  - intros p it s w Hp. exists (it_value it), w. by rewrite Hp.
  - intros p sec it w Hp. eexists _, _. split; [reflexivity|]. by rewrite (alter_insert _ p it).
  - intros p a it w Hp. eexists _, _. split; [reflexivity|]. by rewrite (alter_insert _ p it).
  - intros p lb it w Hp. eexists _, _. split; [reflexivity|]. by rewrite (alter_insert _ p it).
Qed.

(** ** Properties of the Linux store *)

(** a secret saved on Linux is read back unchanged, and [Save] repairs the
    store as it goes: whatever duplicates of the secret existed, exactly one
    item of its identity is left, and the items of other identities are
    untouched. *)
Theorem linux_Save_Get {T W} `{Store.Secret T} `{GrantedService W items plain extra}
    IsValid ord `{!MapOrder ord} (k : keychainStore T) id s data w :
  Marshal s = Ok data -> restore_secret (factory k) id (Metadata s) data = Ok s ->
  unprefixed (Metadata s) ->
  (forall j, is_Some (extra !! j) -> HasPrefix j "x_" = false /\ Metadata s !! j = None) ->
  runs (Save IsValid ord k id s) w (fun _ w1 =>
    (exists p, saved_at ord k id (saved_item ord k id (Metadata s) data) p (items w) (items w1)) /\
    runs (Get IsValid ord k id) w1 (fun r w2 => r = s /\ items w2 = items w1)).
Proof.
  intros Hm Hr Hun Hex. eapply runs_mono; [by apply runs_Save|]. intros [] w1 [p Hp].
  split; [by exists p|]. destruct Hp as (Hp & Huniq & _). by eapply runs_Get.
Qed.

Lemma linux_Save_Get_witness :
  let k := {| serviceGroup := "g"; serviceName := "n"; factory := PassValue_factory;
              useDataProtectionKeychain := false |} in
  let s := {| pv_value := [Byte.x41]; pv_metadata := {["a" := "b"]} |} in
  let old := saved_item (fun l => l) k "my/id" {["a" := "old"]} [] in
  let w : gmap ObjectPath Item := {["/1" := old; "/2" := old]} in
  runs (Save (fun _ => true) (fun l => l) k "my/id" s) w (fun _ w1 =>
    (exists p, saved_at (fun l => l) k "my/id"
       (saved_item (fun l => l) k "my/id" (Metadata s) [Byte.x41]) p w w1) /\
    runs (Get (fun _ => true) (fun l => l) k "my/id") w1 (fun r w2 => r = s /\ w2 = w1)).
Proof.
  intros k s old w.
  apply (linux_Save_Get (fun _ => true) (fun l => l) k "my/id" s [Byte.x41] w (items := fun m => m)
    (extra := ∅)); try reflexivity.
  - intros j v Hj. simpl in Hj. apply lookup_singleton_Some in Hj as [<- _]. reflexivity.
  - intros j [v Hv]. by rewrite lookup_empty in Hv.
Defined.

(** C31: every operation gives back what it took, whatever the service does: a
    connection that was dialled is closed, last; a session that was opened is
    closed just before; nothing else is opened or closed. *)
Theorem linux_released {T W} `{Store.Secret T} `{secretService W} IsValid ord
    (k : keychainStore T) id s pattern (w : W) :
  released (Save IsValid ord k id s (w, [])).2.2 /\
  released (Upsert IsValid ord k id s (w, [])).2.2 /\
  released (Get IsValid ord k id (w, [])).2.2 /\
  released (Delete IsValid ord k id (w, [])).2.2 /\
  released (GetAllMetadata IsValid ord k (w, [])).2.2 /\
  released (Filter IsValid ord k pattern (w, [])).2.2.
Proof.
  split_and!; apply with_session_released; intros ss;
    (apply inner_bind; [apply inner_unlockedCollection|intros coll]); simpl; auto 10 with inner.
Qed.

(** C32: the retries a relocked collection causes are bounded: the operation runs
    once and then at most five more times, each retry after a sleep of 20, 40,
    80, 160 and 320 ms in this order and one [Unlock] of the collection; the
    locked error is returned only when all five retries were used, and a failed
    [Unlock] ends the loop at once with its error. *)
Theorem linux_relock_retry {W} `{secretService W} {A} coll c (op : comp (W * list call) goerror A) w :
  (forall w l, (op (w, l)).2.2 = l ++ [c]) ->
  let '(r, (_, log)) := withRelockRetry coll op (w, []) in
  exists n, (n <= 5)%nat /\
    ((log = c :: retries coll c (take n relock_delays) /\
      (forall err, r = Err err -> isLockedDBusError err = true -> n = 5%nat)) \/
     (exists x err, relock_delays !! n = Some x /\
      log = c :: retries coll c (take n relock_delays) ++ [CSleep x; CUnlock [coll]] /\
      r = Err (Wrap "unlock after relock: %w" [err]))).
Proof.
  intros Hop. unfold withRelockRetry, try.
  pose proof (Hop w []) as Hfirst. destruct (op (w, [])) as [r0 [w0 l0]]. simpl in Hfirst. subst l0.
  pose proof (relock_loop_log coll c op relock_delays relockRetryBaseDelay r0 w0 [c] Hop) as Hloop.
  change (length relock_delays) with maxRelockRetries in Hloop.
  destruct (relock_loop _ _ _ _ _ _) as [r [w' l']]. apply Hloop.
  - right. by eexists.
  - intros ds1 x y ds2 Hds. unfold relock_delays in Hds.
    destruct ds1 as [|? [|? [|? [|? [|? ds1]]]]]; simplify_eq/=; try done.
    by destruct ds1.
Qed.

(** A call the service always rejects because the collection is locked. *)
Definition always_locked : comp (gmap ObjectPath Item * list call) goerror unit :=
  logged (fun _ => COp "DeleteItem") (fun w => (Err (DBusError secretServiceIsLockedError), w)).

Lemma linux_relock_retry_witness :
  let '(r, (_, log)) := withRelockRetry loginKeychainObjectPath always_locked (∅, []) in
  exists n, (n <= 5)%nat /\
    ((log = COp "DeleteItem" :: retries loginKeychainObjectPath (COp "DeleteItem") (take n relock_delays) /\
      (forall err, r = Err err -> isLockedDBusError err = true -> n = 5%nat)) \/
     (exists x err, relock_delays !! n = Some x /\
      log = COp "DeleteItem" :: retries loginKeychainObjectPath (COp "DeleteItem") (take n relock_delays)
              ++ [CSleep x; CUnlock [loginKeychainObjectPath]] /\
      r = Err (Wrap "unlock after relock: %w" [err]))).
Proof. apply (linux_relock_retry loginKeychainObjectPath (COp "DeleteItem") always_locked). done. Defined.

Example always_locked_gives_up :
  length (withRelockRetry loginKeychainObjectPath always_locked (∅, [])).2.2 = 16%nat.
Proof. vm_compute. reflexivity. Qed.

(** the collection the store uses is the "login" collection whenever it
    exists, else the one the "default" alias names when that is a valid path
    other than "/"; a host with neither gets [ErrNoDefaultCollection]. *)
Theorem resolveDefaultCollection_spec IsValid collections aliasPath :
  resolveDefaultCollection IsValid collections aliasPath =
    if decide (loginKeychainObjectPath ∈ collections) then Ok loginKeychainObjectPath
    else if decide (IsValid aliasPath = true /\ aliasPath <> "/") then Ok aliasPath
    else if decide (IsValid aliasPath = true) then Err ErrNoDefaultCollection
    else Err (ErrorNew "the default collection object path is invalid").
Proof.
  unfold resolveDefaultCollection, nullObjectPath.
  assert (Hex : existsb (String.eqb loginKeychainObjectPath) collections = true <->
    loginKeychainObjectPath ∈ collections).
  { rewrite existsb_elem. split; [intros (x & Hx & He)|intros Hx; eexists; split; [exact Hx|]].
    - breflect. by subst.
    - apply String.eqb_refl. }
  destruct (existsb (String.eqb loginKeychainObjectPath) collections).
  { by rewrite decide_True by (by apply Hex). }
  rewrite decide_False by (by rewrite <- Hex). destruct (IsValid aliasPath) eqn:Hv; cbn [negb].
  - destruct (String.eqb_spec aliasPath "/") as [He|He].
    + rewrite decide_False by (by intros [_ ?]). by rewrite decide_True.
    + by rewrite decide_True by done.
  - rewrite decide_False by (by intros [? _]). by rewrite decide_False.
Qed.
