(* ===== verification/LinuxStore.v ===== *)
(** The Linux keychain store as a map: over a Secret Service that grants the
    calls it receives, the store of keychain_linux.go refines the abstract map
    from identifiers to secrets that package store promises. *)

From S2P Require Import Prelude GoErrors GoStrings Secrets Store StoreSpec Keychain SecretService.
From S2P Require Import KeychainLinux.

(** ** Reading a map out of the items of a collection *)

Section gather.
Context {V : Type} (g : Item -> option (ID * V)).

(** The bindings [g] reads from the items at [l], in this order. *)
Definition bindings (m : gmap ObjectPath Item) (l : list ObjectPath) : list (ID * V) :=
  omap (fun p => m !! p ≫= g) l.

Definition gather (m : gmap ObjectPath Item) (l : list ObjectPath) : gmap ID V :=
  list_to_map (bindings m l).

(** No two items at [l] give the same identifier. *)
Definition separate (m : gmap ObjectPath Item) (l : list ObjectPath) : Prop :=
  forall p q id v u, p ∈ l -> q ∈ l -> m !! p ≫= g = Some (id, v) -> m !! q ≫= g = Some (id, u) -> p = q.

Lemma separate_apart m l : separate m l -> apart (fun p => m !! p ≫= g) l.
Proof. intros Hsep p q id v u. apply Hsep. Qed.

Lemma gather_lookup m l id v : NoDup l -> separate m l ->
  gather m l !! id = Some v <-> exists p, p ∈ l /\ m !! p ≫= g = Some (id, v).
Proof. intros Hnd Hsep. by apply gathered_lookup, separate_apart. Qed.

(** The loops insert into the map as they go, so a later binding wins. *)
Lemma gather_loop m l : NoDup l -> separate m l ->
  (list_to_map (reverse (bindings m l)) : gmap ID V) = gather m l.
Proof. intros Hnd Hsep. by apply gathered_loop, separate_apart. Qed.
End gather.

(** ** The content of the store *)

Definition linux_Store {T W} `{Store.Secret T} `{secretService W}
    (IsValid : ObjectPath -> bool) (ord : list (string * string) -> list (string * string))
    (k : keychainStore T) : Store W T := {|
  store_Delete := Delete IsValid ord k;
  store_Get := Get IsValid ord k;
  store_GetAllMetadata := GetAllMetadata IsValid ord k;
  store_Save := Save IsValid ord k;
  store_Upsert := Upsert IsValid ord k;
  store_Filter := Filter IsValid ord k
|}.

Section content.
Context {T W : Type} `{Store.Secret T} `{GrantedService W items plain extra}.
Context (IsValid : ObjectPath -> bool).
Context (ord : list (string * string) -> list (string * string)) `{!MapOrder ord}.
Context (k : keychainStore T).

(** Metadata a caller may use: no key has the store's own prefix, none is the
    name of an attribute the daemon adds. *)
Definition plain_metadata (md : gmap string string) : Prop :=
  unprefixed md /\ (forall j, is_Some (extra !! j) -> md !! j = None).

(** What the daemon adds does not look like the store's own attributes. *)
Definition foreign : Prop :=
  extra !! secretIDKey = None /\ (forall j, is_Some (extra !! j) -> HasPrefix j "x_" = false).

(** The item holds the secret [s] of [id], as [Save] would have stored it. *)
Definition holds (id : ID) (s : T) (it : Item) : Prop :=
  validIdentifier id = true /\ plain_metadata (Metadata s) /\
  it_attributes it = stored_metadata ord k id (Metadata s) /\
  restore_secret (factory k) id (Metadata s) (it_value it) = Ok s.

(** A secret the store can hold under [id]. *)
Definition acceptable (id : ID) (s : T) : Prop :=
  validIdentifier id = true /\ plain_metadata (Metadata s) /\
  exists data, Marshal s = Ok data /\ restore_secret (factory k) id (Metadata s) data = Ok s.

(** The items of the service are secrets it stored, one per identifier; those
    of other applications are arbitrary. *)
Definition kept (m : gmap ObjectPath Item) : Prop :=
  (forall p it, m !! p = Some it -> service_identity ord k ⊆ it_attributes it ->
     exists id s, holds id s it) /\
  (forall p q it jt id, m !! p = Some it -> m !! q = Some jt ->
     identity ord k id ⊆ it_attributes it -> identity ord k id ⊆ it_attributes jt -> p = q).

(** The secret of an item of the service, and its metadata only. *)
Definition item_with {V} (f : ID -> gmap string string -> bytes -> result goerror V) (it : Item)
  : option (ID * V) :=
  if decide (service_identity ord k ⊆ it_attributes it) then
    id ← it_attributes it !! secretIDKey;
    match f id (safelyCleanMetadata ord (it_attributes it)) (it_value it) with
    | Ok s => Some (id, s)
    | Err _ => None
    end
  else None.

Definition item_secret : Item -> option (ID * T) := item_with (restore_secret (factory k)).
Definition item_metadata : Item -> option (ID * T) :=
  item_with (fun id md _ => SetMetadata (factory k id) md).
Definition item_selected (pattern : Pattern) (it : Item) : option (ID * T) :=
  '(id, s) ← item_secret it; if pattern_Match pattern id then Some (id, s) else None.

Definition content (m : gmap ObjectPath Item) : gmap ID T := gather item_secret m (elements (dom m)).

Lemma identity_id id it : identity ord k id ⊆ it_attributes it -> it_attributes it !! secretIDKey = Some id.
Proof.
  intros Hs. eapply lookup_weaken; [|exact Hs]. change (identity ord k id) with (stored_metadata ord k id ∅).
  by rewrite stored_metadata_lookup by (intros ? ? Hl; by rewrite lookup_empty in Hl).
Qed.

Lemma service_identity_subseteq id : service_identity ord k ⊆ identity ord k id.
Proof.
  assert (He : unprefixed ∅) by (intros ? ? Hl; by rewrite lookup_empty in Hl).
  apply map_subseteq_spec. intros j v Hj. change (identity ord k id) with (stored_metadata ord k id ∅).
  unfold service_identity in Hj. rewrite safelySetMetadata_lookup in Hj by done.
  rewrite stored_metadata_lookup by done. destruct (decide (j = secretIDKey)) as [->|_].
  - destruct (cut_prefix secretIDKey) eqn:Hc; [by rewrite lookup_empty in Hj|].
    by repeat case_decide.
  - exact Hj.
Qed.

Lemma holds_service id s it : holds id s it -> service_identity ord k ⊆ it_attributes it.
Proof.
  intros (_ & [Hun _] & -> & _). etrans; [apply (service_identity_subseteq id)|].
  by apply identity_subseteq.
Qed.

Lemma holds_identity id s it : holds id s it -> identity ord k id ⊆ it_attributes it.
Proof. intros (_ & [Hun _] & -> & _). by apply identity_subseteq. Qed.

Lemma holds_id id s it : holds id s it -> it_attributes it !! secretIDKey = Some id.
Proof. intros Hh. by apply identity_id, (holds_identity id s). Qed.

Lemma holds_same_id id s id' it : holds id s it -> identity ord k id' ⊆ it_attributes it -> id' = id.
Proof. intros Hh Hs. apply holds_id in Hh. apply identity_id in Hs. congruence. Qed.

Lemma holds_clean id s it : holds id s it -> safelyCleanMetadata ord (it_attributes it) = Metadata s.
Proof.
  intros (_ & [Hun _] & -> & _). rewrite <- (left_id_L ∅ (∪) (stored_metadata ord k id (Metadata s))).
  apply metadata_stored_clean; [done|done|done|..]; intros j [v Hv]; by rewrite lookup_empty in Hv.
Qed.

(** The attributes the daemon returns for an item of the store. *)
Lemma holds_clean_extra id s it : foreign -> holds id s it ->
  safelyCleanMetadata ord (extra ∪ it_attributes it) = Metadata s.
Proof. intros [_ Hf] (_ & [Hun Hdis] & -> & _). by apply metadata_stored_clean. Qed.

Lemma holds_id_extra id s it : foreign -> holds id s it ->
  (extra ∪ it_attributes it) !! secretIDKey = Some id.
Proof. intros [Hf _] Hh. rewrite lookup_union_r by done. by eapply holds_id. Qed.

Lemma holds_with {V} (f : ID -> gmap string string -> bytes -> result goerror V) id s it :
  holds id s it -> item_with f it =
    match f id (Metadata s) (it_value it) with Ok v => Some (id, v) | Err _ => None end.
Proof.
  intros Hh. unfold item_with. rewrite decide_True by by eapply holds_service.
  rewrite (holds_id _ _ _ Hh). simpl. by rewrite (holds_clean _ _ _ Hh).
Qed.

Lemma holds_secret id s it : holds id s it -> item_secret it = Some (id, s).
Proof. intros Hh. unfold item_secret. rewrite (holds_with _ _ _ _ Hh). destruct Hh as (_ & _ & _ & ->). done. Qed.

Lemma holds_metadata id s it : holds id s it ->
  exists v, SetMetadata (factory k id) (Metadata s) = Ok v /\ item_metadata it = Some (id, v).
Proof.
  intros Hh. unfold item_metadata. rewrite (holds_with _ _ _ _ Hh). destruct Hh as (_ & _ & _ & Hr).
  unfold restore_secret in Hr. apply result_bind_Ok_inv in Hr as (v & Hv & _). rewrite Hv. eauto.
Qed.

(** A reader of items that answers for the stored identifier. *)
Definition reads {V} (g : Item -> option (ID * V)) : Prop :=
  forall it id v, g it = Some (id, v) -> service_identity ord k ⊆ it_attributes it /\
    it_attributes it !! secretIDKey = Some id.

Lemma item_with_reads {V} (f : ID -> gmap string string -> bytes -> result goerror V) : reads (item_with f).
Proof.
  intros it id v. unfold item_with. case_decide as Hs; [|done].
  destruct (it_attributes it !! secretIDKey) as [i|]; [|done]. simpl.
  destruct (f i _ _); intros Heq; by simplify_eq.
Qed.

Lemma item_selected_reads pattern : reads (item_selected pattern).
Proof.
  intros it id v Hg. unfold item_selected in Hg. destruct (item_secret it) as [[i s]|] eqn:Hs; [|done].
  simpl in Hg. destruct (pattern_Match pattern i); [|done]. injection Hg as <- <-.
  by apply item_with_reads in Hs.
Qed.

Lemma kept_separate {V} (g : Item -> option (ID * V)) m l : reads g -> kept m -> separate g m l.
Proof.
  intros Hr [Hh Hu] p q id v u _ _ Hp Hq. destruct (m !! p) as [it|] eqn:Hmp; [|done].
  destruct (m !! q) as [jt|] eqn:Hmq; [|done]. simpl in Hp, Hq.
  apply Hr in Hp as [Hsp Hip]. apply Hr in Hq as [Hsq Hiq].
  destruct (Hh p it Hmp Hsp) as (i & s & Hi). destruct (Hh q jt Hmq Hsq) as (j & s' & Hj).
  pose proof (holds_id _ _ _ Hi). pose proof (holds_id _ _ _ Hj). simplify_eq.
  eapply (Hu p q it jt id); eauto using holds_identity.
Qed.

Lemma kept_gather {V} (g : Item -> option (ID * V)) m l id v : reads g -> kept m -> NoDup l ->
  (forall p it, m !! p = Some it -> service_identity ord k ⊆ it_attributes it -> p ∈ l) ->
  gather g m l !! id = Some v <-> exists p it, m !! p = Some it /\ g it = Some (id, v).
Proof.
  intros Hr Hk Hnd Hl. rewrite gather_lookup by eauto using kept_separate. split.
  - intros (p & _ & Hp). destruct (m !! p) as [it|] eqn:Hm; [|done]. eauto.
  - intros (p & it & Hm & Hg). exists p. rewrite Hm. split; [|done]. apply (Hl p it Hm).
    by apply Hr in Hg as [? _].
Qed.

Lemma content_lookup m id s : kept m ->
  content m !! id = Some s <-> exists p it, m !! p = Some it /\ holds id s it.
Proof.
  intros Hk. unfold content. rewrite kept_gather; [|apply item_with_reads|done|apply NoDup_elements|].
  - split; intros (p & it & Hm & Hs); exists p, it; (split; [done|]); [|by apply holds_secret].
    pose proof (item_with_reads _ _ _ _ Hs) as [Hsv _]. destruct Hk as [Hh _].
    destruct (Hh p it Hm Hsv) as (i & s' & Hi). pose proof (holds_secret _ _ _ Hi). congruence.
  - intros p it Hm _. apply elem_of_elements, elem_of_dom. eauto.
Qed.

(** A search for one identifier. *)
Lemma kept_search m id l : kept m -> NoDup l ->
  (forall p, p ∈ l <-> exists it, m !! p = Some it /\ identity ord k id ⊆ it_attributes it) ->
  match l with
  | [] => content m !! id = None
  | p :: l' => l' = [] /\ exists it s, m !! p = Some it /\ holds id s it /\ content m !! id = Some s
  end.
Proof.
  intros Hk Hnd Hl. destruct l as [|p l'].
  - apply eq_None_not_Some. intros [s Hs]. apply content_lookup in Hs as (p & it & Hm & Hh); [|done].
    apply (not_elem_of_nil p), Hl. eauto using holds_identity.
  - destruct (proj1 (Hl p)) as (it & Hm & Hs); [by left|]. pose proof Hk as [Hh Hu].
    destruct (Hh p it Hm) as (i & s & Hi); [etrans; [apply service_identity_subseteq|exact Hs]|].
    pose proof (holds_same_id _ _ _ _ Hi Hs) as ->. split.
    + destruct l' as [|q l']; [done|]. destruct (proj1 (Hl q)) as (jt & Hq & Hsq); [by right; left|].
      apply list.NoDup_cons in Hnd as [Hp _]. destruct Hp. rewrite (Hu p q it jt i) by done. by left.
    + exists it, s. split; [done|]. split; [done|]. apply content_lookup; eauto.
Qed.

(** ** The effect of a deletion and of a save on the content *)

Lemma holds_functional id s s' it : holds id s it -> holds id s' it -> s = s'.
Proof. intros Hs Hs'. apply holds_secret in Hs, Hs'. congruence. Qed.

Lemma kept_delete m p : kept m -> kept (delete p m).
Proof.
  intros [Hh Hu]. split.
  - intros q it Hq. apply lookup_delete_Some in Hq as [_ Hq]. eauto.
  - intros q1 q2 it jt id Hq1 Hq2. apply lookup_delete_Some in Hq1 as [_ ?], Hq2 as [_ ?]. eauto.
Qed.

Lemma content_delete m id s p it : kept m -> m !! p = Some it -> holds id s it ->
  content (delete p m) = delete id (content m).
Proof.
  intros Hk Hm Hh. apply map_eq. intros j. apply option_eq. intros v.
  rewrite content_lookup by by apply kept_delete. rewrite lookup_delete_Some, content_lookup by done.
  split.
  - intros (q & jt & Hq & Hj). apply lookup_delete_Some in Hq as [Hne Hq]. split; [|eauto].
    intros <-. apply Hne. destruct Hk as [_ Hu]. eapply (Hu p q it jt id); eauto using holds_identity.
  - intros [Hne (q & jt & Hq & Hj)]. exists q, jt. split; [|done]. apply lookup_delete_Some.
    split; [|done]. intros <-. apply Hne. apply (holds_same_id j v id jt); [done|].
    assert (it = jt) as <- by congruence. by apply (holds_identity id s).
Qed.

Lemma saved_kept m m' id s it p : kept m -> holds id s it -> saved_at ord k id it p m m' -> kept m'.
Proof.
  intros [Hh Hu] Hi (Hp & Huniq & Hkeep & Hback). split.
  - intros q jt Hq Hs. destruct (decide (q = p)) as [->|Hne]; [|eauto]. simplify_eq. eauto.
  - intros q1 q2 it1 it2 i Hq1 Hq2 Hi1 Hi2.
    destruct (decide (i = id)) as [->|Hne]; [rewrite (Huniq q1 it1), (Huniq q2 it2); done|].
    assert (Hx : forall q jt, m' !! q = Some jt -> identity ord k i ⊆ it_attributes jt -> q <> p).
    { intros q jt Hq Hsq ->. apply Hne. apply (holds_same_id id s i it); [done|]. by simplify_eq. }
    eapply (Hu q1 q2 it1 it2 i); eauto.
Qed.

Lemma saved_content m m' id s it p : kept m -> holds id s it -> saved_at ord k id it p m m' ->
  content m' = <[id := s]> (content m).
Proof.
  intros Hk Hi Hsv. pose proof (saved_kept _ _ _ _ _ _ Hk Hi Hsv) as Hk'.
  destruct Hsv as (Hp & Huniq & Hkeep & Hback). apply map_eq. intros j. apply option_eq. intros v.
  rewrite content_lookup, lookup_insert_Some, content_lookup by done. split.
  - intros (q & jt & Hq & Hj). destruct (decide (id = j)) as [<-|Hne].
    + left. split; [done|]. assert (q = p) as -> by eauto using holds_identity.
      simplify_eq. by eapply holds_functional.
    + right. split; [done|]. exists q, jt. split; [|done]. apply Hback; [done|]. intros ->.
      apply Hne. apply (holds_same_id j v id jt); [done|]. simplify_eq. by eapply holds_identity.
  - intros [[<- <-]|[Hne (q & jt & Hq & Hj)]]; [by exists p, it|].
    exists q, jt. split; [|done]. apply Hkeep; [done|]. intros Hs. apply Hne.
    by apply (holds_same_id j v id jt).
Qed.
End content.

(** ** The operations *)

Section operations.
Context {T W : Type} `{Store.Secret T} `{GrantedService W items plain extra}.
Context (IsValid : ObjectPath -> bool).
Context (ord : list (string * string) -> list (string * string)) `{!MapOrder ord}.
Context (k : keychainStore T).

Abbreviation content := (content ord k) (only parsing).
Abbreviation kept := (kept (extra := extra) ord k) (only parsing).
Abbreviation holds := (holds (extra := extra) ord k) (only parsing).

Lemma yields_with_session {A} (body : Session -> comp W goerror A) w Q :
  (forall s w1, items w1 = items w ->
     yields (body s) w1 (fun r w2 => forall w3, items w3 = items w2 -> Q r w3)) ->
  yields (with_session body) w Q.
Proof.
  intros Hb. apply yields_bind. eapply runs_mono; [apply gs_new|]. intros [] w1 Hw1. simpl.
  apply yields_deferring, yields_bind. eapply runs_mono; [apply gs_open|]. intros s w2 Hw2. simpl.
  apply yields_deferring. eapply yields_mono; [apply Hb; congruence|]. intros r w3 HQ. simpl.
  apply HQ. by rewrite gs_close, gs_closesession.
Qed.

(** The prologue and the search every operation makes. *)
Lemma yields_search {A} (f : ObjectPath -> list ObjectPath -> comp W goerror A) (search : _ -> comp W _ _) a w Q :
  (forall c, search c = svc_SearchCollection c a \/
     exists fmt, search c = wrapped fmt (svc_SearchCollection c a)) ->
  (forall coll l w1, items w1 = items w -> NoDup l ->
     (forall p, p ∈ l <-> exists it, items w !! p = Some it /\ a ⊆ it_attributes it) ->
     yields (f coll l) w1 Q) ->
  yields (coll <-! unlockedCollection IsValid ;; l <-! search coll ;; f coll l) w Q.
Proof.
  intros Hs Hf. apply yields_bind, runs_unlocked. intros coll w1 Hw1. apply yields_bind.
  assert (Hg : runs (svc_SearchCollection coll a) w1 (fun l w2 => yields (f coll l) w2 Q)).
  { eapply runs_mono; [apply gs_search|]. intros l w2 (Hw2 & Hnd & Hl).
    apply Hf; [congruence|done|]. intros p. by rewrite Hl, Hw1. }
  destruct (Hs coll) as [->|[fmt ->]]; [done|]. by apply runs_wrapped.
Qed.

Lemma runs_Delete id w : kept (items w) ->
  runs (Delete IsValid ord k id) w (fun _ w' =>
    kept (items w') /\ content (items w') = delete id (content (items w))).
Proof.
  intros Hk. apply runs_with_session. intros sess w0 Hw0.
  apply runs_bind, runs_unlocked. intros coll w1 Hw1.
  apply runs_bind. eapply runs_mono; [apply gs_search|]. intros l w2 (Hw2 & Hnd & Hl). simpl.
  rewrite Hw1, Hw0 in Hl. pose proof (kept_search ord k _ id l Hk Hnd Hl) as Hc.
  destruct l as [|p l].
  - apply runs_ret. intros w3 Hw3. assert (Hi : items w3 = items w) by congruence. rewrite Hi.
    split; [done|]. by rewrite delete_id.
  - destruct Hc as (-> & it & s & Hp & Hh & _). apply runs_relock.
    eapply runs_mono; [apply gs_delete|]. intros [] w3 Hw3 w4 Hw4. rewrite Hw4, Hw3.
    assert (Hi : items w2 = items w) by congruence. rewrite Hi.
    split; [by apply kept_delete|]. by eapply content_delete.
Qed.

Lemma runs_Save_content id s w : kept (items w) -> acceptable (extra := extra) k id s ->
  runs (Save IsValid ord k id s) w (fun _ w' =>
    kept (items w') /\ content (items w') = <[id := s]> (content (items w))).
Proof.
  intros Hk (Hv & Hmd & data & Hm & Hr). eapply runs_mono; [by apply runs_Save, Hmd|].
  intros [] w' [p Hp].
  assert (Hh : holds id s (saved_item ord k id (Metadata s) data)) by (by split_and!).
  split; [by eapply saved_kept|by eapply saved_content].
Qed.

Lemma yields_Get id w : kept (items w) -> foreign (extra := extra) ->
  yields (Get IsValid ord k id) w (fun r w' => items w' = items w /\
    r = match content (items w) !! id with Some s => Ok s | None => Err ErrCredentialNotFound end).
Proof.
  intros Hk Hf. apply yields_with_session. intros sess w0 Hw0. eapply yields_search.
  { intros c. right. by eexists. }
  intros coll l w1 Hw1 Hnd Hl. rewrite Hw0 in Hl. pose proof (kept_search ord k _ id l Hk Hnd Hl) as Hc.
  destruct l as [|p l].
  - apply yields_throw. intros w2 Hw2. rewrite Hc. split; [congruence|done].
  - destruct Hc as (-> & it & s & Hp & Hh & Hs). rewrite Hs.
    assert (Hp1 : items w1 !! p = Some it) by congruence.
    apply yields_bind. eapply runs_mono; [by apply gs_getattributes|]. intros a w2 [-> Hw2]. simpl.
    apply yields_bind, runs_relock. eapply runs_mono; [apply (gs_getsecret p it); congruence|].
    intros v w3 [-> Hw3]. simpl. rewrite (holds_clean_extra ord k id s it Hf Hh).
    destruct Hh as (_ & _ & _ & ->). apply yields_lift. intros w4 Hw4. split; [congruence|done].
Qed.

(** Every path is an item of the store. *)
Definition known (m : gmap ObjectPath Item) (l : list ObjectPath) : Prop :=
  Forall (fun p => exists it id s, m !! p = Some it /\ holds id s it) l.

Lemma search_known m l : kept m ->
  (forall p, p ∈ l <-> exists it, m !! p = Some it /\ service_identity ord k ⊆ it_attributes it) ->
  known m l.
Proof.
  intros [Hh _] Hl. apply Forall_forall. intros p Hp. apply list_elem_of_In, Hl in Hp as (it & Hm & Hs).
  destruct (Hh p it Hm Hs) as (id & s & Hi). eauto.
Qed.

Lemma union_reverse {V} (g : Item -> option (ID * V)) m p l acc :
  (list_to_map (reverse (bindings g m (p :: l))) : gmap ID V) ∪ acc =
  list_to_map (reverse (bindings g m l)) ∪
    match m !! p ≫= g with Some kv => <[kv.1 := kv.2]> acc | None => acc end.
Proof. apply (gathered_step (fun p => m !! p ≫= g)). Qed.

Lemma runs_collectMetadata l acc w Q : foreign (extra := extra) -> known (items w) l ->
  (forall w', items w' = items w ->
     Q (list_to_map (reverse (bindings (item_metadata ord k) (items w) l)) ∪ acc) w') ->
  runs (collectMetadata ord k l acc) w Q.
Proof.
  intros Hf Hl. revert acc w Hl Q. induction l as [|p l IH]; intros acc w Hl Q HQ.
  { apply runs_ret. specialize (HQ w eq_refl). cbn in HQ. by rewrite (left_id_L ∅ (∪)) in HQ. }
  apply list.Forall_cons in Hl as [(it & id & s & Hp & Hh) Hl]. cbn [collectMetadata].
  apply runs_bind. eapply runs_mono; [by apply gs_getattributes|]. intros a w1 [-> Hw1]. cbv beta.
  change "id" with secretIDKey. rewrite (holds_id_extra ord k id s it Hf Hh).
  destruct (holds_metadata ord k id s it Hh) as (v & Hv & Hg). pose proof Hh as (Hid & _).
  apply runs_bind. eapply runs_lift; [unfold ParseID, valid; by rewrite Hid|]. cbv beta zeta.
  rewrite (holds_clean_extra ord k id s it Hf Hh). apply runs_bind. eapply runs_lift; [exact Hv|].
  cbv beta. apply IH; [by rewrite Hw1|]. intros w' Hw'. rewrite Hw1 in Hw' |- *.
  specialize (HQ w' Hw'). rewrite union_reverse, Hp in HQ. simpl in HQ. by rewrite Hg in HQ.
Qed.

Lemma runs_collectSecrets pattern coll sess l acc w Q : foreign (extra := extra) -> known (items w) l ->
  (forall w', items w' = items w ->
     Q (list_to_map (reverse (bindings (item_selected ord k pattern) (items w) l)) ∪ acc) w') ->
  runs (collectSecrets ord k pattern coll sess l acc) w Q.
Proof.
  intros Hf Hl. revert acc w Hl Q. induction l as [|p l IH]; intros acc w Hl Q HQ.
  { apply runs_ret. specialize (HQ w eq_refl). cbn in HQ. by rewrite (left_id_L ∅ (∪)) in HQ. }
  apply list.Forall_cons in Hl as [(it & id & s & Hp & Hh) Hl]. cbn [collectSecrets].
  apply runs_bind. eapply runs_mono; [by apply gs_getattributes|]. intros a w1 [-> Hw1]. cbv beta.
  change "id" with secretIDKey. rewrite (holds_id_extra ord k id s it Hf Hh).
  pose proof Hh as (Hid & _ & _ & Hr). unfold ParseID, valid. rewrite Hid. cbn [negb].
  assert (Hg : item_selected ord k pattern it =
    if pattern_Match pattern id then Some (id, s) else None).
  { unfold item_selected. by rewrite (holds_secret ord k id s it Hh). }
  assert (Hnext : forall w', items w' = items w -> forall w'', items w'' = items w' ->
    Q (list_to_map (reverse (bindings (item_selected ord k pattern) (items w') l)) ∪
        (if pattern_Match pattern id then <[id := s]> acc else acc)) w'').
  { intros w' Hw' w'' Hw''. specialize (HQ w''). rewrite union_reverse, Hp in HQ. simpl in HQ.
    rewrite Hg in HQ. rewrite Hw'. destruct (pattern_Match pattern id); apply HQ; congruence. }
  destruct (pattern_Match pattern id); cbn [negb].
  - apply runs_bind. apply runs_bind, runs_relock.
    eapply runs_mono; [apply (gs_getsecret p it); by rewrite Hw1|]. intros v w2 [-> Hw2]. cbv beta zeta.
    rewrite (holds_clean_extra ord k id s it Hf Hh). eapply runs_lift; [exact Hr|]. cbv beta.
    apply IH; [by rewrite Hw2, Hw1|]. apply Hnext. congruence.
  - apply IH; [by rewrite Hw1|]. by apply Hnext.
Qed.

(** What a search for the service gathers. *)
Lemma service_gather {V} (g : Item -> option (ID * V)) m l : reads ord k g -> kept m -> NoDup l ->
  (forall p, p ∈ l <-> exists it, m !! p = Some it /\ service_identity ord k ⊆ it_attributes it) ->
  forall id v, (list_to_map (reverse (bindings g m l)) ∪ (∅ : gmap ID V)) !! id = Some v <->
    exists p it, m !! p = Some it /\ g it = Some (id, v).
Proof.
  intros Hr Hk Hnd Hl id v. rewrite (right_id_L ∅ (∪)).
  rewrite gather_loop by eauto using kept_separate.
  apply (kept_gather ord k g m l id v Hr Hk Hnd). intros p it Hm Hs. apply Hl. eauto.
Qed.

Lemma yields_GetAllMetadata w : kept (items w) -> foreign (extra := extra) ->
  runs (GetAllMetadata IsValid ord k) w (fun m w' => items w' = items w /\
    dom m = dom (content (items w)) /\
    forall id v, m !! id = Some v -> exists s, content (items w) !! id = Some s /\
      SetMetadata (factory k id) (Metadata s) = Ok v).
Proof.
  intros Hk Hf. apply runs_with_session. intros sess w0 Hw0.
  apply runs_bind, runs_unlocked. intros coll w1 Hw1.
  apply runs_bind, runs_wrapped. eapply runs_mono; [apply gs_search|]. intros l w2 (Hw2 & Hnd & Hl).
  cbv beta. rewrite Hw1, Hw0 in Hl. assert (Hi2 : items w2 = items w) by congruence.
  apply runs_collectMetadata; [done|by rewrite Hi2; apply search_known|cbv beta]. rewrite Hi2.
  intros w3 Hw3 w4 Hw4. split; [congruence|].
  pose proof (service_gather (item_metadata ord k) _ _ (item_with_reads ord k _) Hk Hnd Hl) as Hg.
  set (m := list_to_map _ ∪ ∅) in *. clearbody m.
  assert (Hfwd : forall id v, m !! id = Some v -> exists s, content (items w) !! id = Some s /\
    SetMetadata (factory k id) (Metadata s) = Ok v).
  { intros id v Hv. apply Hg in Hv as (p & it & Hp & Hv).
    pose proof (item_with_reads _ _ _ _ _ _ Hv) as [Hs _].
    pose proof Hk as [Hh Hu]. destruct (Hh p it Hp Hs) as (i & s & Hi).
    destruct (holds_metadata ord k i s it Hi) as (v' & Hv' & Hm). rewrite Hm in Hv.
    injection Hv as -> ->. exists s. split; [|done].
    rewrite (content_lookup (extra := extra)) by done. eauto. }
  split; [|exact Hfwd]. apply set_eq. intros id. rewrite !elem_of_dom. split.
  - intros [v Hv]. apply Hfwd in Hv as (s & Hs & _). by exists s.
  - intros [s Hs]. rewrite (content_lookup (extra := extra)) in Hs by done.
    destruct Hs as (p & it & Hp & Hh).
    destruct (holds_metadata ord k id s it Hh) as (v & _ & Hm). exists v. apply Hg. eauto.
Qed.

Lemma yields_Filter pattern w : kept (items w) -> foreign (extra := extra) ->
  yields (Filter IsValid ord k pattern) w (fun r w' => items w' = items w /\
    r = if decide (matching pattern (content (items w)) = ∅) then Err ErrCredentialNotFound
        else Ok (matching pattern (content (items w)))).
Proof.
  intros Hk Hf. apply yields_with_session. intros sess w0 Hw0. eapply yields_search.
  { intros c. right. by eexists. }
  intros coll l w1 Hw1 Hnd Hl. rewrite Hw0 in Hl. assert (Hi1 : items w1 = items w) by congruence.
  pose proof (service_gather (item_selected ord k pattern) _ _ (item_selected_reads ord k pattern)
    Hk Hnd Hl) as Hg.
  set (m := list_to_map _ ∪ ∅) in Hg.
  assert (Hm : m = matching pattern (content (items w))).
  { apply map_eq. intros id. apply option_eq. intros v. rewrite Hg. unfold matching.
    rewrite map_lookup_filter_Some, (content_lookup (extra := extra)) by done. cbn [fst]. split.
    - intros (p & it & Hp & Hv). pose proof (item_selected_reads _ _ _ _ _ _ Hv) as [Hs _].
      destruct Hk as [Hh Hu]. destruct (Hh p it Hp Hs) as (i & s & Hi). unfold item_selected in Hv.
      rewrite (holds_secret ord k i s it Hi) in Hv. simpl in Hv.
      destruct (pattern_Match pattern i) eqn:Hpm; [|done]. injection Hv as -> ->. eauto.
    - intros [(p & it & Hp & Hh) Hpm]. exists p, it. split; [done|]. unfold item_selected.
      rewrite (holds_secret ord k id v it Hh). simpl. by rewrite Hpm. }
  assert (Hrun : runs (collectSecrets ord k pattern coll sess l ∅) w1
    (fun m' w' => m' = matching pattern (content (items w)) /\ items w' = items w)).
  { apply runs_collectSecrets; [done|by rewrite Hi1; apply search_known|cbv beta]. rewrite Hi1.
    intros w' Hw'. split; [|done]. rewrite <- Hm. done. }
  destruct l as [|p l].
  - apply yields_throw. intros w2 Hw2. split; [congruence|]. rewrite decide_True; [done|].
    rewrite <- Hm. done.
  - apply yields_bind. eapply runs_mono; [exact Hrun|]. intros m' w2 [-> Hw2]. cbv beta.
    case_decide; [apply yields_throw|apply yields_ret]; (intros w3 Hw3; split; [congruence|done]).
Qed.
End operations.

(** ** Properties *)

(** C1: The Linux keychain store is a map from identifiers to secrets. Over a
    Secret Service that grants its calls, with items of other applications in
    the same collection, and from any state in which the store's own items are
    secrets it saved, one per identifier: every operation succeeds or reports
    that a secret is absent exactly when it is, reads do not change the
    collection, [Save] and [Upsert] insert, [Delete] removes and accepts an
    absent identifier, [Get] and [Filter] return the stored secrets with their
    metadata, [GetAllMetadata] one secret per identifier with the metadata
    alone; and the invariant is kept. *)
Theorem linux_refines_map {T W} `{Store.Secret T} `{GrantedService W items plain extra}
    IsValid ord `{!MapOrder ord} (k : keychainStore T) w :
  foreign (extra := extra) -> kept (extra := extra) ord k (items w) ->
  let view w := content ord k (items w) in
  let kept w := kept (extra := extra) ord k (items w) in
  (forall id s, acceptable (extra := extra) k id s ->
     runs (Save IsValid ord k id s) w (fun _ w' => kept w' /\ view w' = <[id := s]> (view w)) /\
     runs (Upsert IsValid ord k id s) w (fun _ w' => kept w' /\ view w' = <[id := s]> (view w))) /\
  (forall id, runs (Delete IsValid ord k id) w (fun _ w' => kept w' /\ view w' = delete id (view w))) /\
  (forall id, yields (Get IsValid ord k id) w (fun r w' => items w' = items w /\
     r = match view w !! id with Some s => Ok s | None => Err ErrCredentialNotFound end)) /\
  runs (GetAllMetadata IsValid ord k) w (fun m w' => items w' = items w /\ dom m = dom (view w) /\
     forall id v, m !! id = Some v -> exists s, view w !! id = Some s /\
       SetMetadata (factory k id) (Metadata s) = Ok v) /\
  (forall pattern, yields (Filter IsValid ord k pattern) w (fun r w' => items w' = items w /\
     r = if decide (matching pattern (view w) = ∅) then Err ErrCredentialNotFound
         else Ok (matching pattern (view w)))).
Proof.
  intros Hf Hk view kept. split_and!.
  - intros id s Hs. split; by apply runs_Save_content.
  - intros id. by apply runs_Delete.
  - intros id. by apply yields_Get.
  - by apply yields_GetAllMetadata.
  - intros pattern. by apply yields_Filter.
Qed.

(** No items at all. *)
Lemma kept_empty {T} `{Store.Secret T} ord (k : keychainStore T) : kept (extra := ∅) ord k ∅.
Proof. split; intros p; intros; by rewrite lookup_empty in *. Qed.

Lemma foreign_empty : foreign (extra := ∅).
Proof. split; [reflexivity|]. intros j [v Hv]. by rewrite lookup_empty in Hv. Qed.

(** A collection with one secret of the store and one item of another
    application. *)
Definition sample_keychain : keychainStore PassValue :=
  {| serviceGroup := "io.docker"; serviceName := "pass"; factory := PassValue_factory;
     useDataProtectionKeychain := false |}.
Definition sample_secret : PassValue :=
  {| pv_value := [Byte.x41]; pv_metadata := {["owner" := "me"]} |}.
Definition sample_items : gmap ObjectPath Item :=
  {["/1" := saved_item (fun l => l) sample_keychain "db/password" {["owner" := "me"]} [Byte.x41];
    "/2" := {| it_label := "other"; it_attributes := {["app" := "browser"]}; it_value := [] |}]}.

Lemma sample_held : holds (extra := ∅) (fun l => l) sample_keychain "db/password" sample_secret
  (saved_item (fun l => l) sample_keychain "db/password" {["owner" := "me"]} [Byte.x41]).
Proof.
  split_and!; [reflexivity| |reflexivity|reflexivity]. split.
  - intros j v Hj. simpl in Hj. unfold PassValue_Metadata, sample_secret in Hj. cbn [pv_metadata] in Hj.
    apply lookup_singleton_Some in Hj as [<- _]. reflexivity.
  - intros j [v Hv]. by rewrite lookup_empty in Hv.
Qed.

Lemma sample_kept : kept (extra := ∅) (fun l => l) sample_keychain sample_items.
Proof.
  assert (Hno : forall id, ~ identity (fun l => l) sample_keychain id ⊆ {["app" := "browser"]}).
  { intros id Hs. pose proof (identity_id (fun l => l) sample_keychain id
      {| it_label := ""; it_attributes := {["app" := "browser"]}; it_value := [] |} Hs) as Hi.
    cbn [it_attributes] in Hi. rewrite lookup_singleton_ne in Hi; done. }
  split.
  - intros p it Hp Hs. unfold sample_items in Hp. apply lookup_insert_Some in Hp as [[<- <-]|[_ Hp]].
    { eexists _, _. apply sample_held. }
    apply lookup_singleton_Some in Hp as [<- <-]. exfalso. revert Hs.
    intros Hs. assert (Hl : service_identity (fun l => l) sample_keychain !! "service:group" =
      Some "io.docker") by reflexivity.
    apply (lookup_weaken _ _ _ _ Hl) in Hs. cbn [it_attributes] in Hs.
    by rewrite lookup_singleton_ne in Hs.
  - intros p q it jt id Hp Hq Hip Hiq.
    assert (Honly : forall p it, sample_items !! p = Some it ->
      identity (fun l => l) sample_keychain id ⊆ it_attributes it -> p = "/1").
    { intros r rt Hr Hir. unfold sample_items in Hr. apply lookup_insert_Some in Hr as [[<- _]|[_ Hr]]; [done|].
      apply lookup_singleton_Some in Hr as [<- <-]. by destruct (Hno id). }
    by rewrite (Honly p it), (Honly q jt).
Qed.

Lemma linux_refines_map_witness :
  let view w := content (fun l => l) sample_keychain w in
  runs (Delete (fun _ => true) (fun l => l) sample_keychain "db/password") sample_items
    (fun _ w' => kept (extra := ∅) (fun l => l) sample_keychain w' /\
       view w' = delete "db/password" (view sample_items)) /\
  yields (Get (fun _ => true) (fun l => l) sample_keychain "db/password") sample_items
    (fun r w' => w' = sample_items /\ r = Ok sample_secret).
Proof.
  intros view.
  destruct (linux_refines_map (items := fun m => m) (fun _ => true) (fun l => l) sample_keychain
    sample_items foreign_empty sample_kept) as (_ & Hd & Hg & _).
  split; [apply Hd|]. eapply yields_mono; [apply Hg|]. cbv beta. intros r w' [-> ->]. split; [done|].
  assert (Hl : content (fun l => l) sample_keychain sample_items !! "db/password" = Some sample_secret).
  { apply (content_lookup (extra := ∅) (fun l => l) sample_keychain _ _ _ sample_kept).
    eexists "/1", _. split; [reflexivity|apply sample_held]. }
  by rewrite Hl.
Defined.

Example sample_content :
  map_to_list (content (fun l => l) sample_keychain sample_items) = [("db/password", sample_secret)].
Proof. vm_compute. reflexivity. Qed.

(** The Linux store honours the contract of a store, error outcomes included:
    a granted service lets only secrets it cannot marshal fail. *)
#[export] Instance linux_laws {T W} `{Store.Secret T} `{GrantedService W items plain extra}
    IsValid ord `{!MapOrder ord} (k : keychainStore T) (Hf : foreign (extra := extra)) :
  @StoreLaws W T (linux_Store IsValid ord k) (fun w => kept (extra := extra) ord k (items w))
    (acceptable (extra := extra) k) (fun w => content ord k (items w)).
Proof.
  split; simpl.
  - intros id s s' r Hk Hd. destruct (runs_Delete IsValid ord k id s Hk) as (a & s1 & Ha & HQ).
    rewrite Ha in Hd. by injection Hd as <- <-.
  - intros id s s' r Hk Hg. pose proof (yields_Get IsValid ord k id s Hk Hf) as Hy.
    unfold yields in Hy. rewrite Hg in Hy. cbn in Hy. destruct Hy as [Hi ->]. rewrite Hi.
    split; [done|]. split; [done|]. by destruct (content ord k (items s) !! id).
  - intros s s' r Hk Hg. destruct (yields_GetAllMetadata IsValid ord k s Hk Hf) as (m & s1 & Ha & Hi & Hd & _).
    rewrite Ha in Hg. injection Hg as <- <-. by rewrite Hi.
  - intros id v s s' r Hk Hok Hs. destruct (runs_Save_content IsValid ord k id v s Hk Hok) as (a & s1 & Ha & HQ).
    rewrite Ha in Hs. by injection Hs as <- <-.
  - intros id v s s' r Hk Hok Hs. destruct (runs_Save_content IsValid ord k id v s Hk Hok) as (a & s1 & Ha & HQ).
    unfold Upsert in Hs. rewrite Ha in Hs. by injection Hs as <- <-.
  - intros p s s' r Hk Hg. pose proof (yields_Filter IsValid ord k p s Hk Hf) as Hy.
    unfold yields in Hy. rewrite Hg in Hy. cbn in Hy. destruct Hy as [Hi ->]. rewrite Hi.
    split; [done|]. split; [done|]. by case_decide.
Qed.

(** The Linux keychain is a machine over a map. *)
Definition linux_conventions : conventions :=
  {| on_absent := ErrCredentialNotFound; on_no_listing := None; on_no_match := Some ErrCredentialNotFound;
     on_duplicate := None |}.

#[export] Instance linux_machine {T W} `{Store.Secret T} `{GrantedService W items plain extra}
    IsValid ord `{!MapOrder ord} (k : keychainStore T) (Hf : foreign (extra := extra)) :
  @StoreMachine W T (linux_Store IsValid ord k) (fun w => kept (extra := extra) ord k (items w))
    (fun id => validIdentifier id = true) (acceptable (extra := extra) k) (fun w => content ord k (items w))
    linux_conventions.
Proof.
  split. intros call w Hk Hok.
  destruct call as [id|id| |id v|id v|pattern]; cbn [perform spec_perform permitted] in *.
  - destruct (runs_Delete IsValid ord k id w Hk) as (a & w' & Hd & Hw & Hv). cbn. rewrite Hd. by rewrite <- Hv.
  - pose proof (yields_Get IsValid ord k id w Hk Hf) as Hy. unfold yields in Hy. cbn.
    destruct (Get IsValid ord k id w) as [x w']. cbn [fst snd] in Hy. destruct Hy as [Hi ->].
    rewrite Hi. split; [done|]. by destruct (_ !! id).
  - destruct (yields_GetAllMetadata IsValid ord k w Hk Hf) as (m & w' & Ha & Hi & Hd & _).
    cbn. rewrite Ha, Hi. cbn. rewrite Hd. split; [done|]. unfold or_error. by case_bool_decide.
  - destruct (runs_Save_content IsValid ord k id v w Hk Hok) as (a & w' & Hd & Hw & Hv).
    cbn. rewrite Hd. by rewrite <- Hv.
  - destruct (runs_Save_content IsValid ord k id v w Hk Hok) as (a & w' & Hd & Hw & Hv).
    cbn. unfold Upsert. rewrite Hd. by rewrite <- Hv.
  - pose proof (yields_Filter IsValid ord k pattern w Hk Hf) as Hy. unfold yields in Hy. cbn.
    destruct (Filter IsValid ord k pattern w) as [x w']. cbn [fst snd] in Hy. destruct Hy as [Hi ->].
    rewrite Hi. split; [done|]. case_bool_decide as Hv; [by rewrite decide_True|by rewrite decide_False].
Qed.
