(* ===== verification/KeychainDarwin.v ===== *)
(** Package store/keychain on macOS (keychain_darwin.go) and the part of
    internal/go-keychain it is built on (keychain.go): items as attribute maps,
    their conversion to CoreFoundation dictionaries, and the calls of the
    Security framework. *)

From S2P Require Import Prelude GoErrors GoStrings Secrets Store Keychain.

(** ** go-keychain: status codes *)

(** The result codes of the Security framework the package names. *)
Inductive OSStatus : Type :=
| errSecSuccess | errSecUnimplemented | errSecParam | errSecAllocate | errSecNotAvailable
| errSecAuthFailed | errSecDuplicateItem | errSecItemNotFound | errSecInteractionNotAllowed
| errSecDecode | errSecNoSuchKeychain | errSecNoAccessForItem | errSecReadOnly
| errSecInvalidKeychain | errSecDuplicateKeychain | errSecWrongSecVersion | errSecReadOnlyAttr
| errSecInvalidSearchRef | errSecInvalidItemRef | errSecDataNotAvailable
| errSecDataNotModifiable | errSecInvalidOwnerEdit | errSecUserCanceled
| errSecMissingEntitlement
| errSecOther (n : Z).

#[export] Instance OSStatus_eq_dec : EqDecision OSStatus.
Proof. solve_decision. Defined.

(** The message of [Error.Error], before the code. *)
Definition Error_msg (k : OSStatus) : string :=
  match k with
  | errSecUnimplemented => "Function or operation not implemented."
  | errSecParam => "One or more parameters passed to the function were not valid."
  | errSecAllocate => "Failed to allocate memory."
  | errSecNotAvailable => "No keychain is available. You may need to restart your computer."
  | errSecAuthFailed => "The user name or passphrase you entered is not correct."
  | errSecDuplicateItem => "The specified item already exists in the keychain."
  | errSecItemNotFound => "The specified item could not be found in the keychain."
  | errSecInteractionNotAllowed => "User interaction is not allowed."
  | errSecDecode => "Unable to decode the provided data."
  | errSecNoSuchKeychain => "The specified keychain could not be found."
  | errSecNoAccessForItem => "The specified item has no access control."
  | errSecReadOnly => "Read-only error."
  | errSecReadOnlyAttr => "The attribute is read-only."
  | errSecInvalidKeychain => "The keychain is not valid."
  | errSecDuplicateKeychain => "A keychain with the same name already exists."
  | errSecWrongSecVersion => "The version is incorrect."
  | errSecInvalidItemRef => "The item reference is invalid."
  | errSecInvalidSearchRef => "The search reference is invalid."
  | errSecDataNotAvailable => "The data is not available."
  | errSecDataNotModifiable => "The data is not modifiable."
  | errSecInvalidOwnerEdit => "An invalid attempt to change the owner of an item."
  | errSecUserCanceled => "User canceled the operation."
  | errSecMissingEntitlement => "A required entitlement is missing."
  | errSecSuccess | errSecOther _ => "Keychain Error."
  end.

(** ** go-keychain: items *)

(** The dynamic types [ConvertMapToCFDictionary] accepts, a type it rejects,
    and the constants the item setters refer to. *)
Inductive ItemValue : Type :=
| IRef (constant : string)
| IBool (b : bool)
| IInt32 (n : Z)
| IBytes (b : bytes)
| IString (s : string)
| IMap (m : gmap string string)
| IUnsupported.

Abbreviation Item := (gmap string ItemValue) (only parsing).

(** A CoreFoundation object; a dictionary is a list of bindings. *)
Inductive CFValue : Type :=
| CFConstant (name : string)
| CFBoolean (b : bool)
| CFNumber (n : Z)
| CFData (b : bytes)
| CFString (s : string)
| CFDate (t : Z)
| CFDictionary (d : list (string * CFValue))
| CFArray (l : list CFValue)
| CFOther.

Definition SecClassKey : string := "kSecClass".
Definition ServiceKey : string := "kSecAttrService".
Definition ServerKey : string := "kSecAttrServer".
Definition ProtocolKey : string := "kSecAttrProtocol".
Definition AuthenticationTypeKey : string := "kSecAttrAuthenticationType".
Definition PortKey : string := "kSecAttrPort".
Definition PathKey : string := "kSecAttrPath".
Definition LabelKey : string := "kSecAttrLabel".
Definition AccountKey : string := "kSecAttrAccount".
Definition AccessGroupKey : string := "kSecAttrAccessGroup".
Definition DataKey : string := "kSecValueData".
Definition DescriptionKey : string := "kSecAttrDescription".
Definition CommentKey : string := "kSecAttrComment".
Definition CreationDateKey : string := "kSecAttrCreationDate".
Definition ModificationDateKey : string := "kSecAttrModificationDate".
Definition AttrGenericKey : string := "kSecAttrGeneric".
Definition UseDataProtectionKey : string := "kSecUseDataProtectionKeychain".
Definition AccessibleKey : string := "kSecAttrAccessible".
Definition MatchLimitKey : string := "kSecMatchLimit".
Definition ReturnAttributesKey : string := "kSecReturnAttributes".
Definition ReturnDataKey : string := "kSecReturnData".
Definition ReturnRefKey : string := "kSecReturnRef".
Definition SynchronizableKey : string := "kSecAttrSynchronizable".

(** The enumerations of the package, integers in Go, and the maps to the
    constants of the framework; the null reference of a missing entry is "". *)
Definition SecClassGenericPassword : Z := 1.
Definition SecClassInternetPassword : Z := 2.
Definition secClassTypeRef (sc : Z) : string :=
  match sc with 1 => "kSecClassGenericPassword" | 2 => "kSecClassInternetPassword" | _ => "" end%Z.

Definition SynchronizableDefault : Z := 0.
Definition SynchronizableAny : Z := 1.
Definition SynchronizableYes : Z := 2.
Definition SynchronizableNo : Z := 3.
Definition syncTypeRef (sync : Z) : string :=
  match sync with
  | 1 => "kSecAttrSynchronizableAny" | 2 => "kCFBooleanTrue" | 3 => "kCFBooleanFalse" | _ => ""
  end%Z.

Definition UseDataProtectionKeychainYes : Z := 1.
Definition UseDataProtectionKeychainNo : Z := 2.
Definition dataProtectionTypeRef (v : Z) : string :=
  match v with 1 => "kCFBooleanTrue" | 2 => "kCFBooleanFalse" | _ => "" end%Z.

Definition AccessibleDefault : Z := 0.
Definition AccessibleWhenUnlocked : Z := 1.
Definition AccessibleAfterFirstUnlock : Z := 2.
Definition AccessibleAlways : Z := 3.
Definition AccessibleWhenPasscodeSetThisDeviceOnly : Z := 4.
Definition AccessibleWhenUnlockedThisDeviceOnly : Z := 5.
Definition AccessibleAfterFirstUnlockThisDeviceOnly : Z := 6.
Definition AccessibleAccessibleAlwaysThisDeviceOnly : Z := 7.
(** macos.go *)
Definition accessibleTypeRef (accessible : Z) : string :=
  match accessible with
  | 1 => "kSecAttrAccessibleWhenUnlocked" | 2 => "kSecAttrAccessibleAfterFirstUnlock"
  | 3 => "kSecAttrAccessibleAlways" | 5 => "kSecAttrAccessibleWhenUnlockedThisDeviceOnly"
  | 6 => "kSecAttrAccessibleAfterFirstUnlockThisDeviceOnly" | 7 => "kSecAttrAccessibleAlwaysThisDeviceOnly"
  | _ => ""
  end%Z.

Definition MatchLimitDefault : Z := 0.
Definition MatchLimitOne : Z := 1.
Definition MatchLimitAll : Z := 2.
Definition matchTypeRef (limit : Z) : string :=
  match limit with 1 => "kSecMatchLimitOne" | 2 => "kSecMatchLimitAll" | _ => "" end%Z.


Definition SetString (key s : string) (k : Item) : Item :=
  if negb (String.eqb s "") then <[key := IString s]> k else delete key k.

Definition SetInt32 (key : string) (v : Z) (k : Item) : Item :=
  if negb (v =? 0)%Z then <[key := IInt32 v]> k else delete key k.

Definition SetSecClass (sc : Z) (k : Item) : Item := <[SecClassKey := IRef (secClassTypeRef sc)]> k.
Definition SetService : string -> Item -> Item := SetString ServiceKey.
Definition SetServer : string -> Item -> Item := SetString ServerKey.
Definition SetProtocol : string -> Item -> Item := SetString ProtocolKey.
Definition SetAuthenticationType : string -> Item -> Item := SetString AuthenticationTypeKey.
Definition SetPort : Z -> Item -> Item := SetInt32 PortKey.
Definition SetPath : string -> Item -> Item := SetString PathKey.
Definition SetAccount : string -> Item -> Item := SetString AccountKey.
Definition SetLabel : string -> Item -> Item := SetString LabelKey.
Definition SetDescription : string -> Item -> Item := SetString DescriptionKey.
Definition SetComment : string -> Item -> Item := SetString CommentKey.
Definition SetAccessGroup : string -> Item -> Item := SetString AccessGroupKey.
(** [None] is the nil slice. *)
Definition SetData (b : option bytes) (k : Item) : Item :=
  match b with Some b => <[DataKey := IBytes b]> k | None => delete DataKey k end.
Definition SetGenericMetadata (m : gmap string string) (k : Item) : Item :=
  <[AttrGenericKey := IMap m]> k.
Definition SetSynchronizable (sync : Z) (k : Item) : Item :=
  if negb (sync =? SynchronizableDefault)%Z then <[SynchronizableKey := IRef (syncTypeRef sync)]> k
  else delete SynchronizableKey k.
Definition SetUseDataProtectionKeychain (dataProtection : Z) (k : Item) : Item :=
  <[UseDataProtectionKey := IRef (dataProtectionTypeRef dataProtection)]> k.
Definition SetAccessible (accessible : Z) (k : Item) : Item :=
  if negb (accessible =? AccessibleDefault)%Z then <[AccessibleKey := IRef (accessibleTypeRef accessible)]> k
  else delete AccessibleKey k.
Definition SetMatchLimit (matchLimit : Z) (k : Item) : Item :=
  if negb (matchLimit =? MatchLimitDefault)%Z then <[MatchLimitKey := IRef (matchTypeRef matchLimit)]> k
  else delete MatchLimitKey k.
Definition SetReturnAttributes (b : bool) (k : Item) : Item := <[ReturnAttributesKey := IBool b]> k.
Definition SetReturnData (b : bool) (k : Item) : Item := <[ReturnDataKey := IBool b]> k.
Definition SetReturnRef (b : bool) (k : Item) : Item := <[ReturnRefKey := IBool b]> k.
Definition NewItem : Item := ∅.

Record QueryResult : Type := {
  q_Service : string; q_Server : string; q_Protocol : string; q_AuthenticationType : string;
  q_Port : Z; q_Path : string; q_Account : string; q_AccessGroup : string; q_Label : string;
  q_Description : string; q_Comment : string; q_Data : bytes; q_CreationDate : Z;
  q_ModificationDate : Z; q_Attributes : gmap string ItemValue
}.

Definition QueryResult_zero : QueryResult :=
  {| q_Service := ""; q_Server := ""; q_Protocol := ""; q_AuthenticationType := "";
     q_Port := 0; q_Path := ""; q_Account := ""; q_AccessGroup := ""; q_Label := "";
     q_Description := ""; q_Comment := ""; q_Data := []; q_CreationDate := time_zero;
     q_ModificationDate := time_zero; q_Attributes := ∅ |}.

(** The Security framework: a dictionary in, a status and possibly a result
    out, over the state [W] of the keychain. *)
Class SecurityFramework (W : Type) : Type := {
  SecItemAdd : list (string * CFValue) -> W -> OSStatus * W;
  SecItemCopyMatching : list (string * CFValue) -> W -> (OSStatus * option CFValue) * W;
  SecItemDelete : list (string * CFValue) -> W -> OSStatus * W
}.

Section go_keychain.
Context {W : Type} `{SecurityFramework W}.
(** The integer values of the status codes. *)
Context (status_code : OSStatus -> Z).
(** [encoding/gob] on a [map[string]any]. *)
Context (gob_encode : gmap string string -> result goerror bytes).
Context (gob_decode : bytes -> result goerror (gmap string ItemValue)).
(** [utf8.ValidString]. *)
Context (ValidString : string -> bool).
Context (ord : list (string * ItemValue) -> list (string * ItemValue)).

(** An [Error] value, known by its message, which ends with its code. *)
Definition keychain_Error (k : OSStatus) : goerror :=
  Sentinel (Error_msg k +:+ " (" +:+ Itoa (status_code k) +:+ ")").

Definition checkError (errCode : OSStatus) : option goerror :=
  if decide (errCode = errSecSuccess) then None else Some (keychain_Error errCode).

Definition status_result (errCode : OSStatus) : result goerror unit :=
  match checkError errCode with Some err => Err err | None => Ok tt end.

Definition StringToCFString (s : string) : result goerror CFValue :=
  if negb (ValidString s) then Err (ErrorNew "invalid UTF-8 string")
  else if (4294967295 <? Z.of_nat (String.length s))%Z then Err (ErrorNew "string is too large")
  else Ok (CFString s).

Definition BytesToCFData (b : bytes) : result goerror CFValue :=
  if (4294967295 <? Z.of_nat (length b))%Z then Err (ErrorNew "data is too large")
  else Ok (CFData b).

(** The type switch of [ConvertMapToCFDictionary], on references that are not
    null; CoreFoundation has what a null one does. *)
Definition convert_value (v : ItemValue) : result goerror CFValue :=
  match v with
  | IUnsupported => Err (ErrorNew "unsupported value type: %v")
  | IRef c => Ok (CFConstant c)
  | IBool b => Ok (CFBoolean b)
  | IInt32 n => Ok (CFNumber n)
  | IBytes b => BytesToCFData b
  | IString s => StringToCFString s
  | IMap m => b <-? gob_encode m ;; BytesToCFData b
  end.

Fixpoint convert_bindings (l : list (string * ItemValue)) : result goerror (list (string * CFValue)) :=
  match l with
  | [] => Ok []
  | (key, i) :: l' =>
      valueRef <-? convert_value i ;;
      keyRef <-? StringToCFString key ;;
      rest <-? convert_bindings l' ;;
      Ok ((key, valueRef) :: rest)
  end.

Definition ConvertMapToCFDictionary (attr : Item) : result goerror (list (string * CFValue)) :=
  convert_bindings (range_map ord attr).

Definition AddItem (item : Item) : comp W goerror unit :=
  cfDict <-! lift (ConvertMapToCFDictionary item) ;;
  fun w => let '(errCode, w) := SecItemAdd cfDict w in (status_result errCode, w).

Definition DeleteItem (item : Item) : comp W goerror unit :=
  cfDict <-! lift (ConvertMapToCFDictionary item) ;;
  fun w => let '(errCode, w) := SecItemDelete cfDict w in (status_result errCode, w).

Definition QueryItemRef (item : Item) : comp W goerror (option CFValue) :=
  cfDict <-! lift (ConvertMapToCFDictionary item) ;;
  fun w =>
    let '((errCode, resultsRef), w) := SecItemCopyMatching cfDict w in
    if decide (errCode = errSecItemNotFound) then (Ok None, w)
    else match checkError errCode with
         | Some err => (Err err, w)
         | None => (Ok resultsRef, w)
         end.

(** [CFStringToString] and [CFDataToBytes] on a value of the expected type. *)
Definition CFStringToString (v : CFValue) : string := match v with CFString s => s | _ => "" end.
Definition CFDataToBytes (v : CFValue) : bytes := match v with CFData b => b | _ => [] end.
Definition CFDateToTime (v : CFValue) : Z := match v with CFDate t => t | _ => time_zero end.
Definition CFNumberToInt (v : CFValue) : Z := match v with CFNumber n => n | _ => 0%Z end.

(** One round of the loop of [convertResult]. *)
Definition convertResult_step (r : QueryResult) (k : string) (v : CFValue) : result goerror QueryResult :=
  let set (svc srv prot auth : string) port path acct grp lbl desc comm data cd md attrs :=
    {| q_Service := svc; q_Server := srv; q_Protocol := prot; q_AuthenticationType := auth;
       q_Port := port; q_Path := path; q_Account := acct; q_AccessGroup := grp; q_Label := lbl;
       q_Description := desc; q_Comment := comm; q_Data := data; q_CreationDate := cd;
       q_ModificationDate := md; q_Attributes := attrs |} in
  let '{| q_Service := svc; q_Server := srv; q_Protocol := prot; q_AuthenticationType := auth;
       q_Port := port; q_Path := path; q_Account := acct; q_AccessGroup := grp; q_Label := lbl;
       q_Description := desc; q_Comment := comm; q_Data := data; q_CreationDate := cd;
       q_ModificationDate := md; q_Attributes := attrs |} := r in
  let s := CFStringToString v in
  if String.eqb k ServiceKey then Ok (set s srv prot auth port path acct grp lbl desc comm data cd md attrs)
  else if String.eqb k ServerKey then Ok (set svc s prot auth port path acct grp lbl desc comm data cd md attrs)
  else if String.eqb k ProtocolKey then Ok (set svc srv s auth port path acct grp lbl desc comm data cd md attrs)
  else if String.eqb k AuthenticationTypeKey then
    Ok (set svc srv prot s port path acct grp lbl desc comm data cd md attrs)
  else if String.eqb k PortKey then
    Ok (set svc srv prot auth (CFNumberToInt v) path acct grp lbl desc comm data cd md attrs)
  else if String.eqb k PathKey then Ok (set svc srv prot auth port s acct grp lbl desc comm data cd md attrs)
  else if String.eqb k AccountKey then Ok (set svc srv prot auth port path s grp lbl desc comm data cd md attrs)
  else if String.eqb k AccessGroupKey then
    Ok (set svc srv prot auth port path acct s lbl desc comm data cd md attrs)
  else if String.eqb k LabelKey then Ok (set svc srv prot auth port path acct grp s desc comm data cd md attrs)
  else if String.eqb k DescriptionKey then
    Ok (set svc srv prot auth port path acct grp lbl s comm data cd md attrs)
  else if String.eqb k CommentKey then Ok (set svc srv prot auth port path acct grp lbl desc s data cd md attrs)
  else if String.eqb k DataKey then
    Ok (set svc srv prot auth port path acct grp lbl desc comm (CFDataToBytes v) cd md attrs)
  else if String.eqb k CreationDateKey then
    Ok (set svc srv prot auth port path acct grp lbl desc comm data (CFDateToTime v) md attrs)
  else if String.eqb k ModificationDateKey then
    Ok (set svc srv prot auth port path acct grp lbl desc comm data cd (CFDateToTime v) attrs)
  else if String.eqb k AttrGenericKey then
    attributes <-? gob_decode (CFDataToBytes v) ;;
    Ok (set svc srv prot auth port path acct grp lbl desc comm data cd md attributes)
  else Ok r.

(** The loop of [convertResult] over the entries of the dictionary. *)
Fixpoint convertResult_loop (l : list (string * CFValue)) (r : QueryResult) : result goerror QueryResult :=
  match l with
  | [] => Ok r
  | (k, v) :: l' => r <-? convertResult_step r k v ;; convertResult_loop l' r
  end.

Definition convertResult (d : list (string * CFValue)) : result goerror QueryResult :=
  convertResult_loop d QueryResult_zero.

(** The loop of [QueryItem] over an array of results. *)
Fixpoint convertResults (arr : list CFValue) : result goerror (list QueryResult) :=
  match arr with
  | [] => Ok []
  | CFDictionary d :: arr' =>
      item <-? convertResult d ;;
      results <-? convertResults arr' ;;
      Ok (item :: results)
  | _ :: _ => Err (ErrorNew "invalid result type (If you SetReturnRef(true) you should use QueryItemRef directly)")
  end.

Definition QueryItem (item : Item) : comp W goerror (list QueryResult) :=
  resultsRef <-! QueryItemRef item ;;
  match resultsRef with
  | None => ret []
  | Some (CFArray arr) => lift (convertResults arr)
  | Some (CFDictionary d) => lift (item <-? convertResult d ;; Ok [item])
  | Some (CFData b) =>
      ret [{| q_Service := ""; q_Server := ""; q_Protocol := ""; q_AuthenticationType := "";
              q_Port := 0; q_Path := ""; q_Account := ""; q_AccessGroup := ""; q_Label := "";
              q_Description := ""; q_Comment := ""; q_Data := b; q_CreationDate := time_zero;
              q_ModificationDate := time_zero; q_Attributes := ∅ |}]
  | Some _ => throw (ErrorNew "invalid result type: %s")
  end.
End go_keychain.

(** ** keychain_darwin.go *)

Definition ErrInteractionNotAllowed : goerror := Sentinel "cannot prompt the user for password".
Definition ErrAuthFailed : goerror := Sentinel "user incorrectly enterered their credentials".

(** [convertAttributes], over the attributes in iteration order. *)
Fixpoint convertAttributes_loop (l : list (string * ItemValue)) (attr : gmap string string)
  : result goerror (gmap string string) :=
  match l with
  | [] => Ok attr
  | (k, IString t) :: l' => convertAttributes_loop l' (<[k := t]> attr)
  | _ :: _ => Err (ErrorNew "attributes of key %s has unsupported type %T")
  end.

Definition convertAttributes (ord : list (string * ItemValue) -> list (string * ItemValue))
    (attributes : gmap string ItemValue) : result goerror (gmap string string) :=
  convertAttributes_loop (range_map ord attributes) ∅.

Section darwin.
Context {T W : Type} `{Store.Secret T} `{SecurityFramework W}.
Context (status_code : OSStatus -> Z).
Context (gob_encode : gmap string string -> result goerror bytes).
Context (gob_decode : bytes -> result goerror (gmap string ItemValue)).
Context (ValidString : string -> bool).
Context (ord_item : list (string * ItemValue) -> list (string * ItemValue)).
Context (ord : list (string * string) -> list (string * string)).
Context (k : keychainStore T).

(** [mapKeychainError]: the errors are compared by their messages. *)
Definition mapKeychainError (err : goerror) : goerror :=
  let is_status e := match err with
                     | Sentinel m | ErrorNew m => same_error (Sentinel m) (keychain_Error status_code e)
                     | _ => false
                     end in
  if is_status errSecInteractionNotAllowed then ErrInteractionNotAllowed
  else if is_status errSecItemNotFound then ErrCredentialNotFound
  else if is_status errSecAuthFailed then ErrAuthFailed
  else err.

Definition mapped {A} (m : comp W goerror A) : comp W goerror A := fun w =>
  match m w with
  | (Ok a, w') => (Ok a, w')
  | (Err e, w') => (Err (mapKeychainError e), w')
  end.

Definition newKeychainItem (id : string) : Item :=
  let item := NewItem in
  let item := SetSecClass SecClassGenericPassword item in
  let item := SetMatchLimit MatchLimitOne item in
  let item := SetAccessible AccessibleAfterFirstUnlock item in
  let item := SetReturnAttributes true item in
  let item := SetService (serviceName k) item in
  let item := SetAccessGroup (serviceGroup k) item in
  let item := if useDataProtectionKeychain k then SetUseDataProtectionKeychain UseDataProtectionKeychainYes item else item in
  if negb (String.eqb id "") then SetAccount id item else item.

Definition getItemWithData (id : string) : comp W goerror QueryResult :=
  let item := SetReturnData true (newKeychainItem id) in
  results <-! mapped (QueryItem status_code gob_encode gob_decode ValidString ord_item item) ;;
  match results with
  | [] => throw ErrCredentialNotFound
  | r :: _ => ret r
  end.

Definition Delete (id : ID) : comp W goerror unit :=
  let item := newKeychainItem id in
  try (DeleteItem status_code gob_encode ValidString ord_item item) (fun r =>
    match r with
    | Ok _ => ret tt
    | Err err =>
        if negb (errors_Is err (keychain_Error status_code errSecItemNotFound))
        then throw (mapKeychainError err) else ret tt
    end).

Definition Get (id : ID) : comp W goerror T :=
  result <-! getItemWithData id ;;
  attributes <-! lift (convertAttributes ord_item (q_Attributes result)) ;;
  let attributes := safelyCleanMetadata ord attributes in
  lift (restore_secret (factory k) id attributes (q_Data result)).

(** The loop of [GetAllMetadata]. *)
Fixpoint collectMetadata (results : list QueryResult) (creds : gmap ID T)
  : result goerror (gmap ID T) :=
  match results with
  | [] => Ok creds
  | r :: results' =>
      id <-? ParseID (q_Account r) ;;
      attributes <-? convertAttributes ord_item (q_Attributes r) ;;
      let attributes := safelyCleanMetadata ord attributes in
      secret <-? SetMetadata (factory k id) attributes ;;
      collectMetadata results' (<[id := secret]> creds)
  end.

Definition GetAllMetadata : comp W goerror (gmap ID T) :=
  let item := SetMatchLimit MatchLimitAll (newKeychainItem "") in
  results <-! mapped (QueryItem status_code gob_encode gob_decode ValidString ord_item item) ;;
  lift (collectMetadata results ∅).

Definition Save (id : ID) (secret : T) : comp W goerror unit :=
  data <-! lift (Marshal secret) ;;
  let item := newKeychainItem id in
  let item := SetData (Some data) item in
  let item := SetLabel (itemLabel k id) item in
  let metadata := stored_metadata ord k id (Metadata secret) in
  let item := SetGenericMetadata metadata item in
  mapped (AddItem status_code gob_encode ValidString ord_item item).

(** The mutex serialises the calls of [Upsert] of one store; a single call is
    a [Delete] followed by a [Save]. *)
Definition Upsert (id : ID) (secret : T) : comp W goerror unit :=
  _ <-! Delete id ;;
  Save id secret.

Definition loadSecret (id : ID) (attr : gmap string string) : comp W goerror T :=
  i <-! getItemWithData id ;;
  lift (restore_secret (factory k) id attr (q_Data i)).

(** The loop of [Filter]. *)
Fixpoint collectSecrets (pattern : Pattern) (results : list QueryResult) (creds : gmap ID T)
  : comp W goerror (gmap ID T) :=
  match results with
  | [] => ret creds
  | r :: results' =>
      match ParseID (q_Account r) with
      | Err _ => collectSecrets pattern results' creds
      | Ok id =>
          if negb (pattern_Match pattern id) then collectSecrets pattern results' creds
          else
            attr <-! lift (convertAttributes ord_item (q_Attributes r)) ;;
            let attr := safelyCleanMetadata ord attr in
            secret <-! loadSecret id attr ;;
            collectSecrets pattern results' (<[id := secret]> creds)
      end
  end.

Definition Filter (pattern : Pattern) : comp W goerror (gmap ID T) :=
  let item := SetMatchLimit MatchLimitAll (newKeychainItem "") in
  results <-! mapped (QueryItem status_code gob_encode gob_decode ValidString ord_item item) ;;
  collectSecrets pattern results ∅.
End darwin.

(** ** A keychain that grants every call *)

(** The value a dictionary gives a key. *)
Definition cf_lookup (key : string) (d : list (string * CFValue)) : option CFValue :=
  snd <$> List.find (fun kv => String.eqb kv.1 key) d.

Definition cf_string (key : string) (d : list (string * CFValue)) : option string :=
  match cf_lookup key d with Some (CFString s) => Some s | _ => None end.
Definition cf_data (key : string) (d : list (string * CFValue)) : option bytes :=
  match cf_lookup key d with Some (CFData s) => Some s | _ => None end.

(** The primary key of a generic password: service, access group and account. *)
Definition primary_key (d : list (string * CFValue)) : option (string * string * string) :=
  match cf_string ServiceKey d, cf_string AccessGroupKey d, cf_string AccountKey d with
  | Some s, Some g, Some a => Some (s, g, a)
  | _, _, _ => None
  end.

(** What the keychain keeps of a generic password. *)
Record Password : Type := { pw_data : bytes; pw_generic : bytes; pw_label : option string }.

(** A dictionary of attributes, with the data if it was asked for; whatever
    else it has is left open. *)
Definition describes (key : string * string * string) (p : Password) (with_data : bool)
    (d : list (string * CFValue)) : Prop :=
  NoDup d.*1 /\ cf_lookup AccountKey d = Some (CFString key.2) /\
  cf_lookup AttrGenericKey d = Some (CFData (pw_generic p)) /\
  (with_data = true -> cf_lookup DataKey d = Some (CFData (pw_data p))).

(** The passwords of a service and access group. *)
Definition of_service (s g : string) (m : gmap (string * string * string) Password)
  : list (string * string * string * Password) :=
  base.filter (fun kp => kp.1.1 = (s, g)) (map_to_list m).

(** What Apple documents for the calls, when the keychain is unlocked and the
    process has the access group: passwords are a map on their primary key; a
    query that names an account answers its dictionary, one for all matches an
    array of them. *)
Class GrantedKeychain (W : Type) `{SecurityFramework W}
    (passwords : W -> gmap (string * string * string) Password) : Prop := {
  gk_add d key v m w : primary_key d = Some key -> cf_data DataKey d = Some v ->
    cf_data AttrGenericKey d = Some m ->
    exists w', SecItemAdd d w = (match passwords w !! key with
        | Some _ => errSecDuplicateItem | None => errSecSuccess end, w') /\
      passwords w' = match passwords w !! key with
        | Some _ => passwords w
        | None => <[key := {| pw_data := v; pw_generic := m; pw_label := cf_string LabelKey d |}]> (passwords w)
        end;
  gk_delete d key w : primary_key d = Some key ->
    exists w', SecItemDelete d w = (match passwords w !! key with
        | Some _ => errSecSuccess | None => errSecItemNotFound end, w') /\
      passwords w' = delete key (passwords w);
  gk_copy d key w : primary_key d = Some key ->
    cf_lookup MatchLimitKey d = Some (CFConstant "kSecMatchLimitOne") ->
    cf_lookup ReturnAttributesKey d = Some (CFBoolean true) ->
    cf_lookup ReturnDataKey d = Some (CFBoolean true) ->
    exists answer w', SecItemCopyMatching d w = (answer, w') /\ passwords w' = passwords w /\
      match passwords w !! key with
      | Some p => exists d', answer = (errSecSuccess, Some (CFDictionary d')) /\ describes key p true d'
      | None => answer = (errSecItemNotFound, None)
      end;
  gk_list d s g w : cf_string ServiceKey d = Some s -> cf_string AccessGroupKey d = Some g ->
    cf_lookup AccountKey d = None ->
    cf_lookup MatchLimitKey d = Some (CFConstant "kSecMatchLimitAll") ->
    cf_lookup ReturnAttributesKey d = Some (CFBoolean true) ->
    cf_lookup ReturnDataKey d = None ->
    exists answer w' found, SecItemCopyMatching d w = (answer, w') /\ passwords w' = passwords w /\
      found ≡ₚ of_service s g (passwords w) /\
      match found with
      | [] => answer = (errSecItemNotFound, None)
      | _ => exists arr, answer = (errSecSuccess, Some (CFArray arr)) /\
          Forall2 (fun x kp => exists d', x = CFDictionary d' /\ describes kp.1 kp.2 false d') arr found
      end
}.

(** ** Lemmas: conversion *)

Section conversion.
Context (gob_encode : gmap string string -> result goerror bytes) (ValidString : string -> bool).
Context (ord : list (string * ItemValue) -> list (string * ItemValue)) `{!MapOrder ord}.

(** Every key and value of the item converts. *)
Definition convertible (item : Item) : Prop :=
  forall key v, item !! key = Some v -> is_ok (StringToCFString ValidString key) = true /\
    is_ok (convert_value gob_encode ValidString v) = true.

Definition converted (v : ItemValue) : option CFValue :=
  match convert_value gob_encode ValidString v with Ok c => Some c | Err _ => None end.

Lemma convert_bindings_spec l : NoDup l.*1 ->
  (forall key v, (key, v) ∈ l -> is_ok (StringToCFString ValidString key) = true /\
     is_ok (convert_value gob_encode ValidString v) = true) ->
  exists d, convert_bindings gob_encode ValidString l = Ok d /\
    (forall key v, (key, v) ∈ l -> cf_lookup key d = converted v) /\
    (forall key, key ∉ l.*1 -> cf_lookup key d = None).
Proof.
  induction l as [|[key v] l IH]; intros Hnd Hok.
  { exists []. split; [done|]. split; [|done]. intros ? ? Hin. by apply elem_of_nil in Hin. }
  cbn in Hnd. apply list.NoDup_cons in Hnd as [Hk Hnd].
  destruct IH as (d & Hd & Hin & Hout); [done|intros; apply Hok; by right|].
  destruct (Hok key v) as [Hok1 Hok2]; [by left|]. cbn [convert_bindings].
  destruct (convert_value gob_encode ValidString v) as [c|] eqn:Hc; [|done].
  destruct (StringToCFString ValidString key); [|done]. simpl. rewrite Hd. simpl.
  exists ((key, c) :: d). split; [done|]. split.
  - intros key' v' Hin'. unfold cf_lookup. cbn [List.find fst]. apply elem_of_cons in Hin' as [Heq|Hin'].
    + injection Heq as -> ->. rewrite String.eqb_refl. unfold converted. by rewrite Hc.
    + destruct (String.eqb_spec key key') as [<-|Hne].
      * exfalso. apply Hk. apply list_elem_of_fmap. by exists (key, v').
      * by apply Hin.
  - intros key' Hout'. cbn in Hout'. apply not_elem_of_cons in Hout' as [Hne Hout'].
    unfold cf_lookup. cbn [List.find fst]. destruct (String.eqb_spec key key') as [->|_]; [by destruct Hne|].
    by apply Hout.
Qed.

Lemma Convert_spec item : convertible item ->
  exists d, ConvertMapToCFDictionary gob_encode ValidString ord item = Ok d /\
    forall key, cf_lookup key d = item !! key ≫= converted.
Proof.
  intros Hc. destruct (convert_bindings_spec (range_map ord item)) as (d & Hd & Hin & Hout).
  - by apply NoDup_range_map.
  - intros key v Hkv%(elem_of_range_map ord). by apply Hc.
  - exists d. split; [exact Hd|]. intros key. destruct (item !! key) as [v|] eqn:Hv; simpl.
    + apply Hin. by apply (elem_of_range_map ord).
    + apply Hout. intros Hk. apply list_elem_of_fmap in Hk as ([key' v] & -> & Hk).
      apply (elem_of_range_map ord) in Hk. cbn [fst] in Hv. congruence.
Qed.

(** Convertibility of a given item is a computation. *)
Lemma convertible_compute (item : Item) :
  forallb (fun kv => is_ok (StringToCFString ValidString kv.1) &&
    is_ok (convert_value gob_encode ValidString kv.2)) (map_to_list item) = true -> convertible item.
Proof.
  intros Hall key v Hv. apply forallb_elem with (x := (key, v)) in Hall;
    [by apply andb_true_iff in Hall|by apply elem_of_map_to_list].
Qed.

Lemma convertible_subseteq item item' : item ⊆ item' -> convertible item' -> convertible item.
Proof. intros Hs Hc key v Hv. apply Hc. by eapply lookup_weaken. Qed.
End conversion.

(** ** Lemmas: the items of the store *)

Lemma convertAttributes_strings ord `{!MapOrder ord} (m : gmap string string) :
  convertAttributes ord (IString <$> m) = Ok m.
Proof.
  unfold convertAttributes.
  assert (Hall : forall key v, (key, v) ∈ range_map ord (IString <$> m) <->
    exists t, v = IString t /\ m !! key = Some t).
  { intros key v. rewrite (elem_of_range_map ord), lookup_fmap_Some. naive_solver. }
  assert (Hnd : NoDup (range_map ord (IString <$> m)).*1) by (by apply NoDup_range_map).
  revert Hall Hnd. generalize (range_map ord (IString <$> m)). intros l Hall Hnd.
  assert (Hloop : forall acc, (forall key v, (key, v) ∈ l -> exists t, v = IString t) ->
    exists r, convertAttributes_loop l acc = Ok r /\
      (forall key t, (key, IString t) ∈ l -> r !! key = Some t) /\
      (forall key, key ∉ l.*1 -> r !! key = acc !! key)).
  { clear Hall. induction l as [|[key v] l IH]; intros acc Hs.
    - exists acc. split_and!; [done| |done]. intros ? ? Hin. by apply elem_of_nil in Hin.
    - destruct (Hs key v) as [t ->]; [by left|]. cbn in Hnd. apply list.NoDup_cons in Hnd as [Hk Hnd].
      destruct (IH Hnd (<[key := t]> acc)) as (r & Hr & Hin & Hout); [intros ? ? ?; eapply Hs; by right|].
      exists r. split_and!; [done|..].
      + intros key' t' [Heq|Hin']%elem_of_cons; [|by apply Hin].
        injection Heq as -> ->. rewrite Hout by done. apply lookup_insert_eq.
      + intros key' Hk'. cbn in Hk'. apply not_elem_of_cons in Hk' as [Hne Hk'].
        rewrite Hout by done. by rewrite lookup_insert_ne. }
  destruct (Hloop ∅) as (r & Hr & Hin & Hout); [naive_solver|]. rewrite Hr. f_equal.
  apply map_eq. intros key. destruct (m !! key) as [t|] eqn:Ht.
  - apply Hin, Hall. eauto.
  - rewrite Hout; [by apply lookup_empty|]. intros Hk.
    apply list_elem_of_fmap in Hk as ([key' v] & -> & Hk). apply Hall in Hk as (t & _ & Hk).
    cbn in Ht. congruence.
Qed.

(** What a dictionary contributes to a result: the fields do not depend on its
    order. *)
Definition cf_field {A} (f : CFValue -> A) (key : string) (d : list (string * CFValue)) (a : A) : A :=
  match cf_lookup key d with Some v => f v | None => a end.

Lemma convertResult_step_spec gob_decode r k v :
  (k = AttrGenericKey -> is_ok (gob_decode (CFDataToBytes v)) = true) ->
  exists q, convertResult_step gob_decode r k v = Ok q /\
    q_Account q = (if String.eqb k AccountKey then CFStringToString v else q_Account r) /\
    q_Data q = (if String.eqb k DataKey then CFDataToBytes v else q_Data r) /\
    (if String.eqb k AttrGenericKey then gob_decode (CFDataToBytes v) = Ok (q_Attributes q)
     else q_Attributes q = q_Attributes r) /\
    q_Service q = (if String.eqb k ServiceKey then CFStringToString v else q_Service r).
Proof.
  intros Hg. unfold convertResult_step. destruct r.
  repeat match goal with
  | |- context [if String.eqb k ?x then Ok _ else _] =>
      destruct (String.eqb_spec k x) as [->|_]; [eexists; split; [reflexivity|]; by cbn|]
  end.
  destruct (String.eqb_spec k AttrGenericKey) as [->|_]; [|by eexists].
  specialize (Hg eq_refl). destruct (gob_decode (CFDataToBytes v)) as [attrs|]; [|done].
  eexists. split; [reflexivity|]. by cbn.
Qed.

Lemma convertResult_loop_spec gob_decode d r : NoDup d.*1 ->
  (forall v, cf_lookup AttrGenericKey d = Some v -> is_ok (gob_decode (CFDataToBytes v)) = true) ->
  exists q, convertResult_loop gob_decode d r = Ok q /\
    q_Account q = cf_field CFStringToString AccountKey d (q_Account r) /\
    q_Data q = cf_field CFDataToBytes DataKey d (q_Data r) /\
    cf_field (fun v => gob_decode (CFDataToBytes v)) AttrGenericKey d (Ok (q_Attributes r)) = Ok (q_Attributes q) /\
    q_Service q = cf_field CFStringToString ServiceKey d (q_Service r).
Proof.
  revert r. induction d as [|[k v] d IH]; intros r Hnd Hg; [by exists r|].
  cbn in Hnd. apply list.NoDup_cons in Hnd as [Hk Hnd].
  assert (Hno : forall key, key = k -> cf_lookup key d = None).
  { intros key ->. unfold cf_lookup. destruct (List.find _ d) as [[k' v']|] eqn:Hf; [|done].
    apply List.find_some in Hf as [Hin Heq]. apply String.eqb_eq in Heq. cbn in Heq. subst k'.
    destruct Hk. apply list_elem_of_fmap. exists (k, v'). split; [done|by apply list_elem_of_In]. }
  assert (Hcons : forall key, cf_lookup key ((k, v) :: d) = if String.eqb k key then Some v else cf_lookup key d).
  { intros key. unfold cf_lookup. cbn. by destruct (String.eqb k key). }
  destruct (convertResult_step_spec gob_decode r k v) as (r1 & Hr1 & Ha & Hd & Hat & Hsv).
  { intros ->. apply Hg. rewrite Hcons. by rewrite String.eqb_refl. }
  destruct (IH r1 Hnd) as (q & Hq & Hqa & Hqd & Hqt & Hqs).
  { intros v' Hv'. apply Hg. rewrite Hcons. destruct (String.eqb_spec k AttrGenericKey) as [He|]; [|done].
    by rewrite (Hno _ (eq_sym He)) in Hv'. }
  exists q. cbn [convertResult_loop]. rewrite Hr1. split; [exact Hq|].
  unfold cf_field in *. rewrite !Hcons. split_and!.
  - revert Ha. destruct (String.eqb_spec k AccountKey) as [He|_]; intros Ha; [|by rewrite <- Ha].
    rewrite (Hno _ (eq_sym He)) in Hqa. congruence.
  - revert Hd. destruct (String.eqb_spec k DataKey) as [He|_]; intros Hd; [|by rewrite <- Hd].
    rewrite (Hno _ (eq_sym He)) in Hqd. congruence.
  - revert Hat. destruct (String.eqb_spec k AttrGenericKey) as [He|_]; intros Hat; [|by rewrite <- Hat].
    rewrite (Hno _ (eq_sym He)) in Hqt. congruence.
  - revert Hsv. destruct (String.eqb_spec k ServiceKey) as [He|_]; intros Hsv; [|by rewrite <- Hsv].
    rewrite (Hno _ (eq_sym He)) in Hqs. congruence.
Qed.

Lemma convertResult_describes gob_decode key p b d attrs : describes key p b d ->
  gob_decode (pw_generic p) = Ok attrs ->
  exists q, convertResult gob_decode d = Ok q /\ q_Account q = key.2 /\ q_Attributes q = attrs /\
    (b = true -> q_Data q = pw_data p).
Proof.
  intros (Hnd & Ha & Hg & Hd) Hgob.
  destruct (convertResult_loop_spec gob_decode d QueryResult_zero Hnd) as (q & Hq & Hqa & Hqd & Hqt & _).
  { intros v. rewrite Hg. intros [= <-]. cbn. by rewrite Hgob. }
  exists q. split; [exact Hq|]. unfold cf_field in *. rewrite Ha in Hqa. rewrite Hg in Hqt. cbn in *.
  split; [done|]. split; [congruence|]. intros Hb. by rewrite (Hd Hb) in Hqd.
Qed.

Section items.
Context {T W : Type} `{Store.Secret T} `{GrantedKeychain W passwords}.
Context (status_code : OSStatus -> Z).
Context (gob_encode : gmap string string -> result goerror bytes).
Context (gob_decode : bytes -> result goerror (gmap string ItemValue)).
Context (ValidString : string -> bool).
Context (ord_item : list (string * ItemValue) -> list (string * ItemValue)) `{!MapOrder ord_item}.
Context (ord : list (string * string) -> list (string * string)) `{!MapOrder ord}.
Context (k : keychainStore T) (id : ID).
Context (Hgroup : serviceGroup k <> "") (Hname : serviceName k <> "") (Hid : id <> "").

Definition store_key : string * string * string := (serviceName k, serviceGroup k, id).

(** The item [Save] adds. *)
Definition saved_item (data : bytes) (md : gmap string string) : Item :=
  SetGenericMetadata (stored_metadata ord k id md)
    (SetLabel (itemLabel k id) (SetData (Some data) (newKeychainItem k id))).

Lemma newKeychainItem_lookup key :
  key <> UseDataProtectionKey ->
  newKeychainItem k id !! key =
    (<[AccountKey := IString id]> (<[AccessGroupKey := IString (serviceGroup k)]>
     (<[ServiceKey := IString (serviceName k)]> (<[ReturnAttributesKey := IBool true]>
     (<[AccessibleKey := IRef "kSecAttrAccessibleAfterFirstUnlock"]>
     (<[MatchLimitKey := IRef "kSecMatchLimitOne"]>
     (<[SecClassKey := IRef "kSecClassGenericPassword"]> ∅)))))) : Item) !! key.
Proof.
  intros Hk. unfold newKeychainItem, SetAccount, SetAccessGroup, SetService, SetString.
  rewrite (proj2 (String.eqb_neq _ _) Hgroup), (proj2 (String.eqb_neq _ _) Hname),
    (proj2 (String.eqb_neq _ _) Hid). cbn [negb].
  destruct (useDataProtectionKeychain k); [|done]. unfold SetUseDataProtectionKeychain.
  rewrite !(lookup_insert _ AccountKey). case_decide; [done|]. by rewrite lookup_insert_ne.
Qed.

Lemma saved_item_lookup data md key : key <> AttrGenericKey -> key <> LabelKey -> key <> DataKey ->
  saved_item data md !! key = newKeychainItem k id !! key.
Proof.
  intros Hg Hl Hd. unfold saved_item, SetGenericMetadata, SetLabel, SetString, SetData.
  rewrite lookup_insert_ne by done. destruct (negb _).
  - by rewrite !lookup_insert_ne by done.
  - by rewrite lookup_delete_ne, lookup_insert_ne by done.
Qed.

Lemma primary_key_of (item : Item) d :
  (forall key, cf_lookup key d = item !! key ≫= converted gob_encode ValidString) ->
  (forall key v, item !! key = Some v -> is_ok (convert_value gob_encode ValidString v) = true) ->
  (forall key, key = ServiceKey \/ key = AccessGroupKey \/ key = AccountKey ->
     item !! key = newKeychainItem k id !! key) ->
  primary_key d = Some store_key.
Proof.
  intros Hd Hok Hbase.
  assert (Hs : forall key v, (key = ServiceKey \/ key = AccessGroupKey \/ key = AccountKey) ->
    newKeychainItem k id !! key = Some (IString v) -> cf_string key d = Some v).
  { intros key v Hkey Hv. rewrite <- Hbase in Hv by done. pose proof (Hok _ _ Hv) as Hc.
    unfold cf_string. rewrite Hd, Hv. cbn. unfold converted. unfold convert_value in *.
    unfold StringToCFString in *. repeat case_match; done. }
  unfold primary_key. rewrite !(Hs _ _) by (auto; rewrite newKeychainItem_lookup by done; reflexivity).
  done.
Qed.

(** The password [Save] leaves; [gob] is the encoded metadata. *)
Definition saved_password (data gob : bytes) : Password :=
  {| pw_data := data; pw_generic := gob; pw_label := Some (itemLabel k id) |}.

Lemma runs_darwin_Delete w : convertible gob_encode ValidString (newKeychainItem k id) ->
  runs (Delete status_code gob_encode ValidString ord_item k id) w
    (fun _ w' => passwords w' = delete store_key (passwords w)).
Proof.
  intros Hc. destruct (Convert_spec gob_encode ValidString ord_item _ Hc) as (d & Hd & Hl).
  assert (Hkey : primary_key d = Some store_key).
  { apply (primary_key_of (newKeychainItem k id)); [done| |done]. intros key v Hv. by apply (Hc key). }
  destruct (gk_delete d store_key w Hkey) as (w' & Hdel & Hw').
  exists tt, w'. split; [|done]. unfold Delete, try, DeleteItem, bind, lift. rewrite Hd, Hdel.
  unfold status_result, checkError. destruct (passwords w !! store_key); simpl; [done|].
  by rewrite String.eqb_refl.
Qed.

Lemma itemLabel_nonempty : itemLabel k id <> "".
Proof.
  intros He. apply (f_equal String.length) in He. unfold itemLabel in He.
  rewrite !length_append in He. simpl in He. lia.
Qed.

Lemma saved_item_parts data md :
  saved_item data md !! AttrGenericKey = Some (IMap (stored_metadata ord k id md)) /\
  saved_item data md !! LabelKey = Some (IString (itemLabel k id)) /\
  saved_item data md !! DataKey = Some (IBytes data).
Proof.
  unfold saved_item, SetGenericMetadata, SetLabel, SetString, SetData.
  rewrite (proj2 (String.eqb_neq _ _) itemLabel_nonempty). cbn [negb].
  split_and!.
  - apply lookup_insert_eq.
  - rewrite lookup_insert_ne by done. apply lookup_insert_eq.
  - rewrite !lookup_insert_ne by done. apply lookup_insert_eq.
Qed.

Lemma converted_simple v c : convert_value gob_encode ValidString v = Ok c ->
  converted gob_encode ValidString v = Some c.
Proof. unfold converted. by intros ->. Qed.

(** [Save] does not replace a password. *)
Lemma yields_darwin_Save s data gob w : Marshal s = Ok data ->
  convertible gob_encode ValidString (saved_item data (Metadata s)) ->
  gob_encode (stored_metadata ord k id (Metadata s)) = Ok gob ->
  yields (Save status_code gob_encode ValidString ord_item ord k id s) w (fun r w' =>
    match passwords w !! store_key with
    | Some _ => r = Err (keychain_Error status_code errSecDuplicateItem) /\ passwords w' = passwords w
    | None => r = Ok tt /\ passwords w' = <[store_key := saved_password data gob]> (passwords w)
    end).
Proof.
  intros Hm Hc Hgob. destruct (Convert_spec gob_encode ValidString ord_item _ Hc) as (d & Hd & Hl).
  assert (Hkey : primary_key d = Some store_key).
  { apply (primary_key_of (saved_item data (Metadata s))); [done| |].
    - intros key v Hv. by apply (Hc key).
    - intros key Hkey. apply saved_item_lookup; destruct Hkey as [->|[->| ->]]; done. }
  destruct (saved_item_parts data (Metadata s)) as (Hp1 & Hp2 & Hp3).
  assert (Hdata : cf_data DataKey d = Some data).
  { unfold cf_data. rewrite Hl, Hp3. pose proof (proj2 (Hc _ _ Hp3)) as Hok. cbn in *.
    unfold converted. simpl in *. unfold BytesToCFData in *. by destruct (_ <? _)%Z. }
  assert (Hgen : cf_data AttrGenericKey d = Some gob).
  { unfold cf_data. rewrite Hl, Hp1. pose proof (proj2 (Hc _ _ Hp1)) as Hok. cbn in *.
    unfold converted. simpl in *. rewrite Hgob in *. simpl in *.
    unfold BytesToCFData in *. by destruct (_ <? _)%Z. }
  assert (Hlab : cf_string LabelKey d = Some (itemLabel k id)).
  { unfold cf_string. rewrite Hl, Hp2. pose proof (proj2 (Hc _ _ Hp2)) as Hok. cbn in *.
    unfold converted. simpl in *. unfold StringToCFString in *. repeat case_match; done. }
  destruct (gk_add d store_key data gob w Hkey Hdata Hgen) as (w' & Hadd & Hw').
  rewrite Hlab in Hw'.
  unfold yields, Save, bind, lift. rewrite Hm. unfold mapped, AddItem, bind, lift.
  fold (saved_item data (Metadata s)). rewrite Hd, Hadd. by destruct (passwords w !! store_key).
Qed.

Lemma runs_darwin_Save s data gob w : Marshal s = Ok data ->
  convertible gob_encode ValidString (saved_item data (Metadata s)) ->
  gob_encode (stored_metadata ord k id (Metadata s)) = Ok gob ->
  passwords w !! store_key = None ->
  runs (Save status_code gob_encode ValidString ord_item ord k id s) w
    (fun _ w' => passwords w' = <[store_key := saved_password data gob]> (passwords w)).
Proof.
  intros Hm Hc Hgob Hnone. pose proof (yields_darwin_Save s data gob w Hm Hc Hgob) as Hy.
  rewrite Hnone in Hy. unfold yields in Hy. unfold runs.
  destruct (Save _ _ _ _ _ _ _ _ w) as [r w']. cbn [fst snd] in Hy. destruct Hy as [-> Hw']. eauto.
Qed.

(** The query for one password, with its data. *)
Lemma yields_getItemWithData attrs w :
  convertible gob_encode ValidString (SetReturnData true (newKeychainItem k id)) ->
  (forall p, passwords w !! store_key = Some p -> gob_decode (pw_generic p) = Ok attrs) ->
  yields (getItemWithData status_code gob_encode gob_decode ValidString ord_item k id) w (fun r w' =>
    passwords w' = passwords w /\
    match passwords w !! store_key with
    | Some p => exists q, r = Ok q /\ q_Data q = pw_data p /\ q_Attributes q = attrs
    | None => r = Err ErrCredentialNotFound
    end).
Proof.
  intros Hc Hgob. destruct (Convert_spec gob_encode ValidString ord_item _ Hc) as (d & Hd & Hl).
  assert (Hbase : forall key, key <> ReturnDataKey ->
    SetReturnData true (newKeychainItem k id) !! key = newKeychainItem k id !! key).
  { intros key Hk. unfold SetReturnData. by rewrite lookup_insert_ne. }
  assert (Hkey : primary_key d = Some store_key).
  { apply (primary_key_of (SetReturnData true (newKeychainItem k id))); [done| |].
    - intros key v Hv. by apply (Hc key).
    - intros key Hkey. apply Hbase; destruct Hkey as [->|[->| ->]]; done. }
  destruct (gk_copy d store_key w Hkey) as (answer & w' & Hcopy & Hw' & Hans).
  { by rewrite Hl, Hbase, newKeychainItem_lookup by done. }
  { by rewrite Hl, Hbase, newKeychainItem_lookup by done. }
  { rewrite Hl. unfold SetReturnData. by rewrite lookup_insert_eq. }
  unfold yields, getItemWithData, mapped, QueryItem, QueryItemRef, bind, lift. rewrite Hd, Hcopy.
  destruct (passwords w !! store_key) as [p|].
  - destruct Hans as (d' & -> & Hdesc).
    destruct (convertResult_describes gob_decode store_key p true d' attrs Hdesc (Hgob p eq_refl))
      as (q & Hq & _ & Hqa & Hqd).
    rewrite decide_False by done. unfold checkError. rewrite decide_True by done. rewrite Hq. cbn.
    split; [done|]. exists q. auto.
  - rewrite Hans, decide_True by done. by cbn.
Qed.

Lemma runs_darwin_Get s data gob w : restore_secret (factory k) id (Metadata s) data = Ok s ->
  unprefixed (Metadata s) ->
  convertible gob_encode ValidString (SetReturnData true (newKeychainItem k id)) ->
  gob_decode gob = Ok (IString <$> stored_metadata ord k id (Metadata s)) ->
  passwords w !! store_key = Some (saved_password data gob) ->
  runs (Get status_code gob_encode gob_decode ValidString ord_item ord k id) w
    (fun r w' => r = s /\ passwords w' = passwords w).
Proof.
  intros Hr Hun Hc Hgob Hpw.
  pose proof (yields_getItemWithData (IString <$> stored_metadata ord k id (Metadata s)) w Hc) as Hy.
  rewrite Hpw in Hy. specialize (Hy ltac:(by intros ? [= <-])). unfold yields in Hy.
  unfold Get, runs, bind. destruct (getItemWithData _ _ _ _ _ _ _ w) as [r w']. cbn [fst snd] in Hy.
  destruct Hy as (Hw' & q & -> & Hqd & Hqa). exists s, w'. split; [|done]. unfold lift.
  rewrite Hqa, Hqd, convertAttributes_strings by done.
  pose proof (metadata_stored_clean ord ord k id (Metadata s) ∅ Hun) as Hclean.
  rewrite (left_id_L ∅ (∪)) in Hclean. cbn [pw_data saved_password]. rewrite Hclean, Hr; [done|..];
    intros j [? Hj]; by rewrite lookup_empty in Hj.
Qed.
End items.

(** ** A keychain in memory *)

Definition password_dictionary (key : string * string * string) (p : Password) (with_data : bool)
  : list (string * CFValue) :=
  [(ServiceKey, CFString key.1.1); (AccessGroupKey, CFString key.1.2); (AccountKey, CFString key.2);
   (CreationDateKey, CFDate 0); (AttrGenericKey, CFData (pw_generic p))] ++
  (if with_data then [(DataKey, CFData (pw_data p))] else []).

Lemma password_described key p b : describes key p b (password_dictionary key p b).
Proof.
  split_and!; [|done..|by intros ->]. unfold password_dictionary.
  destruct b; apply (bool_decide_unpack _); vm_compute; exact I.
Qed.

#[export] Instance memory_keychain : SecurityFramework (gmap (string * string * string) Password) := {
  SecItemAdd d m :=
    match primary_key d, cf_data DataKey d, cf_data AttrGenericKey d with
    | Some key, Some v, Some g =>
        match m !! key with
        | Some _ => (errSecDuplicateItem, m)
        | None => (errSecSuccess,
            <[key := {| pw_data := v; pw_generic := g; pw_label := cf_string LabelKey d |}]> m)
        end
    | _, _, _ => (errSecParam, m)
    end;
  SecItemCopyMatching d m :=
    match primary_key d with
    | Some key =>
        match m !! key with
        | Some p => ((errSecSuccess, Some (CFDictionary (password_dictionary key p true))), m)
        | None => ((errSecItemNotFound, None), m)
        end
    | None =>
        match cf_string ServiceKey d, cf_string AccessGroupKey d, cf_lookup AccountKey d with
        | Some s, Some g, None =>
            match of_service s g m with
            | [] => ((errSecItemNotFound, None), m)
            | found =>
                ((errSecSuccess, Some (CFArray
                    (map (fun kp => CFDictionary (password_dictionary kp.1 kp.2 false)) found))), m)
            end
        | _, _, _ => ((errSecParam, None), m)
        end
    end;
  SecItemDelete d m :=
    match primary_key d with
    | Some key =>
        match m !! key with
        | Some _ => (errSecSuccess, delete key m)
        | None => (errSecItemNotFound, m)
        end
    | None => (errSecParam, m)
    end
}.

#[export] Instance memory_keychain_granted :
  GrantedKeychain (gmap (string * string * string) Password) (fun m => m).
Proof.
  split; simpl.
  - intros d key v m w -> -> ->. destruct (w !! key); eauto.
  - intros d key w ->. destruct (w !! key) eqn:Hk; [eauto|]. eexists. split; [done|].
    symmetry. by apply delete_id.
  - intros d key w -> _ _ _. destruct (w !! key) as [p|]; (eexists _, _; split; [reflexivity|]; split; [done|]).
    + eexists. split; [reflexivity|apply password_described].
    + done.
  - intros d s g w Hs Hg Ha _ _ _. unfold primary_key, cf_string at 3. rewrite Hs, Hg, Ha.
    destruct (of_service s g w) as [|kp found].
    { by eexists _, w, []. }
    eexists _, w, (kp :: found). split; [reflexivity|]. split; [done|]. split; [done|].
    eexists. split; [reflexivity|].
    assert (Hd : forall kp : string * string * string * Password, exists d',
      CFDictionary (password_dictionary kp.1 kp.2 false) = CFDictionary d' /\ describes kp.1 kp.2 false d').
    { intros kp'. eexists. split; [reflexivity|apply password_described]. }
    constructor; [apply Hd|]. clear -Hd. by induction found; constructor.
Qed.

(** ** Properties of the macOS store *)

(** on macOS [Upsert] stores a secret that [Get] reads back unchanged,
    whether or not one was there before, and no other password changes. *)
Theorem darwin_Upsert_Get {T W} `{Store.Secret T} `{GrantedKeychain W passwords}
    status_code gob_encode gob_decode ValidString ord_item `{!MapOrder ord_item} ord `{!MapOrder ord}
    (k : keychainStore T) id s data gob w :
  serviceGroup k <> "" -> serviceName k <> "" -> id <> "" ->
  Marshal s = Ok data -> restore_secret (factory k) id (Metadata s) data = Ok s ->
  unprefixed (Metadata s) ->
  gob_encode (stored_metadata ord k id (Metadata s)) = Ok gob ->
  gob_decode gob = Ok (IString <$> stored_metadata ord k id (Metadata s)) ->
  convertible gob_encode ValidString (saved_item ord k id data (Metadata s)) ->
  convertible gob_encode ValidString (SetReturnData true (newKeychainItem k id)) ->
  runs (Upsert status_code gob_encode ValidString ord_item ord k id s) w (fun _ w1 =>
    passwords w1 = <[store_key k id := saved_password k id data gob]> (passwords w) /\
    runs (Get status_code gob_encode gob_decode ValidString ord_item ord k id) w1
      (fun r w2 => r = s /\ passwords w2 = passwords w1)).
Proof.
  intros Hg Hn Hi Hm Hr Hun Henc Hdec Hc1 Hc2. apply runs_bind.
  eapply runs_mono; [apply runs_darwin_Delete; try done|].
  { eapply convertible_subseteq; [|exact Hc2]. apply insert_subseteq.
    by rewrite newKeychainItem_lookup. }
  intros [] w1 Hw1. cbv beta in Hw1. eapply runs_mono; [eapply runs_darwin_Save; try done|].
  { by rewrite Hw1, lookup_delete_eq. }
  intros [] w2 Hw2. cbv beta in Hw2. rewrite Hw1, insert_delete_eq in Hw2. split; [done|].
  eapply runs_darwin_Get; try done. by rewrite Hw2, lookup_insert_eq.
Qed.

Lemma darwin_Upsert_Get_witness :
  let k := {| serviceGroup := "g"; serviceName := "n"; factory := PassValue_factory;
              useDataProtectionKeychain := true |} in
  let s := {| pv_value := [Byte.x41]; pv_metadata := {["a" := "b"]} |} in
  let md := stored_metadata (fun l => l) k "my/id" (pv_metadata s) in
  let enc := fun _ => Ok [Byte.x01] in
  let dec := fun _ => Ok (IString <$> md) in
  runs (Upsert (fun _ => 7%Z) enc (fun _ => true) (@rev _) (fun l => l) k "my/id" s)
    (∅ : gmap (string * string * string) Password) (fun _ w1 =>
    w1 = <[store_key k "my/id" := saved_password k "my/id" [Byte.x41] [Byte.x01]]> ∅ /\
    runs (Get (fun _ => 7%Z) enc dec (fun _ => true) (@rev _) (fun l => l) k "my/id") w1
      (fun r w2 => r = s /\ w2 = w1)).
Proof.
  intros k s md enc dec.
  apply (darwin_Upsert_Get (fun _ => 7%Z) enc dec (fun _ => true) (@rev _) (fun l => l) k "my/id" s
    [Byte.x41] [Byte.x01] ∅ (passwords := fun m => m)); try done.
  - intros j v Hj. simpl in Hj. apply lookup_singleton_Some in Hj as [<- _]. reflexivity.
  - apply convertible_compute. vm_compute. reflexivity.
  - apply convertible_compute. vm_compute. reflexivity.
Defined.

(** [Upsert] on macOS is not the atomic replacement its documentation
    promises: the old secret is deleted before the new one is marshalled, so
    when [Marshal] fails the call returns that error and the stored secret is
    lost. *)
Theorem darwin_Upsert_not_atomic {T W} `{Store.Secret T} `{GrantedKeychain W passwords}
    status_code gob_encode ValidString ord_item `{!MapOrder ord_item} ord
    (k : keychainStore T) id s e w :
  serviceGroup k <> "" -> serviceName k <> "" -> id <> "" ->
  convertible gob_encode ValidString (newKeychainItem k id) ->
  Marshal s = Err e ->
  let '(r, w') := Upsert status_code gob_encode ValidString ord_item ord k id s w in
  r = Err e /\ passwords w' = delete (store_key k id) (passwords w).
Proof.
  intros Hg Hn Hi Hc Hm.
  destruct (runs_darwin_Delete status_code gob_encode ValidString ord_item k id Hg Hn Hi w Hc)
    as ([] & w' & Hd & Hw').
  unfold Upsert, bind. rewrite Hd. unfold Save, bind, lift. by rewrite Hm.
Qed.

(** A secret that cannot be marshalled. *)
Definition failing_Secret : Store.Secret unit := {|
  Marshal _ := Err (ErrorNew "cannot marshal"); Unmarshal v _ := Ok v;
  Metadata _ := ∅; SetMetadata v _ := Ok v |}.

Lemma darwin_Upsert_not_atomic_witness :
  let k := {| serviceGroup := "g"; serviceName := "n"; factory := fun _ => tt;
              useDataProtectionKeychain := false |} in
  let w : gmap (string * string * string) Password :=
    {[store_key k "id" := {| pw_data := [Byte.x41]; pw_generic := []; pw_label := None |}]} in
  let '(r, w') := Upsert (H := failing_Secret) (fun _ => 7%Z) (fun _ => Ok []) (fun _ => true)
    (fun l => l) (fun l => l) k "id" tt w in
  r = Err (ErrorNew "cannot marshal") /\ w' = delete (store_key k "id") w.
Proof.
  intros k w.
  apply (darwin_Upsert_not_atomic (H := failing_Secret) (passwords := fun m => m)); try done.
  { apply _. }
  apply convertible_compute. vm_compute. reflexivity.
Defined.
