(* ===== verification/DarwinStore.v ===== *)
(** The macOS store as a map: over a keychain that grants its calls, the store of
    keychain_darwin.go refines the abstract map from identifiers to secrets that
    package store promises, with [Save] refusing to replace a secret. *)

From S2P Require Import Prelude GoErrors GoStrings Secrets Store StoreSpec Keychain KeychainDarwin.

Definition darwin_Store {T W} `{Store.Secret T} `{SecurityFramework W}
    (status_code : OSStatus -> Z) (gob_encode : gmap string string -> result goerror bytes)
    (gob_decode : bytes -> result goerror (gmap string ItemValue)) (ValidString : string -> bool)
    (ord_item : list (string * ItemValue) -> list (string * ItemValue))
    (ord : list (string * string) -> list (string * string)) (k : keychainStore T) : Store W T := {|
  store_Delete := Delete status_code gob_encode ValidString ord_item k;
  store_Get := Get status_code gob_encode gob_decode ValidString ord_item ord k;
  store_GetAllMetadata := GetAllMetadata status_code gob_encode gob_decode ValidString ord_item ord k;
  store_Save := Save status_code gob_encode ValidString ord_item ord k;
  store_Upsert := Upsert status_code gob_encode ValidString ord_item ord k;
  store_Filter := Filter status_code gob_encode gob_decode ValidString ord_item ord k
|}.

Section content.
Context {T W : Type} `{Store.Secret T} `{GrantedKeychain W passwords}.
Context (status_code : OSStatus -> Z).
Context (gob_encode : gmap string string -> result goerror bytes).
Context (gob_decode : bytes -> result goerror (gmap string ItemValue)).
Context (ValidString : string -> bool).
Context (ord_item : list (string * ItemValue) -> list (string * ItemValue)) `{!MapOrder ord_item}.
Context (ord : list (string * string) -> list (string * string)) `{!MapOrder ord}.
Context (k : keychainStore T).

Abbreviation entry := (string * string * string * Password)%type (only parsing).

(** The query for all the passwords of the store. *)
Definition list_item : Item := SetMatchLimit MatchLimitAll (newKeychainItem k "").

(** The store has a group and a name, and they make a query. *)
Definition usable : Prop :=
  serviceGroup k <> "" /\ serviceName k <> "" /\ convertible gob_encode ValidString list_item.

(** Identifiers a query can name. *)
Definition nameable (id : ID) : Prop :=
  validIdentifier id = true /\
  convertible gob_encode ValidString (SetReturnData true (newKeychainItem k id)).

(** What [f] makes of a password of the store. *)
Definition pw_with {V} (f : ID -> gmap string string -> bytes -> result goerror V) (kp : entry) : option (ID * V) :=
  if decide (kp.1.1 = (serviceName k, serviceGroup k)) then
    match (attributes <-? gob_decode (pw_generic kp.2) ;;
           attributes <-? convertAttributes ord_item attributes ;;
           f kp.1.2 (safelyCleanMetadata ord attributes) (pw_data kp.2)) with
    | Ok v => Some (kp.1.2, v)
    | Err _ => None
    end
  else None.

(** Its secret, and its metadata only. *)
Definition pw_secret : entry -> option (ID * T) := pw_with (restore_secret (factory k)).
Definition pw_metadata : entry -> option (ID * T) := pw_with (fun id md _ => SetMetadata (factory k id) md).

Definition darwin_content (m : gmap (string * string * string) Password) : gmap ID T :=
  gathered pw_secret (map_to_list m).

(** The password holds the secret [s] of [id], as [Save] would have stored it. *)
Definition pw_holds (id : ID) (s : T) (p : Password) : Prop :=
  nameable id /\ unprefixed (Metadata s) /\
  gob_decode (pw_generic p) = Ok (IString <$> stored_metadata ord k id (Metadata s)) /\
  restore_secret (factory k) id (Metadata s) (pw_data p) = Ok s.

(** The passwords of the store's service and group are secrets it saved; all
    others are arbitrary. *)
Definition darwin_kept (m : gmap (string * string * string) Password) : Prop :=
  forall id p, m !! store_key k id = Some p -> exists s, pw_holds id s p.

(** A secret the store can hold under [id]. *)
Definition darwin_acceptable (id : ID) (s : T) : Prop :=
  nameable id /\ unprefixed (Metadata s) /\
  exists data gob, Marshal s = Ok data /\ restore_secret (factory k) id (Metadata s) data = Ok s /\
    gob_encode (stored_metadata ord k id (Metadata s)) = Ok gob /\
    gob_decode gob = Ok (IString <$> stored_metadata ord k id (Metadata s)) /\
    convertible gob_encode ValidString (saved_item ord k id data (Metadata s)).

Lemma nameable_nonempty id : nameable id -> id <> "".
Proof. intros [Hv _] ->. by vm_compute in Hv. Qed.

Lemma pw_holds_with {V} (f : ID -> gmap string string -> bytes -> result goerror V) id s p v :
  pw_holds id s p -> f id (Metadata s) (pw_data p) = Ok v -> pw_with f (store_key k id, p) = Some (id, v).
Proof.
  intros (_ & Hun & Hg & _) Hf. unfold pw_with, store_key. cbn [fst snd]. rewrite decide_True by done.
  rewrite Hg. cbn [result_bind]. rewrite convertAttributes_strings by done. cbn [result_bind].
  pose proof (metadata_stored_clean ord ord k id (Metadata s) ∅ Hun) as Hclean.
  rewrite (left_id_L ∅ (∪)) in Hclean. rewrite Hclean; [by rewrite Hf|..]; intros j [? Hj]; by rewrite lookup_empty in Hj.
Qed.

Lemma pw_holds_secret id s p : pw_holds id s p -> pw_secret (store_key k id, p) = Some (id, s).
Proof. intros Hh. apply (pw_holds_with _ id s); [done|]. by destruct Hh as (_ & _ & _ & ->). Qed.

Lemma pw_holds_metadata id s p : pw_holds id s p ->
  exists v, SetMetadata (factory k id) (Metadata s) = Ok v /\ pw_metadata (store_key k id, p) = Some (id, v).
Proof.
  intros Hh. pose proof Hh as (_ & _ & _ & Hr). unfold restore_secret in Hr.
  apply result_bind_Ok_inv in Hr as (v & Hv & _). exists v. split; [done|]. by apply (pw_holds_with _ id s).
Qed.

(** Readers that answer for passwords of the store only. *)
Definition pw_reads {V} (h : entry -> option (ID * V)) : Prop :=
  forall kp id v, h kp = Some (id, v) -> kp.1 = store_key k id.

Lemma pw_with_reads {V} (f : ID -> gmap string string -> bytes -> result goerror V) : pw_reads (pw_with f).
Proof.
  intros [[[s g] a] p] id v. unfold pw_with. cbn [fst snd]. case_decide as Hk; [|done]. injection Hk as -> ->.
  destruct (result_bind _ _); intros [= <- _]. done.
Qed.

Lemma pw_reads_apart {V} (h : entry -> option (ID * V)) m : pw_reads h -> apart h (map_to_list m).
Proof.
  intros Hr [key p] [key' p'] id v u Hx Hy Hhx Hhy. apply Hr in Hhx, Hhy. cbn [fst] in *. subst key key'.
  apply elem_of_map_to_list in Hx, Hy. congruence.
Qed.

Lemma pw_gathered {V} (h : entry -> option (ID * V)) m id v : pw_reads h ->
  gathered h (map_to_list m) !! id = Some v <->
  exists p, m !! store_key k id = Some p /\ h (store_key k id, p) = Some (id, v).
Proof.
  intros Hr. rewrite gathered_lookup by (apply NoDup_map_to_list || by apply pw_reads_apart). split.
  - intros ([key p] & Hin & Hh). pose proof (Hr _ _ _ Hh) as Hk. cbn [fst] in Hk. subst key.
    apply elem_of_map_to_list in Hin. eauto.
  - intros (p & Hp & Hh). exists (store_key k id, p). split; [by apply elem_of_map_to_list|done].
Qed.

Lemma darwin_content_lookup m id : darwin_kept m ->
  match m !! store_key k id with
  | Some p => exists s, pw_holds id s p /\ darwin_content m !! id = Some s
  | None => darwin_content m !! id = None
  end.
Proof.
  intros Hk. destruct (m !! store_key k id) as [p|] eqn:Hp.
  - destruct (Hk id p Hp) as [s Hs]. exists s. split; [done|]. apply pw_gathered; [apply pw_with_reads|].
    exists p. split; [done|]. by apply pw_holds_secret.
  - apply eq_None_not_Some. intros [s Hs]. apply pw_gathered in Hs as (p & Hp' & _); [congruence|apply pw_with_reads].
Qed.

Lemma store_key_inj id id' : store_key k id = store_key k id' -> id = id'.
Proof. intros He. by injection He. Qed.

Lemma darwin_kept_insert m id s p : darwin_kept m -> pw_holds id s p ->
  darwin_kept (<[store_key k id := p]> m).
Proof.
  intros Hk Hh j q Hq. apply lookup_insert_Some in Hq as [[Hj <-]|[_ Hq]]; [|by apply Hk].
  apply store_key_inj in Hj as <-. eauto.
Qed.

Lemma darwin_kept_delete m key : darwin_kept m -> darwin_kept (delete key m).
Proof. intros Hk j q Hq. apply lookup_delete_Some in Hq as [_ Hq]. by apply Hk. Qed.

Lemma darwin_content_insert m id s p : darwin_kept m -> pw_holds id s p ->
  darwin_content (<[store_key k id := p]> m) = <[id := s]> (darwin_content m).
Proof.
  intros Hk Hh. apply map_eq. intros j. apply option_eq. intros v. unfold darwin_content at 1.
  rewrite pw_gathered, lookup_insert_Some by apply pw_with_reads. unfold darwin_content.
  rewrite pw_gathered by apply pw_with_reads. setoid_rewrite lookup_insert_Some. split.
  - intros (q & [[Hj <-]|[Hne Hq]] & Hs).
    + apply store_key_inj in Hj as <-. left. rewrite pw_holds_secret with (s := s) in Hs by done. by simplify_eq.
    + right. split; [by intros ->|eauto].
  - intros [[<- <-]|[Hne (q & Hq & Hs)]].
    + exists p. split; [by left|by apply pw_holds_secret].
    + exists q. split; [right; split; [|done]|done]. intros He. by apply Hne, store_key_inj.
Qed.

Lemma darwin_content_delete m id :
  darwin_content (delete (store_key k id) m) = delete id (darwin_content m).
Proof.
  apply map_eq. intros j. apply option_eq. intros v. unfold darwin_content at 1.
  rewrite pw_gathered, lookup_delete_Some by apply pw_with_reads. unfold darwin_content.
  rewrite pw_gathered by apply pw_with_reads. setoid_rewrite lookup_delete_Some. split.
  - intros (q & [Hne Hq] & Hs). split; [by intros ->|eauto].
  - intros [Hne (q & Hq & Hs)]. exists q. split; [split; [|done]|done]. intros He. by apply Hne, store_key_inj.
Qed.
End content.

(** ** The operations *)

Section operations.
Context {T W : Type} `{Store.Secret T} `{GrantedKeychain W passwords}.
Context (status_code : OSStatus -> Z).
Context (gob_encode : gmap string string -> result goerror bytes).
Context (gob_decode : bytes -> result goerror (gmap string ItemValue)).
Context (ValidString : string -> bool).
Context (ord_item : list (string * ItemValue) -> list (string * ItemValue)) `{!MapOrder ord_item}.
Context (ord : list (string * string) -> list (string * string)) `{!MapOrder ord}.
Context (k : keychainStore T) (Hk : usable gob_encode ValidString k).
Abbreviation kept := (darwin_kept gob_encode gob_decode ValidString ord k) (only parsing).
Abbreviation content := (darwin_content gob_decode ord_item ord k) (only parsing).
Abbreviation holds := (pw_holds gob_encode gob_decode ValidString ord k) (only parsing).
Abbreviation acceptable := (darwin_acceptable gob_encode gob_decode ValidString ord k) (only parsing).

Lemma held_saved id s data gob : nameable gob_encode ValidString k id -> unprefixed (Metadata s) ->
  restore_secret (factory k) id (Metadata s) data = Ok s ->
  gob_decode gob = Ok (IString <$> stored_metadata ord k id (Metadata s)) ->
  holds id s (saved_password k id data gob).
Proof. intros Hid Hun Hr Hg. split; [exact Hid|]. split; [exact Hun|]. by split. Qed.

Lemma nameable_item id : nameable gob_encode ValidString k id ->
  convertible gob_encode ValidString (newKeychainItem k id).
Proof.
  intros Hid. pose proof (nameable_nonempty _ _ _ _ Hid) as Hne. destruct Hid as [_ Hc].
  eapply convertible_subseteq; [|exact Hc]. apply insert_subseteq.
  destruct Hk as (Hg & Hn & _). by rewrite newKeychainItem_lookup.
Qed.

Lemma runs_darwin_delete id w : kept (passwords w) -> nameable gob_encode ValidString k id ->
  runs (Delete status_code gob_encode ValidString ord_item k id) w (fun _ w' =>
    kept (passwords w') /\ content (passwords w') = delete id (content (passwords w)) /\
    passwords w' !! store_key k id = None).
Proof.
  intros Hw Hid. destruct Hk as (Hg & Hn & _). eapply runs_mono.
  { apply runs_darwin_Delete; [done..|by apply (nameable_nonempty gob_encode ValidString k)|by apply nameable_item]. }
  cbv beta. intros _ w' ->. split; [by apply darwin_kept_delete|]. split; [by apply darwin_content_delete|].
  apply lookup_delete_eq.
Qed.

Lemma yields_darwin_save id s w : kept (passwords w) -> acceptable id s ->
  yields (Save status_code gob_encode ValidString ord_item ord k id s) w (fun r w' =>
    kept (passwords w') /\
    match content (passwords w) !! id with
    | Some _ => r = Err (keychain_Error status_code errSecDuplicateItem) /\
        content (passwords w') = content (passwords w)
    | None => r = Ok tt /\ content (passwords w') = <[id := s]> (content (passwords w))
    end).
Proof.
  intros Hw (Hid & Hun & data & gob & Hm & Hr & Henc & Hdec & Hc). destruct Hk as (Hg & Hn & _).
  pose proof (nameable_nonempty _ _ _ _ Hid) as Hne.
  pose proof (darwin_content_lookup gob_encode gob_decode ValidString ord_item ord k _ id Hw) as Hl.
  eapply yields_mono; [by apply (yields_darwin_Save status_code gob_encode ValidString ord_item ord k id Hg Hn Hne s data gob)|].
  cbv beta. intros r w'. destruct (passwords w !! store_key k id) as [p|].
  - destruct Hl as (s' & _ & ->). intros [-> ->]. done.
  - rewrite Hl. intros [-> ->].
    assert (Hh : holds id s (saved_password k id data gob)) by by apply held_saved.
    split; [by eapply darwin_kept_insert|]. split; [done|].
    by apply (darwin_content_insert gob_encode gob_decode ValidString ord_item ord k).
Qed.

Lemma runs_darwin_upsert id s w : kept (passwords w) -> acceptable id s ->
  runs (Upsert status_code gob_encode ValidString ord_item ord k id s) w (fun _ w' =>
    kept (passwords w') /\ content (passwords w') = <[id := s]> (content (passwords w))).
Proof.
  intros Hw Hs. apply runs_bind. eapply runs_mono; [apply runs_darwin_delete; [exact Hw|by destruct Hs]|].
  cbv beta. intros _ w1 (Hw1 & Hc1 & _). pose proof (yields_darwin_save id s w1 Hw1 Hs) as Hy.
  rewrite Hc1, lookup_delete_eq in Hy. unfold yields in Hy. unfold runs.
  destruct (Save _ _ _ _ _ _ _ _ w1) as [r w2]. cbn [fst snd] in Hy. destruct Hy as (Hw2 & -> & Hc2).
  rewrite insert_delete_eq in Hc2. eauto.
Qed.

(** The query for one secret. *)
Lemma yields_held id w : kept (passwords w) -> nameable gob_encode ValidString k id ->
  yields (getItemWithData status_code gob_encode gob_decode ValidString ord_item k id) w (fun r w' =>
    passwords w' = passwords w /\
    match passwords w !! store_key k id with
    | Some p => exists q s, r = Ok q /\ holds id s p /\ q_Data q = pw_data p /\
        q_Attributes q = IString <$> stored_metadata ord k id (Metadata s)
    | None => r = Err ErrCredentialNotFound
    end).
Proof.
  intros Hw Hid. destruct Hk as (Hg & Hn & _). pose proof (nameable_nonempty _ _ _ _ Hid) as Hne.
  destruct Hid as [_ Hc]. destruct (passwords w !! store_key k id) as [p|] eqn:Hp.
  - destruct (Hw id p Hp) as [s Hs]. pose proof Hs as (_ & _ & Hgob & _).
    eapply yields_mono; [apply (yields_getItemWithData status_code gob_encode gob_decode ValidString ord_item k id
      Hg Hn Hne (IString <$> stored_metadata ord k id (Metadata s)) w Hc)|].
    { intros q. rewrite Hp. by intros [= <-]. }
    cbv beta. rewrite Hp. intros r w' (Hw' & q & -> & Hqd & Hqa). split; [done|]. by exists q, s.
  - eapply yields_mono; [apply (yields_getItemWithData status_code gob_encode gob_decode ValidString ord_item k id
      Hg Hn Hne ∅ w Hc)|].
    { intros q. by rewrite Hp. }
    cbv beta. rewrite Hp. done.
Qed.

Lemma stored_clean id s : unprefixed (Metadata s) ->
  safelyCleanMetadata ord (stored_metadata ord k id (Metadata s)) = Metadata s.
Proof.
  intros Hun. pose proof (metadata_stored_clean ord ord k id (Metadata s) ∅ Hun) as Hclean.
  rewrite (left_id_L ∅ (∪)) in Hclean. apply Hclean; intros j [? Hj]; by rewrite lookup_empty in Hj.
Qed.

Lemma yields_darwin_Get id w : kept (passwords w) -> nameable gob_encode ValidString k id ->
  yields (Get status_code gob_encode gob_decode ValidString ord_item ord k id) w (fun r w' =>
    passwords w' = passwords w /\
    r = match content (passwords w) !! id with Some s => Ok s | None => Err ErrCredentialNotFound end).
Proof.
  intros Hw Hid. pose proof (yields_held id w Hw Hid) as Hy.
  pose proof (darwin_content_lookup gob_encode gob_decode ValidString ord_item ord k _ id Hw) as Hl.
  unfold yields in *. unfold Get, bind. destruct (getItemWithData _ _ _ _ _ _ _ w) as [r w'].
  cbn [fst snd] in Hy. destruct Hy as [Hw' Hy]. destruct (passwords w !! store_key k id) as [p|].
  - destruct Hy as (q & s & -> & Hh & Hqd & Hqa). destruct Hl as (s' & Hh' & Hc).
    pose proof (pw_holds_secret gob_encode gob_decode ValidString ord_item ord k _ _ _ Hh) as He.
    rewrite (pw_holds_secret gob_encode gob_decode ValidString ord_item ord k _ _ _ Hh') in He. injection He as ->.
    rewrite Hc. destruct Hh as (_ & Hun & _ & Hr). unfold lift.
    rewrite Hqa, Hqd, convertAttributes_strings, (stored_clean id s Hun) by done. by rewrite Hr.
  - rewrite Hy, Hl. by cbn.
Qed.

(** The query for all passwords. *)
Lemma list_item_lookup key : key <> UseDataProtectionKey ->
  list_item k !! key =
    (<[MatchLimitKey := IRef "kSecMatchLimitAll"]> (<[AccessGroupKey := IString (serviceGroup k)]>
     (<[ServiceKey := IString (serviceName k)]> (<[ReturnAttributesKey := IBool true]>
     (<[AccessibleKey := IRef "kSecAttrAccessibleAfterFirstUnlock"]>
     (<[MatchLimitKey := IRef "kSecMatchLimitOne"]>
     (<[SecClassKey := IRef "kSecClassGenericPassword"]> ∅)))))) : Item) !! key.
Proof.
  intros Hkey. destruct Hk as (Hg & Hn & _).
  unfold list_item, newKeychainItem, SetAccessGroup, SetService, SetString, SetMatchLimit.
  change (MatchLimitAll =? MatchLimitDefault)%Z with false. change (MatchLimitOne =? MatchLimitDefault)%Z with false.
  rewrite (proj2 (String.eqb_neq _ _) Hg), (proj2 (String.eqb_neq _ _) Hn). cbn [negb String.eqb].
  destruct (useDataProtectionKeychain k); [|done]. unfold SetUseDataProtectionKeychain.
  rewrite !(lookup_insert _ MatchLimitKey). case_decide; [done|]. by rewrite lookup_insert_ne.
Qed.

(** What [QueryItem] answers for it, password by password. *)
Definition result_for (q : QueryResult) (kp : string * string * string * Password) : Prop :=
  exists id s, kp.1 = store_key k id /\ holds id s kp.2 /\
    q_Account q = id /\ q_Attributes q = IString <$> stored_metadata ord k id (Metadata s).

Lemma convertResults_described arr found :
  Forall2 (fun x kp => exists d', x = CFDictionary d' /\ describes kp.1 kp.2 false d') arr found ->
  Forall (fun kp => exists id s, kp.1 = store_key k id /\ holds id s kp.2) found ->
  exists results, convertResults gob_decode arr = Ok results /\ Forall2 result_for results found.
Proof.
  induction 1 as [|x kp arr found (d & -> & Hd) _ IH]; intros HF; [by exists []|].
  apply list.Forall_cons in HF as [(id & s & Hkey & Hh) HF]. destruct (IH HF) as (results & Hr & HF2).
  pose proof Hh as (_ & _ & Hgob & _).
  destruct (convertResult_describes gob_decode _ _ _ _ _ Hd Hgob) as (q & Hq & Hqa & Hqt & _).
  exists (q :: results). cbn [convertResults]. rewrite Hq. cbn [result_bind]. rewrite Hr. split; [done|].
  constructor; [|done]. exists id, s. rewrite Hqa, Hkey. by split_and!.
Qed.

Lemma runs_QueryItem_all w : kept (passwords w) ->
  runs (QueryItem status_code gob_encode gob_decode ValidString ord_item (list_item k)) w (fun results w' =>
    passwords w' = passwords w /\
    exists found, found ≡ₚ of_service (serviceName k) (serviceGroup k) (passwords w) /\
      Forall2 result_for results found).
Proof.
  intros Hw. pose proof Hk as (Hg & Hn & Hc).
  destruct (Convert_spec gob_encode ValidString ord_item _ Hc) as (d & Hd & Hl).
  assert (Hs : forall key v, key <> UseDataProtectionKey -> list_item k !! key = Some (IString v) -> cf_string key d = Some v).
  { intros key v Hkey Hv. unfold cf_string. rewrite Hl, Hv. cbn. pose proof (proj2 (Hc _ _ Hv)) as Hok.
    unfold converted. cbn in *. unfold StringToCFString in *. repeat case_match; done. }
  destruct (gk_list d (serviceName k) (serviceGroup k) w) as (answer & w' & found & Hcopy & Hw' & Hp & Hans).
  { apply Hs; [done|]. by rewrite list_item_lookup. }
  { apply Hs; [done|]. by rewrite list_item_lookup. }
  { by rewrite Hl, list_item_lookup. }
  { by rewrite Hl, list_item_lookup. }
  { by rewrite Hl, list_item_lookup. }
  { by rewrite Hl, list_item_lookup. }
  assert (HF : Forall (fun kp => exists id s, kp.1 = store_key k id /\ holds id s kp.2) found).
  { rewrite Hp. unfold of_service. apply list.Forall_forall. intros [[[sv gr] id] p] Hin.
    apply list_elem_of_filter in Hin as [He Hin]. cbn [fst] in He. injection He as -> ->.
    apply elem_of_map_to_list in Hin. destruct (Hw id p Hin) as [s Hh]. by exists id, s. }
  unfold runs, QueryItem, QueryItemRef, bind, lift. rewrite Hd, Hcopy.
  destruct found as [|kp found].
  - rewrite Hans, decide_True by done. exists [], w'. split; [done|]. split; [done|]. exists []. split; [done|constructor].
  - destruct Hans as (arr & -> & HF2). rewrite decide_False by done. unfold checkError. rewrite decide_True by done.
    destruct (convertResults_described arr _ HF2 HF) as (results & Hr & Hres).
    exists results, w'. rewrite Hr. split; [done|]. split; [done|]. by exists (kp :: found).
Qed.

(** The passwords found contribute all there is to read. *)
Lemma found_reads {V} (h : string * string * string * Password -> option (ID * V)) m found :
  pw_reads k h -> found ≡ₚ of_service (serviceName k) (serviceGroup k) m ->
  (list_to_map (reverse (omap h found)) : gmap ID V) = gathered h (map_to_list m).
Proof.
  intros Hr Hp. pose proof (pw_reads_apart k h m Hr) as Hap.
  assert (Hsub : forall kp, kp ∈ found -> kp ∈ map_to_list m).
  { intros kp. rewrite Hp. unfold of_service. intros Hin. by apply list_elem_of_filter in Hin as [_ ?]. }
  assert (Hnd : NoDup found).
  { rewrite Hp. apply list.NoDup_filter, NoDup_map_to_list. }
  rewrite gathered_loop; [|done|intros x y id v u Hx Hy; apply Hap; auto].
  rewrite (gathered_perm h found (of_service (serviceName k) (serviceGroup k) m) Hnd);
    [|intros x y id v u Hx Hy; apply Hap; auto|done].
  clear Hsub Hap Hp Hnd. unfold gathered. f_equal. unfold of_service. induction (map_to_list m) as [|kp l IH]; [done|].
  rewrite filter_cons. case_decide as Hd; cbn; rewrite IH; [done|].
  destruct (h kp) as [[id v]|] eqn:Hh; [|done]. apply Hr in Hh. destruct Hd. by rewrite Hh.
Qed.

Lemma collectMetadata_found results found acc : Forall2 result_for results found ->
  collectMetadata ord_item ord k results acc =
  Ok (list_to_map (reverse (omap (pw_metadata gob_decode ord_item ord k) found)) ∪ acc).
Proof.
  intros HF. revert acc. induction HF as [|q [key p] results found (id & s & Hkey & Hh & Hqa & Hqt) _ IH]; intros acc.
  { cbn. by rewrite (left_id_L ∅ (∪)). }
  cbn [fst snd] in *. subst key.
  destruct (pw_holds_metadata gob_encode gob_decode ValidString ord_item ord k id s p Hh) as (v & Hv & Hm).
  pose proof Hh as ((Hid & _) & Hun & _). rewrite gathered_step, Hm. cbn [fst snd collectMetadata].
  rewrite Hqa. unfold ParseID, valid. rewrite Hid. cbn [negb result_bind].
  rewrite Hqt, convertAttributes_strings by done. cbn [result_bind]. rewrite (stored_clean id s Hun), Hv. apply IH.
Qed.

Lemma runs_darwin_GetAllMetadata w : kept (passwords w) ->
  runs (GetAllMetadata status_code gob_encode gob_decode ValidString ord_item ord k) w (fun m w' =>
    passwords w' = passwords w /\ dom m = dom (content (passwords w)) /\
    forall id v, m !! id = Some v -> exists s, content (passwords w) !! id = Some s /\
      SetMetadata (factory k id) (Metadata s) = Ok v).
Proof.
  intros Hw. destruct (runs_QueryItem_all w Hw) as (results & w' & Hq & Hw' & found & Hp & HF).
  apply runs_bind. exists results, w'. split; [unfold mapped; unfold list_item in Hq; by rewrite Hq|].
  eapply runs_lift; [by apply collectMetadata_found|]. split; [done|].
  rewrite (right_id_L ∅ (∪)), (found_reads _ (passwords w)) by (done || apply pw_with_reads).
  assert (Hm : forall id v, gathered (pw_metadata gob_decode ord_item ord k) (map_to_list (passwords w)) !! id = Some v <->
    exists p s, passwords w !! store_key k id = Some p /\ holds id s p /\
      SetMetadata (factory k id) (Metadata s) = Ok v).
  { intros id v. rewrite (pw_gathered k) by apply pw_with_reads. split.
    - intros (p & Hpw & Hv). destruct (Hw id p Hpw) as [s Hs].
      destruct (pw_holds_metadata gob_encode gob_decode ValidString ord_item ord k id s p Hs) as (v' & Hv' & Hm).
      rewrite Hm in Hv. injection Hv as ->. eauto.
    - intros (p & s & Hpw & Hs & Hv). exists p. split; [done|].
      destruct (pw_holds_metadata gob_encode gob_decode ValidString ord_item ord k id s p Hs) as (v' & Hv' & Hm).
      congruence. }
  assert (Hc : forall id, match passwords w !! store_key k id with
    | Some p => exists s, holds id s p /\ content (passwords w) !! id = Some s
    | None => content (passwords w) !! id = None end) by (intros id; by apply darwin_content_lookup).
  split.
  - apply set_eq. intros id. rewrite !elem_of_dom. specialize (Hc id). split.
    + intros [v (p & s & Hpw & _)%Hm]. rewrite Hpw in Hc. destruct Hc as (s' & _ & ->). eauto.
    + intros [s Hs]. destruct (passwords w !! store_key k id) as [p|] eqn:Hpw; [|congruence].
      destruct Hc as (s' & Hh & _).
      destruct (pw_holds_metadata gob_encode gob_decode ValidString ord_item ord k id s' p Hh) as (v & Hv & _).
      exists v. apply Hm. eauto.
  - intros id v (p & s & Hpw & Hh & Hv)%Hm. specialize (Hc id). rewrite Hpw in Hc. destruct Hc as (s' & Hh' & Hc).
    assert (s = s') as <-; [|eauto].
    pose proof (pw_holds_secret gob_encode gob_decode ValidString ord_item ord k _ _ _ Hh).
    pose proof (pw_holds_secret gob_encode gob_decode ValidString ord_item ord k _ _ _ Hh'). congruence.
Qed.

Lemma runs_loadSecret id s p w : kept (passwords w) -> passwords w !! store_key k id = Some p -> holds id s p ->
  runs (loadSecret status_code gob_encode gob_decode ValidString ord_item k id (Metadata s)) w (fun r w' =>
    r = s /\ passwords w' = passwords w).
Proof.
  intros Hw Hp Hh. pose proof Hh as (Hid & _). pose proof (yields_held id w Hw Hid) as Hy. rewrite Hp in Hy.
  unfold yields in Hy. unfold runs, loadSecret, bind. destruct (getItemWithData _ _ _ _ _ _ _ w) as [r w'].
  cbn [fst snd] in Hy. destruct Hy as (Hw' & q & s' & -> & Hh' & Hqd & _).
  exists s, w'. unfold lift. rewrite Hqd. by destruct Hh as (_ & _ & _ & ->).
Qed.

Lemma runs_darwin_collectSecrets pattern results found acc w : kept (passwords w) ->
  Forall2 result_for results found -> Forall (fun kp => passwords w !! kp.1 = Some kp.2) found ->
  runs (collectSecrets status_code gob_encode gob_decode ValidString ord_item ord k pattern results acc) w
    (fun m w' => passwords w' = passwords w /\
       m = list_to_map (reverse (omap (selecting pattern (pw_secret gob_decode ord_item ord k)) found)) ∪ acc).
Proof.
  intros Hw HF. revert acc w Hw.
  induction HF as [|q [key p] results found (id & s & Hkey & Hh & Hqa & Hqt) _ IH]; intros acc w Hw Hin.
  { apply runs_ret. cbn. by rewrite (left_id_L ∅ (∪)). }
  apply list.Forall_cons in Hin as [Hp Hin]. cbn [fst snd] in *. subst key.
  pose proof (pw_holds_secret gob_encode gob_decode ValidString ord_item ord k _ _ _ Hh) as Hs.
  pose proof Hh as ((Hid & _) & Hun & _). rewrite gathered_step. unfold selecting at 2. rewrite Hs. cbn [mbind option_bind].
  cbn [collectSecrets]. rewrite Hqa. unfold ParseID, valid. rewrite Hid. cbn [negb].
  destruct (pattern_Match pattern id); cbn [negb fst snd]; [|by apply IH].
  rewrite Hqt. apply runs_bind. eapply runs_lift; [by apply convertAttributes_strings|]. cbv beta zeta.
  rewrite (stored_clean id s Hun). apply runs_bind. eapply runs_mono; [by apply (runs_loadSecret id s p w)|].
  cbv beta. intros r w1 [-> Hw1]. eapply runs_mono; [apply IH; rewrite Hw1; done|].
  cbv beta. rewrite Hw1. done.
Qed.

Lemma runs_darwin_Filter pattern w : kept (passwords w) ->
  runs (Filter status_code gob_encode gob_decode ValidString ord_item ord k pattern) w (fun m w' =>
    passwords w' = passwords w /\ m = matching pattern (content (passwords w))).
Proof.
  intros Hw. destruct (runs_QueryItem_all w Hw) as (results & w' & Hq & Hw' & found & Hp & HF).
  apply runs_bind. exists results, w'. split; [unfold mapped; unfold list_item in Hq; by rewrite Hq|].
  eapply runs_mono; [apply (runs_darwin_collectSecrets pattern results found)|].
  - by rewrite Hw'.
  - done.
  - rewrite Hw'. apply list.Forall_forall. intros kp Hin. rewrite Hp in Hin.
    apply list_elem_of_filter in Hin as [_ Hin]. destruct kp. by apply elem_of_map_to_list in Hin.
  - cbv beta. intros m w2 [-> ->]. split; [done|]. rewrite (right_id_L ∅ (∪)), (found_reads _ (passwords w)).
    + apply gathered_selecting; [apply NoDup_map_to_list|apply (pw_reads_apart k), pw_with_reads].
    + intros kp id v [Hs _]%selecting_Some. by eapply pw_with_reads.
    + done.
Qed.
End operations.

(** ** Properties *)


(** A store over an empty keychain, with a codec that knows one map. *)
Definition sample_darwin : keychainStore PassValue :=
  {| serviceGroup := "g"; serviceName := "n"; factory := PassValue_factory; useDataProtectionKeychain := true |}.
Definition sample_value : PassValue := {| pv_value := [Byte.x41]; pv_metadata := {["a" := "b"]} |}.
Definition sample_gob_encode (m : gmap string string) : result goerror bytes := Ok [Byte.x01].
Definition sample_gob_decode (b : bytes) : result goerror (gmap string ItemValue) :=
  Ok (IString <$> stored_metadata (fun l => l) sample_darwin "my/id" (pv_metadata sample_value)).

Lemma sample_usable : usable sample_gob_encode (fun _ => true) sample_darwin.
Proof. split; [done|]. split; [done|]. apply convertible_compute. vm_compute. reflexivity. Qed.

Lemma sample_nameable : nameable sample_gob_encode (fun _ => true) sample_darwin "my/id".
Proof. split; [reflexivity|]. apply convertible_compute. vm_compute. reflexivity. Qed.

Lemma sample_darwin_acceptable :
  darwin_acceptable sample_gob_encode sample_gob_decode (fun _ => true) (fun l => l) sample_darwin "my/id" sample_value.
Proof.
  split; [apply sample_nameable|]. split.
  - intros j v Hj. cbn in Hj. apply lookup_singleton_Some in Hj as [<- _]. reflexivity.
  - exists [Byte.x41], [Byte.x01]. split_and!; [reflexivity..|].
    apply convertible_compute. vm_compute. reflexivity.
Qed.

Lemma darwin_kept_empty {T} `{Store.Secret T} gob_encode gob_decode ValidString ord (k : keychainStore T) :
  darwin_kept gob_encode gob_decode ValidString ord k ∅.
Proof. intros id p Hp. by rewrite lookup_empty in Hp. Qed.


(** The macOS store is a machine over a map that does not overwrite. *)
Definition darwin_conventions (status_code : OSStatus -> Z) : conventions :=
  {| on_absent := ErrCredentialNotFound; on_no_listing := None; on_no_match := None;
     on_duplicate := Some (keychain_Error status_code errSecDuplicateItem) |}.

#[export] Instance darwin_machine {T W} `{Store.Secret T} `{GrantedKeychain W passwords}
    status_code gob_encode gob_decode ValidString ord_item `{!MapOrder ord_item} ord `{!MapOrder ord}
    (k : keychainStore T) (Hu : usable gob_encode ValidString k) :
  @StoreMachine W T (darwin_Store status_code gob_encode gob_decode ValidString ord_item ord k)
    (fun w => darwin_kept gob_encode gob_decode ValidString ord k (passwords w))
    (nameable gob_encode ValidString k) (darwin_acceptable gob_encode gob_decode ValidString ord k)
    (fun w => darwin_content gob_decode ord_item ord k (passwords w)) (darwin_conventions status_code).
Proof.
  split. intros call w Hk Hok.
  destruct call as [id|id| |id v|id v|pattern]; cbn [perform spec_perform permitted] in *.
  - destruct (runs_darwin_delete status_code gob_encode gob_decode ValidString ord_item ord k Hu id w Hk Hok)
      as (a & w' & Hd & Hw & Hv & _). cbn [store_Delete darwin_Store]. rewrite Hd. by rewrite <- Hv.
  - pose proof (yields_darwin_Get status_code gob_encode gob_decode ValidString ord_item ord k Hu id w Hk Hok) as Hy.
    unfold yields in Hy. cbn [store_Get darwin_Store]. destruct (Get _ _ _ _ _ _ _ _ w) as [x w'].
    cbn [fst snd] in Hy. destruct Hy as [Hp ->]. rewrite Hp. split; [done|]. by destruct (_ !! id).
  - destruct (runs_darwin_GetAllMetadata status_code gob_encode gob_decode ValidString ord_item ord k Hu w Hk)
      as (m & w' & Ha & Hp & Hd & _). cbn [store_GetAllMetadata darwin_Store]. rewrite Ha, Hp. cbn [reply_of].
    rewrite Hd. split; [done|]. unfold or_error. by case_bool_decide.
  - pose proof (yields_darwin_save status_code gob_encode gob_decode ValidString ord_item ord k Hu id v w Hk Hok) as Hy.
    unfold yields in Hy. cbn [store_Save darwin_Store]. destruct (Save _ _ _ _ _ _ _ _ w) as [x w'].
    cbn [fst snd on_duplicate darwin_conventions] in *. destruct Hy as [Hw Hy]. split; [done|].
    destruct (_ !! id); destruct Hy as [-> ->]; done.
  - destruct (runs_darwin_upsert status_code gob_encode gob_decode ValidString ord_item ord k Hu id v w Hk Hok)
      as (a & w' & Hd & Hw & Hv). cbn [store_Upsert darwin_Store]. rewrite Hd. by rewrite <- Hv.
  - destruct (runs_darwin_Filter status_code gob_encode gob_decode ValidString ord_item ord k Hu pattern w Hk)
      as (m & w' & Ha & Hp & ->). cbn [store_Filter darwin_Store]. rewrite Ha, Hp. cbn [reply_of].
    split; [done|]. unfold or_error. by case_bool_decide.
Qed.
