(* ===== verification/DateTime.v ===== *)
(** Package store/keychain/internal/go-keychain, datetime.go: the dates of
    keychain items, which CoreFoundation counts in floating-point seconds since
    2001, as Go times and back. The arithmetic is that of IEEE binary64. *)

From Stdlib Require Import Floats.SpecFloat.
From S2P Require Import Prelude.

#[local] Open Scope Z_scope.

(** ** Go's numbers *)

(** A [float64], also C's [double]. *)
Definition float64 : Type := spec_float.
Definition prec : Z := 53.
Definition emax : Z := 1024.

Definition wrap64 (z : Z) : Z := (z + 2 ^ 63) mod 2 ^ 64 - 2 ^ 63.

(** [float64(z)]: to nearest, ties to even. *)
Definition float64_of (z : Z) : float64 := binary_normalize prec emax z 0 false.

(** The integer towards zero of a finite number. *)
Definition truncated (f : float64) : Z :=
  match f with
  | S754_finite s m e => cond_Zopp s (if 0 <=? e then Z.shiftl (Zpos m) e else Z.shiftr (Zpos m) (- e))
  | _ => 0
  end.

(** [math.Modf]: the integer part and the fraction, both with the sign. *)
Definition Modf (f : float64) : float64 * float64 :=
  match f with
  | S754_finite s m e =>
      if 0 <=? e then (f, S754_zero s)
      else
        (binary_normalize prec emax (truncated f) 0 s,
         binary_normalize prec emax (cond_Zopp s (Z.land (Zpos m) (Z.ones (- e)))) e s)
  | S754_zero s => (f, f)
  | S754_infinity s => (f, S754_nan)
  | S754_nan => (f, f)
  end.

Section datetime.
(** [int64(f)] of a number that no [int64] is near: the language leaves it to
    the machine. *)
Context (int64_overflow : float64 -> Z).

Definition int64_of (f : float64) : Z :=
  match f with
  | S754_zero _ => 0
  | S754_finite _ _ _ =>
      let z := truncated f in
      if (- 2 ^ 63 <=? z) && (z <? 2 ^ 63) then z else int64_overflow f
  | _ => int64_overflow f
  end.

(** A [time.Time]: the seconds since 1970 and the nanoseconds. *)
Record Time : Type := { t_sec : Z; t_nsec : Z }.

(** [time.Unix] takes nanoseconds outside of a second too. *)
Definition time_Unix (sec nsec : Z) : Time :=
  if (nsec <? 0) || (1000000000 <=? nsec) then
    let n := Z.quot nsec 1000000000 in
    let sec := wrap64 (sec + n) in
    let nsec := nsec - n * 1000000000 in
    if nsec <? 0 then {| t_sec := wrap64 (sec - 1); t_nsec := nsec + 1000000000 |}
    else {| t_sec := sec; t_nsec := nsec |}
  else {| t_sec := sec; t_nsec := nsec |}.

(** ** datetime.go *)

Definition nsPerSec : Z := 1000 * 1000 * 1000.

(** [C.kCFAbsoluteTimeIntervalSince1970], a constant of CoreFoundation. *)
Definition absoluteTimeIntervalSince1970 : Z := 978307200.

Definition unixToAbsoluteTime (s ns : Z) : float64 :=
  let abs := wrap64 (s - absoluteTimeIntervalSince1970) in
  SFadd prec emax (float64_of abs) (SFdiv prec emax (float64_of ns) (float64_of nsPerSec)).

Definition absoluteTimeToUnix (abs : float64) : Z * Z :=
  let '(i, frac) := Modf abs in
  (wrap64 (int64_of i + absoluteTimeIntervalSince1970),
   int64_of (SFmul prec emax frac (float64_of nsPerSec))).

(** A [CFDateRef] is the number [CFDateCreate] was given. *)
Definition TimeToCFDate (t : Time) : float64 := unixToAbsoluteTime (t_sec t) (t_nsec t).

Definition CFDateToTime (d : float64) : Time :=
  let '(s, ns) := absoluteTimeToUnix d in time_Unix s ns.
End datetime.

(** The values of datetime_test.go. *)
Definition test_time : Time := {| t_sec := 1536818929; t_nsec := 123456789 |}.

Example TestTimeToCFDate : TimeToCFDate test_time =
  SFadd prec emax (float64_of 558511729) (SFdiv prec emax (float64_of 123456789) (float64_of 1000000000)).
Proof. vm_compute. reflexivity. Qed.

Example TestCFDateToTime : forall o,
  CFDateToTime o (TimeToCFDate test_time) = {| t_sec := 1536818929; t_nsec := 123456835 |}.
Proof. intros o. vm_compute. reflexivity. Qed.

(** Before 2001 the fraction is negative, and [time.Unix] borrows a second. *)
Example before_2001 : forall o,
  CFDateToTime o (TimeToCFDate {| t_sec := 0; t_nsec := 500000000 |}) = {| t_sec := 0; t_nsec := 500000000 |}.
Proof. intros o. vm_compute. reflexivity. Qed.

(** ** The arithmetic *)

(** A finite number as an integer, in units of the smallest positive one. *)
Definition scaled (f : float64) : Z :=
  match f with S754_finite s m e => cond_Zopp s (Zpos m * 2 ^ (e + 1074)) | _ => 0 end.

Definition digits (m : Z) : Z := Z.log2 m + 1.

(** A finite number of 53 digits, whose exponent is not less than [lo]. *)
Definition finite_from (lo : Z) (f : float64) : Prop :=
  match f with
  | S754_zero _ => True
  | S754_finite _ m e => digits (Zpos m) <= 53 /\ lo <= e
  | _ => False
  end.

Lemma digits2_digits p : Zpos (digits2_pos p) = digits (Zpos p).
Proof.
  unfold digits. induction p as [p IH|p IH|]; cbn [digits2_pos]; [..|done]; rewrite Pos2Z.inj_succ, IH.
  - rewrite (Pos2Z.inj_xI p), Z.log2_succ_double by done. lia.
  - rewrite (Pos2Z.inj_xO p), Z.log2_double by done. lia.
Qed.

Lemma digits_bounds m : 0 < m -> 0 < digits m /\ 2 ^ (digits m - 1) <= m < 2 ^ digits m.
Proof.
  intros Hm. unfold digits. pose proof (Z.log2_nonneg m). pose proof (Z.log2_spec m Hm) as [Hl Hu].
  rewrite Z.add_simpl_r. split; [lia|]. split; [done|]. by rewrite <- Z.add_1_r in Hu.
Qed.

Lemma digits_unique m d : 0 < d -> 2 ^ (d - 1) <= m < 2 ^ d -> digits m = d.
Proof.
  intros Hd [Hl Hu]. unfold digits. rewrite (Z.log2_unique m (d - 1)); [lia|lia|].
  split; [done|]. by replace (Z.succ (d - 1)) with d by lia.
Qed.

Lemma digits_shift m k : 0 < m -> 0 <= k -> digits (m * 2 ^ k) = digits m + k.
Proof. intros Hm Hk. unfold digits. rewrite Z.log2_mul_pow2 by lia. lia. Qed.

(** In the range of the normal numbers the exponent leaves 53 digits. *)
Lemma fexp_normal e : -1021 <= e -> fexp prec emax e = e - 53.
Proof. intros He. unfold fexp, emin, prec, emax. lia. Qed.

Lemma shr_1_half r : 0 <= shr_m r -> shr_m (shr_1 r) = shr_m r / 2.
Proof.
  destruct r as [m r s]. cbn [shr_m]. intros Hm. destruct m as [|[p|p|]|]; cbn; try done; try lia.
  - rewrite (Pos2Z.inj_xI p). by rewrite <- (Z.div_unique (2 * Z.pos p + 1) 2 (Z.pos p) 1) by lia.
  - rewrite (Pos2Z.inj_xO p). rewrite Z.mul_comm, Z.div_mul; lia.
Qed.

Lemma shr_iter n r : 0 <= shr_m r -> shr_m (SpecFloat.iter_pos shr_1 n r) = shr_m r / 2 ^ Zpos n.
Proof.
  revert r. induction n as [n IH|n IH|]; intros r Hr; cbn [SpecFloat.iter_pos].
  - pose proof (shr_1_half r Hr) as H1. assert (H0 : 0 <= shr_m (shr_1 r)) by (rewrite H1; by apply Z.div_pos).
    rewrite IH, IH, H1; [|done|rewrite IH by done; apply Z.div_pos; lia].
    rewrite !Z.div_div by lia. f_equal. rewrite <- !Z.pow_add_r by lia.
    change 2 with (2 ^ 1) at 1. rewrite <- Z.pow_add_r by lia. f_equal. lia.
  - rewrite IH, IH; [|done|rewrite IH by done; apply Z.div_pos; lia].
    rewrite Z.div_div by lia. f_equal. rewrite <- Z.pow_add_r by lia. f_equal. lia.
  - by apply shr_1_half.
Qed.

Lemma record_of_loc m l : shr_m (shr_record_of_loc m l) = m.
Proof. by destruct l as [|[]]. Qed.

(** The mantissa and the exponent that a shift leaves. *)
Lemma shr_fexp_normal m e l : 0 < m -> -1021 <= digits m + e ->
  let k := Z.max 0 (digits m - 53) in
  shr_m (shr_fexp prec emax m e l).1 = m / 2 ^ k /\ (shr_fexp prec emax m e l).2 = e + k /\
  (digits m <= 53 -> (shr_fexp prec emax m e l).1 = shr_record_of_loc m l).
Proof.
  intros Hm Hn k. assert (Hd : Zdigits2 m = digits m).
  { destruct m as [|p|p]; [lia| |lia]. cbn. apply digits2_digits. }
  unfold shr_fexp. rewrite Hd, fexp_normal by done.
  replace (digits m + e - 53 - e) with (digits m - 53) by lia.
  destruct (Z.leb_spec (digits m) 53) as [Hle|Hgt].
  - assert (Hk : k = 0) by (unfold k; lia). rewrite Hk, Z.pow_0_r, Z.div_1_r, Z.add_0_r.
    destruct (digits m - 53) as [|n|n] eqn:Hs; [|lia|]; cbn [shr fst snd]; by rewrite record_of_loc.
  - assert (Hk : k = digits m - 53) by (unfold k; lia). rewrite Hk.
    destruct (digits m - 53) as [|n|n] eqn:Hs; [lia| |lia]. cbn [shr fst snd].
    split; [|split; [done|lia]]. rewrite shr_iter; rewrite record_of_loc; [done|lia].
Qed.

(** Rounding: the mantissa is cut to 53 digits and goes up by at most one. *)
Lemma round_normal s m e l : 0 < m -> -1021 <= digits m + e <= 1023 -> -1074 <= e <= 970 ->
  let k := Z.max 0 (digits m - 53) in
  exists mx, m / 2 ^ k <= mx <= m / 2 ^ k + 1 /\ (digits m <= 53 -> l = loc_Exact -> mx = m) /\
    finite_from e (binary_round_aux prec emax s m e l) /\
    scaled (binary_round_aux prec emax s m e l) = cond_Zopp s (mx * 2 ^ (e + k + 1074)).
Proof.
  intros Hm Hr He k. destruct (shr_fexp_normal m e l Hm ltac:(lia)) as (Hq & He1 & Hexact). fold k in Hq, He1.
  unfold binary_round_aux. destruct (shr_fexp prec emax m e l) as [r e1]. cbn [fst snd] in *. subst e1.
  set (q := m / 2 ^ k) in *.
  set (mx := round_nearest_even (shr_m r) (loc_of_shr_record r)).
  assert (Hk : 0 <= k) by (unfold k; lia).
  assert (Hq1 : 2 ^ (digits m - k - 1) <= q < 2 ^ (digits m - k)).
  { destruct (digits_bounds m Hm) as (Hd & Hlo & Hhi). unfold q. pose proof (Z.pow_pos_nonneg 2 k). split.
    - apply Z.div_le_lower_bound; [lia|]. rewrite <- Z.pow_add_r by (unfold k; lia).
      by replace (k + (digits m - k - 1)) with (digits m - 1) by lia.
    - apply Z.div_lt_upper_bound; [lia|]. rewrite <- Z.pow_add_r by (unfold k; lia).
      by replace (k + (digits m - k)) with (digits m) by lia. }
  assert (Hmx : q <= mx <= q + 1).
  { unfold mx, round_nearest_even. rewrite Hq. destruct (loc_of_shr_record r) as [|[]]; try destruct (Z.even q); lia. }
  exists mx. split; [done|]. split.
  { intros Hd ->. unfold mx. rewrite Hexact by done. cbn. done. }
  assert (Hq0 : 1 <= q).
  { destruct (digits_bounds m Hm) as (Hd & _). pose proof (Z.pow_pos_nonneg 2 (digits m - k - 1)). unfold k in *. lia. }
  assert (Hd53 : digits m - k <= 53) by (unfold k; lia).
  assert (Hmx53 : mx <= 2 ^ 53).
  { pose proof (Z.pow_le_mono_r 2 (digits m - k) 53). lia. }
  assert (Hdx : 1 <= digits mx <= 54 /\ (digits mx = 54 -> mx = 2 ^ 53)).
  { destruct (digits_bounds mx ltac:(lia)) as (Hdp & Hlo & Hhi). split; [split; [lia|]|].
    - destruct (Z.le_gt_cases (digits mx) 54) as [|Hgt]; [done|].
      pose proof (Z.pow_le_mono_r 2 54 (digits mx - 1)). lia.
    - intros H54. rewrite H54 in Hlo. change (54 - 1) with 53 in Hlo. lia. }
  assert (Hdq : digits m - k <= digits mx).
  { rewrite <- (digits_unique q (digits m - k)) by (destruct (digits_bounds m Hm); unfold k in *; lia).
    unfold digits. pose proof (Z.log2_le_mono q mx). lia. }
  destruct (shr_fexp_normal mx (e + k) loc_Exact ltac:(lia) ltac:(lia)) as (Hm2 & He2 & _).
  destruct (shr_fexp prec emax mx (e + k) loc_Exact) as [r2 e2]. cbn [fst snd] in Hm2, He2.
  set (k2 := Z.max 0 (digits mx - 53)) in *.
  assert (Hback : mx / 2 ^ k2 * 2 ^ k2 = mx /\ 0 < mx / 2 ^ k2).
  { destruct (Z.eq_dec k2 0) as [->|Hk2]; [rewrite Z.pow_0_r, Z.div_1_r; lia|].
    assert (H54 : digits mx = 54) by lia. assert (k2 = 1) as -> by lia.
    rewrite (proj2 Hdx H54). split; reflexivity. }
  rewrite Hm2. destruct (mx / 2 ^ k2) as [|p|p] eqn:Hp; [lia| |lia].
  assert (Hfin : (e2 <=? emax - prec) = true).
  { apply Z.leb_le. unfold emax, prec. subst e2. unfold k2, k in *. lia. }
  rewrite Hfin. split.
  { cbn. split; [|unfold k, k2 in *; lia]. rewrite <- (Z.add_simpl_r (digits (Zpos p)) k2).
    rewrite <- digits_shift by lia. rewrite (proj1 Hback). unfold k2. lia. }
  cbn [scaled]. f_equal. rewrite He2. rewrite <- (proj1 Hback) at 1.
  rewrite <- Z.mul_assoc, <- Z.pow_add_r by lia. f_equal. f_equal. lia.
Qed.

Lemma finite_from_mono lo lo' f : lo' <= lo -> finite_from lo f -> finite_from lo' f.
Proof. destruct f; cbn; try done. intros ? [? ?]. split; [done|lia]. Qed.

Lemma iter_xO m d : Zpos (Pos.iter xO m d) = Zpos m * 2 ^ Zpos d.
Proof.
  induction d as [|d IH] using Pos.peano_ind; [cbn; lia|].
  rewrite Pos.iter_succ, Pos2Z.inj_succ, Z.pow_succ_r by lia. rewrite (Pos2Z.inj_xO _). lia.
Qed.

Lemma round_pos s m e : -1021 <= digits (Zpos m) + e <= 1023 -> -1074 <= e ->
  let k := Z.max 0 (digits (Zpos m) - 53) in
  exists mx, Zpos m / 2 ^ k <= mx <= Zpos m / 2 ^ k + 1 /\ (digits (Zpos m) <= 53 -> mx = Zpos m) /\
    finite_from (e - 53) (binary_round prec emax s m e) /\
    scaled (binary_round prec emax s m e) = cond_Zopp s (mx * 2 ^ (e + k + 1074)).
Proof.
  intros Hr He k. unfold binary_round. rewrite digits2_digits, fexp_normal by lia.
  unfold shl_align. replace (digits (Zpos m) + e - 53 - e) with (digits (Zpos m) - 53) by lia.
  pose proof (digits_bounds (Zpos m) ltac:(lia)) as (Hd & _).
  destruct (digits (Zpos m) - 53) as [|n|n] eqn:Hn.
  1, 2: replace k with (Z.max 0 (digits (Zpos m) - 53)) by (unfold k; lia);
    destruct (round_normal s (Zpos m) e loc_Exact) as (mx & Hmx & Hx & Hf & Hs); [lia..|];
    exists mx; (split; [done|]); (split; [intros; by apply Hx|]); (split; [|done]); eapply finite_from_mono; [|exact Hf]; lia.
  assert (Hk : k = 0) by (unfold k; lia). rewrite Hk, Z.pow_0_r, Z.div_1_r, Z.add_0_r.
  assert (Hm' : digits (Zpos (Pos.iter xO m n)) = 53) by (rewrite iter_xO, digits_shift by lia; lia).
  destruct (round_normal s (Zpos (Pos.iter xO m n)) (digits (Zpos m) + e - 53) loc_Exact)
    as (mx & _ & Hx & Hf & Hs); [lia..|].
  rewrite Hm' in Hx, Hs. rewrite Hx in Hs by done. exists (Zpos m). split; [lia|]. split; [done|].
  split; [eapply finite_from_mono; [|exact Hf]; lia|]. rewrite Hs, iter_xO. f_equal. rewrite <- Z.mul_assoc, <- Z.pow_add_r by lia.
  f_equal. f_equal. cbn. lia.
Qed.

Lemma cut_error m k mx : 0 <= k -> m / 2 ^ k <= mx <= m / 2 ^ k + 1 -> - 2 ^ k <= mx * 2 ^ k - m <= 2 ^ k.
Proof.
  intros Hk Hmx. pose proof (Z.pow_pos_nonneg 2 k ltac:(lia) Hk) as Hp.
  pose proof (Z.mul_div_le m (2 ^ k) Hp). pose proof (Z.mul_succ_div_gt m (2 ^ k) Hp). nia.
Qed.

(** What a number is worth, with the error of its rounding: none up to 53
    digits, less than the last of 53 digits beyond. *)
Lemma normalize_error z e s0 :
  (z <> 0 -> -1021 <= digits (Z.abs z) + e <= 1023) -> -1074 <= e ->
  finite_from (e - 53) (binary_normalize prec emax z e s0) /\
  (digits (Z.abs z) <= 53 -> scaled (binary_normalize prec emax z e s0) = z * 2 ^ (e + 1074)) /\
  Z.abs (scaled (binary_normalize prec emax z e s0) - z * 2 ^ (e + 1074)) <=
    2 ^ (e + Z.max 0 (digits (Z.abs z) - 53) + 1074).
Proof.
  intros Hr He. destruct (Z.eq_dec z 0) as [->|Hz].
  { cbn. split; [done|]. split; [done|]. apply Z.pow_nonneg. lia. }
  specialize (Hr Hz).
  assert (Hp : exists s m, z = cond_Zopp s (Zpos m) /\ Z.abs z = Zpos m /\
    binary_normalize prec emax z e s0 = binary_round prec emax s m e).
  { destruct z as [|m|m]; [done|by exists false, m|by exists true, m]. }
  destruct Hp as (s & m & Heq & Habs & ->). rewrite Habs in Hr |- *. rewrite Heq.
  destruct (round_pos s m e Hr He) as (mx & Hmx & Hx & Hf & Hs).
  rewrite Hs. set (j := Z.max 0 (digits (Zpos m) - 53)) in *. split; [done|]. split.
  - intros Hd. assert (Hj : j = 0) by (unfold j; lia). rewrite Hx, Hj, Z.add_0_r by done.
    destruct s; cbn [cond_Zopp]; lia.
  - replace (e + j + 1074) with (j + (e + 1074)) by lia. rewrite Z.pow_add_r by (unfold j; lia).
    pose proof (Z.pow_nonneg 2 (e + 1074) ltac:(lia)). pose proof (cut_error (Zpos m) j mx ltac:(unfold j; lia) Hmx) as Hb.
    generalize dependent (2 ^ (e + 1074)). intros E HE. clear -Hb HE.
    set (P := 2 ^ j) in *. clearbody P. pose proof (Zmult_le_compat_r _ _ E (proj1 Hb) HE).
    pose proof (Zmult_le_compat_r _ _ E (proj2 Hb) HE). destruct s; cbn [cond_Zopp]; apply Z.abs_le; lia.
Qed.

(** Seconds in the unit of [scaled]. *)
Definition second : Z := 2 ^ 1074.

Lemma second_pos : 0 < second.
Proof. unfold second. apply Z.pow_pos_nonneg; lia. Qed.

Lemma pow_scale e : 0 <= e + 1074 -> 0 <= e -> 2 ^ (e + 1074) = 2 ^ e * second.
Proof. intros. unfold second. by apply Z.pow_add_r. Qed.

(** A number below a power of two has no more digits. *)
Lemma digits_le m d : 0 < m -> 0 <= d -> m < 2 ^ d -> digits m <= d.
Proof.
  intros Hm Hd Hlt. destruct (digits_bounds m Hm) as (_ & Hlo & _).
  destruct (Z.le_gt_cases (digits m) d) as [|Hgt]; [done|].
  pose proof (Z.pow_le_mono_r 2 d (digits m - 1)). lia.
Qed.

Lemma digits_scaled_le m e b : 0 < m -> -1074 <= e -> 0 <= b + 1074 -> m * 2 ^ (e + 1074) < 2 ^ (b + 1074) ->
  digits m + e <= b.
Proof.
  intros Hm He Hb Hlt. pose proof (digits_le (m * 2 ^ (e + 1074)) (b + 1074)) as Hd.
  rewrite digits_shift in Hd by lia. pose proof (Z.pow_pos_nonneg 2 (e + 1074)). nia.
Qed.

Lemma float64_of_exact z : Z.abs z < 2 ^ 53 ->
  finite_from (-53) (float64_of z) /\ scaled (float64_of z) = z * second.
Proof.
  intros Hz. destruct (Z.eq_dec z 0) as [->|Hn]; [done|].
  assert (Hd : 1 <= digits (Z.abs z) <= 53).
  { destruct (digits_bounds (Z.abs z) ltac:(lia)) as (? & _). split; [lia|]. apply digits_le; lia. }
  destruct (normalize_error z 0 false) as (Hf & Hs & _); [lia..|]. split; [exact Hf|]. apply Hs. lia.
Qed.

(** The integer part of a finite number. *)
Lemma truncated_scaled lo f : -1074 <= lo -> finite_from lo f -> truncated f = Z.quot (scaled f) second.
Proof.
  intros Hlo Hf. destruct f as [s|s| |s m e]; [done|done|done|]. destruct Hf as [_ He]. unfold truncated, scaled.
  assert (Hpos : (if 0 <=? e then Z.shiftl (Zpos m) e else Z.shiftr (Zpos m) (- e)) =
    Z.quot (Zpos m * 2 ^ (e + 1074)) second).
  { pose proof second_pos. destruct (Z.leb_spec 0 e).
    - rewrite Z.shiftl_mul_pow2, pow_scale, Z.mul_assoc, Z.quot_mul by lia. done.
    - rewrite Z.shiftr_div_pow2 by lia. rewrite Z.quot_div_nonneg by (try lia; pose proof (Z.pow_nonneg 2 (e + 1074)); nia).
      unfold second. replace 1074 with (- e + (e + 1074)) at 2 by lia. rewrite (Z.pow_add_r 2 (- e)) by lia.
      rewrite Z.div_mul_cancel_r; [done|..]; apply Z.pow_nonzero; lia. }
  rewrite Hpos. destruct s; cbn [cond_Zopp]; [|done]. rewrite Z.quot_opp_l; [done|].
  pose proof second_pos. lia.
Qed.

Lemma quot_close a : Z.abs (Z.quot a second * second - a) < second.
Proof.
  pose proof second_pos as Hp. pose proof (Z.quot_rem' a second) as Hq.
  pose proof (Z.rem_bound_abs a second ltac:(lia)) as Hr. lia.
Qed.

(** The sum of two numbers is off by less than the last of its 53 digits. *)
Lemma add_error lo b x y : -1000 <= lo -> b <= 1023 -> lo <= b -> finite_from lo x -> finite_from lo y ->
  Z.abs (scaled x + scaled y) < 2 ^ (b + 1074) ->
  finite_from (lo - 53) (SFadd prec emax x y) /\
  Z.abs (scaled (SFadd prec emax x y) - (scaled x + scaled y)) <= 2 ^ (b + 1021).
Proof.
  intros Hlo Hb Hlob Hx Hy Hlt. assert (Hnn : 0 <= 2 ^ (b + 1021)) by (apply Z.pow_nonneg; lia).
  destruct x as [sx|sx| |sx mx ex]; try done; destruct y as [sy|sy| |sy my ey]; try done.
  - cbn. split; [by destruct sx, sy|]. by destruct sx, sy.
  - cbn [SFadd scaled]. split; [eapply finite_from_mono; [|exact Hy]; lia|].
    rewrite Z.add_0_l, Z.sub_diag. cbn. lia.
  - cbn [SFadd scaled]. split; [eapply finite_from_mono; [|exact Hx]; lia|].
    rewrite Z.add_0_r, Z.sub_diag. cbn. lia.
  - destruct Hx as [_ Hex], Hy as [_ Hey]. cbn [SFadd].
    assert (Hal : forall m e ez, ez <= e -> Zpos (shl_align m e ez).1 = Zpos m * 2 ^ (e - ez)).
    { intros m e ez Hle. unfold shl_align. destruct (ez - e) as [|n|n] eqn:Hn; [|lia|].
      - assert (e - ez = 0) as -> by lia. cbn. lia.
      - cbn [fst]. rewrite iter_xO. f_equal. f_equal. lia. }
    rewrite !Hal by lia. set (ez := Z.min ex ey). set (z := cond_Zopp sx _ + cond_Zopp sy _).
    assert (Hz : scaled (S754_finite sx mx ex) + scaled (S754_finite sy my ey) = z * 2 ^ (ez + 1074)).
    { cbn [scaled]. unfold z. replace (ex + 1074) with (ex - ez + (ez + 1074)) by lia.
      replace (ey + 1074) with (ey - ez + (ez + 1074)) by lia.
      rewrite (Z.pow_add_r 2 (ex - ez)), (Z.pow_add_r 2 (ey - ez)) by (unfold ez; lia).
      generalize (2 ^ (ez + 1074)). intros u. destruct sx, sy; cbn [cond_Zopp]; lia. }
    rewrite Hz in Hlt |- *. assert (Hez : lo <= ez) by (unfold ez; lia).
    assert (Hdig : z <> 0 -> 1 <= digits (Z.abs z) /\ digits (Z.abs z) + ez <= b).
    { intros Hz0. destruct (digits_bounds (Z.abs z) ltac:(lia)) as (? & _). split; [lia|].
      apply digits_scaled_le; [lia..|]. rewrite Z.abs_mul in Hlt.
      by rewrite (Z.abs_eq (2 ^ (ez + 1074))) in Hlt by (apply Z.pow_nonneg; lia). }
    destruct (normalize_error z ez false) as (Hf & Hexact & Herr);
      [intros Hz0; destruct (Hdig Hz0); lia|lia|].
    split; [eapply finite_from_mono; [|exact Hf]; lia|].
    destruct (Z.le_gt_cases (digits (Z.abs z)) 53) as [Hle|Hgt]; [by rewrite Hexact, Z.sub_diag|].
    etrans; [exact Herr|]. apply Z.pow_le_mono_r; [lia|].
    assert (Hz0 : z <> 0) by (intros Hz0; rewrite Hz0 in Hgt; vm_compute in Hgt; discriminate). destruct (Hdig Hz0). lia.
Qed.

(** The fraction of a second that nanoseconds are. *)
Lemma div_error ns : 0 <= ns < 1000000000 ->
  let f := SFdiv prec emax (float64_of ns) (float64_of nsPerSec) in
  finite_from (-140) f /\ 0 <= scaled f /\
  Z.abs (scaled f * 1000000000 - ns * second) <= 3000000000 * 2 ^ (1074 - 53).
Proof.
  intros Hns. destruct (Z.eq_dec ns 0) as [->|Hn0]; [cbn; split_and!; try done; lia|].
  destruct (float64_of_exact ns ltac:(lia)) as [Hf Hs].
  destruct (digits_bounds ns ltac:(lia)) as (Hdp & Hlo & Hhi).
  assert (Hdn : digits ns <= 30) by (apply digits_le; lia).
  assert (H2 : float64_of nsPerSec = S754_finite false 8388608000000000 (-23)) by reflexivity.
  rewrite H2. destruct (float64_of ns) as [s|s| |s m e]; [|done|done|].
  { cbn in Hs. pose proof second_pos. nia. }
  destruct Hf as [Hdm He]. cbn [scaled] in Hs. unfold second in Hs.
  assert (Hsgn : s = false).
  { destruct s; [|done]. cbn [cond_Zopp] in Hs. pose proof (Z.pow_pos_nonneg 2 (e + 1074)).
    pose proof second_pos. unfold second in *. nia. }
  subst s. cbn [cond_Zopp] in Hs.
  assert (Hde : digits (Zpos m) + e = digits ns).
  { assert (Hd : digits (Zpos m * 2 ^ (e + 1074)) = digits (ns * 2 ^ 1074)) by by rewrite Hs.
    rewrite !digits_shift in Hd by lia. lia. }
  cbn [SFdiv]. unfold SFdiv_core_binary. cbn [Zdigits2]. rewrite !digits2_digits.
  assert (He' : Z.min (fexp prec emax (digits (Zpos m) + e - (digits 8388608000000000 + -23))) (e - -23) =
    digits ns - 83).
  { rewrite Hde. change (digits 8388608000000000) with 53. rewrite fexp_normal by lia. lia. }
  rewrite !He'. destruct (e - -23 - (digits ns - 83)) as [|sh|sh] eqn:Hsh; [lia| |lia].
  pose proof (Z_div_mod (Z.shiftl (Zpos m) (Zpos sh)) 8388608000000000 ltac:(lia)) as Hdm'.
  destruct (Z.div_eucl (Z.shiftl (Zpos m) (Zpos sh)) 8388608000000000) as [q r]. destruct Hdm' as [Hq Hr].
  rewrite Z.shiftl_mul_pow2 in Hq by lia. cbn beta iota delta [xorb].
  (** the mantissa of the numerator, in the unit of the quotient *)
  set (e' := digits ns - 83) in *.
  assert (Hnum : Zpos m * 2 ^ Zpos sh * 2 ^ (e' + 1074 - 23) = ns * 2 ^ 1074).
  { rewrite <- Hs, <- Z.mul_assoc, <- Z.pow_add_r by lia. do 2 f_equal. lia. }
  assert (Hnum' : Zpos m * 2 ^ Zpos sh = ns * 2 ^ (23 - e')).
  { apply (Z.mul_reg_r _ _ (2 ^ (e' + 1074 - 23))); [apply Z.pow_nonzero; lia|].
    rewrite Hnum, <- Z.mul_assoc, <- Z.pow_add_r by lia. do 2 f_equal. lia. }
  assert (Hq53 : 2 ^ 52 <= q < 2 ^ 54).
  { rewrite Hnum' in Hq. assert (Hb : 2 ^ 105 <= ns * 2 ^ (23 - e') < 2 ^ 106).
    { replace 105 with (digits ns - 1 + (23 - e')) by lia. replace 106 with (digits ns + (23 - e')) by lia.
      rewrite !Z.pow_add_r by lia. pose proof (Z.pow_pos_nonneg 2 (23 - e')). nia. }
    lia. }
  assert (Hdq : 53 <= digits q <= 54).
  { destruct (digits_bounds q ltac:(lia)) as (Hqp & Hql & Hqh). split.
    - destruct (Z.le_gt_cases 53 (digits q)) as [|Hlt]; [done|].
      pose proof (Z.pow_le_mono_r 2 (digits q) 52). lia.
    - apply digits_le; lia. }
  destruct (round_normal false q e' (new_location 8388608000000000 r)) as (mx & Hmx & _ & Hf & Hsc); [lia..|].
  split; [eapply finite_from_mono; [|exact Hf]; lia|]. rewrite Hsc. cbn [cond_Zopp].
  set (k := Z.max 0 (digits q - 53)) in *.
  assert (Hmq : - 2 <= mx * 2 ^ k - q <= 2 /\ 0 <= mx).
  { pose proof (cut_error q k mx ltac:(lia) Hmx). pose proof (Z.pow_le_mono_r 2 k 1).
    pose proof (Z.div_pos q (2 ^ k) ltac:(lia) ltac:(apply Z.pow_pos_nonneg; lia)). lia. }
  split; [apply Z.mul_nonneg_nonneg; [lia|apply Z.pow_nonneg; lia]|].
  unfold second. rewrite <- Hnum.
  replace (e' + k + 1074) with (k + (e' + 1074)) by lia. rewrite (Z.pow_add_r 2 k) by lia.
  replace (e' + 1074) with (23 + (e' + 1074 - 23)) at 1 by lia. rewrite (Z.pow_add_r 2 23) by lia.
  set (u := 2 ^ (e' + 1074 - 23)) in *.
  assert (Hu : 0 <= u /\ 8388608 * u <= 2 ^ (1074 - 53)).
  { unfold u. split; [apply Z.pow_nonneg; lia|]. change 8388608 with (2 ^ 23).
    rewrite <- Z.pow_add_r by lia. apply Z.pow_le_mono_r; lia. }
  rewrite Hq. change (2 ^ 23) with 8388608. apply Z.abs_le. nia.
Qed.

(** [Modf] splits a number without loss. *)
Lemma Modf_exact lo f : -900 <= lo -> finite_from lo f -> Z.abs (scaled f) < 2 ^ (1074 + 52) ->
  let '(i, fr) := Modf f in
  finite_from (-900) i /\ scaled i = truncated f * second /\
  finite_from (lo - 53) fr /\ scaled i + scaled fr = scaled f.
Proof.
  intros Hlo Hf Hlt. pose proof (truncated_scaled lo f ltac:(lia) Hf) as Ht.
  destruct f as [s|s| |s m e]; [by cbn|done|done|]. destruct Hf as [Hd He]. cbn [Modf].
  assert (Hm53 : Zpos m < 2 ^ 53).
  { destruct (digits_bounds (Zpos m) ltac:(lia)) as (_ & _ & Hh).
    pose proof (Z.pow_le_mono_r 2 (digits (Zpos m)) 53). lia. }
  destruct (Z.leb_spec 0 e) as [He0|He0].
  - cbn [scaled finite_from]. split; [split; [done|lia]|].
    assert (Hs : cond_Zopp s (Zpos m * 2 ^ (e + 1074)) = truncated (S754_finite s m e) * second).
    { unfold truncated. rewrite (proj2 (Z.leb_le 0 e) He0), Z.shiftl_mul_pow2, pow_scale by lia.
      destruct s; cbn [cond_Zopp]; lia. }
    split; [done|]. split; [done|]. lia.
  - set (t := truncated (S754_finite s m e)) in *.
    assert (Hlow : Z.land (Zpos m) (Z.ones (- e)) = Zpos m mod 2 ^ (- e)) by (apply Z.land_ones; lia).
    assert (Htm : t = cond_Zopp s (Zpos m / 2 ^ (- e))).
    { unfold t, truncated. destruct (Z.leb_spec 0 e); [lia|]. rewrite Z.shiftr_div_pow2 by lia. done. }
    rewrite Hlow. pose proof (Z.pow_pos_nonneg 2 (- e) ltac:(lia) ltac:(lia)) as Hp.
    pose proof (Z.div_mod (Zpos m) (2 ^ (- e)) ltac:(lia)) as Hdm.
    pose proof (Z.mod_pos_bound (Zpos m) (2 ^ (- e)) Hp) as Hr. set (r := Zpos m mod 2 ^ (- e)) in *.
    assert (Hq0 : 0 <= Zpos m / 2 ^ (- e)) by (apply Z.div_pos; lia).
    assert (Hsmall : forall z, Z.abs z < 2 ^ 53 -> z <> 0 -> 1 <= digits (Z.abs z) <= 53).
    { intros z Hz Hz0. destruct (digits_bounds (Z.abs z) ltac:(lia)) as (? & _). split; [lia|]. apply digits_le; lia. }
    assert (Hle53 : forall z, Z.abs z < 2 ^ 53 -> digits (Z.abs z) <= 53).
    { intros z Hz. destruct (Z.eq_dec z 0) as [->|Hz0]; [by vm_compute|by apply Hsmall]. }
    assert (Ht53 : Z.abs t < 2 ^ 53).
    { rewrite Htm. assert (Zpos m / 2 ^ (- e) <= Zpos m) by nia. destruct s; cbn [cond_Zopp]; lia. }
    assert (Hr53 : Z.abs (cond_Zopp s r) < 2 ^ 53) by (destruct s; cbn [cond_Zopp]; nia).
    destruct (normalize_error t 0 s) as (Hfi & Hsi & _); [intros; pose proof (Hsmall t); lia|lia|].
    destruct (normalize_error (cond_Zopp s r) e s) as (Hff & Hsf & _);
      [intros; pose proof (Hsmall (cond_Zopp s r)); lia|lia|].
    specialize (Hsi (Hle53 _ Ht53)). specialize (Hsf (Hle53 _ Hr53)).
    split; [eapply finite_from_mono; [|exact Hfi]; lia|].
    split; [rewrite Hsi; unfold second; f_equal|].
    split; [eapply finite_from_mono; [|exact Hff]; lia|].
    rewrite Hsi, Hsf. cbn [scaled]. rewrite Htm. replace (0 + 1074) with (- e + (e + 1074)) by lia.
    rewrite (Z.pow_add_r 2 (- e)) by lia. generalize (2 ^ (e + 1074)). intros u.
    set (Q := Zpos m / 2 ^ (- e)) in *. set (P := 2 ^ (- e)) in *.
    replace (Zpos m * u) with ((P * Q + r) * u) by lia. destruct s; cbn [cond_Zopp]; ring.
Qed.

(** Nanoseconds out of a fraction of a second. *)
Lemma mul_error lo fr : -900 <= lo -> finite_from lo fr -> Z.abs (scaled fr) < second ->
  let f := SFmul prec emax fr (float64_of nsPerSec) in
  finite_from (lo - 23) f /\ Z.abs (scaled f - scaled fr * 1000000000) <= 2 ^ (30 + 1021).
Proof.
  intros Hlo Hf Hlt. assert (H2 : float64_of nsPerSec = S754_finite false 8388608000000000 (-23)) by reflexivity.
  rewrite H2. destruct fr as [s|s| |s m e]; [|done|done|].
  { cbn [SFmul finite_from scaled]. split; [done|]. cbn. apply Z.pow_nonneg. lia. }
  destruct Hf as [Hd He]. cbn [SFmul]. rewrite xorb_false_r, Pos2Z.inj_mul.
  set (m2 := Zpos m * 8388608000000000). set (e2 := e + -23).
  assert (Hprod : m2 * 2 ^ (e2 + 1074) = Zpos m * 2 ^ (e + 1074) * 1000000000).
  { unfold m2, e2. replace (e + 1074) with (23 + (e + -23 + 1074)) by lia. rewrite (Z.pow_add_r 2 23) by lia.
    change (2 ^ 23) with 8388608. lia. }
  cbn [scaled] in Hlt. assert (Habs : Zpos m * 2 ^ (e + 1074) < second).
  { destruct s; cbn [cond_Zopp] in Hlt; lia. }
  assert (Hdig : digits m2 + e2 <= 30).
  { apply digits_scaled_le; [lia..|]. rewrite Hprod. unfold second in Habs.
    rewrite (Z.pow_add_r 2 30 1074) by lia. change (2 ^ 30) with 1073741824.
    generalize dependent (2 ^ 1074). intros. lia. }
  destruct (digits_bounds m2 ltac:(lia)) as (Hdp & _).
  destruct (round_normal s m2 e2 loc_Exact) as (mx & Hmx & Hx & Hff & Hsc); [lia..|].
  split; [eapply finite_from_mono; [|exact Hff]; lia|]. rewrite Hsc. cbn [scaled].
  set (k := Z.max 0 (digits m2 - 53)) in *.
  assert (Hdiff : Z.abs (mx * 2 ^ (e2 + k + 1074) - m2 * 2 ^ (e2 + 1074)) <= 2 ^ (30 + 1021)).
  { destruct (Z.le_gt_cases (digits m2) 53) as [Hle|Hgt].
    - assert (Hk : k = 0) by lia. rewrite Hx, Hk, Z.add_0_r, Z.sub_diag by done. by apply Z.pow_nonneg.
    - pose proof (cut_error m2 k mx ltac:(lia) Hmx) as Hb.
      replace (e2 + k + 1074) with (k + (e2 + 1074)) by lia. rewrite Z.pow_add_r by lia.
      assert (Hk : 2 ^ k * 2 ^ (e2 + 1074) <= 2 ^ (30 + 1021)).
      { rewrite <- Z.pow_add_r by lia. apply Z.pow_le_mono_r; lia. }
      pose proof (Z.pow_nonneg 2 (e2 + 1074) ltac:(lia)). apply Z.abs_le. nia. }
  rewrite Hprod in Hdiff. destruct s; cbn [cond_Zopp]; lia.
Qed.

(** ** Properties *)

Section roundtrip.
Context (int64_overflow : float64 -> Z).

Lemma int64_of_scaled lo f : -1074 <= lo -> finite_from lo f -> Z.abs (Z.quot (scaled f) second) < 2 ^ 63 ->
  int64_of int64_overflow f = Z.quot (scaled f) second.
Proof.
  intros Hlo Hf Hb. rewrite <- (truncated_scaled lo f Hlo Hf) in *.
  destruct f as [s|s| |s m e]; [done|done|done|]. unfold int64_of. set (z := truncated _) in *.
  destruct (Z.leb_spec (- 2 ^ 63) z), (Z.ltb_spec z (2 ^ 63)); cbn [andb]; lia.
Qed.

(** A date in nanoseconds. *)
Definition nanoseconds (t : Time) : Z := t_sec t * 1000000000 + t_nsec t.

Lemma wrap64_id z : - 2 ^ 63 <= z < 2 ^ 63 -> wrap64 z = z.
Proof. intros Hz. unfold wrap64. rewrite Z.mod_small by lia. lia. Qed.

Lemma time_Unix_nanoseconds s ns : Z.abs s < 2 ^ 62 -> Z.abs ns < 2 ^ 62 ->
  nanoseconds (time_Unix s ns) = s * 1000000000 + ns /\ 0 <= t_nsec (time_Unix s ns) < 1000000000.
Proof.
  intros Hs Hns. unfold time_Unix.
  destruct (Z.ltb_spec ns 0), (Z.leb_spec 1000000000 ns); cbn [orb]; try (unfold nanoseconds; cbn; lia).
  all: pose proof (Z.quot_rem' ns 1000000000) as Hq;
    pose proof (Z.rem_bound_abs ns 1000000000 ltac:(lia)) as Hr;
    pose proof (Z.rem_sign_nz ns 1000000000) as Hsg.
  all: destruct (Z.ltb_spec (ns - Z.quot ns 1000000000 * 1000000000) 0);
    unfold nanoseconds; cbn [t_sec t_nsec]; rewrite !wrap64_id by (rewrite ?wrap64_id; lia); lia.
Qed.

Lemma TimeToCFDate_error t : Z.abs (t_sec t - absoluteTimeIntervalSince1970) < 2 ^ 32 ->
  0 <= t_nsec t < 1000000000 ->
  let d := t_sec t - absoluteTimeIntervalSince1970 in
  finite_from (-193) (TimeToCFDate t) /\ Z.abs (scaled (TimeToCFDate t)) < 2 ^ 34 * second /\
  Z.abs (scaled (TimeToCFDate t) * 1000000000 - (d * 1000000000 + t_nsec t) * second) <=
    954 * second.
Proof.
  intros Hs Hns d. unfold TimeToCFDate, unixToAbsoluteTime. fold d in Hs |- *. rewrite wrap64_id by lia.
  destruct (float64_of_exact d ltac:(lia)) as [Hf Hsc].
  destruct (div_error (t_nsec t) Hns) as (Hff & Hf0 & Hfe). set (f := SFdiv _ _ _ _) in *.
  assert (Hu : second = 2 ^ (1074 - 53) * 9007199254740992) by (unfold second; change 9007199254740992 with (2 ^ 53); by rewrite <- Z.pow_add_r by lia).
  assert (Hb : 2 ^ (33 + 1074) = 8589934592 * second) by (unfold second; by rewrite (Z.pow_add_r 2 33) by lia).
  assert (H2 : 2 ^ (33 + 1021) = 8589934592 * 2 ^ (1074 - 53)) by (by rewrite (Z.pow_add_r 2 33) by lia).
  pose proof (Z.pow_pos_nonneg 2 (1074 - 53) ltac:(lia) ltac:(lia)) as Hv. set (v := 2 ^ (1074 - 53)) in *.
  assert (Hdv : - 4294967296 * v <= d * v <= 4294967296 * v) by nia.
  assert (Hnv : 0 <= t_nsec t * v <= 1000000000 * v) by nia.
  destruct (add_error (-140) 33 (float64_of d) f) as [Hfa Hae]; [lia..| |exact Hff| |].
  - eapply finite_from_mono; [|exact Hf]. lia.
  - rewrite Hsc, Hb. rewrite Hu in *. clearbody v. apply Z.abs_lt. lia.
  - rewrite Hsc in Hae. split; [exact Hfa|]. rewrite H2 in Hae. rewrite Hu in *. clearbody v.
    split; [apply Z.abs_lt; lia|apply Z.abs_le; lia].
Qed.

Lemma since_1970_small n : Z.abs n < 2 ^ 35 ->
  wrap64 (n + absoluteTimeIntervalSince1970) = n + absoluteTimeIntervalSince1970 /\
  Z.abs (n + absoluteTimeIntervalSince1970) < 2 ^ 62.
Proof. unfold absoluteTimeIntervalSince1970. intros Hn. rewrite wrap64_id; lia. Qed.

Lemma abs_cancel x c : Z.abs (x * second) < c * second -> Z.abs x < c.
Proof.
  pose proof second_pos. rewrite Z.abs_mul, (Z.abs_eq second) by lia. intros Hx.
  by apply Z.mul_lt_mono_pos_r in Hx.
Qed.

(** The errors on the way add up to less than a microsecond. *)
Lemma trip_bounds A n F G m d ns : Z.abs (n * second - A) < second -> n * second + F = A ->
  Z.abs A < 2 ^ 34 * second -> Z.abs (A * 1000000000 - (d * 1000000000 + ns) * second) <= 954 * second ->
  Z.abs (G - F * 1000000000) < second -> Z.abs (m * second - G) < second ->
  Z.abs n < 2 ^ 35 /\ Z.abs m < 2 ^ 31 /\
  Z.abs (n * 1000000000 + m - (d * 1000000000 + ns)) < 1000.
Proof.
  intros Hn HF HA Herr HG Hm.
  assert (H1 : Z.abs (n * second) < 17179869185 * second) by lia.
  assert (H2 : Z.abs (m * second) < 1000000002 * second) by lia.
  assert (H3 : Z.abs ((n * 1000000000 + m - (d * 1000000000 + ns)) * second) < 1000 * second) by lia.
  apply abs_cancel in H1, H2, H3. lia.
Qed.

Lemma trip_whole A n F G d : Z.abs (n * second - A) < second -> n * second + F = A -> A = d * second ->
  Z.abs (G - F * 1000000000) < second -> n = d /\ Z.abs G < second.
Proof.
  intros Hn HF HA HG. assert (Hnd : Z.abs ((n - d) * second) < 1 * second) by lia. apply abs_cancel in Hnd.
  assert (n = d) as -> by lia. split; [done|]. assert (F = 0) as -> by lia. lia.
Qed.

Lemma TimeToCFDate_whole t : Z.abs (t_sec t - absoluteTimeIntervalSince1970) < 2 ^ 32 -> t_nsec t = 0 ->
  scaled (TimeToCFDate t) = (t_sec t - absoluteTimeIntervalSince1970) * second.
Proof.
  intros Hs Hns. unfold TimeToCFDate, unixToAbsoluteTime. rewrite Hns, wrap64_id by lia.
  destruct (float64_of_exact (t_sec t - absoluteTimeIntervalSince1970) ltac:(lia)) as [Hf <-].
  change (SFdiv prec emax (float64_of 0) (float64_of nsPerSec)) with (S754_zero false).
  by destruct (float64_of _) as [[]|[]| |].
Qed.

(** C25: a date survives the trip to CoreFoundation and back. From 1864 to 2137 a
    Go time, made a [CFDateRef] by [TimeToCFDate] and read by [CFDateToTime],
    is a normalized time less than a microsecond away, with the rounding of all
    floating-point operations between, and whatever the machine makes of a
    conversion to [int64] out of range; a time in whole seconds comes back
    exactly. *)
Theorem CFDate_roundtrip t : Z.abs (t_sec t - absoluteTimeIntervalSince1970) < 2 ^ 32 ->
  0 <= t_nsec t < 1000000000 ->
  let t' := CFDateToTime int64_overflow (TimeToCFDate t) in
  0 <= t_nsec t' < 1000000000 /\ Z.abs (nanoseconds t' - nanoseconds t) < 1000 /\
  (t_nsec t = 0 -> t' = t).
Proof.
  intros Hs Hns t'. destruct (TimeToCFDate_error t Hs Hns) as (Hf & Hb & Herr).
  set (d := t_sec t - absoluteTimeIntervalSince1970) in *.
  pose proof second_pos as Hu. set (A := TimeToCFDate t) in *.
  assert (H52 : 2 ^ 34 * second < 2 ^ (1074 + 52)).
  { unfold second. rewrite <- Z.pow_add_r by lia. apply Z.pow_lt_mono_r; lia. }
  pose proof (Modf_exact (-193) A ltac:(lia) Hf ltac:(lia)) as HM.
  pose proof (truncated_scaled (-193) A ltac:(lia) Hf) as Ht.
  pose proof (quot_close (scaled A)) as Hqc. rewrite <- Ht in Hqc. set (n := truncated A) in *.
  unfold t', CFDateToTime, absoluteTimeToUnix. fold A. destruct (Modf A) as [i fr]. destruct HM as (Hfi & Hsi & Hffr & Hsum).
  destruct (mul_error (-246) fr ltac:(lia) Hffr ltac:(lia)) as [Hfg Hge]. set (g := SFmul _ _ _ _) in *.
  assert (Hge' : Z.abs (scaled g - scaled fr * 1000000000) < second).
  { eapply Z.le_lt_trans; [exact Hge|]. unfold second. apply Z.pow_lt_mono_r; lia. }
  pose proof (quot_close (scaled g)) as Hm. set (m := Z.quot (scaled g) second) in *. rewrite Hsi in Hsum.
  assert (Hq0 : Z.abs (scaled g) < second -> m = 0) by (clear -Hu; intros; apply Z.quot_small_iff; lia).
  destruct (trip_bounds (scaled A) n (scaled fr) (scaled g) m d (t_nsec t)) as (Hn & Hm' & Hdiff); [done..|].
  assert (Hi : int64_of int64_overflow i = n).
  { rewrite (int64_of_scaled (-900)); [|lia|done|]; rewrite Hsi, Z.quot_mul by (clear -Hu; lia); [done|]. clear -Hn; lia. }
  assert (Hg : int64_of int64_overflow g = m).
  { apply (int64_of_scaled (-246 - 23)); [lia|done|]. fold m. clear -Hm'. lia. }
  destruct (since_1970_small n Hn) as [Hwn Hn62]. rewrite Hi, Hg, Hwn.
  destruct (time_Unix_nanoseconds (n + absoluteTimeIntervalSince1970) m) as [Hnano Hnorm];
    [done|clear -Hm'; lia|].
  split; [done|]. unfold nanoseconds in *.
  set (u := time_Unix _ _) in *. clearbody u g m n.
  assert (Ht0 : t_sec t = d + absoluteTimeIntervalSince1970) by (clear; unfold d; lia).
  split; [rewrite Hnano, Ht0; clear -Hdiff; lia|]. intros Hns0.
  assert (HA : scaled A = d * second) by by apply TimeToCFDate_whole.
  destruct (trip_whole (scaled A) n (scaled fr) (scaled g) d) as [Hnd Hg0]; [done..|].
  specialize (Hq0 Hg0). clear -Hnd Hq0 Hnano Hnorm Ht0 Hns0.
  destruct u as [us un], t as [ts tn]. cbn [t_sec t_nsec] in *. f_equal; lia.
Qed.
End roundtrip.

Lemma CFDate_roundtrip_witness :
  let t' := CFDateToTime (fun _ => 0) (TimeToCFDate test_time) in
  Z.abs (nanoseconds t' - nanoseconds test_time) < 1000 /\ t' <> test_time.
Proof.
  split; [|vm_compute; discriminate].
  apply (CFDate_roundtrip (fun _ => 0) test_time); vm_compute; by split.
Defined.
