(* ===== verification/CoreFoundation.v ===== *)
(** Package store/keychain/internal/go-keychain, the bridge to CoreFoundation
    (corefoundation.go) with its memory: objects with retain counts, the
    conversions that create them and the deferred releases that give them
    back. *)

From S2P Require Import Prelude GoErrors GoStrings Secrets Store Keychain KeychainDarwin.

(** ** Reference-counted objects *)

(** A [CFTypeRef]: null, a constant that is never freed, or an object. *)
Inductive ref : Type :=
| Null
| Const (v : CFValue)
| Obj (i : Z).

Inductive obj : Type :=
| ONumber (n : Z)
| OData (b : bytes)
| OString (s : string)
| ODictionary (entries : list (ref * ref))
| OArray (l : list ref).

(** The objects, each with its retain count, and the next address. *)
Record heap : Type := {
  objs : gmap Z (obj * nat);
  next : Z
}.

(** A computation on the heap; [None] is the crash that the use of a null or
    freed reference is. *)
Definition mem (A : Type) : Type := heap -> option (A * heap).

Definition mret {A} (a : A) : mem A := fun h => Some (a, h).
Definition mbind_ {A B} (m : mem A) (f : A -> mem B) : mem B := fun h =>
  match m h with Some (a, h') => f a h' | None => None end.

Notation "x <-- m ;; k" := (mbind_ m (fun x => k))
  (at level 100, m at next level, right associativity) : engine_scope.
Notation "' x <-- m ;; k" := (mbind_ m (fun x => k))
  (at level 20, x pattern, m at level 99, k at level 200, only parsing) : engine_scope.

Definition set_objs (o : gmap Z (obj * nat)) (h : heap) : heap := {| objs := o; next := next h |}.

(** The references an object has retained. *)
Definition children (o : obj) : list ref :=
  match o with
  | ODictionary entries => mjoin (map (fun kv => [kv.1; kv.2]) entries)
  | OArray l => l
  | _ => []
  end.

(** [CFRetain]. *)
Definition CFRetain (r : ref) : mem unit := fun h =>
  match r with
  | Null => None
  | Const _ => Some (tt, h)
  | Obj i =>
      match objs h !! i with
      | Some (o, n) => Some (tt, set_objs (<[i := (o, Datatypes.S n)]> (objs h)) h)
      | None => None
      end
  end.

(** [CFRelease]: the last release frees the object and releases what it had
    retained; [fuel] bounds the depth. *)
Fixpoint release (fuel : nat) (r : ref) (h : heap) : option (unit * heap) :=
  match r with
  | Null => None
  | Const _ => Some (tt, h)
  | Obj i =>
      match objs h !! i with
      | None | Some (_, O) => None
      | Some (o, Datatypes.S (Datatypes.S n)) => Some (tt, set_objs (<[i := (o, Datatypes.S n)]> (objs h)) h)
      | Some (o, Datatypes.S O) =>
          let h' := set_objs (delete i (objs h)) h in
          match fuel with
          | O => match children o with [] => Some (tt, h') | _ => None end
          | Datatypes.S fuel' =>
              foldl (fun acc c => match acc with Some (_, h) => release fuel' c h | None => None end)
                (Some (tt, h')) (children o)
          end
      end
  end.

(** [Release]: an object is at most as deep as there are objects. *)
Definition Release (r : ref) : mem unit := fun h => release (size (objs h)) r h.

Fixpoint for_each {A} (f : A -> mem unit) (l : list A) : mem unit :=
  match l with
  | [] => mret tt
  | x :: l' => _ <-- f x ;; for_each f l'
  end.

(** ** corefoundation.go *)

Section corefoundation.
(** Which allocations of the framework fail. *)
Context (alloc_fails : obj -> bool).
(** [encoding/gob] on a [map[string]any], and [utf8.ValidString]. *)
Context (gob_encode : gmap string string -> result goerror bytes).
Context (ValidString : string -> bool).
(** The orders in which the maps are visited. *)
Context (ord : list (string * ItemValue) -> list (string * ItemValue)).
Context (ordm : list (ref * ref) -> list (ref * ref)).

(** A new object, with the count 1, or null. *)
Definition create (o : obj) : mem ref := fun h =>
  if alloc_fails o then Some (Null, h)
  else Some (Obj (next h), {| objs := <[next h := (o, 1%nat)]> (objs h); next := (next h + 1)%Z |}).

Definition cf_BytesToCFData (b : bytes) : mem (result goerror ref) :=
  if (4294967295 <? Z.of_nat (length b))%Z then mret (Err (ErrorNew "data is too large"))
  else
    cfData <-- create (OData b) ;;
    match cfData with
    | Null => mret (Err (ErrorNew "failed on CFDataCreate"))
    | _ => mret (Ok cfData)
    end.

Definition cf_StringToCFString (s : string) : mem (result goerror ref) :=
  if negb (ValidString s) then mret (Err (ErrorNew "invalid UTF-8 string"))
  else if (4294967295 <? Z.of_nat (String.length s))%Z then mret (Err (ErrorNew "string is too large"))
  else r <-- create (OString s) ;; mret (Ok r).

Definition Int32ToCFNumber (u : Z) : mem ref := create (ONumber u).

(** [CFDictionaryCreate] and [CFArrayCreate] retain what they are given. *)
Definition CFDictionaryCreate (entries : list (ref * ref)) : mem ref :=
  if alloc_fails (ODictionary entries) then mret Null
  else
    _ <-- for_each CFRetain (children (ODictionary entries)) ;;
    create (ODictionary entries).

Definition ArrayToCFArray (a : list ref) : mem ref :=
  if alloc_fails (OArray a) then mret Null
  else _ <-- for_each CFRetain a ;; create (OArray a).

Definition MapToCFDictionary (m : list (ref * ref)) : mem (result goerror ref) :=
  cfDict <-- CFDictionaryCreate (ordm m) ;;
  match cfDict with
  | Null => mret (Err (ErrorNew "failed on CFDictionaryCreate"))
  | _ => mret (Ok cfDict)
  end.

(** A constant of the framework, or the null reference. *)
Definition constant_ref (c : string) : ref :=
  if String.eqb c "" then Null else Const (CFConstant c).

(** The type switch of [ConvertMapToCFDictionary]: the reference, and whether
    its release is deferred. *)
Definition value_ref (i : ItemValue) : mem (result goerror (ref * bool)) :=
  let owned (m : mem (result goerror ref)) : mem (result goerror (ref * bool)) :=
    r <-- m ;; mret (match r with Ok x => Ok (x, true) | Err err => Err err end) in
  match i with
  | IUnsupported => mret (Err (ErrorNew "unsupported value type: %v"))
  | IRef c => mret (Ok (constant_ref c, false))
  | IBool b => mret (Ok (Const (CFBoolean b), false))
  | IInt32 n => x <-- Int32ToCFNumber n ;; mret (Ok (x, true))
  | IBytes b => owned (cf_BytesToCFData b)
  | IString s => owned (cf_StringToCFString s)
  | IMap m => match gob_encode m with
              | Err err => mret (Err err)
              | Ok b => owned (cf_BytesToCFData b)
              end
  end.

(** The loop: the map built so far, newest binding first, and the deferred
    releases, the last one first. The keys are new references, so the Go map
    has one binding for each. *)
Fixpoint convert_loop (l : list (string * ItemValue)) (m : list (ref * ref)) (defers : list ref)
  : mem (result goerror (list (ref * ref)) * list ref) :=
  match l with
  | [] => mret (Ok m, defers)
  | (key, i) :: l' =>
      r <-- value_ref i ;;
      match r with
      | Err err => mret (Err err, defers)
      | Ok (valueRef, owned) =>
          let defers := if owned : bool then valueRef :: defers else defers in
          k <-- cf_StringToCFString key ;;
          match k with
          | Err err => mret (Err err, defers)
          | Ok keyRef => convert_loop l' ((keyRef, valueRef) :: m) (keyRef :: defers)
          end
      end
  end.

Definition cf_ConvertMapToCFDictionary (attr : gmap string ItemValue) : mem (result goerror ref) :=
  '(r, defers) <-- convert_loop (range_map ord attr) [] [] ;;
  cfDict <-- match r with Err err => mret (Err err) | Ok m => MapToCFDictionary m end ;;
  _ <-- for_each Release defers ;;
  mret cfDict.

(** A call of the Security framework with a dictionary of its own, as in
    [AddItem], [DeleteItem] and [QueryItemRef]: the dictionary is released at
    the end. The framework balances its own retains. *)
Definition with_dictionary {A} (attr : gmap string ItemValue) (call : ref -> mem A) : mem (result goerror A) :=
  r <-- cf_ConvertMapToCFDictionary attr ;;
  match r with
  | Err err => mret (Err err)
  | Ok cfDict => a <-- call cfDict ;; _ <-- Release cfDict ;; mret (Ok a)
  end.

(** [UpdateItem]: two dictionaries. *)
Definition UpdateItem {A} (queryItem updateItem : gmap string ItemValue) (SecItemUpdate : ref -> ref -> mem A)
  : mem (result goerror A) :=
  r <-- cf_ConvertMapToCFDictionary queryItem ;;
  match r with
  | Err err => mret (Err err)
  | Ok cfDict =>
      u <-- cf_ConvertMapToCFDictionary updateItem ;;
      match u with
      | Err err => _ <-- Release cfDict ;; mret (Err err)
      | Ok cfDictUpdate =>
          a <-- SecItemUpdate cfDict cfDictUpdate ;;
          _ <-- Release cfDictUpdate ;;
          _ <-- Release cfDict ;;
          mret (Ok a)
      end
  end.
End corefoundation.

(** ** Back to Go *)

(** The value of an object that holds no others, and of a constant. *)
Definition leaf_value (h : heap) (r : ref) : option CFValue :=
  match r with
  | Null => None
  | Const v => Some v
  | Obj i =>
      match objs h !! i with
      | Some (ONumber n, _) => Some (CFNumber n)
      | Some (OData b, _) => Some (CFData b)
      | Some (OString s, _) => Some (CFString s)
      | _ => None
      end
  end.

Definition entry_value (h : heap) (kv : ref * ref) : option (string * CFValue) :=
  match leaf_value h kv.1, leaf_value h kv.2 with
  | Some (CFString s), Some v => Some (s, v)
  | _, _ => None
  end.

(** The entries of a dictionary of strings. *)
Definition dictionary_value (h : heap) (r : ref) : option (list (string * CFValue)) :=
  match r with
  | Obj i => match objs h !! i with
             | Some (ODictionary entries, _) => mapM (entry_value h) entries
             | _ => None
             end
  | _ => None
  end.

(** ** Lemmas: retaining and releasing lists of references *)

Definition addr (r : ref) : option Z := match r with Obj i => Some i | _ => None end.
Definition addrs (l : list ref) : list Z := omap addr l.

(** What one release makes of an object that it does not free, or that holds
    no others. *)
Definition dec (x : obj * nat) : option (obj * nat) :=
  match x with
  | (o, Datatypes.S (Datatypes.S n)) => Some (o, Datatypes.S n)
  | _ => None
  end.

Definition releasable (x : obj * nat) : Prop :=
  match x with
  | (o, Datatypes.S (Datatypes.S n)) => True
  | (o, Datatypes.S O) => children o = []
  | (o, O) => False
  end.

Lemma addrs_cons r l : addrs (r :: l) = match addr r with Some i => i :: addrs l | None => addrs l end.
Proof. done. Qed.

Lemma addrs_app l1 l2 : addrs (l1 ++ l2) = addrs l1 ++ addrs l2.
Proof. apply omap_app. Qed.

(** An action on references that changes only the object it is given. *)
Section each.
Context (R : ref -> mem unit) (ok : obj * nat -> Prop) (eff : obj * nat -> option (obj * nat)).
Context (Rconst : forall v h, R (Const v) h = Some (tt, h)).
Context (Robj : forall i x h, objs h !! i = Some x -> ok x ->
  R (Obj i) h = Some (tt, set_objs (partial_alter (fun _ => eff x) i (objs h)) h)).

Lemma for_each_effect l h : Null ∉ l -> NoDup (addrs l) ->
  (forall i, i ∈ addrs l -> exists x, objs h !! i = Some x /\ ok x) ->
  exists h', for_each R l h = Some (tt, h') /\ next h' = next h /\
    forall j, objs h' !! j = if decide (j ∈ addrs l) then objs h !! j ≫= eff else objs h !! j.
Proof.
  revert h. induction l as [|r l IH]; intros h Hnull Hnd Hok.
  { by exists h. }
  apply not_elem_of_cons in Hnull as [Hr Hnull]. rewrite addrs_cons in *. cbn [for_each]. unfold mbind_.
  destruct r as [|v|i]; [done| |]; cbn [addr] in *.
  - rewrite Rconst. by apply IH.
  - apply list.NoDup_cons in Hnd as [Hi Hnd]. destruct (Hok i) as (x & Hx & Hxok); [by left|].
    rewrite (Robj _ _ _ Hx Hxok).
    destruct (IH (set_objs (partial_alter (fun _ => eff x) i (objs h)) h)) as (h' & Hf & Hn & Hl); [done|done| |].
    { intros j Hj. cbn. rewrite lookup_partial_alter_ne by (intros ->; done). apply Hok. by right. }
    exists h'. split_and!; [done|done|]. intros j. rewrite Hl. cbn.
    destruct (decide (j = i)) as [->|Hne].
    + rewrite decide_False by done. rewrite decide_True by by left.
      by rewrite lookup_partial_alter_eq, Hx.
    + rewrite lookup_partial_alter_ne by done.
      destruct (decide (j ∈ addrs l)); [rewrite decide_True by (by right)|rewrite decide_False]; try done.
      by intros [->|?]%elem_of_cons.
Qed.
End each.

Lemma partial_alter_dec (m : gmap Z (obj * nat)) i o : delete i m = partial_alter (fun _ => dec (o, 1%nat)) i m.
Proof. done. Qed.

Lemma release_obj fuel i x h : objs h !! i = Some x -> releasable x ->
  release fuel (Obj i) h = Some (tt, set_objs (partial_alter (fun _ => dec x) i (objs h)) h).
Proof.
  intros Hx Hr. destruct x as [o [|[|n]]]; [done| |].
  - destruct fuel; cbn in Hr |- *; rewrite Hx, Hr; done.
  - assert (Hi : <[i := (o, Datatypes.S n)]> (objs h) =
      partial_alter (fun _ => dec (o, Datatypes.S (Datatypes.S n))) i (objs h)) by done.
    destruct fuel; cbn; by rewrite Hx, Hi.
Qed.

Lemma foldl_for_each fuel l h :
  foldl (fun acc c => match acc with Some (_, h) => release fuel c h | None => None end) (Some (tt, h)) l =
  for_each (release fuel) l h.
Proof.
  revert h. induction l as [|r l IH]; intros h; [done|]. cbn [foldl for_each]. unfold mbind_.
  destruct (release fuel r h) as [[[] h']|]; [apply IH|].
  clear IH. by induction l as [|c l IH].
Qed.

(** The release of the last reference to an object gives back its children. *)
Lemma release_parent fuel i o h : objs h !! i = Some (o, 1%nat) ->
  release (Datatypes.S fuel) (Obj i) h = for_each (release fuel) (children o) (set_objs (delete i (objs h)) h).
Proof. intros Hi. cbn [release]. rewrite Hi. apply foldl_for_each. Qed.

(** ** Lemmas: the conversion of a map *)

Section conversion.
Context (alloc_fails : obj -> bool).
Context (gob_encode : gmap string string -> result goerror bytes) (ValidString : string -> bool).
(** The allocations whose failure the code does not look at succeed. *)
Context (Hstr : forall s, alloc_fails (OString s) = false).
Context (Hnum : forall n, alloc_fails (ONumber n) = false).

Local Abbreviation value_ref := (value_ref alloc_fails gob_encode ValidString).
Local Abbreviation convert_loop := (convert_loop alloc_fails gob_encode ValidString).
Local Abbreviation convert_value := (convert_value gob_encode ValidString).
Local Abbreviation convert_bindings := (convert_bindings gob_encode ValidString).

(** Addresses are given out in order. *)
Definition numbered (h : heap) : Prop := forall i, (next h <= i)%Z -> objs h !! i = None.

(** Since [h0] exactly the objects of [defers] were made; each is retained
    once and holds no others. *)
Record made (h0 h : heap) (defers : list ref) : Prop := {
  made_next : (next h0 <= next h)%Z;
  made_numbered : numbered h;
  made_null : Null ∉ defers;
  made_nodup : NoDup (addrs defers);
  made_leaf i : i ∈ addrs defers -> (next h0 <= i)%Z /\
    exists o, objs h !! i = Some (o, 1%nat) /\ children o = [];
  made_same j : j ∉ addrs defers -> objs h !! j = objs h0 !! j
}.

Definition extends (h h' : heap) : Prop := forall i x, objs h !! i = Some x -> objs h' !! i = Some x.

Lemma leaf_value_extends h h' r v : extends h h' -> leaf_value h r = Some v -> leaf_value h' r = Some v.
Proof.
  intros He. destruct r as [|c|i]; cbn; try done.
  destruct (objs h !! i) as [[o n]|] eqn:Hi; [|done]. by rewrite (He _ _ Hi).
Qed.

Lemma entry_value_extends h h' kv p : extends h h' -> entry_value h kv = Some p -> entry_value h' kv = Some p.
Proof.
  intros He. unfold entry_value. destruct (leaf_value h kv.1) as [k|] eqn:Hk; [|done].
  rewrite (leaf_value_extends _ _ _ _ He Hk). destruct k; try done.
  destruct (leaf_value h kv.2) as [v|] eqn:Hv; [|done]. by rewrite (leaf_value_extends _ _ _ _ He Hv).
Qed.

Lemma made_refl h : numbered h -> made h h [].
Proof.
  intros Hn. split; try done; [apply not_elem_of_nil|constructor|].
  intros i Hi. by apply not_elem_of_nil in Hi.
Qed.

Lemma create_made h0 h defers o : made h0 h defers -> alloc_fails o = false -> children o = [] ->
  exists h', create alloc_fails o h = Some (Obj (next h), h') /\ made h0 h' (Obj (next h) :: defers) /\
    extends h h' /\ objs h' !! next h = Some (o, 1%nat).
Proof.
  intros [Hn Hnum' Hnull Hnd Hleaf Hsame] Ha Hc. unfold create. rewrite Ha.
  assert (Hfresh : next h ∉ addrs defers).
  { intros Hin. destruct (Hleaf _ Hin) as (_ & o' & Ho & _). by rewrite Hnum' in Ho. }
  eexists. split; [done|]. split_and!; cbn.
  - split; cbn; rewrite ?addrs_cons; cbn [addr].
    + lia.
    + intros i Hi. cbn in *. rewrite lookup_insert_ne by lia. apply Hnum'. lia.
    + apply not_elem_of_cons. by split.
    + by apply list.NoDup_cons.
    + intros i Hi. apply elem_of_cons in Hi as [->|Hi].
      * split; [done|]. exists o. by rewrite lookup_insert_eq.
      * destruct (Hleaf i Hi) as (Hle & o' & Ho & Hc'). split; [done|]. exists o'.
        rewrite lookup_insert_ne by (intros <-; by rewrite Hnum' in Ho). done.
    + intros j Hj. apply not_elem_of_cons in Hj as [Hne Hj]. rewrite lookup_insert_ne by done. by apply Hsame.
  - intros i x Hi. cbn. rewrite lookup_insert_ne; [done|]. intros <-. by rewrite Hnum' in Hi.
  - apply lookup_insert_eq.
Qed.

Lemma extends_refl h : extends h h.
Proof. by intros i x. Qed.

(** The outcome of a conversion into one reference: a value, owned when it is
    new, or an error that is also the pure conversion's, or a refused
    allocation of data. *)
Definition value_made (h0 h h' : heap) (defers : list ref) (pure : result goerror CFValue)
    (r : result goerror (ref * bool)) : Prop :=
  match r with
  | Ok (x, owned) =>
      extends h h' /\ x <> Null /\ (owned = false -> addr x = None) /\
      made h0 h' (if owned : bool then x :: defers else defers) /\
      exists cv, pure = Ok cv /\ leaf_value h' x = Some cv
  | Err e => made h0 h' defers /\ (pure = Err e \/ e = ErrorNew "failed on CFDataCreate" /\ is_ok pure = true)
  end.

Lemma BytesToCFData_made h0 h defers b : made h0 h defers ->
  exists r h', cf_BytesToCFData alloc_fails b h = Some (r, h') /\
    value_made h0 h h' defers (BytesToCFData b)
      (match r with Ok x => Ok (x, true) | Err e => Err e end).
Proof.
  intros Hm. unfold cf_BytesToCFData, BytesToCFData.
  destruct (4294967295 <? Z.of_nat (length b))%Z; [by eexists _, _; split; [done|]; split; [|left]|].
  unfold mbind_. destruct (alloc_fails (OData b)) eqn:Ha.
  { unfold create. rewrite Ha. eexists _, _. split; [done|]. split; [done|]. by right. }
  destruct (create_made h0 h defers (OData b) Hm Ha eq_refl) as (h' & Hc & Hm' & He & Hl).
  rewrite Hc. eexists _, _. split; [done|]. split_and!; try done. eexists. split; [done|].
  cbn. by rewrite Hl.
Qed.

Lemma StringToCFString_made h0 h defers s : made h0 h defers ->
  exists r h', cf_StringToCFString alloc_fails ValidString s h = Some (r, h') /\
    value_made h0 h h' defers (StringToCFString ValidString s)
      (match r with Ok x => Ok (x, true) | Err e => Err e end).
Proof.
  intros Hm. unfold cf_StringToCFString, StringToCFString.
  destruct (negb (ValidString s)); [by eexists _, _; split; [done|]; split; [|left]|].
  destruct (4294967295 <? Z.of_nat (String.length s))%Z; [by eexists _, _; split; [done|]; split; [|left]|].
  unfold mbind_. destruct (create_made h0 h defers (OString s) Hm (Hstr s) eq_refl) as (h' & Hc & Hm' & He & Hl).
  rewrite Hc. eexists _, _. split; [done|]. split_and!; try done. eexists. split; [done|].
  cbn. by rewrite Hl.
Qed.

Lemma value_ref_made h0 h defers v : made h0 h defers -> v <> IRef "" ->
  exists r h', value_ref v h = Some (r, h') /\ value_made h0 h h' defers (convert_value v) r.
Proof.
  intros Hm Hnz. assert (Hself : forall c pure, pure = Ok c ->
    value_made h0 h h defers pure (Ok (Const c, false))).
  { intros c pure ->. split_and!; try done; [apply extends_refl|]. by eexists. }
  destruct v as [c|b|n|b|s|m|]; cbn [CoreFoundation.value_ref KeychainDarwin.convert_value]; unfold mbind_.
  - unfold constant_ref. destruct (String.eqb_spec c "") as [->|_]; [done|].
    eexists _, _. split; [done|]. by apply Hself.
  - eexists _, _. split; [done|]. by apply Hself.
  - unfold Int32ToCFNumber.
    destruct (create_made h0 h defers (ONumber n) Hm (Hnum n) eq_refl) as (h' & Hc & Hm' & He & Hl).
    rewrite Hc. eexists _, _. split; [done|]. split_and!; try done. eexists. split; [done|]. cbn. by rewrite Hl.
  - destruct (BytesToCFData_made h0 h defers b Hm) as (r & h' & Hr & Hv). rewrite Hr.
    by eexists _, _.
  - destruct (StringToCFString_made h0 h defers s Hm) as (r & h' & Hr & Hv). rewrite Hr.
    by eexists _, _.
  - destruct (gob_encode m) as [b|e]; cbn [result_bind].
    + destruct (BytesToCFData_made h0 h defers b Hm) as (r & h' & Hr & Hv). rewrite Hr.
      by eexists _, _.
    + eexists _, _. split; [done|]. split; [done|by left].
  - eexists _, _. split; [done|]. split; [done|by left].
Qed.

Lemma extends_trans h1 h2 h3 : extends h1 h2 -> extends h2 h3 -> extends h1 h3.
Proof. intros H12 H23 i x Hi. by apply H23, H12. Qed.

(** The bindings made so far: their objects are the ones deferred, and their
    values are those of [done], newest first. *)
Definition bindings_made (h : heap) (m : list (ref * ref)) (defers : list ref)
    (done : list (string * CFValue)) : Prop :=
  Null ∉ children (ODictionary m) /\ addrs (children (ODictionary m)) ≡ₚ addrs defers /\
  Forall2 (fun kv p => entry_value h kv = Some p) m done.

Lemma children_cons k v m : children (ODictionary ((k, v) :: m)) = k :: v :: children (ODictionary m).
Proof. done. Qed.

Lemma bindings_made_cons h h1 h2 m defers done key k v owned cv :
  bindings_made h m defers done -> extends h h1 -> extends h1 h2 ->
  k <> Null -> v <> Null -> (owned = false -> addr v = None) ->
  leaf_value h1 v = Some cv -> leaf_value h2 k = Some (CFString key) ->
  bindings_made h2 ((k, v) :: m) (k :: (if owned : bool then v :: defers else defers)) ((key, cv) :: done).
Proof.
  intros (Hnull & Haddr & HF) H1 H2 Hk Hv Ho Hcv Hkey. unfold bindings_made. rewrite children_cons.
  split_and!.
  - rewrite !not_elem_of_cons. by split_and!.
  - rewrite !addrs_cons. assert (Hd : match addr v with Some i => i :: addrs defers | None => addrs defers end =
      addrs (if owned then v :: defers else defers)).
    { destruct owned; [by rewrite addrs_cons|]. by rewrite Ho. }
    rewrite <- Hd. destruct (addr k), (addr v); by rewrite Haddr.
  - constructor.
    + unfold entry_value. cbn. rewrite Hkey. by rewrite (leaf_value_extends _ _ _ _ H2 Hcv).
    + revert HF. apply Forall2_impl. intros kv p He.
      eapply entry_value_extends; [|exact He]. by eapply extends_trans.
Qed.

(** The loop makes what it defers to release, and computes what the pure
    conversion does; it fails where that does, or at a refused allocation. *)
Lemma convert_loop_made h0 h l m defers done : made h0 h defers -> bindings_made h m defers done ->
  (forall key, (key, IRef "") ∉ l) ->
  exists r defers' h', convert_loop l m defers h = Some ((r, defers'), h') /\ made h0 h' defers' /\
    match r with
    | Ok m' => exists l', convert_bindings l = Ok l' /\ bindings_made h' m' defers' (rev l' ++ done)
    | Err e => convert_bindings l = Err e \/ e = ErrorNew "failed on CFDataCreate"
    end.
Proof.
  revert h m defers done. induction l as [|[key i] l IH]; intros h m defers done Hm Hb Hnz.
  { eexists _, _, _. split; [reflexivity|]. split; [exact Hm|]. by exists []. }
  cbn [CoreFoundation.convert_loop KeychainDarwin.convert_bindings]. unfold mbind_ at 1.
  destruct (value_ref_made h0 h defers i Hm) as (r & h1 & Hr & Hv).
  { intros ->. apply (Hnz key). by left. }
  rewrite Hr.
  destruct r as [[x owned]|e].
  2: { destruct Hv as [Hm1 He]. eexists _, _, _. split; [reflexivity|]. split; [exact Hm1|].
       destruct He as [->|[-> _]]; [by left|by right]. }
  destruct Hv as (He1 & Hx & Ho & Hm1 & cv & Hpure & Hcv). rewrite Hpure. cbn [result_bind]. unfold mbind_.
  destruct (StringToCFString_made h0 h1 _ key Hm1) as (rk & h2 & Hrk & Hvk). rewrite Hrk.
  destruct rk as [k|e].
  2: { destruct Hvk as [Hm2 He]. eexists _, _, _. split; [reflexivity|]. split; [exact Hm2|].
       destruct He as [->|[-> _]]; [by left|by right]. }
  destruct Hvk as (He2 & Hk & _ & Hm2 & ck & Hpk & Hck).
  assert (ck = CFString key) as ->.
  { unfold StringToCFString in Hpk. destruct (negb _); [done|]. destruct (_ <? _)%Z; by simplify_eq. }
  rewrite Hpk. cbn [result_bind].
  destruct (IH h2 ((k, x) :: m) (k :: (if owned then x :: defers else defers)) ((key, cv) :: done))
    as (r & defers' & h' & Hloop & Hm' & Hres); [done|by eapply bindings_made_cons| |].
  { intros key' Hin. apply (Hnz key'). by right. }
  eexists _, _, _. split; [exact Hloop|]. split; [done|]. destruct r as [m'|e].
  - destruct Hres as (l' & -> & Hb'). exists ((key, cv) :: l'). split; [done|].
    cbn [rev]. by rewrite <- app_assoc.
  - destruct Hres as [->|?]; [by left|by right].
Qed.
End conversion.

(** An item without null constants. *)
Lemma no_null_range ord `{!MapOrder ord} (attr : gmap string ItemValue) :
  (forall key, attr !! key <> Some (IRef "")) -> forall key, (key, IRef "") ∉ range_map ord attr.
Proof. intros Hnz key Hin. apply (Hnz key). by apply elem_of_range_map in Hin. Qed.

(** ** Lemmas: the dictionary *)

Definition up (x : obj * nat) : option (obj * nat) := Some (x.1, Datatypes.S x.2).

Lemma retain_effect l h : Null ∉ l -> NoDup (addrs l) ->
  (forall i, i ∈ addrs l -> exists x, objs h !! i = Some x /\ True) ->
  exists h', for_each CFRetain l h = Some (tt, h') /\ next h' = next h /\
    forall j, objs h' !! j = if decide (j ∈ addrs l) then objs h !! j ≫= up else objs h !! j.
Proof.
  apply for_each_effect; [done|]. intros i [o n] h' Hi _. cbn. by rewrite Hi.
Qed.

Lemma release_effect fuel l h : Null ∉ l -> NoDup (addrs l) ->
  (forall i, i ∈ addrs l -> exists x, objs h !! i = Some x /\ releasable x) ->
  exists h', for_each (release fuel) l h = Some (tt, h') /\ next h' = next h /\
    forall j, objs h' !! j = if decide (j ∈ addrs l) then objs h !! j ≫= dec else objs h !! j.
Proof. apply for_each_effect; [intros; by destruct fuel|]. intros. by apply release_obj. Qed.

Lemma Release_effect l h : Null ∉ l -> NoDup (addrs l) ->
  (forall i, i ∈ addrs l -> exists x, objs h !! i = Some x /\ releasable x) ->
  exists h', for_each Release l h = Some (tt, h') /\ next h' = next h /\
    forall j, objs h' !! j = if decide (j ∈ addrs l) then objs h !! j ≫= dec else objs h !! j.
Proof.
  apply for_each_effect; [intros v h'; unfold Release; by destruct (size _)|].
  intros. by apply release_obj.
Qed.

Section dictionary.
Context (h0 h1 : heap) (defers : list ref) (Hn : numbered h0) (Hm : made h0 h1 defers).

Lemma made_fresh i : i ∈ addrs defers -> objs h0 !! i = None.
Proof. intros Hi. destruct (made_leaf _ _ _ Hm i Hi) as [Hle _]. by apply Hn. Qed.

(** Releasing what was made leaves the heap as it was. *)
Lemma release_made : exists h2, for_each Release defers h1 = Some (tt, h2) /\ objs h2 = objs h0.
Proof.
  destruct (Release_effect defers h1) as (h2 & Hr & _ & Hl); [apply Hm|apply Hm| |].
  { intros i Hi. destruct (made_leaf _ _ _ Hm i Hi) as (_ & o & Ho & Hc). by eexists. }
  exists h2. split; [done|]. apply map_eq. intros j. rewrite Hl. case_decide as Hj.
  - destruct (made_leaf _ _ _ Hm j Hj) as (_ & o & -> & _). cbn. symmetry. by apply made_fresh.
  - by apply Hm.
Qed.

(** A dictionary of what was made: it is the only owner once the deferred
    releases are done, and its own release leaves the heap as it was. *)
Lemma dictionary_made entries : Null ∉ children (ODictionary entries) ->
  addrs (children (ODictionary entries)) ≡ₚ addrs defers ->
  let d := next h1 in
  exists h2, for_each CFRetain (children (ODictionary entries)) h1 = Some (tt, h2) /\ next h2 = d /\
  let h3 := {| objs := <[d := (ODictionary entries, 1%nat)]> (objs h2); next := (d + 1)%Z |} in
  exists h4, for_each Release defers h3 = Some (tt, h4) /\ extends h1 h4 /\
    objs h4 !! d = Some (ODictionary entries, 1%nat) /\
    exists h5, Release (Obj d) h4 = Some (tt, h5) /\ objs h5 = objs h0.
Proof.
  intros Hnull Haddr d. pose proof (made_leaf _ _ _ Hm) as Hleaf.
  assert (Hmem : forall i, i ∈ addrs (children (ODictionary entries)) <-> i ∈ addrs defers)
    by (intros i; by apply elem_of_Permutation_proper).
  assert (Hnd : NoDup (addrs (children (ODictionary entries))))
    by (eapply NoDup_Permutation_proper; [exact Haddr|apply Hm]).
  destruct (retain_effect (children (ODictionary entries)) h1 Hnull Hnd) as (h2 & Hr2 & Hn2 & Hl2).
  { intros i Hi. apply Hmem, Hleaf in Hi as (_ & o & Ho & _). by eexists. }
  exists h2. split; [done|]. split; [done|]. intros h3.
  assert (Hd : d ∉ addrs defers).
  { intros Hd. apply Hleaf in Hd as (_ & o & Ho & _). by rewrite (made_numbered _ _ _ Hm) in Ho. }
  assert (Hl3 : forall j, objs h3 !! j = if decide (j = d) then Some (ODictionary entries, 1%nat)
    else if decide (j ∈ addrs defers) then objs h1 !! j ≫= up else objs h1 !! j).
  { intros j. subst h3. cbn. destruct (decide (j = d)) as [->|Hne]; [by rewrite lookup_insert_eq|].
    rewrite lookup_insert_ne, Hl2 by done. repeat case_decide; naive_solver. }
  destruct (Release_effect defers h3) as (h4 & Hr4 & _ & Hl4); [apply Hm|apply Hm| |].
  { intros i Hi. rewrite Hl3, decide_False by by intros ->. rewrite decide_True by done.
    destruct (Hleaf i Hi) as (_ & o & -> & _). by eexists. }
  assert (Hl4' : forall j, objs h4 !! j = if decide (j = d) then Some (ODictionary entries, 1%nat)
    else objs h1 !! j).
  { intros j. rewrite Hl4, Hl3. destruct (decide (j = d)) as [->|Hne]; [by rewrite decide_False|].
    case_decide as Hj; [|done]. by destruct (Hleaf j Hj) as (_ & o & -> & _). }
  exists h4. split; [done|]. split_and!.
  - intros i x Hi. rewrite Hl4', decide_False; [done|]. intros ->. by rewrite (made_numbered _ _ _ Hm) in Hi.
  - by rewrite Hl4', decide_True.
  - assert (Hi4 : objs h4 !! d = Some (ODictionary entries, 1%nat)) by by rewrite Hl4', decide_True.
    unfold Release. destruct (size (objs h4)) as [|fuel] eqn:Hsize.
    { apply map_size_empty_inv in Hsize. by rewrite Hsize, lookup_empty in Hi4. }
    rewrite (release_parent _ _ _ _ Hi4).
    destruct (release_effect fuel (children (ODictionary entries)) (set_objs (delete d (objs h4)) h4))
      as (h5 & Hr5 & _ & Hl5); [done|done| |].
    { intros i Hi. apply Hmem in Hi. cbn. rewrite lookup_delete_ne by (by intros ->).
      rewrite Hl4', decide_False by by intros ->. destruct (Hleaf i Hi) as (_ & o & -> & Hc). by eexists. }
    exists h5. split; [done|]. apply map_eq. intros j. rewrite Hl5. cbn [objs set_objs].
    destruct (decide (j ∈ addrs (children (ODictionary entries)))) as [Hj|Hj].
    + apply Hmem in Hj. assert (Hne : j <> d) by (intros Heq; by rewrite Heq in Hj).
      rewrite lookup_delete_ne, Hl4' by done. destruct (decide (j = d)); [done|].
      destruct (Hleaf j Hj) as (_ & o & -> & _). cbn. symmetry. by apply made_fresh.
    + rewrite Hmem in Hj. destruct (decide (j = d)) as [->|Hne].
      * rewrite lookup_delete_eq. symmetry. apply Hn. apply Hm.
      * rewrite lookup_delete_ne, Hl4' by done. destruct (decide (j = d)); [done|]. by apply Hm.
Qed.
End dictionary.

Lemma children_Permutation m1 m2 : m1 ≡ₚ m2 ->
  children (ODictionary m1) ≡ₚ children (ODictionary m2).
Proof.
  induction 1 as [|[k v] m1 m2 _ IH|[k1 v1] [k2 v2] m|m1 m2 m3 _ IH1 _ IH2]; rewrite ?children_cons; try done.
  - by rewrite IH.
  - solve_Permutation.
  - by etrans.
Qed.

Lemma addrs_Permutation l1 l2 : l1 ≡ₚ l2 -> addrs l1 ≡ₚ addrs l2.
Proof. intros Hp. unfold addrs. by rewrite Hp. Qed.

(** ** Lemmas: the conversion as a whole *)

Lemma conversion_owned alloc_fails gob_encode ValidString ord ordm attr h :
  MapOrder ord -> MapOrder ordm -> numbered h -> (forall key, attr !! key <> Some (IRef "")) ->
  (forall s, alloc_fails (OString s) = false) -> (forall n, alloc_fails (ONumber n) = false) ->
  exists r h', cf_ConvertMapToCFDictionary alloc_fails gob_encode ValidString ord ordm attr h = Some (r, h') /\
    match r with
    | Ok d =>
        (exists l l', ConvertMapToCFDictionary gob_encode ValidString ord attr = Ok l /\
           dictionary_value h' d = Some l' /\ l' ≡ₚ l) /\
        exists h'', Release d h' = Some (tt, h'') /\ objs h'' = objs h
    | Err e => objs h' = objs h /\
        (ConvertMapToCFDictionary gob_encode ValidString ord attr = Err e \/
         e = ErrorNew "failed on CFDataCreate" \/ e = ErrorNew "failed on CFDictionaryCreate")
    end.
Proof.
  intros Hord0 Hord Hn Hnz Hstr Hnum. unfold cf_ConvertMapToCFDictionary, ConvertMapToCFDictionary, mbind_.
  destruct (convert_loop_made alloc_fails gob_encode ValidString Hstr Hnum h h (range_map ord attr) [] [] [])
    as (r & defers & h1 & Hl & Hm & Hres); [by apply made_refl|split_and!; [apply not_elem_of_nil|done|constructor]|by apply no_null_range|].
  rewrite Hl. destruct r as [m|e].
  2: { destruct (release_made h h1 defers Hn Hm) as (h2 & Hr & Ho). cbn. rewrite Hr.
       eexists _, _. split; [done|]. split; [done|]. tauto. }
  destruct Hres as (l & Hpure & Hnull & Haddr & HF). rewrite app_nil_r in HF.
  assert (Hp : ordm m ≡ₚ m) by exact (map_order_perm (ord := ordm) m).
  unfold MapToCFDictionary, CFDictionaryCreate, mbind_, mret.
  destruct (alloc_fails (ODictionary (ordm m))) eqn:Ha.
  { destruct (release_made h h1 defers Hn Hm) as (h2 & Hr & Ho). rewrite Hr.
    eexists _, _. split; [done|]. split; [done|]. tauto. }
  destruct (dictionary_made h h1 defers Hn Hm (ordm m)) as (h2 & Hr2 & Hn2 & h4 & Hr4 & He & Hd & h5 & Hr5 & Ho).
  { by rewrite (children_Permutation _ _ Hp). }
  { by rewrite (addrs_Permutation _ _ (children_Permutation _ _ Hp)). }
  rewrite Hr2. unfold create. rewrite Ha, Hn2, Hr4.
  eexists _, _. split; [done|]. split; [|by exists h5].
  destruct (Permutation_Forall2 (symmetry Hp) HF) as (l' & Hpl & HF').
  exists l, l'. split; [done|]. split; [|by rewrite <- Hpl; symmetry; apply Permutation_rev].
  cbn. rewrite Hd. apply mapM_Some. revert HF'. apply Forall2_impl. intros kv p.
  by apply entry_value_extends.
Qed.

(** A null reference among the values: the dictionary would retain it. *)
Lemma retain_null l h : Null ∈ l -> for_each CFRetain l h = None.
Proof.
  revert h. induction l as [|r l IH]; intros h Hin; [by apply elem_of_nil in Hin|]. cbn [for_each]. unfold mbind_.
  destruct r as [|v|i]; [done| |]; (apply elem_of_cons in Hin as [[=]|Hin]).
  - cbn. by apply IH.
  - destruct (CFRetain (Obj i) h) as [[[] h']|]; [by apply IH|done].
Qed.

Lemma convert_loop_null alloc_fails gob_encode ValidString l m defers h m' defers' h' :
  convert_loop alloc_fails gob_encode ValidString l m defers h = Some ((Ok m', defers'), h') ->
  (exists key, (key, IRef "") ∈ l) \/ Null ∈ children (ODictionary m) -> Null ∈ children (ODictionary m').
Proof.
  revert m defers h. induction l as [|[key i] l IH]; intros m defers h Hl Hnull.
  { cbn in Hl. injection Hl as <- _ _. destruct Hnull as [[key Hin]|]; [by apply elem_of_nil in Hin|done]. }
  cbn [convert_loop] in Hl. unfold mbind_ in Hl.
  destruct (value_ref _ _ _ i h) as [[[[x owned]|e] h1]|] eqn:Hv; [|done|done].
  destruct (cf_StringToCFString _ _ key h1) as [[[k|e] h2]|]; [|done|done].
  apply (IH _ _ _ Hl). destruct Hnull as [[key' [Heq|Hin]%elem_of_cons]|Hin].
  - right. injection Heq as -> <-. cbn in Hv. unfold mret in Hv. injection Hv as <- _ _.
    rewrite children_cons. right. by left.
  - left. by exists key'.
  - right. rewrite children_cons. right. by right.
Qed.

Lemma conversion_null alloc_fails gob_encode ValidString ord `{!MapOrder ord} ordm `{!MapOrder ordm} attr key h :
  attr !! key = Some (IRef "") ->
  match cf_ConvertMapToCFDictionary alloc_fails gob_encode ValidString ord ordm attr h with
  | Some (Ok _, _) => False
  | _ => True
  end.
Proof.
  intros Hkey. unfold cf_ConvertMapToCFDictionary, mbind_.
  destruct (convert_loop _ _ _ _ _ _ h) as [[[[m|e] defers] h1]|] eqn:Hl; [| |done].
  - apply convert_loop_null in Hl; [|left; exists key; by apply elem_of_range_map].
    unfold MapToCFDictionary, CFDictionaryCreate, mbind_.
    destruct (alloc_fails (ODictionary (ordm m))); cbn.
    + by destruct (for_each Release defers h1) as [[]|].
    + rewrite retain_null; [done|].
      assert (Hp : ordm m ≡ₚ m) by exact (map_order_perm (ord := ordm) m).
      by rewrite (children_Permutation _ _ Hp).
  - cbn. by destruct (for_each Release defers h1) as [[]|].
Qed.

(** ** Numbers *)

(** The types [CFNumberToInterface] tells apart, and the Go values it returns;
    a float is known by its bits. *)
Inductive CFNumberType : Type :=
| SInt8Type | SInt16Type | SInt32Type | SInt64Type | Float32Type | Float64Type
| CharType | ShortType | IntType | LongType | LongLongType | FloatType | DoubleType
| CFIndexType | NSIntegerType | UnknownType.

Inductive GoNumber : Type :=
| GoInt8 (n : Z) | GoInt16 (n : Z) | GoInt32 (n : Z) | GoInt64 (n : Z) | GoInt (n : Z)
| GoByte (n : Z) | GoFloat32 (bits : Z) | GoFloat64 (bits : Z).

(** The conversion of a signed [char] to a byte. *)
Definition byte_of_char (c : Z) : Z := c mod 256.

Definition CFNumberToInterface (typ : CFNumberType) (value : Z) : outcome goerror GoNumber :=
  match typ with
  | SInt8Type => Returns (GoInt8 value)
  | SInt16Type | ShortType => Returns (GoInt16 value)
  | SInt32Type | IntType => Returns (GoInt32 value)
  | SInt64Type | LongLongType => Returns (GoInt64 value)
  | Float32Type | FloatType => Returns (GoFloat32 value)
  | Float64Type | DoubleType => Returns (GoFloat64 value)
  | CharType => Returns (GoByte (byte_of_char value))
  | LongType | CFIndexType | NSIntegerType => Returns (GoInt value)
  | UnknownType => Panics (ErrorNew "Unknown CFNumber type")
  end.

(** ** Data *)

(** The conversion of a length to a C [int]. *)
Definition int32_wrap (n : Z) : Z := ((n + 2 ^ 31) mod 2 ^ 32 - 2 ^ 31)%Z.

(** [C.GoBytes] panics on a negative length. *)
Definition cf_CFDataToBytes (b : bytes) : outcome goerror bytes :=
  let n := int32_wrap (Z.of_nat (length b)) in
  if (n <? 0)%Z then Panics (ErrorNew "gobytes: length out of range")
  else Returns (take (Z.to_nat n) b).

(** ** Properties *)

(** C22: The conversion of an item to a CoreFoundation dictionary neither leaks
    nor uses freed memory: whatever the attributes, null constants apart, the order in which Go
    visits its maps and the allocations of data and dictionaries that fail, it
    never crashes; when it fails, the heap is as before, and when it succeeds
    the dictionary is the one owner of everything that was made: it holds the
    bindings of the pure conversion, in some order, and its release leaves the
    heap as before. Every error is that of the pure conversion or a refused
    allocation. *)
Theorem ConvertMapToCFDictionary_owned alloc_fails gob_encode ValidString ord ordm attr h :
  MapOrder ord -> MapOrder ordm -> numbered h -> (forall key, attr !! key <> Some (IRef "")) ->
  (forall s, alloc_fails (OString s) = false) -> (forall n, alloc_fails (ONumber n) = false) ->
  exists r h', cf_ConvertMapToCFDictionary alloc_fails gob_encode ValidString ord ordm attr h = Some (r, h') /\
    match r with
    | Ok d =>
        (exists l l', ConvertMapToCFDictionary gob_encode ValidString ord attr = Ok l /\
           dictionary_value h' d = Some l' /\ l' ≡ₚ l) /\
        exists h'', Release d h' = Some (tt, h'') /\ objs h'' = objs h
    | Err e => objs h' = objs h /\
        (ConvertMapToCFDictionary gob_encode ValidString ord attr = Err e \/
         e = ErrorNew "failed on CFDataCreate" \/ e = ErrorNew "failed on CFDictionaryCreate")
    end.
Proof. apply conversion_owned. Qed.

Definition empty_heap : heap := {| objs := ∅; next := 0 |}.
Definition sample_attr : gmap string ItemValue :=
  {[AccountKey := IString "me"; DataKey := IBytes [Byte.x41]; ReturnDataKey := IBool true]}.

(** Only large dictionaries are refused. *)
Definition refuses_large (o : obj) : bool :=
  match o with ODictionary entries => (3 <? length entries)%nat | _ => false end.

Lemma ConvertMapToCFDictionary_owned_witness :
  exists d h', cf_ConvertMapToCFDictionary refuses_large (fun _ => Ok []) (fun _ => true) (fun l => l) (@List.rev _)
      sample_attr empty_heap = Some (Ok d, h') /\
    exists h'', Release d h' = Some (tt, h'') /\ objs h'' = ∅.
Proof.
  destruct (ConvertMapToCFDictionary_owned refuses_large (fun _ => Ok []) (fun _ => true) (fun l => l)
    (@List.rev _) sample_attr empty_heap) as (r & h' & Hr & Hres).
  - apply _.
  - apply _.
  - intros i _. apply lookup_empty.
  - intros key Hkey. unfold sample_attr in Hkey. rewrite !lookup_insert, lookup_singleton in Hkey.
    by repeat case_decide.
  - reflexivity.
  - reflexivity.
  - assert (Hok : exists d, r = Ok d).
    { vm_compute in Hr. injection Hr as <- _. by eexists. }
    destruct Hok as [d ->]. exists d, h'. split; [exact Hr|]. exact (proj2 Hres).
Defined.

(** An allocation of a string that fails is not noticed ([BytesToCFData] looks
    at its result, [StringToCFString] does not): the deferred release of the
    null reference crashes. *)
Example null_string_crashes :
  cf_ConvertMapToCFDictionary (fun o => match o with OString "me" => true | _ => false end)
    (fun _ => Ok []) (fun _ => true) (fun l => l) (fun l => l) {[AccountKey := IString "me"]} empty_heap = None.
Proof. vm_compute. reflexivity. Qed.

(** Secret data of 2 GiB to 4 GiB can be stored and never read back: a
    conversion to CFData accepts up to 2^32-1 bytes, and what it made is read
    back unchanged exactly when it has fewer than 2^31 bytes; from there on the
    length is negative as a C int and reading panics. *)
Theorem CFData_bounds alloc_fails b h : alloc_fails (OData b) = false ->
  (forall d h', cf_BytesToCFData alloc_fails b h = Some (Ok d, h') -> (Z.of_nat (length b) < 2 ^ 32)%Z) /\
  ((Z.of_nat (length b) < 2 ^ 32)%Z ->
     exists h', cf_BytesToCFData alloc_fails b h = Some (Ok (Obj (next h)), h') /\
       leaf_value h' (Obj (next h)) = Some (CFData b)) /\
  ((Z.of_nat (length b) < 2 ^ 31)%Z -> cf_CFDataToBytes b = Returns b) /\
  ((2 ^ 31 <= Z.of_nat (length b) < 2 ^ 32)%Z -> exists e, cf_CFDataToBytes b = Panics e).
Proof.
  intros Ha. unfold cf_BytesToCFData, cf_CFDataToBytes, int32_wrap.
  set (n := Z.of_nat (length b)). assert (Hn : (0 <= n)%Z) by lia. split_and!.
  - intros d h' Hd. destruct (4294967295 <? n)%Z eqn:Hlt; [done|]. breflect. lia.
  - intros Hlt. rewrite (proj2 (Z.ltb_ge _ _)) by lia. unfold mbind_, create. rewrite Ha.
    eexists. split; [done|]. cbn. by rewrite lookup_insert_eq.
  - intros Hlt. rewrite Z.mod_small by lia. rewrite (proj2 (Z.ltb_ge _ _)) by lia.
    rewrite firstn_all2; [done|]. lia.
  - intros Hlt. replace ((n + 2 ^ 31) mod 2 ^ 32)%Z with (n - 2 ^ 31)%Z.
    + rewrite (proj2 (Z.ltb_lt _ _)) by lia. by eexists.
    + apply (Z.mod_unique _ _ 1); lia.
Qed.

Lemma CFData_bounds_witness :
  exists h', cf_BytesToCFData refuses_large [Byte.x41] empty_heap = Some (Ok (Obj 0), h') /\
    leaf_value h' (Obj 0) = Some (CFData [Byte.x41]).
Proof.
  destruct (CFData_bounds refuses_large [Byte.x41] empty_heap eq_refl) as (_ & H & _). apply H. reflexivity.
Defined.
