(* ===== verification/Conversions.v ===== *)
(** Package store/keychain/internal/go-keychain: whether the items its setters
    build can be converted at all, and the way back from CoreFoundation objects
    to Go values (corefoundation.go: [CFArrayToArray], [CFDictionaryToMap],
    [Convert], [ConvertCFDictionary], [CFTypeDescription]). *)

From S2P Require Import Prelude GoErrors GoStrings Secrets Store Keychain KeychainDarwin CoreFoundation.

(** ** Items built by calls of the setters *)

Inductive item_call : Type :=
| CallSecClass (sc : Z)
| CallService (s : string) | CallServer (s : string) | CallProtocol (s : string)
| CallAuthenticationType (s : string) | CallPort (v : Z) | CallPath (s : string)
| CallAccount (s : string) | CallLabel (s : string) | CallDescription (s : string) | CallComment (s : string)
| CallData (b : option bytes) | CallGenericMetadata (m : gmap string string) | CallAccessGroup (s : string)
| CallSynchronizable (sync : Z) | CallUseDataProtectionKeychain (v : Z) | CallAccessible (a : Z)
| CallMatchLimit (l : Z) | CallReturnAttributes (b : bool) | CallReturnData (b : bool) | CallReturnRef (b : bool).

Definition apply_call (c : item_call) : Item -> Item :=
  match c with
  | CallSecClass sc => SetSecClass sc
  | CallService s => SetService s
  | CallServer s => SetServer s
  | CallProtocol s => SetProtocol s
  | CallAuthenticationType s => SetAuthenticationType s
  | CallPort v => SetPort v
  | CallPath s => SetPath s
  | CallAccount s => SetAccount s
  | CallLabel s => SetLabel s
  | CallDescription s => SetDescription s
  | CallComment s => SetComment s
  | CallData b => SetData b
  | CallGenericMetadata m => SetGenericMetadata m
  | CallAccessGroup s => SetAccessGroup s
  | CallSynchronizable sync => SetSynchronizable sync
  | CallUseDataProtectionKeychain v => SetUseDataProtectionKeychain v
  | CallAccessible a => SetAccessible a
  | CallMatchLimit l => SetMatchLimit l
  | CallReturnAttributes b => SetReturnAttributes b
  | CallReturnData b => SetReturnData b
  | CallReturnRef b => SetReturnRef b
  end.

Definition build (calls : list item_call) : Item := foldl (fun k c => apply_call c k) NewItem calls.

(** The arguments the package declares constants for. *)
Definition declared (c : item_call) : bool :=
  match c with
  | CallSecClass sc => bool_decide (sc ∈ [SecClassGenericPassword; SecClassInternetPassword])
  | CallSynchronizable sync => bool_decide (sync ∈ [SynchronizableDefault; SynchronizableAny; SynchronizableYes; SynchronizableNo])
  | CallUseDataProtectionKeychain v => bool_decide (v ∈ [UseDataProtectionKeychainYes; UseDataProtectionKeychainNo])
  | CallAccessible a => bool_decide (a ∈ [AccessibleDefault; AccessibleWhenUnlocked;
      AccessibleAfterFirstUnlock; AccessibleAlways; AccessibleWhenPasscodeSetThisDeviceOnly;
      AccessibleWhenUnlockedThisDeviceOnly; AccessibleAfterFirstUnlockThisDeviceOnly;
      AccessibleAccessibleAlwaysThisDeviceOnly])
  | CallMatchLimit l => bool_decide (l ∈ [MatchLimitDefault; MatchLimitOne; MatchLimitAll])
  | _ => true
  end.

(** The accessibility the item has in the end. *)
Definition accessibility (calls : list item_call) : Z :=
  foldl (fun a c => match c with CallAccessible a => a | _ => a end) AccessibleDefault calls.

(** ** Lemmas: null references in items *)

(** The one null reference is that of the accessibility without a constant. *)
Definition item_nulls (k : Item) (a : Z) : Prop :=
  (forall key, k !! key = Some (IRef "") -> key = AccessibleKey /\ a = AccessibleWhenPasscodeSetThisDeviceOnly) /\
  (a = AccessibleWhenPasscodeSetThisDeviceOnly -> k !! AccessibleKey = Some (IRef "")).

Lemma item_nulls_insert k a key v : item_nulls k a -> key <> AccessibleKey -> v <> IRef "" ->
  item_nulls (<[key := v]> k) a.
Proof.
  intros [H1 H2] Hk Hv. split.
  - intros key'. rewrite lookup_insert. case_decide; [congruence|apply H1].
  - intros Ha. rewrite lookup_insert_ne by done. by apply H2.
Qed.

Lemma item_nulls_delete k a key : item_nulls k a -> key <> AccessibleKey -> item_nulls (delete key k) a.
Proof.
  intros [H1 H2] Hk. split.
  - intros key'. rewrite lookup_delete. case_decide; [congruence|apply H1].
  - intros Ha. rewrite lookup_delete_ne by done. by apply H2.
Qed.

Lemma item_nulls_SetString k a key s : item_nulls k a -> key <> AccessibleKey -> item_nulls (SetString key s k) a.
Proof.
  intros Hi Hk. unfold SetString. destruct (negb _); [by apply item_nulls_insert|by apply item_nulls_delete].
Qed.

(** A declared value of an enumeration is one of its cases. *)
Ltac enumerate H :=
  apply bool_decide_eq_true in H;
  repeat (apply elem_of_cons in H as [->|H]); [..|by apply elem_of_nil in H].

Lemma item_nulls_accessible k a a' : item_nulls k a -> declared (CallAccessible a') = true ->
  item_nulls (SetAccessible a' k) a'.
Proof.
  intros [H1 _] Hc. assert (Hold : forall key, AccessibleKey <> key -> k !! key <> Some (IRef "")).
  { intros key Hne Hkey. by apply H1 in Hkey as [? _]. }
  split.
  - intros key. unfold SetAccessible. destruct (negb _) eqn:Hz.
    + rewrite lookup_insert. case_decide as Hk; [|intros Hkey; by destruct (Hold key Hk)].
      intros [= He]. split; [done|]. cbn [declared] in Hc. by enumerate Hc.
    + rewrite lookup_delete. case_decide as Hk; [done|]. intros Hkey. by destruct (Hold key Hk).
  - intros ->. apply lookup_insert_eq.
Qed.

Lemma item_nulls_apply c k a : declared c = true -> item_nulls k a ->
  item_nulls (apply_call c k) (match c with CallAccessible a => a | _ => a end).
Proof.
  intros Hc Hi. destruct c; cbn [apply_call] in *; try (by apply item_nulls_SetString);
    try (by apply item_nulls_insert).
  - cbn [declared] in Hc. apply item_nulls_insert; [done..|]. by enumerate Hc.
  - unfold SetPort, SetInt32. destruct (negb _); [by apply item_nulls_insert|by apply item_nulls_delete].
  - destruct b; [by apply item_nulls_insert|by apply item_nulls_delete].
  - cbn [declared] in Hc. unfold SetSynchronizable.
    enumerate Hc; [by apply item_nulls_delete|by apply item_nulls_insert..].
  - cbn [declared] in Hc. apply item_nulls_insert; [done..|]. by enumerate Hc.
  - by eapply item_nulls_accessible.
  - cbn [declared] in Hc. unfold SetMatchLimit.
    enumerate Hc; [by apply item_nulls_delete|by apply item_nulls_insert..].
Qed.

Lemma item_nulls_build calls : forallb declared calls = true -> item_nulls (build calls) (accessibility calls).
Proof.
  unfold build, accessibility. intros Hd.
  assert (Hi : item_nulls NewItem AccessibleDefault).
  { split; [|done]. intros key. unfold NewItem. by rewrite lookup_empty. }
  revert Hi. generalize NewItem, AccessibleDefault. induction calls as [|c calls IH]; intros k a Hi; [done|].
  cbn in Hd. apply andb_true_iff in Hd as [Hc Hd]. cbn [foldl]. apply IH; [done|].
  pose proof (item_nulls_apply c k a Hc Hi) as Hn. by destruct c.
Qed.

(** Without failing allocations the loop converts what can be converted. *)
Lemma convert_loop_ok gob_encode ValidString l m defers h :
  (forall key v, (key, v) ∈ l -> is_ok (StringToCFString ValidString key) = true /\
     is_ok (convert_value gob_encode ValidString v) = true) ->
  exists m' defers' h', convert_loop (fun _ => false) gob_encode ValidString l m defers h =
    Some ((Ok m', defers'), h').
Proof.
  revert m defers h. induction l as [|[key v] l IH]; intros m defers h Hok; [by eexists _, _, _|].
  destruct (Hok key v) as [Hk Hv]; [by left|]. cbn [convert_loop]. unfold mbind_.
  assert (Hstr : forall s h, is_ok (StringToCFString ValidString s) = true ->
    exists r h', cf_StringToCFString (fun _ => false) ValidString s h = Some (Ok r, h')).
  { intros s h'. unfold StringToCFString, cf_StringToCFString. destruct (negb _); [done|].
    destruct (_ <? _)%Z; [done|]. by eexists _, _. }
  assert (Hbytes : forall b h, is_ok (BytesToCFData b) = true ->
    exists r h', cf_BytesToCFData (fun _ => false) b h = Some (Ok r, h')).
  { intros b h'. unfold BytesToCFData, cf_BytesToCFData. destruct (_ <? _)%Z; [done|]. by eexists _, _. }
  assert (Hval : exists x owned h1, value_ref (fun _ => false) gob_encode ValidString v h = Some (Ok (x, owned), h1)).
  { destruct v as [c|b|n|b|s|g|]; cbn [value_ref convert_value] in *; unfold mbind_; try done; try by eexists _, _, _.
    - destruct (Hbytes b h Hv) as (r & h' & ->). by eexists _, _, _.
    - destruct (Hstr s h Hv) as (r & h' & ->). by eexists _, _, _.
    - destruct (gob_encode g) as [b|]; cbn in Hv; [|done].
      destruct (Hbytes b h Hv) as (r & h' & ->). by eexists _, _, _. }
  destruct Hval as (x & owned & h1 & ->). destruct (Hstr key h1 Hk) as (r & h2 & ->).
  apply IH. intros key' v' Hin. apply Hok. by right.
Qed.

(** ** Property: accessibility *)

(** Which items crash. An item built by any sequence of calls of the setters,
    with the constants the package declares, is converted without a crash,
    whatever else happens, unless its accessibility is in the end
    [AccessibleWhenPasscodeSetThisDeviceOnly]: the table of macos.go has no
    constant for that one, the item gets a null reference, no dictionary is ever
    made of it, and when nothing else is wrong with the item retaining the null
    reference ends the process. *)
Theorem setters_crash calls alloc_fails gob_encode ValidString ord ordm h :
  forallb declared calls = true -> MapOrder ord -> MapOrder ordm -> numbered h ->
  (forall s, alloc_fails (OString s) = false) -> (forall n, alloc_fails (ONumber n) = false) ->
  let item := build calls in
  (accessibility calls <> AccessibleWhenPasscodeSetThisDeviceOnly ->
     exists r h', cf_ConvertMapToCFDictionary alloc_fails gob_encode ValidString ord ordm item h = Some (r, h')) /\
  (accessibility calls = AccessibleWhenPasscodeSetThisDeviceOnly ->
     (forall d h', cf_ConvertMapToCFDictionary alloc_fails gob_encode ValidString ord ordm item h <> Some (Ok d, h')) /\
     (convertible gob_encode ValidString item ->
        cf_ConvertMapToCFDictionary (fun _ => false) gob_encode ValidString ord ordm item h = None)).
Proof.
  intros Hd Hord Hordm Hn Hstr Hnum item. destruct (item_nulls_build calls Hd) as [Hnull Hset].
  split; [|intros Ha; split].
  - intros Ha. assert (Hnz : forall key, item !! key <> Some (IRef "")).
    { intros key Hkey. by apply Hnull in Hkey as [_ ?]. }
    destruct (conversion_owned alloc_fails gob_encode ValidString ord ordm item h Hord Hordm Hn Hnz Hstr Hnum)
      as (r & h' & Hr & _). by exists r, h'.
  - intros d h' Hc. pose proof (conversion_null alloc_fails gob_encode ValidString ord ordm item _ h (Hset Ha)) as Hnc.
    by rewrite Hc in Hnc.
  - intros Hconv. destruct (convert_loop_ok gob_encode ValidString (range_map ord item) [] [] h) as (m & defers & h1 & Hl).
    { intros key v Hin%(elem_of_range_map ord). by apply Hconv. }
    assert (Hm : Null ∈ children (ODictionary m)).
    { eapply convert_loop_null; [exact Hl|]. left. exists AccessibleKey. apply (elem_of_range_map ord). by apply Hset. }
    unfold cf_ConvertMapToCFDictionary, mbind_. rewrite Hl. unfold MapToCFDictionary, CFDictionaryCreate, mbind_.
    cbn beta iota. rewrite retain_null; [done|].
    assert (Hp : ordm m ≡ₚ m) by exact (map_order_perm (ord := ordm) m).
    by rewrite (children_Permutation _ _ Hp).
Qed.

Lemma setters_crash_witness :
  cf_ConvertMapToCFDictionary (fun _ => false) (fun _ => Ok []) (fun _ => true) (fun l => l) (fun l => l)
    (build [CallService "svc"; CallAccessible AccessibleWhenPasscodeSetThisDeviceOnly]) empty_heap = None /\
  exists r h', cf_ConvertMapToCFDictionary (fun _ => false) (fun _ => Ok []) (fun _ => true) (fun l => l) (fun l => l)
    (build [CallAccessible AccessibleWhenPasscodeSetThisDeviceOnly; CallAccessible AccessibleAlways]) empty_heap =
    Some (r, h').
Proof.
  split.
  - destruct (setters_crash [CallService "svc"; CallAccessible AccessibleWhenPasscodeSetThisDeviceOnly]
      (fun _ => false) (fun _ => Ok []) (fun _ => true) (fun l => l) (fun l => l) empty_heap) as [_ H].
    + vm_compute. reflexivity.
    + apply _.
    + apply _.
    + intros i _. apply lookup_empty.
    + reflexivity.
    + reflexivity.
    + destruct (H eq_refl) as [_ Hc]. apply Hc. apply convertible_compute. vm_compute. reflexivity.
  - destruct (setters_crash [CallAccessible AccessibleWhenPasscodeSetThisDeviceOnly; CallAccessible AccessibleAlways]
      (fun _ => false) (fun _ => Ok []) (fun _ => true) (fun l => l) (fun l => l) empty_heap) as [H _].
    + vm_compute. reflexivity.
    + apply _.
    + apply _.
    + intros i _. apply lookup_empty.
    + reflexivity.
    + reflexivity.
    + apply H. discriminate.
Defined.

(** ** corefoundation.go: back to Go *)

Inductive GoValue : Type :=
| GoString (s : string)
| GoData (b : bytes)
| GoNum (n : GoNumber)
| GoBool (b : bool)
| GoSlice (l : list GoValue)
| GoMap (m : list (GoValue * GoValue)).

Inductive CFTypeID : Type :=
| StringTypeID | DictionaryTypeID | ArrayTypeID | DataTypeID | NumberTypeID | BooleanTypeID | OtherTypeID.

#[export] Instance GoNumber_eq_dec : EqDecision GoNumber.
Proof. solve_decision. Defined.

(** Keys of a Go map: a slice or a map as a key is a panic. *)
Definition hashable (v : GoValue) : bool :=
  match v with GoString _ | GoNum _ | GoBool _ => true | _ => false end.

Definition same_key (a b : GoValue) : bool :=
  match a, b with
  | GoString s, GoString t => String.eqb s t
  | GoNum n, GoNum m => bool_decide (n = m)
  | GoBool x, GoBool y => Bool.eqb x y
  | _, _ => false
  end.

Fixpoint go_set (k v : GoValue) (m : list (GoValue * GoValue)) : list (GoValue * GoValue) :=
  match m with
  | [] => [(k, v)]
  | (k', v') :: m' => if same_key k' k then (k', v) :: m' else (k', v') :: go_set k v m'
  end.

Section reading.
Context (alloc_fails : obj -> bool).
(** The text of the constants that are strings, and of the type descriptions. *)
Context (constant_text : string -> string) (type_text : CFTypeID -> string).
Context (ordm : list (ref * ref) -> list (ref * ref)).

Definition crash {A} : mem A := fun _ => None.

Definition boolean_constant (c : string) : option bool :=
  if String.eqb c "kCFBooleanTrue" then Some true else if String.eqb c "kCFBooleanFalse" then Some false else None.

(** The type of a constant or of an object that holds no others. *)
Definition leaf_type (v : CFValue) : CFTypeID :=
  match v with
  | CFConstant c => match boolean_constant c with Some _ => BooleanTypeID | None => StringTypeID end
  | CFBoolean _ => BooleanTypeID
  | CFNumber _ => NumberTypeID
  | CFData _ => DataTypeID
  | CFString _ => StringTypeID
  | _ => OtherTypeID
  end.

(** The object a reference points to; null and freed ones crash. *)
Definition deref (r : ref) : mem obj := fun h =>
  match r with
  | Obj i => match objs h !! i with Some (o, _) => Some (o, h) | None => None end
  | _ => None
  end.

Definition CFGetTypeID (r : ref) : mem CFTypeID := fun h =>
  match leaf_value h r with
  | Some v => Some (leaf_type v, h)
  | None =>
      match deref r h with
      | Some (ODictionary _, h) => Some (DictionaryTypeID, h)
      | Some (OArray _, h) => Some (ArrayTypeID, h)
      | _ => None
      end
  end.

(** A read of such a value; of the wrong type it crashes. *)
Definition read_leaf {A} (f : CFValue -> option A) (r : ref) : mem A := fun h =>
  match leaf_value h r ≫= f with Some a => Some (a, h) | None => None end.

Definition cf_CFStringToString : ref -> mem string :=
  read_leaf (fun v => match v with CFString s => Some s | CFConstant c => Some (constant_text c) | _ => None end).

Definition ref_CFDataToBytes : ref -> mem bytes :=
  read_leaf (fun v => match v with
    | CFData b => match cf_CFDataToBytes b with Returns b => Some b | Panics _ => None end
    | _ => None
    end).

Definition CFBooleanGetValue : ref -> mem bool :=
  read_leaf (fun v => match v with CFBoolean b => Some b | CFConstant c => boolean_constant c | _ => None end).

(** The numbers of the package are 32-bit. *)
Definition ref_CFNumberToInterface : ref -> mem GoNumber :=
  read_leaf (fun v => match v with
    | CFNumber n => match CFNumberToInterface SInt32Type n with Returns n => Some n | Panics _ => None end
    | _ => None
    end).

Definition CFArrayToArray (r : ref) : mem (list ref) :=
  o <-- deref r ;;
  match o with OArray a => mret a | _ => crash end.

Definition CFDictionaryToMap (r : ref) : mem (list (ref * ref)) :=
  o <-- deref r ;;
  match o with ODictionary m => mret m | _ => crash end.

(** The description is a new string, released once it is read. *)
Definition CFTypeDescription (r : ref) : mem string :=
  typeID <-- CFGetTypeID r ;;
  typeDesc <-- create alloc_fails (OString (type_text typeID)) ;;
  s <-- cf_CFStringToString typeDesc ;;
  _ <-- Release typeDesc ;;
  mret s.

(** The loops of [Convert] over an array and of [ConvertCFDictionary]. *)
Fixpoint convert_array (conv : ref -> mem (result goerror GoValue)) (l : list ref) (results : list GoValue)
  : mem (result goerror GoValue) :=
  match l with
  | [] => mret (Ok (GoSlice results))
  | r :: l' =>
      v <-- conv r ;;
      match v with
      | Err err => mret (Err err)
      | Ok v => convert_array conv l' (results ++ [v])
      end
  end.

Fixpoint convert_entries (conv : ref -> mem (result goerror GoValue)) (l : list (ref * ref))
    (m : list (GoValue * GoValue)) : mem (result goerror GoValue) :=
  match l with
  | [] => mret (Ok (GoMap m))
  | (k, v) :: l' =>
      gk <-- conv k ;;
      match gk with
      | Err err => mret (Err err)
      | Ok gk =>
          gv <-- conv v ;;
          match gv with
          | Err err => mret (Err err)
          | Ok gv => if hashable gk then convert_entries conv l' (go_set gk gv m) else crash
          end
      end
  end.

Definition ConvertCFDictionary_with (conv : ref -> mem (result goerror GoValue)) (d : ref)
  : mem (result goerror GoValue) :=
  m <-- CFDictionaryToMap d ;;
  convert_entries conv (ordm m) [].

(** [fuel] bounds the depth of the objects. *)
Fixpoint Convert (fuel : nat) (r : ref) : mem (result goerror GoValue) :=
  match fuel with
  | O => crash
  | Datatypes.S fuel' =>
      typeID <-- CFGetTypeID r ;;
      match typeID with
      | StringTypeID => s <-- cf_CFStringToString r ;; mret (Ok (GoString s))
      | DictionaryTypeID => ConvertCFDictionary_with (Convert fuel') r
      | ArrayTypeID => a <-- CFArrayToArray r ;; convert_array (Convert fuel') a []
      | DataTypeID => b <-- ref_CFDataToBytes r ;; mret (Ok (GoData b))
      | NumberTypeID => n <-- ref_CFNumberToInterface r ;; mret (Ok (GoNum n))
      | BooleanTypeID => b <-- CFBooleanGetValue r ;; mret (Ok (GoBool b))
      | OtherTypeID => _ <-- CFTypeDescription r ;; mret (Err (ErrorNew "invalid type: %s"))
      end
  end.

Definition ConvertCFDictionary (fuel : nat) : ref -> mem (result goerror GoValue) :=
  ConvertCFDictionary_with (Convert fuel).
End reading.

(** ** Lemmas: reading back *)

Section read_back.
Context (alloc_fails : obj -> bool) (constant_text : string -> string) (type_text : CFTypeID -> string).
Context (ordm : list (ref * ref) -> list (ref * ref)) `{!MapOrder ordm}.
Context (gob_encode : gmap string string -> result goerror bytes).

Local Abbreviation Convert := (Convert alloc_fails constant_text type_text ordm).
Local Abbreviation ConvertCFDictionary := (ConvertCFDictionary alloc_fails constant_text type_text ordm).

(** What a value of an item is when it comes back. *)
Definition value_back (v : ItemValue) : GoValue :=
  match v with
  | IRef c => match boolean_constant c with Some b => GoBool b | None => GoString (constant_text c) end
  | IBool b => GoBool b
  | IInt32 n => GoNum (GoInt32 n)
  | IBytes b => GoData b
  | IString s => GoString s
  | IMap m => match gob_encode m with Ok b => GoData b | Err _ => GoData [] end
  | IUnsupported => GoData []
  end.

(** Data small enough to be read (the 2 GiB of a C int). *)
Definition readable (v : ItemValue) : Prop :=
  match v with
  | IBytes b => (Z.of_nat (length b) < 2 ^ 31)%Z
  | IMap m => forall b, gob_encode m = Ok b -> (Z.of_nat (length b) < 2 ^ 31)%Z
  | _ => True
  end.

Lemma cf_CFDataToBytes_small b : (Z.of_nat (length b) < 2 ^ 31)%Z -> cf_CFDataToBytes b = Returns b.
Proof.
  intros Hb. unfold cf_CFDataToBytes, int32_wrap. rewrite Z.mod_small by lia.
  rewrite (proj2 (Z.ltb_ge _ _)) by lia. rewrite firstn_all2; [done|]. lia.
Qed.

(** A reference made of a value converts to it. *)
Lemma Convert_value ValidString v cv r h fuel : convert_value gob_encode ValidString v = Ok cv -> readable v ->
  leaf_value h r = Some cv -> Convert (Datatypes.S fuel) r h = Some (Ok (value_back v), h).
Proof.
  intros Hv Hr Hl.
  assert (Hc : match v with
    | IRef c => cv = CFConstant c | IBool b => cv = CFBoolean b | IInt32 n => cv = CFNumber n
    | IBytes b => cv = CFData b | IString s => cv = CFString s
    | IMap m => exists b, gob_encode m = Ok b /\ cv = CFData b | IUnsupported => False
    end).
  { destruct v; cbn in Hv; try by simplify_eq.
    - unfold BytesToCFData in Hv. by case_match; simplify_eq.
    - unfold StringToCFString in Hv. by repeat case_match; simplify_eq.
    - destruct (gob_encode m) as [b|]; cbn in Hv; [|done]. exists b. split; [done|].
      unfold BytesToCFData in Hv. by case_match; simplify_eq. }
  cbn [Conversions.Convert]. unfold mbind_, CFGetTypeID, cf_CFStringToString, ref_CFDataToBytes, CFBooleanGetValue,
    ref_CFNumberToInterface, read_leaf, mret. rewrite Hl.
  destruct v as [c|b|n|b|s|m|]; [subst cv..| |done]; cbn [leaf_type value_back readable] in *.
  - destruct (boolean_constant c) eqn:Hb; rewrite Hl; cbn; [by rewrite Hb|done].
  - by rewrite Hl.
  - by rewrite Hl.
  - rewrite Hl. cbn. by rewrite cf_CFDataToBytes_small.
  - by rewrite Hl.
  - destruct Hc as (b & Hg & ->). cbn [leaf_type]. rewrite Hl, Hg. cbn. rewrite cf_CFDataToBytes_small; [done|].
    by apply Hr.
Qed.

(** The entries of a dictionary with distinct string keys. *)
Lemma go_set_new k v m : (forall kv, kv ∈ m -> same_key kv.1 k = false) -> go_set k v m = m ++ [(k, v)].
Proof.
  induction m as [|[k' v'] m IH]; intros Hno; [done|]. cbn.
  assert (Hs : same_key k' k = false) by (apply (Hno (k', v')); by left). rewrite Hs. f_equal. apply IH. intros kv Hin. apply Hno. by right.
Qed.

Definition binding_back (kv : string * ItemValue) : GoValue * GoValue := (GoString kv.1, value_back kv.2).

Lemma convert_entries_back ValidString h fuel entries l acc :
  Forall2 (fun e kv => exists cv, convert_value gob_encode ValidString kv.2 = Ok cv /\ readable kv.2 /\
    entry_value h e = Some (kv.1, cv)) entries l ->
  NoDup (acc.*1 ++ l.*1) ->
  convert_entries (Convert (Datatypes.S fuel)) entries (map binding_back acc) h =
    Some (Ok (GoMap (map binding_back (acc ++ l))), h).
Proof.
  intros HF. revert acc. induction HF as [|[k r] [key v] entries l (cv & Hv & Hr & He) HF IH]; intros acc Hnd.
  { by rewrite app_nil_r. }
  unfold entry_value in He. cbn [fst snd] in *.
  destruct (leaf_value h k) as [ck|] eqn:Hk; [|done]. destruct ck; try done.
  destruct (leaf_value h r) as [cr|] eqn:Hl; [|done]. injection He as -> ->.
  assert (Hkey : Convert (Datatypes.S fuel) k h = Some (Ok (GoString key), h)).
  { cbn [Conversions.Convert]. unfold mbind_, CFGetTypeID, cf_CFStringToString, read_leaf, mret. rewrite Hk.
    cbn [leaf_type]. by rewrite Hk. }
  cbn [convert_entries]. unfold mbind_. rewrite Hkey, (Convert_value ValidString v cv) by done. cbn [hashable].
  rewrite go_set_new.
  - change ([(GoString key, value_back v)]) with (map binding_back [(key, v)]). rewrite <- map_app, IH.
    + by rewrite <- app_assoc.
    + rewrite fmap_app, <- app_assoc. exact Hnd.
  - intros kv Hin. apply list_elem_of_fmap in Hin as ([key' v'] & -> & Hin). cbn.
    apply String.eqb_neq. intros ->. cbn [fmap list_fmap fst] in Hnd. rewrite list.NoDup_app in Hnd.
    destruct Hnd as (_ & Hnd & _). apply (Hnd key); [|by left]. apply list_elem_of_fmap. by exists (key, v').
Qed.
End read_back.

Lemma convert_bindings_Forall2 gob_encode ValidString l l' : convert_bindings gob_encode ValidString l = Ok l' ->
  Forall2 (fun kv p => p.1 = kv.1 /\ convert_value gob_encode ValidString kv.2 = Ok p.2) l l'.
Proof.
  revert l'. induction l as [|[key v] l IH]; intros l' Hl; cbn [convert_bindings] in Hl; [by simplify_eq|].
  destruct (convert_value gob_encode ValidString v) as [cv|] eqn:Hv; [|done]. cbn [result_bind] in Hl.
  destruct (StringToCFString ValidString key); [|done]. cbn [result_bind] in Hl.
  destruct (convert_bindings gob_encode ValidString l) as [rest|]; [|done]. cbn [result_bind] in Hl.
  injection Hl as <-. constructor; [split; [reflexivity|exact Hv]|by apply IH].
Qed.

(** The description of a type leaves no string behind. *)
Lemma CFTypeDescription_released alloc_fails constant_text type_text r h t : numbered h ->
  (forall s, alloc_fails (OString s) = false) -> CFGetTypeID r h = Some (t, h) ->
  exists h', CFTypeDescription alloc_fails constant_text type_text r h = Some (type_text t, h') /\ objs h' = objs h.
Proof.
  intros Hn Ha Ht. unfold CFTypeDescription, mbind_. rewrite Ht. unfold create. rewrite Ha.
  unfold cf_CFStringToString, read_leaf. cbn [leaf_value objs]. rewrite lookup_insert_eq. cbn [mbind option_bind].
  unfold Release. cbn [objs]. destruct (size _) as [|fuel] eqn:Hs.
  { apply map_size_empty_inv in Hs. exfalso. exact (insert_non_empty _ _ _ Hs). }
  cbn [release objs]. rewrite lookup_insert_eq. cbn [children foldl]. unfold mret. eexists. split; [done|].
  cbn [objs set_objs]. apply delete_insert_id, Hn. lia.
Qed.

(** ** Property: conversion and back *)


