(* ===== verification/KeychainItems.v ===== *)
(** Package store/keychain/internal/go-keychain: what it offers beside the calls
    of the store, that is the constructors and the convenience functions of
    keychain.go for generic passwords, and the conformance test that bind/bind.go
    exports. *)

From S2P Require Import Prelude GoErrors GoStrings Secrets Store Keychain KeychainDarwin.

(** ** keychain.go: generic passwords *)

Section generic.
Context {W : Type} `{SecurityFramework W}.
Context (status_code : OSStatus -> Z).
Context (gob_encode : gmap string string -> result goerror bytes).
Context (gob_decode : bytes -> result goerror (gmap string ItemValue)).
Context (ValidString : string -> bool).
Context (ord : list (string * ItemValue) -> list (string * ItemValue)).

Definition NewGenericPassword (service account label : string) (data : option bytes) (accessGroup : string) : Item :=
  let item := NewItem in
  let item := SetSecClass SecClassGenericPassword item in
  let item := SetService service item in
  let item := SetAccount account item in
  let item := SetLabel label item in
  let item := SetData data item in
  SetAccessGroup accessGroup item.

Definition DeleteGenericPasswordItem (service account : string) : comp W goerror unit :=
  let item := NewItem in
  let item := SetSecClass SecClassGenericPassword item in
  let item := SetService service item in
  let item := SetAccount account item in
  DeleteItem status_code gob_encode ValidString ord item.

(** The query of [GetGenericPasswordAccounts]. *)
Definition accounts_query (service : string) : Item :=
  let query := NewItem in
  let query := SetSecClass SecClassGenericPassword query in
  let query := SetService service query in
  let query := SetMatchLimit MatchLimitAll query in
  SetReturnAttributes true query.

Definition GetGenericPasswordAccounts (service : string) : comp W goerror (list string) :=
  results <-! QueryItem status_code gob_encode gob_decode ValidString ord (accounts_query service) ;;
  ret (map q_Account results).

Definition GetAccountsForService : string -> comp W goerror (list string) := GetGenericPasswordAccounts.

(** The query of [GetGenericPassword]. *)
Definition password_query (service account label accessGroup : string) : Item :=
  let query := NewItem in
  let query := SetSecClass SecClassGenericPassword query in
  let query := SetService service query in
  let query := SetAccount account query in
  let query := SetLabel label query in
  let query := SetAccessGroup accessGroup query in
  let query := SetMatchLimit MatchLimitOne query in
  SetReturnData true query.

(** [None] is the nil slice of no password. *)
Definition GetGenericPassword (service account label accessGroup : string) : comp W goerror (option bytes) :=
  results <-! QueryItem status_code gob_encode gob_decode ValidString ord
    (password_query service account label accessGroup) ;;
  match results with
  | [] => ret None
  | [r] => ret (Some (q_Data r))
  | _ => throw (ErrorNew "too many results")
  end.

(** ** bind/bind.go *)

Definition AddGenericPassword (service account label password accessGroup : string) : comp W goerror unit :=
  let item := NewGenericPassword service account label (Some (bytes_of password)) accessGroup in
  AddItem status_code gob_encode ValidString ord item.

(** The item of [DeleteGenericPassword]. *)
Definition deleted_item (service account accessGroup : string) : Item :=
  let item := NewItem in
  let item := SetSecClass SecClassGenericPassword item in
  let item := SetService service item in
  let item := SetAccount account item in
  SetAccessGroup accessGroup item.

Definition DeleteGenericPassword (service account accessGroup : string) : comp W goerror unit :=
  DeleteItem status_code gob_encode ValidString ord (deleted_item service account accessGroup).

(** A test reports failures to [t.Fail] and goes on; its error is a panic. *)
Inductive failure : Type :=
| Fail_error (err : goerror)
| Fail_msg (s : string).

Definition test (A : Type) : Type := comp (W * list failure) goerror A.

Definition Fail (f : failure) : test unit := fun '(w, l) => (Ok tt, (w, l ++ [f])).

(** A call of the package, whose error is a value. *)
Definition call {A} (m : comp W goerror A) : test (result goerror A) := fun '(w, l) =>
  let '(r, w) := m w in (Ok r, (w, l)).

Definition no_error {A} (r : result goerror A) : test unit :=
  match r with Err err => Fail (Fail_error err) | Ok _ => ret tt end.

Definition expect (b : bool) (s : string) : test unit := if b then ret tt else Fail (Fail_msg s).

(** The value of a result, nil with an error; and its first element. *)
Definition listed {A} (r : result goerror (list A)) : list A := match r with Ok l => l | Err _ => [] end.
Definition first {A} (l : list A) : test A :=
  match l with x :: _ => ret x | [] => throw (ErrorNew "index out of range [0] with length 0") end.

Definition failed_with {A} (r : result goerror A) (k : OSStatus) : bool :=
  match r with Err err => same_error err (keychain_Error status_code k) | Ok _ => false end.

Definition test_account : string := "Testing account with unicode テスト".
Definition test_account2 : string := "Testing account #2".

Definition test_item (service accessGroup : string) : Item :=
  SetAccessible AccessibleWhenUnlocked (SetSynchronizable SynchronizableNo
    (NewGenericPassword service test_account "" (Some (bytes_of "toomanysecrets")) accessGroup)).
Definition test_item2 (service accessGroup : string) : Item :=
  NewGenericPassword service test_account2 "" (Some (bytes_of "toomanysecrets2")) accessGroup.

(** The query of the test for the attributes of its account. *)
Definition attributes_query (service account accessGroup : string) : Item :=
  let query := NewItem in
  let query := SetSecClass SecClassGenericPassword query in
  let query := SetService service query in
  let query := SetAccount account query in
  let query := SetAccessGroup accessGroup query in
  let query := SetMatchLimit MatchLimitAll query in
  SetReturnAttributes true query.

Definition data_query (service account accessGroup : string) : Item :=
  let query := NewItem in
  let query := SetSecClass SecClassGenericPassword query in
  let query := SetService service query in
  let query := SetAccount account query in
  let query := SetAccessGroup accessGroup query in
  let query := SetMatchLimit MatchLimitOne query in
  SetReturnData true query.

Definition add (item : Item) : test (result goerror unit) := call (AddItem status_code gob_encode ValidString ord item).
Definition del (item : Item) : test (result goerror unit) :=
  call (DeleteItem status_code gob_encode ValidString ord item).
Definition query (item : Item) : test (result goerror (list QueryResult)) :=
  call (QueryItem status_code gob_encode gob_decode ValidString ord item).
Definition accounts (service : string) : test (result goerror (list string)) :=
  call (GetGenericPasswordAccounts service).

(** The part of the test that looks at what it added. *)
Definition test_queries (service accessGroup : string) : test unit :=
  r <-! query (attributes_query service test_account accessGroup) ;;
  _ <-! no_error r ;;
  _ <-! expect (length (listed r) =? 1)%nat "Invalid results count: %d" ;;
  r0 <-! first (listed r) ;;
  _ <-! expect (String.eqb (q_Service r0) service) "Invalid service, %v != %v, %v" ;;
  _ <-! expect (String.eqb (q_Account r0) test_account) "Invalid account, %v != %v, %v" ;;
  _ <-! expect (length (q_Data r0) =? 0)%nat "Password shouldn't come back when returning attributes" ;;
  r <-! query (data_query service test_account accessGroup) ;;
  _ <-! no_error r ;;
  _ <-! expect (length (listed r) =? 1)%nat "Too many results" ;;
  r0 <-! first (listed r) ;;
  _ <-! expect (bool_decide (q_Data r0 = bytes_of "toomanysecrets")) "Invalid password" ;;
  r <-! accounts service ;;
  _ <-! no_error r ;;
  _ <-! expect (length (listed r) =? 2)%nat "Should have 2 accounts: %v" ;;
  expect (bool_decide (listed r = [test_account; test_account2])) "Invalid accounts: %v".

(** The part that removes its account again. *)
Definition test_removal (service accessGroup : string) : test unit :=
  r <-! del (deleted_item service test_account accessGroup) ;;
  _ <-! no_error r ;;
  r <-! query (attributes_query service test_account accessGroup) ;;
  _ <-! no_error r ;;
  _ <-! expect (length (listed r) =? 0)%nat "Results should have been empty" ;;
  r <-! accounts service ;;
  _ <-! no_error r ;;
  _ <-! expect (length (listed r) =? 1)%nat "Should have an account" ;;
  r <-! del (test_item service accessGroup) ;;
  expect (failed_with r errSecItemNotFound) "Error should be not found".

Definition GenericPasswordTest (service accessGroup : string) : test unit :=
  let item := test_item service accessGroup in
  let item2 := test_item2 service accessGroup in
  deferring (deferring (
    r <-! accounts service ;;
    _ <-! no_error r ;;
    _ <-! expect (length (listed r) =? 0)%nat "Should have no accounts" ;;
    r <-! add item ;;
    _ <-! no_error r ;;
    r <-! add item ;;
    _ <-! expect (failed_with r errSecDuplicateItem) "Should error with duplicate item" ;;
    r <-! add item2 ;;
    _ <-! no_error r ;;
    _ <-! test_queries service accessGroup ;;
    test_removal service accessGroup)
  (fun _ => _ <-! del item2 ;; ret tt))
  (fun _ => _ <-! del item ;; ret tt).
End generic.

(** ** A keychain that is searched *)

(** What it keeps of a generic password under its service, access group ("" for
    the default one) and account. *)
Record Entry : Type := { e_label : string; e_data : bytes; e_generic : option bytes }.

Abbreviation entries := (gmap (string * string * string) Entry) (only parsing).

Definition wanted (want : option string) (s : string) : bool :=
  match want with Some x => String.eqb x s | None => true end.

(** The search attributes of a dictionary. *)
Definition selects (d : list (string * CFValue)) (kp : string * string * string * Entry) : bool :=
  wanted (cf_string ServiceKey d) kp.1.1.1 && wanted (cf_string AccessGroupKey d) kp.1.1.2 &&
  wanted (cf_string AccountKey d) kp.1.2 && wanted (cf_string LabelKey d) (e_label kp.2).

Definition selected (d : list (string * CFValue)) (m : entries) : list (string * string * string * Entry) :=
  base.filter (fun kp => selects d kp = true) (map_to_list m).

(** A dictionary that searches by these attributes alone. *)
Definition plain (d : list (string * CFValue)) : Prop := forall key, cf_lookup key d <> None ->
  key ∈ [SecClassKey; ServiceKey; AccessGroupKey; AccountKey; LabelKey; DataKey; MatchLimitKey;
         ReturnAttributesKey; ReturnDataKey].

Definition generic_class (d : list (string * CFValue)) : Prop :=
  cf_lookup SecClassKey d = Some (CFConstant "kSecClassGenericPassword").

Definition entry_described (kp : string * string * string * Entry) (d : list (string * CFValue)) : Prop :=
  NoDup d.*1 /\ cf_lookup ServiceKey d = Some (CFString kp.1.1.1) /\
  cf_lookup AccountKey d = Some (CFString kp.1.2) /\
  cf_lookup AttrGenericKey d = CFData <$> e_generic kp.2 /\ cf_lookup DataKey d = None.

(** The two kinds of answers the package asks for: the data of one password, and
    the attributes of all. *)
Definition answered (d : list (string * CFValue)) (l : list (string * string * string * Entry))
    (answer : OSStatus * option CFValue) : Prop :=
  match l with
  | [] => answer = (errSecItemNotFound, None)
  | kp :: _ =>
      (cf_lookup MatchLimitKey d = Some (CFConstant "kSecMatchLimitOne") ->
       cf_lookup ReturnDataKey d = Some (CFBoolean true) -> cf_lookup ReturnAttributesKey d = None ->
       answer = (errSecSuccess, Some (CFData (e_data kp.2)))) /\
      (cf_lookup MatchLimitKey d = Some (CFConstant "kSecMatchLimitAll") ->
       cf_lookup ReturnAttributesKey d = Some (CFBoolean true) -> cf_lookup ReturnDataKey d = None ->
       exists arr, answer = (errSecSuccess, Some (CFArray arr)) /\
         Forall2 (fun x kp => exists d', x = CFDictionary d' /\ entry_described kp d') arr l)
  end.

(** What Apple documents of the calls for an unlocked keychain: passwords are a
    map; a search finds what has its attributes, in some order; a deletion
    removes what a search would find. *)
Class SearchableKeychain (W : Type) `{SecurityFramework W} (passwords : W -> entries) : Prop := {
  sk_add d s a b w : generic_class d -> cf_string ServiceKey d = Some s -> cf_string AccountKey d = Some a ->
    cf_data DataKey d = Some b ->
    let key := (s, default "" (cf_string AccessGroupKey d), a) in
    match passwords w !! key with
    | Some _ => exists w', SecItemAdd d w = (errSecDuplicateItem, w') /\ passwords w' = passwords w
    | None => exists w' e, SecItemAdd d w = (errSecSuccess, w') /\ passwords w' = <[key := e]> (passwords w) /\
        e_data e = b /\ e_generic e = cf_data AttrGenericKey d /\
        (forall l, cf_string LabelKey d = Some l -> e_label e = l)
    end;
  sk_copy d w : generic_class d -> plain d -> cf_lookup DataKey d = None ->
    exists l answer w', l ≡ₚ selected d (passwords w) /\ SecItemCopyMatching d w = (answer, w') /\
      passwords w' = passwords w /\ answered d l answer;
  sk_delete d w : generic_class d -> plain d ->
    (forall kp, kp ∈ selected d (passwords w) ->
       cf_lookup DataKey d = None \/ cf_lookup DataKey d = Some (CFData (e_data kp.2))) ->
    exists w', SecItemDelete d w =
        (match selected d (passwords w) with [] => errSecItemNotFound | _ => errSecSuccess end, w') /\
      passwords w' = base.filter (fun kp => selects d kp = false) (passwords w);
  sk_delete_none d w : generic_class d -> selected d (passwords w) = [] ->
    exists w', SecItemDelete d w = (errSecItemNotFound, w') /\ passwords w' = passwords w
}.

(** ** Lemmas: dictionaries of items *)

Definition item_string (key : string) (item : Item) : option string :=
  match item !! key with Some (IString s) => Some s | _ => None end.

Definition item_selects (item : Item) (kp : string * string * string * Entry) : bool :=
  wanted (item_string ServiceKey item) kp.1.1.1 && wanted (item_string AccessGroupKey item) kp.1.1.2 &&
  wanted (item_string AccountKey item) kp.1.2 && wanted (item_string LabelKey item) (e_label kp.2).

Definition item_selected (item : Item) (m : entries) : list (string * string * string * Entry) :=
  base.filter (fun kp => item_selects item kp = true) (map_to_list m).

(** The keys of an item among those of a search. *)
Definition item_plain (item : Item) : bool :=
  forallb (fun kv => bool_decide (kv.1 ∈ [SecClassKey; ServiceKey; AccessGroupKey; AccountKey; LabelKey; DataKey;
    MatchLimitKey; ReturnAttributesKey; ReturnDataKey])) (map_to_list item).

Section items.
Context {W : Type} `{SearchableKeychain W passwords}.
Context (status_code : OSStatus -> Z).
Context (gob_encode : gmap string string -> result goerror bytes).
Context (gob_decode : bytes -> result goerror (gmap string ItemValue)).
Context (ValidString : string -> bool).
Context (ord : list (string * ItemValue) -> list (string * ItemValue)) `{!MapOrder ord}.

Local Abbreviation convertible := (convertible gob_encode ValidString).

(** The dictionary of an item says what the item does. *)
Lemma item_dictionary (item : Item) : convertible item ->
  exists d, ConvertMapToCFDictionary gob_encode ValidString ord item = Ok d /\
    (forall key, cf_string key d = item_string key item) /\
    (forall key c, item !! key = Some (IRef c) -> cf_lookup key d = Some (CFConstant c)) /\
    (forall key b, item !! key = Some (IBool b) -> cf_lookup key d = Some (CFBoolean b)) /\
    (forall key b, item !! key = Some (IBytes b) -> cf_lookup key d = Some (CFData b)) /\
    (forall key, item !! key = None <-> cf_lookup key d = None).
Proof.
  intros Hc. destruct (Convert_spec gob_encode ValidString ord item Hc) as (d & Hd & Hl).
  exists d. split; [exact Hd|]. split_and!; intros key.
  - unfold cf_string, item_string. rewrite Hl. destruct (item !! key) as [v|] eqn:Hv; [|done].
    destruct (Hc _ _ Hv) as [_ Hcv]. cbn. unfold converted.
    revert Hcv. destruct v as [c|b|n|b|t|m|]; cbn; try done.
    + unfold BytesToCFData. by destruct (_ <? _)%Z.
    + unfold StringToCFString. destruct (negb _); [done|]. by destruct (_ <? _)%Z.
    + destruct (gob_encode m) as [b|]; cbn; [|done]. unfold BytesToCFData. by destruct (_ <? _)%Z.
  - intros c Hv. rewrite Hl, Hv. done.
  - intros b Hv. rewrite Hl, Hv. done.
  - intros b Hv. rewrite Hl, Hv. destruct (Hc _ _ Hv) as [_ Hcv]. cbn in *. unfold converted. cbn.
    by destruct (BytesToCFData b) eqn:Hb; unfold BytesToCFData in Hb; case_match; simplify_eq.
  - rewrite Hl. destruct (item !! key) as [v|] eqn:Hv; [|done]. destruct (Hc _ _ Hv) as [_ Hcv]. cbn.
    unfold converted. by destruct (convert_value _ _ v).
Qed.

Lemma item_plain_spec (item : Item) d : item_plain item = true ->
  (forall key, item !! key = None <-> cf_lookup key d = None) -> plain d.
Proof.
  intros Hp Hn key Hk. destruct (item !! key) as [v|] eqn:Hv; [|by apply Hn in Hv].
  unfold item_plain in Hp. rewrite forallb_elem in Hp.
  specialize (Hp (key, v) (proj2 (elem_of_map_to_list _ _ _) Hv)). by apply bool_decide_eq_true in Hp.
Qed.

Lemma item_selects_spec (item : Item) d m : (forall key, cf_string key d = item_string key item) ->
  selected d m = item_selected item m /\ forall kp, selects d kp = item_selects item kp.
Proof.
  intros Hs. assert (Hk : forall kp, selects d kp = item_selects item kp).
  { intros kp. unfold selects, item_selects. by rewrite !Hs. }
  split; [|done]. unfold selected, item_selected. apply list_filter_iff. intros kp. by rewrite Hk.
Qed.

(** ** Lemmas: the calls *)

Definition password_item (item : Item) : Prop :=
  convertible item /\ item !! SecClassKey = Some (IRef "kSecClassGenericPassword").

Lemma run_add (item : Item) s a b w : password_item item ->
  item_string ServiceKey item = Some s -> item_string AccountKey item = Some a ->
  item !! DataKey = Some (IBytes b) -> item !! AttrGenericKey = None ->
  let key := (s, default "" (item_string AccessGroupKey item), a) in
  match passwords w !! key with
  | Some _ => exists w', AddItem status_code gob_encode ValidString ord item w =
      (Err (keychain_Error status_code errSecDuplicateItem), w') /\ passwords w' = passwords w
  | None => exists w' e, AddItem status_code gob_encode ValidString ord item w = (Ok tt, w') /\
      passwords w' = <[key := e]> (passwords w) /\ e_data e = b /\ e_generic e = None /\
      (forall l, item_string LabelKey item = Some l -> e_label e = l)
  end.
Proof.
  intros [Hc Hcl] Hs Ha Hb Hg key. destruct (item_dictionary item Hc)
    as (d & Hd & Hstr & Hcon & _ & Hdat & Hnone).
  pose proof (sk_add d s a b w) as Hadd. rewrite !Hstr in Hadd.
  specialize (Hadd (Hcon _ _ Hcl) Hs Ha). unfold cf_data in Hadd. rewrite (Hdat _ _ Hb) in Hadd.
  specialize (Hadd eq_refl). rewrite (proj1 (Hnone AttrGenericKey) Hg) in Hadd.
  unfold AddItem, bind, lift. rewrite Hd. fold key in Hadd. cbv zeta in Hadd.
  destruct (passwords w !! key) as [e|].
  - destruct Hadd as (w' & -> & Hp). by exists w'.
  - destruct Hadd as (w' & e & -> & Hp & Hed & Heg & Hel). exists w', e. split; [done|].
    split; [done|]. split; [done|]. done.
Qed.

Lemma run_delete (item : Item) w : password_item item -> item_plain item = true ->
  (forall kp, kp ∈ item_selected item (passwords w) ->
     item !! DataKey = None \/ item !! DataKey = Some (IBytes (e_data kp.2))) ->
  exists w', DeleteItem status_code gob_encode ValidString ord item w =
      (match item_selected item (passwords w) with
       | [] => Err (keychain_Error status_code errSecItemNotFound) | _ => Ok tt end, w') /\
    passwords w' = base.filter (fun kp => item_selects item kp = false) (passwords w).
Proof.
  intros [Hc Hcl] Hp Hdata. destruct (item_dictionary item Hc)
    as (d & Hd & Hstr & Hcon & _ & Hdat & Hnone).
  destruct (item_selects_spec item d (passwords w) Hstr) as [Hsel Hs].
  destruct (sk_delete d w (Hcon _ _ Hcl) (item_plain_spec item d Hp Hnone)) as (w' & Hdel & Hpw).
  { intros kp. rewrite Hsel. intros Hin. destruct (Hdata kp Hin) as [He|He]; [left|right].
    - by apply Hnone.
    - by apply Hdat. }
  exists w'. unfold DeleteItem, bind, lift. rewrite Hd, Hdel, Hsel. split.
  - by destruct (item_selected item (passwords w)).
  - rewrite Hpw. apply map_filter_ext. intros i x _. by rewrite Hs.
Qed.

(** With more attributes, or without a password that has these, nothing is
    found. *)
Lemma run_delete_none (item : Item) w : password_item item -> item_selected item (passwords w) = [] ->
  exists w', DeleteItem status_code gob_encode ValidString ord item w =
    (Err (keychain_Error status_code errSecItemNotFound), w') /\ passwords w' = passwords w.
Proof.
  intros [Hc Hcl] Hnil. destruct (item_dictionary item Hc)
    as (d & Hd & Hstr & Hcon & _).
  destruct (item_selects_spec item d (passwords w) Hstr) as [Hsel _]. rewrite <- Hsel in Hnil.
  destruct (sk_delete_none d w (Hcon _ _ Hcl) Hnil) as (w' & Hdel & Hpw).
  exists w'. unfold DeleteItem, bind, lift. by rewrite Hd, Hdel.
Qed.

(** A search for the data of one password. *)
Lemma run_data_query (item : Item) w : password_item item -> item_plain item = true -> item !! DataKey = None ->
  item !! MatchLimitKey = Some (IRef "kSecMatchLimitOne") -> item !! ReturnDataKey = Some (IBool true) ->
  item !! ReturnAttributesKey = None ->
  exists l w', l ≡ₚ item_selected item (passwords w) /\ passwords w' = passwords w /\
    exists results, QueryItem status_code gob_encode gob_decode ValidString ord item w = (Ok results, w') /\
      map q_Data results = match l with [] => [] | kp :: _ => [e_data kp.2] end.
Proof.
  intros [Hc Hcl] Hp Hno Hl Hrd Hra. destruct (item_dictionary item Hc)
    as (d & Hd & Hstr & Hcon & Hbool & _ & Hnone).
  destruct (item_selects_spec item d (passwords w) Hstr) as [Hsel _].
  destruct (sk_copy d w (Hcon _ _ Hcl) (item_plain_spec item d Hp Hnone) (proj1 (Hnone _) Hno))
    as (l & answer & w' & Hperm & Hcopy & Hpw & Hans).
  exists l, w'. rewrite <- Hsel. split; [done|]. split; [done|].
  unfold QueryItem, QueryItemRef, bind, lift. rewrite Hd, Hcopy. destruct l as [|kp l]; cbn in Hans.
  - rewrite Hans. cbn. by exists [].
  - destruct Hans as [Hone _]. rewrite (Hone (Hcon _ _ Hl) (Hbool _ _ Hrd) (proj1 (Hnone _) Hra)).
    rewrite decide_False by done. unfold checkError. rewrite decide_True by done. by eexists.
Qed.

(** A search for the attributes of all passwords, none of which has metadata the
    package would decode. *)
Lemma convertResults_entries arr l :
  Forall2 (fun x kp => exists d', x = CFDictionary d' /\ entry_described kp d') arr l ->
  (forall kp, kp ∈ l -> e_generic kp.2 = None) ->
  exists results, convertResults gob_decode arr = Ok results /\
    Forall2 (fun q kp => q_Service q = kp.1.1.1 /\ q_Account q = kp.1.2 /\ q_Data q = []) results l.
Proof.
  induction 1 as [|x kp arr l (d & -> & Hnd & Hs & Ha & Hg & Hdt) HF IH]; intros Hgen.
  { by exists []. }
  destruct IH as (results & Hr & HF2); [intros; apply Hgen; by right|].
  rewrite (Hgen kp) in Hg by by left. cbn in Hg.
  destruct (convertResult_loop_spec gob_decode d QueryResult_zero Hnd) as (q & Hq & Hqa & Hqd & _ & Hqs).
  { intros v. by rewrite Hg. }
  unfold cf_field in *. rewrite Ha in Hqa. rewrite Hdt in Hqd. rewrite Hs in Hqs.
  exists (q :: results). cbn [convertResults]. unfold convertResult. rewrite Hq. cbn [result_bind]. rewrite Hr.
  split; [done|]. by constructor.
Qed.

Lemma run_list_query (item : Item) w : password_item item -> item_plain item = true -> item !! DataKey = None ->
  item !! MatchLimitKey = Some (IRef "kSecMatchLimitAll") -> item !! ReturnAttributesKey = Some (IBool true) ->
  item !! ReturnDataKey = None ->
  (forall kp, kp ∈ item_selected item (passwords w) -> e_generic kp.2 = None) ->
  exists l w', l ≡ₚ item_selected item (passwords w) /\ passwords w' = passwords w /\
    exists results, QueryItem status_code gob_encode gob_decode ValidString ord item w = (Ok results, w') /\
      Forall2 (fun q kp => q_Service q = kp.1.1.1 /\ q_Account q = kp.1.2 /\ q_Data q = []) results l.
Proof.
  intros [Hc Hcl] Hp Hno Hl Hra Hrd Hgen. destruct (item_dictionary item Hc)
    as (d & Hd & Hstr & Hcon & Hbool & _ & Hnone).
  destruct (item_selects_spec item d (passwords w) Hstr) as [Hsel _].
  destruct (sk_copy d w (Hcon _ _ Hcl) (item_plain_spec item d Hp Hnone) (proj1 (Hnone _) Hno))
    as (l & answer & w' & Hperm & Hcopy & Hpw & Hans).
  exists l, w'. rewrite <- Hsel. split; [done|]. split; [done|].
  unfold QueryItem, QueryItemRef, bind, lift. rewrite Hd, Hcopy. destruct l as [|kp l]; cbn in Hans.
  - rewrite Hans. cbn. by exists [].
  - destruct Hans as [_ Hall]. destruct (Hall (Hcon _ _ Hl) (Hbool _ _ Hra) (proj1 (Hnone _) Hrd)) as (arr & -> & HF).
    rewrite decide_False by done. unfold checkError. rewrite decide_True by done.
    destruct (convertResults_entries arr _ HF) as (results & Hr & HF2).
    { intros kp' Hin. apply Hgen. rewrite <- Hsel. by rewrite <- Hperm. }
    exists results. by rewrite Hr.
Qed.
End items.

(** ** Lemmas: what an item selects *)

Lemma wanted_spec want s : wanted want s = true <-> forall x, want = Some x -> x = s.
Proof.
  destruct want as [x|]; cbn; [|naive_solver]. rewrite String.eqb_eq. naive_solver.
Qed.

(** An item with a service, an access group and an account has one password. *)
Lemma item_selected_key (item : Item) (m : entries) (s g a : string) :
  item_string ServiceKey item = Some s -> item_string AccessGroupKey item = Some g ->
  item_string AccountKey item = Some a ->
  item_selected item m = match m !! (s, g, a) with
    | Some e => if wanted (item_string LabelKey item) (e_label e) then [((s, g, a), e)] else []
    | None => []
    end.
Proof.
  intros Hs Hg Ha.
  assert (Hsel : forall kp, item_selects item kp = true <->
    kp.1 = (s, g, a) /\ wanted (item_string LabelKey item) (e_label kp.2) = true).
  { intros [[[s' g'] a'] e]. unfold item_selects. rewrite Hs, Hg, Ha. cbn.
    rewrite !andb_true_iff, !String.eqb_eq. naive_solver. }
  assert (Hin : forall kp, kp ∈ item_selected item m <->
    kp.1 = (s, g, a) /\ wanted (item_string LabelKey item) (e_label kp.2) = true /\ m !! (s, g, a) = Some kp.2).
  { intros [key e]. unfold item_selected. rewrite list_elem_of_filter, Hsel, elem_of_map_to_list. cbn. naive_solver. }
  assert (Hnd : NoDup (item_selected item m)) by (apply list.NoDup_filter, NoDup_map_to_list).
  destruct (m !! (s, g, a)) as [e|] eqn:Hm; [destruct (wanted _ _) eqn:Hw|].
  - apply Permutation_singleton_r, NoDup_Permutation; [done|apply NoDup_singleton|].
    intros [key e']. rewrite Hin, list_elem_of_singleton. cbn. naive_solver.
  - apply Permutation_nil_r, NoDup_Permutation; [done|constructor|].
    intros [key e']. rewrite Hin, elem_of_nil. cbn. naive_solver congruence.
  - apply Permutation_nil_r, NoDup_Permutation; [done|constructor|].
    intros [key e']. rewrite Hin, elem_of_nil. naive_solver.
Qed.

(** The accounts of a service. *)
Definition of_service_entries (service : string) (m : entries) : list (string * string * string * Entry) :=
  base.filter (fun kp => kp.1.1.1 = service) (map_to_list m).

Lemma item_selected_service (item : Item) (m : entries) s : item_string ServiceKey item = Some s ->
  item_string AccessGroupKey item = None -> item_string AccountKey item = None -> item_string LabelKey item = None ->
  item_selected item m = of_service_entries s m.
Proof.
  intros Hs Hg Ha Hl. apply list_filter_iff. intros kp. unfold item_selects. rewrite Hs, Hg, Ha, Hl. cbn.
  rewrite !andb_true_iff, String.eqb_eq. naive_solver.
Qed.

Lemma of_service_insert (s g a : string) (e : Entry) (m : entries) : m !! (s, g, a) = None ->
  of_service_entries s (<[(s, g, a) := e]> m) ≡ₚ ((s, g, a), e) :: of_service_entries s m.
Proof.
  intros Hm. unfold of_service_entries. rewrite map_to_list_insert by done. rewrite filter_cons.
  by rewrite decide_True.
Qed.

Lemma SetString_nonempty key s (k : Item) : s <> "" -> SetString key s k = <[key := IString s]> k.
Proof. intros Hs. unfold SetString. by rewrite (proj2 (String.eqb_neq _ _) Hs). Qed.

(** ** Properties *)

Section properties.
Context {W : Type} `{SearchableKeychain W passwords}.
Context (status_code : OSStatus -> Z).
Context (gob_encode : gmap string string -> result goerror bytes).
Context (gob_decode : bytes -> result goerror (gmap string ItemValue)).
Context (ValidString : string -> bool).
Context (ord : list (string * ItemValue) -> list (string * ItemValue)) `{!MapOrder ord}.

Local Abbreviation convertible := (convertible gob_encode ValidString).
Local Abbreviation AddItem := (AddItem status_code gob_encode ValidString ord).
Local Abbreviation GetGenericPassword := (GetGenericPassword status_code gob_encode gob_decode ValidString ord).
Local Abbreviation GetGenericPasswordAccounts :=
  (GetGenericPasswordAccounts status_code gob_encode gob_decode ValidString ord).
Local Abbreviation DeleteGenericPassword := (DeleteGenericPassword status_code gob_encode ValidString ord).

(** The passwords of a service have no metadata the package would decode. *)
Definition undecoded (service : string) (m : entries) : Prop :=
  forall kp, kp ∈ of_service_entries service m -> e_generic kp.2 = None.

(** The shape of the items, for names that are not empty. *)
Lemma generic_password_shape service account label data group :
  service <> "" -> account <> "" -> group <> "" ->
  let item := NewGenericPassword service account label (Some data) group in
  item !! SecClassKey = Some (IRef "kSecClassGenericPassword") /\ item_string ServiceKey item = Some service /\
  item_string AccountKey item = Some account /\ item_string AccessGroupKey item = Some group /\
  item_string LabelKey item = (if String.eqb label "" then None else Some label) /\
  item !! DataKey = Some (IBytes data) /\ item !! AttrGenericKey = None /\ item_plain item = true.
Proof.
  intros Hs Ha Hg. unfold NewGenericPassword, SetService, SetAccount, SetAccessGroup.
  rewrite !(SetString_nonempty _ _ _ Hs), !(SetString_nonempty _ _ _ Ha), !(SetString_nonempty _ _ _ Hg).
  unfold SetLabel, SetString. destruct (String.eqb label ""); cbn [negb]; by vm_compute.
Qed.

Lemma password_query_shape service account label group :
  service <> "" -> account <> "" -> group <> "" ->
  let item := password_query service account label group in
  item !! SecClassKey = Some (IRef "kSecClassGenericPassword") /\ item_string ServiceKey item = Some service /\
  item_string AccountKey item = Some account /\ item_string AccessGroupKey item = Some group /\
  item_string LabelKey item = (if String.eqb label "" then None else Some label) /\
  item !! DataKey = None /\ item !! MatchLimitKey = Some (IRef "kSecMatchLimitOne") /\
  item !! ReturnDataKey = Some (IBool true) /\ item !! ReturnAttributesKey = None /\ item_plain item = true.
Proof.
  intros Hs Ha Hg. unfold password_query, SetService, SetAccount, SetAccessGroup.
  rewrite !(SetString_nonempty _ _ _ Hs), !(SetString_nonempty _ _ _ Ha), !(SetString_nonempty _ _ _ Hg).
  unfold SetLabel, SetString. destruct (String.eqb label ""); cbn [negb]; by vm_compute.
Qed.

Lemma accounts_query_shape service : service <> "" ->
  let item := accounts_query service in
  item !! SecClassKey = Some (IRef "kSecClassGenericPassword") /\ item_string ServiceKey item = Some service /\
  item_string AccountKey item = None /\ item_string AccessGroupKey item = None /\
  item_string LabelKey item = None /\ item !! DataKey = None /\
  item !! MatchLimitKey = Some (IRef "kSecMatchLimitAll") /\
  item !! ReturnAttributesKey = Some (IBool true) /\ item !! ReturnDataKey = None /\ item_plain item = true.
Proof.
  intros Hs. unfold accounts_query, SetService. rewrite !(SetString_nonempty _ _ _ Hs). by vm_compute.
Qed.

Lemma deleted_item_shape service account group : service <> "" -> account <> "" -> group <> "" ->
  let item := deleted_item service account group in
  item !! SecClassKey = Some (IRef "kSecClassGenericPassword") /\ item_string ServiceKey item = Some service /\
  item_string AccountKey item = Some account /\ item_string AccessGroupKey item = Some group /\
  item_string LabelKey item = None /\ item !! DataKey = None /\ item_plain item = true.
Proof.
  intros Hs Ha Hg. unfold deleted_item, SetService, SetAccount, SetAccessGroup.
  rewrite !(SetString_nonempty _ _ _ Hs), !(SetString_nonempty _ _ _ Ha), !(SetString_nonempty _ _ _ Hg).
  by vm_compute.
Qed.

(** ** Lemmas: the convenience functions *)

(** [GetGenericPassword] of names that are not empty. *)
Lemma runs_GetGenericPassword service account label group w :
  service <> "" -> account <> "" -> group <> "" -> convertible (password_query service account label group) ->
  runs (GetGenericPassword service account label group) w (fun r w' => passwords w' = passwords w /\
    r = match passwords w !! (service, group, account) with
        | Some e => if wanted (if String.eqb label "" then None else Some label) (e_label e)
                    then Some (e_data e) else None
        | None => None
        end).
Proof.
  intros Hs Ha Hg Hc. destruct (password_query_shape service account label group Hs Ha Hg)
    as (Hcl & Hsv & Hac & Hgr & Hlb & Hdt & Hml & Hrd & Hra & Hpl).
  destruct (run_data_query status_code gob_encode gob_decode ValidString ord _ w (conj Hc Hcl) Hpl Hdt Hml Hrd Hra)
    as (l & w' & Hperm & Hpw & results & Hq & Hmap).
  rewrite (item_selected_key _ _ service group account Hsv Hgr Hac), Hlb in Hperm.
  unfold runs, KeychainItems.GetGenericPassword, bind. rewrite Hq.
  destruct (passwords w !! (service, group, account)) as [e|]; [destruct (wanted _ _)|].
  - apply Permutation_singleton_r in Hperm as ->. destruct results as [|r [|r' results]]; simplify_eq/=.
    eexists _, w'. split; [done|]. split; [done|]. congruence.
  - apply Permutation_nil_r in Hperm as ->. destruct results; simplify_eq/=. by eexists _, w'.
  - apply Permutation_nil_r in Hperm as ->. destruct results; simplify_eq/=. by eexists _, w'.
Qed.

Lemma runs_GetGenericPasswordAccounts service w :
  service <> "" -> convertible (accounts_query service) -> undecoded service (passwords w) ->
  runs (GetGenericPasswordAccounts service) w (fun l w' => passwords w' = passwords w /\
    l ≡ₚ map (fun kp => kp.1.2) (of_service_entries service (passwords w))).
Proof.
  intros Hs Hc Hun. destruct (accounts_query_shape service Hs) as (Hcl & Hsv & Hac & Hgr & Hlb & Hdt & Hml & Hra & Hrd & Hpl).
  assert (Hsel : item_selected (accounts_query service) (passwords w) = of_service_entries service (passwords w))
    by by apply item_selected_service.
  destruct (run_list_query status_code gob_encode gob_decode ValidString ord _ w (conj Hc Hcl) Hpl Hdt Hml Hra Hrd)
    as (l & w' & Hperm & Hpw & results & Hq & HF); [by rewrite Hsel|]. rewrite Hsel in Hperm.
  unfold runs, KeychainItems.GetGenericPasswordAccounts, bind. rewrite Hq. eexists _, w'. split; [done|].
  split; [done|]. rewrite <- Hperm. clear -HF. induction HF as [|q kp results l (_ & Hq & _) _ IH]; [done|].
  cbn. by rewrite IH, Hq.
Qed.

Lemma run_delete_key (item : Item) service account group w e : password_item gob_encode ValidString item ->
  item_plain item = true -> item_string ServiceKey item = Some service ->
  item_string AccountKey item = Some account -> item_string AccessGroupKey item = Some group ->
  item_string LabelKey item = None ->
  (item !! DataKey = None \/ item !! DataKey = Some (IBytes (e_data e))) ->
  passwords w !! (service, group, account) = Some e ->
  runs (DeleteItem status_code gob_encode ValidString ord item) w (fun _ w' =>
    passwords w' = delete (service, group, account) (passwords w)).
Proof.
  intros Hi Hpl Hsv Hac Hgr Hlb Hdt He.
  assert (Hsel : item_selected item (passwords w) = [((service, group, account), e)]).
  { by rewrite (item_selected_key _ _ service group account Hsv Hgr Hac), He, Hlb. }
  destruct (run_delete status_code gob_encode ValidString ord item w Hi Hpl) as (w' & Hd & Hpw).
  { intros kp. rewrite Hsel. by intros ->%list_elem_of_singleton. }
  rewrite Hsel in Hd. exists tt, w'. split; [exact Hd|]. rewrite Hpw. apply map_eq. intros key.
  apply option_eq. intros x. rewrite map_lookup_filter_Some, lookup_delete_Some. unfold item_selects.
  rewrite Hsv, Hgr, Hac, Hlb. destruct key as [[s g] a]. cbn.
  rewrite andb_true_r, <- not_true_iff_false, !andb_true_iff, !String.eqb_eq. naive_solver.
Qed.

Lemma runs_DeleteGenericPassword service account group w e :
  service <> "" -> account <> "" -> group <> "" -> convertible (deleted_item service account group) ->
  passwords w !! (service, group, account) = Some e ->
  runs (DeleteGenericPassword service account group) w (fun _ w' =>
    passwords w' = delete (service, group, account) (passwords w)).
Proof.
  intros Hs Ha Hg Hc He. destruct (deleted_item_shape service account group Hs Ha Hg)
    as (Hcl & Hsv & Hac & Hgr & Hlb & Hdt & Hpl).
  apply (run_delete_key _ _ _ _ _ e); try done. by left.
Qed.

(** The names of [deleted_item] are among those of the other items. *)
Lemma deleted_item_convertible service account label data group :
  service <> "" -> account <> "" -> group <> "" ->
  convertible (NewGenericPassword service account label (Some data) group) ->
  convertible (deleted_item service account group).
Proof.
  intros Hs Ha Hg Hc key v Hv. apply (Hc key). revert Hv.
  unfold deleted_item, NewGenericPassword, SetService, SetAccount, SetAccessGroup.
  rewrite !(SetString_nonempty _ _ _ Hs), !(SetString_nonempty _ _ _ Ha), !(SetString_nonempty _ _ _ Hg).
  unfold SetData, SetSecClass, NewItem. rewrite !lookup_insert.
  repeat case_decide; try done; subst; rewrite ?lookup_empty; try done.
  all: unfold SetLabel, SetString; case_match; rewrite ?lookup_insert_ne, ?lookup_delete_ne by done;
    rewrite !lookup_insert; repeat case_decide; done.
Qed.

(** Adding a password that is not there. *)
Lemma runs_add service account label data group w :
  service <> "" -> account <> "" -> group <> "" ->
  convertible (NewGenericPassword service account label (Some data) group) ->
  passwords w !! (service, group, account) = None ->
  runs (AddItem (NewGenericPassword service account label (Some data) group)) w (fun _ w1 =>
    exists e, passwords w1 = <[(service, group, account) := e]> (passwords w) /\ e_data e = data /\
      e_generic e = None /\ wanted (if String.eqb label "" then None else Some label) (e_label e) = true).
Proof.
  intros Hs Ha Hg Hc Hno. destruct (generic_password_shape service account label data group Hs Ha Hg)
    as (Hcl & Hsv & Hac & Hgr & Hlb & Hdt & Hgn & _).
  pose proof (run_add status_code gob_encode ValidString ord _ _ _ _ w (conj Hc Hcl) Hsv Hac Hdt Hgn) as Hadd.
  cbv zeta in Hadd. rewrite Hgr in Hadd. change (default "" (Some group)) with group in Hadd. rewrite Hno in Hadd.
  destruct Hadd as (w1 & e & Hrun & Hpw & Hed & Heg & Hel). exists tt, w1. split; [exact Hrun|].
  exists e. split; [done|]. split; [done|]. split; [done|]. apply wanted_spec. intros x Hx. symmetry.
  apply Hel. by rewrite Hlb.
Qed.

(** ** Lemmas: the conformance test *)

Local Abbreviation key1 service group := (service, group, test_account) (only parsing).
Local Abbreviation key2 service group := (service, group, test_account2) (only parsing).

(** The items the test uses can be converted. *)
Definition test_convertible (service group : string) : Prop :=
  Forall convertible [accounts_query service; test_item service group; test_item2 service group;
    attributes_query service test_account group; data_query service test_account group;
    deleted_item service test_account group].

Section conformance.
Context (service group : string) (Hs : service <> "") (Hg : group <> "") (Hconv : test_convertible service group).

Lemma test_items_convertible : convertible (accounts_query service) /\ convertible (test_item service group) /\
  convertible (test_item2 service group) /\ convertible (attributes_query service test_account group) /\
  convertible (data_query service test_account group) /\ convertible (deleted_item service test_account group).
Proof. unfold test_convertible in Hconv. rewrite !list.Forall_cons in Hconv. tauto. Qed.

Lemma test_item_shape : let item := test_item service group in
  item !! SecClassKey = Some (IRef "kSecClassGenericPassword") /\ item_string ServiceKey item = Some service /\
  item_string AccountKey item = Some test_account /\ item_string AccessGroupKey item = Some group /\
  item_string LabelKey item = None /\ item !! DataKey = Some (IBytes (bytes_of "toomanysecrets")) /\
  item !! AttrGenericKey = None.
Proof.
  unfold test_item, NewGenericPassword, SetService, SetAccessGroup.
  rewrite !(SetString_nonempty _ _ _ Hs), !(SetString_nonempty _ _ _ Hg). by vm_compute.
Qed.

Lemma attributes_query_shape : let item := attributes_query service test_account group in
  item !! SecClassKey = Some (IRef "kSecClassGenericPassword") /\ item_string ServiceKey item = Some service /\
  item_string AccountKey item = Some test_account /\ item_string AccessGroupKey item = Some group /\
  item_string LabelKey item = None /\ item !! DataKey = None /\
  item !! MatchLimitKey = Some (IRef "kSecMatchLimitAll") /\
  item !! ReturnAttributesKey = Some (IBool true) /\ item !! ReturnDataKey = None /\ item_plain item = true.
Proof.
  unfold attributes_query, SetService, SetAccessGroup.
  rewrite !(SetString_nonempty _ _ _ Hs), !(SetString_nonempty _ _ _ Hg). by vm_compute.
Qed.

Lemma data_query_shape : let item := data_query service test_account group in
  item !! SecClassKey = Some (IRef "kSecClassGenericPassword") /\ item_string ServiceKey item = Some service /\
  item_string AccountKey item = Some test_account /\ item_string AccessGroupKey item = Some group /\
  item_string LabelKey item = None /\ item !! DataKey = None /\
  item !! MatchLimitKey = Some (IRef "kSecMatchLimitOne") /\
  item !! ReturnDataKey = Some (IBool true) /\ item !! ReturnAttributesKey = None /\ item_plain item = true.
Proof.
  unfold data_query, SetService, SetAccessGroup.
  rewrite !(SetString_nonempty _ _ _ Hs), !(SetString_nonempty _ _ _ Hg). by vm_compute.
Qed.

(** The attributes of the account of the test: of none or of one password. *)
Lemma run_attributes w : undecoded service (passwords w) ->
  exists results w', QueryItem status_code gob_encode gob_decode ValidString ord
      (attributes_query service test_account group) w = (Ok results, w') /\ passwords w' = passwords w /\
    match passwords w !! (service, group, test_account) with
    | Some _ => exists q, results = [q] /\ q_Service q = service /\ q_Account q = test_account /\ q_Data q = []
    | None => results = []
    end.
Proof.
  intros Hun. destruct attributes_query_shape as (Hcl & Hsv & Hac & Hgr & Hlb & Hdt & Hml & Hra & Hrd & Hpl).
  destruct test_items_convertible as (_ & _ & _ & Hc & _).
  assert (Hsel : forall m, item_selected (attributes_query service test_account group) m =
    match m !! (service, group, test_account) with Some e => [((service, group, test_account), e)] | None => [] end).
  { intros m. by rewrite (item_selected_key _ _ service group test_account Hsv Hgr Hac), Hlb. }
  destruct (run_list_query status_code gob_encode gob_decode ValidString ord _ w (conj Hc Hcl) Hpl Hdt Hml Hra Hrd)
    as (l & w' & Hperm & Hpw & results & Hq & HF).
  { intros kp. rewrite Hsel. destruct (passwords w !! _) as [e|] eqn:He; [|by intros ?%elem_of_nil].
    intros ->%list_elem_of_singleton. apply Hun. unfold of_service_entries. rewrite list_elem_of_filter.
    split; [done|]. by apply elem_of_map_to_list. }
  rewrite Hsel in Hperm. exists results, w'. split; [exact Hq|]. split; [exact Hpw|].
  destruct (passwords w !! _) as [e|].
  - apply Permutation_singleton_r in Hperm as ->. inversion HF as [|q ? ? ? Hq1 HF1]; subst.
    inversion HF1; subst. by exists q.
  - apply Permutation_nil_r in Hperm as ->. by inversion HF.
Qed.

Lemma run_data w e : passwords w !! (service, group, test_account) = Some e ->
  exists q w', QueryItem status_code gob_encode gob_decode ValidString ord
      (data_query service test_account group) w = (Ok [q], w') /\ passwords w' = passwords w /\ q_Data q = e_data e.
Proof.
  intros He. destruct data_query_shape as (Hcl & Hsv & Hac & Hgr & Hlb & Hdt & Hml & Hrd & Hra & Hpl).
  destruct test_items_convertible as (_ & _ & _ & _ & Hc & _).
  destruct (run_data_query status_code gob_encode gob_decode ValidString ord _ w (conj Hc Hcl) Hpl Hdt Hml Hrd Hra)
    as (l & w' & Hperm & Hpw & results & Hq & Hmap).
  rewrite (item_selected_key _ _ service group test_account Hsv Hgr Hac), Hlb, He in Hperm.
  apply Permutation_singleton_r in Hperm as ->. destruct results as [|q [|q' results]]; simplify_eq/=.
  exists q, w'. split; [exact Hq|]. split; [done|]. congruence.
Qed.
Lemma failed_with_refl {A} k : failed_with status_code (A := A) (Err (keychain_Error status_code k)) k = true.
Proof. unfold failed_with, keychain_Error, same_error. apply String.eqb_refl. Qed.

Lemma call_eq {A} (m : comp W goerror A) r w w' fs : m w = (r, w') -> call m (w, fs) = (Ok r, (w', fs)).
Proof. intros Hm. unfold call. by rewrite Hm. Qed.

(** The accounts the test lists. *)
Lemma run_accounts w l : undecoded service (passwords w) -> of_service_entries service (passwords w) ≡ₚ l ->
  exists names w', GetGenericPasswordAccounts service w = (Ok names, w') /\ passwords w' = passwords w /\
    names ≡ₚ map (fun kp => kp.1.2) l.
Proof.
  intros Hun Hl. destruct test_items_convertible as (Hc & _).
  destruct (runs_GetGenericPasswordAccounts service w Hs Hc Hun) as (names & w' & Hr & Hp & Hn).
  exists names, w'. split; [done|]. split; [done|]. by rewrite Hn, Hl.
Qed.

Lemma run_test_queries w fs e1 e2 : passwords w !! (service, group, test_account) = Some e1 ->
  e_data e1 = bytes_of "toomanysecrets" -> undecoded service (passwords w) ->
  of_service_entries service (passwords w) ≡ₚ
    [((service, group, test_account2), e2); ((service, group, test_account), e1)] ->
  exists w' more, test_queries status_code gob_encode gob_decode ValidString ord service group (w, fs) =
      (Ok tt, (w', fs ++ more)) /\ passwords w' = passwords w /\
    (more = [] \/ more = [Fail_msg "Invalid accounts: %v"]).
Proof.
  intros He1 Hd Hun Hl. destruct (run_attributes w Hun) as (r1 & w1 & Hq1 & Hp1 & Hr1).
  rewrite He1 in Hr1. destruct Hr1 as (q1 & -> & Hqs & Hqa & Hqd).
  destruct (run_data w1 e1) as (q2 & w2 & Hq2 & Hp2 & Hqd2); [by rewrite Hp1|].
  destruct (run_accounts w2 [((service, group, test_account2), e2); ((service, group, test_account), e1)])
    as (names & w3 & Hq3 & Hp3 & Hn); [by rewrite Hp2, Hp1|by rewrite Hp2, Hp1|].
  unfold test_queries. rewrite (bind_Ok _ _ _ _ _ (call_eq _ _ _ _ fs Hq1)).
  unfold bind at 1. cbn [no_error ret listed length Nat.eqb expect]. unfold bind at 1.
  cbn [ret first]. unfold bind at 1. cbn [ret].
  rewrite Hqs, Hqa, Hqd, !String.eqb_refl. cbn [expect ret length Nat.eqb]. do 3 (unfold bind at 1; cbn [ret]).
  rewrite (bind_Ok _ _ _ _ _ (call_eq _ _ _ _ fs Hq2)).
  unfold bind at 1. cbn [no_error ret listed length Nat.eqb expect]. unfold bind at 1.
  cbn [ret first]. unfold bind at 1. cbn [ret]. rewrite Hqd2, Hd.
  rewrite bool_decide_true by done. cbn [expect]. unfold bind at 1. cbn [ret].
  rewrite (bind_Ok _ _ _ _ _ (call_eq _ _ _ _ fs Hq3)).
  unfold bind at 1. cbn [no_error ret listed]. rewrite (Permutation_length Hn). cbn [map length Nat.eqb expect].
  unfold bind. cbn [ret]. destruct (bool_decide _); cbn [expect ret Fail].
  - exists w3, []. rewrite app_nil_r. split; [done|]. split; [congruence|by left].
  - eexists w3, _. split; [done|]. split; [congruence|by right].
Qed.
(** Without one of its passwords the service has the others. *)
Lemma of_service_delete (a : string) (e : Entry) (l : list (string * string * string * Entry)) (m : entries) : m !! (service, group, a) = Some e ->
  of_service_entries service m ≡ₚ ((service, group, a), e) :: l ->
  of_service_entries service (delete (service, group, a) m) ≡ₚ l.
Proof.
  intros He Hl. apply (Permutation_cons_inv (a := ((service, group, a), e))). rewrite <- Hl.
  rewrite <- of_service_insert by apply lookup_delete_eq. by rewrite insert_delete_id.
Qed.

Lemma undecoded_delete (key : string * string * string) (m : entries) : undecoded service m -> undecoded service (delete key m).
Proof.
  intros Hun kp. unfold of_service_entries. rewrite list_elem_of_filter. intros [Hkp Hin]. apply Hun.
  unfold of_service_entries. rewrite list_elem_of_filter. split; [done|]. destruct kp as [i x].
  apply elem_of_map_to_list, lookup_delete_Some in Hin as [_ Hin]. by apply elem_of_map_to_list.
Qed.

Lemma run_test_removal w fs e1 e2 : passwords w !! (service, group, test_account) = Some e1 ->
  undecoded service (passwords w) ->
  of_service_entries service (passwords w) ≡ₚ
    [((service, group, test_account2), e2); ((service, group, test_account), e1)] ->
  exists w', test_removal status_code gob_encode gob_decode ValidString ord service group (w, fs) =
      (Ok tt, (w', fs)) /\ passwords w' = delete (service, group, test_account) (passwords w).
Proof.
  intros He1 Hun Hl. destruct test_items_convertible as (_ & Hct & _ & _ & _ & Hcd).
  destruct (runs_DeleteGenericPassword service test_account group w e1 Hs ltac:(done) Hg Hcd He1)
    as ([] & w1 & Hd & Hp1).
  assert (Hl1 : of_service_entries service (passwords w1) ≡ₚ [((service, group, test_account2), e2)]).
  { rewrite Hp1. apply (of_service_delete _ e1); [done|]. rewrite Hl. apply perm_swap. }
  assert (Hun1 : undecoded service (passwords w1)) by (rewrite Hp1; by apply undecoded_delete).
  assert (Hno : passwords w1 !! (service, group, test_account) = None) by (rewrite Hp1; apply lookup_delete_eq).
  destruct (run_attributes w1 Hun1) as (r2 & w2 & Hq2 & Hp2 & Hr2). rewrite Hno in Hr2. subst r2.
  destruct (run_accounts w2 [((service, group, test_account2), e2)])
    as (names & w3 & Hq3 & Hp3 & Hn); [by rewrite Hp2|by rewrite Hp2|].
  destruct test_item_shape as (Hcl & Hsv & Hac & Hgr & Hlb & _).
  destruct (run_delete_none status_code gob_encode ValidString ord (test_item service group) w3 (conj Hct Hcl))
    as (w4 & Hq4 & Hp4).
  { rewrite (item_selected_key _ _ service group test_account Hsv Hgr Hac). by rewrite Hp3, Hp2, Hno. }
  unfold test_removal. unfold KeychainItems.DeleteGenericPassword in Hd.
  rewrite (bind_Ok _ _ _ _ _ (call_eq _ _ _ _ fs Hd)). unfold bind at 1. cbn [no_error ret].
  rewrite (bind_Ok _ _ _ _ _ (call_eq _ _ _ _ fs Hq2)).
  unfold bind at 1. cbn [no_error ret listed length Nat.eqb expect]. unfold bind at 1. cbn [ret].
  rewrite (bind_Ok _ _ _ _ _ (call_eq _ _ _ _ fs Hq3)). unfold bind at 1. cbn [no_error ret listed].
  rewrite (Permutation_length Hn). cbn [map length Nat.eqb expect]. unfold bind at 1. cbn [ret].
  rewrite (bind_Ok _ _ _ _ _ (call_eq _ _ _ _ fs Hq4)). rewrite failed_with_refl.
  exists w4. split; [done|]. congruence.
Qed.
(** The test adds its two passwords to a keychain without any of the service. *)
Lemma run_test_adds w : of_service_entries service (passwords w) = [] ->
  let item := test_item service group in
  let item2 := test_item2 service group in
  exists e1 w1 w2 e2 w3, AddItem item w = (Ok tt, w1) /\
    AddItem item w1 = (Err (keychain_Error status_code errSecDuplicateItem), w2) /\
    AddItem item2 w2 = (Ok tt, w3) /\
    e_data e1 = bytes_of "toomanysecrets" /\ e_data e2 = bytes_of "toomanysecrets2" /\
    undecoded service (passwords w3) /\
    passwords w !! (service, group, test_account) = None /\ passwords w !! (service, group, test_account2) = None /\
    passwords w3 = <[(service, group, test_account2) := e2]> (<[(service, group, test_account) := e1]> (passwords w)).
Proof.
  intros Hnil item item2. destruct test_items_convertible as (_ & Hc1 & Hc2 & _).
  assert (Hno : forall a, passwords w !! (service, group, a) = None).
  { intros a. destruct (passwords w !! _) as [e|] eqn:He; [|done]. exfalso.
    assert (Hin : ((service, group, a), e) ∈ of_service_entries service (passwords w)).
    { unfold of_service_entries. rewrite list_elem_of_filter. split; [done|]. by apply elem_of_map_to_list. }
    rewrite Hnil in Hin. by apply elem_of_nil in Hin. }
  destruct test_item_shape as (Hcl & Hsv & Hac & Hgr & Hlb & Hdt & Hgn).
  pose proof (fun w => run_add status_code gob_encode ValidString ord item _ _ _ w (conj Hc1 Hcl) Hsv Hac Hdt Hgn) as Hadd.
  cbv zeta in Hadd. unfold item in Hadd. rewrite Hgr in Hadd. change (default "" (Some group)) with group in Hadd.
  pose proof (Hadd w) as Hadd1. rewrite Hno in Hadd1. destruct Hadd1 as (w1 & e1 & H1 & Hp1 & Hd1 & Hg1 & _).
  pose proof (Hadd w1) as Hadd2. rewrite Hp1, lookup_insert_eq in Hadd2. destruct Hadd2 as (w2 & H2 & Hp2).
  destruct (runs_add service test_account2 "" (bytes_of "toomanysecrets2") group w2) as ([] & w3 & H3 & e2 & Hp3 & Hd2 & Hg2 & _);
    [done..|by rewrite Hp2, lookup_insert_ne|].
  exists e1, w1, w2, e2, w3. do 5 (split; [done|]). split; [|split; [done|split; [done|congruence]]].
  intros kp. rewrite Hp3, Hp2, of_service_insert by by rewrite lookup_insert_ne.
  rewrite of_service_insert, Hnil by done. intros [->|[->|[]%elem_of_nil]%elem_of_cons]%elem_of_cons; done.
Qed.
End conformance.


(** The conformance test the package exports passes: over every keychain that
    searches as Apple documents and has no password of the service, whatever
    else it holds, [GenericPasswordTest] does not panic and reports nothing but,
    possibly, the order of the two accounts, which it expects to be that of their
    addition and no document promises; and it leaves every password as it found
    it. *)
Theorem GenericPasswordTest_passes service group w :
  service <> "" -> group <> "" -> test_convertible service group ->
  of_service_entries service (passwords w) = [] ->
  exists w' failures, GenericPasswordTest status_code gob_encode gob_decode ValidString ord service group (w, []) =
      (Ok tt, (w', failures)) /\ passwords w' = passwords w /\
    (failures = [] \/ failures = [Fail_msg "Invalid accounts: %v"]).
Proof.
  intros Hs Hg Hconv Hnil. pose proof (test_items_convertible service group Hconv) as (_ & Hc1 & Hc2 & _).
  destruct (run_accounts service group Hs Hconv w []) as (names & w0 & Hrun0 & Hp0 & Hn);
    [intros kp; by rewrite Hnil; intros ?%elem_of_nil|by rewrite Hnil|].
  apply Permutation_nil_r in Hn as ->. rewrite <- Hp0 in Hnil.
  destruct (run_test_adds service group Hs Hg Hconv w0 Hnil)
    as (e1 & w1 & w2 & e2 & w3 & H1 & H2 & H3 & Hd1 & Hd2 & Hun & Hno1 & Hno2 & Hp3).
  assert (Hl : of_service_entries service (passwords w3) ≡ₚ
    [((service, group, test_account2), e2); ((service, group, test_account), e1)]).
  { rewrite Hp3, of_service_insert by by rewrite lookup_insert_ne. by rewrite of_service_insert, Hnil. }
  assert (He1 : passwords w3 !! (service, group, test_account) = Some e1).
  { rewrite Hp3, lookup_insert_ne by done. apply lookup_insert_eq. }
  destruct (run_test_queries service group Hs Hg Hconv w3 [] e1 e2 He1 Hd1 Hun Hl) as (w4 & fs & H4 & Hp4 & Hfs).
  cbn [app] in H4. rewrite <- Hp4 in He1, Hun, Hl.
  destruct (run_test_removal service group Hs Hg Hconv w4 fs e1 e2 He1 Hun Hl) as (w5 & H5 & Hp5).
  assert (Hp5' : passwords w5 = <[(service, group, test_account2) := e2]> (passwords w0)).
  { rewrite Hp5, Hp4, Hp3, delete_insert_ne by done. by rewrite delete_insert_id. }
  destruct (generic_password_shape service test_account2 "" (bytes_of "toomanysecrets2") group Hs ltac:(done) Hg)
    as (Hcl & Hsv & Hac & Hgr & Hlb & Hdt & _ & Hpl).
  destruct (run_delete_key (test_item2 service group) service test_account2 group w5 e2) as ([] & w6 & H6 & Hp6);
    [by split|done..|right; by rewrite Hd2|rewrite Hp5'; apply lookup_insert_eq|].
  rewrite Hp5', delete_insert_id in Hp6 by done.
  destruct (test_item_shape service group Hs Hg) as (Hcl' & Hsv' & Hac' & Hgr' & Hlb' & _).
  destruct (run_delete_none status_code gob_encode ValidString ord (test_item service group) w6 (conj Hc1 Hcl'))
    as (w7 & H7 & Hp7).
  { rewrite (item_selected_key _ _ service group test_account Hsv' Hgr' Hac'). by rewrite Hp6, Hno1. }
  exists w7, fs. split; [|split; [congruence|done]].
  unfold GenericPasswordTest, deferring.
  rewrite (bind_Ok _ _ _ _ _ (call_eq _ _ _ _ [] Hrun0)). unfold bind at 1. cbn [no_error ret listed length Nat.eqb expect].
  unfold bind at 1. cbn [ret].
  rewrite (bind_Ok _ _ _ _ _ (call_eq _ _ _ _ [] H1)). unfold bind at 1. cbn [no_error ret].
  rewrite (bind_Ok _ _ _ _ _ (call_eq _ _ _ _ [] H2)). unfold bind at 1. rewrite failed_with_refl.
  cbn [expect ret].
  rewrite (bind_Ok _ _ _ _ _ (call_eq _ _ _ _ [] H3)). unfold bind at 1. cbn [no_error ret].
  rewrite (bind_Ok _ _ _ _ _ H4), H5.
  rewrite (bind_Ok _ _ _ _ _ (call_eq _ _ _ _ fs H6)). cbn [ret snd].
  by rewrite (bind_Ok _ _ _ _ _ (call_eq _ _ _ _ fs H7)).
Qed.
End properties.

(** ** A keychain in memory *)

Definition entry_dictionary (kp : string * string * string * Entry) : list (string * CFValue) :=
  [(ServiceKey, CFString kp.1.1.1); (AccountKey, CFString kp.1.2)] ++
  match e_generic kp.2 with Some b => [(AttrGenericKey, CFData b)] | None => [] end.

Definition all_matches (d : list (string * CFValue)) : bool :=
  match cf_lookup MatchLimitKey d with Some (CFConstant c) => String.eqb c "kSecMatchLimitAll" | _ => false end.

#[export] Instance login_keychain : SecurityFramework entries := {
  SecItemAdd d m :=
    match cf_string ServiceKey d, cf_string AccountKey d, cf_data DataKey d with
    | Some s, Some a, Some b =>
        let key := (s, default "" (cf_string AccessGroupKey d), a) in
        match m !! key with
        | Some _ => (errSecDuplicateItem, m)
        | None => (errSecSuccess, <[key := {| e_label := default s (cf_string LabelKey d); e_data := b;
                                             e_generic := cf_data AttrGenericKey d |}]> m)
        end
    | _, _, _ => (errSecParam, m)
    end;
  SecItemCopyMatching d m :=
    match selected d m with
    | [] => ((errSecItemNotFound, None), m)
    | kp :: _ =>
        if all_matches d then
          ((errSecSuccess, Some (CFArray (map (fun kp => CFDictionary (entry_dictionary kp)) (selected d m)))), m)
        else ((errSecSuccess, Some (CFData (e_data kp.2))), m)
    end;
  SecItemDelete d m :=
    (match selected d m with [] => errSecItemNotFound | _ => errSecSuccess end,
     base.filter (fun kp => selects d kp = false) m)
}.

Lemma entry_dictionary_described kp : entry_described kp (entry_dictionary kp).
Proof.
  unfold entry_described, entry_dictionary. destruct (e_generic kp.2) as [b|]; (split; [|by vm_compute]).
  - change (NoDup [ServiceKey; AccountKey; AttrGenericKey]). by apply (bool_decide_eq_true_1 _).
  - change (NoDup [ServiceKey; AccountKey]). by apply (bool_decide_eq_true_1 _).
Qed.

#[export] Instance login_keychain_searchable : SearchableKeychain entries (fun m => m).
Proof.
  split; cbn [SecItemAdd SecItemCopyMatching SecItemDelete login_keychain].
  - intros d s a b w _ -> -> ->. destruct (w !! _) as [e|]; [by exists w|].
    eexists _, _. split; [done|]. split; [done|]. split; [done|]. split; [done|]. intros l Hl. cbn. by rewrite Hl.
  - intros d w _ _ _. exists (selected d w). destruct (selected d w) as [|kp l] eqn:Hsel; [by eexists _, w|].
    unfold all_matches. destruct (match cf_lookup MatchLimitKey d with Some (CFConstant c) => _ | _ => _ end) eqn:Hall;
      (eexists _, w; split; [done|]; split; [reflexivity|]; split; [done|]; split).
    + intros Hone. by rewrite Hone in Hall.
    + intros _ _ _. eexists. split; [reflexivity|]. clear. induction (kp :: l) as [|kp' l' IH]; constructor; [|done].
      eexists. split; [done|]. apply entry_dictionary_described.
    + done.
    + intros Hm. by rewrite Hm in Hall.
  - intros d w _ _ _. by eexists.
  - intros d w _ Hsel. eexists. rewrite Hsel. split; [done|]. apply map_filter_id. intros i x Hi.
    apply not_true_iff_false. intros Hs. apply (not_elem_of_nil (i, x)). rewrite <- Hsel. unfold selected.
    rewrite list_elem_of_filter. split; [done|]. by apply elem_of_map_to_list.
Qed.


(** A keychain that holds a password of another service. *)
Definition sample_entries : entries :=
  {[("other", "grp", "me") := {| e_label := "other"; e_data := [Byte.x42]; e_generic := None |}]}.

Lemma GenericPasswordTest_passes_witness :
  exists w' failures, GenericPasswordTest (fun _ => 7%Z) (fun _ => Ok []) (fun _ => Ok ∅) (fun _ => true) (fun l => l)
      "svc" "grp" (sample_entries, []) = (Ok tt, (w', failures)) /\ w' = sample_entries /\
    (failures = [] \/ failures = [Fail_msg "Invalid accounts: %v"]).
Proof.
  apply (GenericPasswordTest_passes (passwords := fun m => m) (fun _ => 7%Z) (fun _ => Ok []) (fun _ => Ok ∅)
    (fun _ => true) (fun l => l) "svc" "grp" sample_entries).
  - discriminate.
  - discriminate.
  - unfold test_convertible.
    do 6 (apply List.Forall_cons; [apply convertible_compute; vm_compute; reflexivity|]). apply List.Forall_nil.
  - vm_compute. reflexivity.
Defined.
