(* ===== verification/Base64.v ===== *)
(** The standard base64 encoding of Go's [encoding/base64] (StdEncoding), which
    the file store names its directories with: an encoder, a decoder as lenient
    as Go's (carriage returns and newlines are skipped, trailing bits are not
    checked), and their round trip. *)

From S2P Require Import Prelude GoErrors GoStrings.

(** ** The alphabet *)

Definition alphabet : string := "ABCDEFGHIJKLMNOPQRSTUVWXYZabcdefghijklmnopqrstuvwxyz0123456789+/".

Definition b64_char (n : Z) : ascii := default "A"%char (String.get (Z.to_nat n) alphabet).

Definition b64_val (c : ascii) : option Z := Z.of_nat <$> IndexByte alphabet c.

Definition byte_char (n : Z) : ascii := ascii_of_N (Z.to_N n).

(** ** StdEncoding *)

Fixpoint EncodeToString (src : string) : string :=
  match src with
  | String a (String b (String c rest)) =>
      let val := (rune_of a * 65536 + rune_of b * 256 + rune_of c)%Z in
      String (b64_char (val / 262144)) (String (b64_char (val / 4096 mod 64))
        (String (b64_char (val / 64 mod 64)) (String (b64_char (val mod 64))
          (EncodeToString rest))))
  | String a (String b EmptyString) =>
      let val := (rune_of a * 65536 + rune_of b * 256)%Z in
      String (b64_char (val / 262144)) (String (b64_char (val / 4096 mod 64))
        (String (b64_char (val / 64 mod 64)) (String "=" EmptyString)))
  | String a EmptyString =>
      let val := (rune_of a * 65536)%Z in
      String (b64_char (val / 262144)) (String (b64_char (val / 4096 mod 64))
        (String "=" (String "=" EmptyString)))
  | EmptyString => EmptyString
  end.

Definition is_newline (c : ascii) : bool := Ascii.eqb c "010" || Ascii.eqb c "013".

Fixpoint strip_newlines (s : string) : string :=
  match s with
  | EmptyString => EmptyString
  | String c s' => if is_newline c then strip_newlines s' else String c (strip_newlines s')
  end.

Definition CorruptInputError : goerror := ErrorNew "illegal base64 data at input byte %d".

(** The quanta of four characters; only the last one may be padded. *)
Fixpoint decode_quanta (s : string) : result goerror string :=
  match s with
  | EmptyString => Ok EmptyString
  | String c0 (String c1 (String c2 (String c3 rest))) =>
      match b64_val c0, b64_val c1 with
      | Some v0, Some v1 =>
          if Ascii.eqb c2 "=" then
            if Ascii.eqb c3 "=" && String.eqb rest "" then
              let val := (v0 * 262144 + v1 * 4096)%Z in
              Ok (String (byte_char (val / 65536)) EmptyString)
            else Err CorruptInputError
          else match b64_val c2 with
          | None => Err CorruptInputError
          | Some v2 =>
              if Ascii.eqb c3 "=" then
                if String.eqb rest "" then
                  let val := (v0 * 262144 + v1 * 4096 + v2 * 64)%Z in
                  Ok (String (byte_char (val / 65536)) (String (byte_char (val / 256 mod 256)) EmptyString))
                else Err CorruptInputError
              else match b64_val c3 with
              | None => Err CorruptInputError
              | Some v3 =>
                  let val := (v0 * 262144 + v1 * 4096 + v2 * 64 + v3)%Z in
                  tail <-? decode_quanta rest ;;
                  Ok (String (byte_char (val / 65536)) (String (byte_char (val / 256 mod 256))
                       (String (byte_char (val mod 256)) tail)))
              end
          end
      | _, _ => Err CorruptInputError
      end
  | _ => Err CorruptInputError
  end.

Definition DecodeString (s : string) : result goerror string := decode_quanta (strip_newlines s).

(** ** Lemmas *)

Lemma b64_val_char n : (0 <= n < 64)%Z -> b64_val (b64_char n) = Some n.
Proof.
  intros Hn.
  assert (Hall : forallb (fun i => bool_decide (b64_val (b64_char (Z.of_nat i)) = Some (Z.of_nat i)))
    (seq 0 64) = true) by (vm_compute; reflexivity).
  rewrite forallb_forall in Hall. specialize (Hall (Z.to_nat n)).
  rewrite Z2Nat.id in Hall by lia. apply (proj1 (bool_decide_eq_true _)), Hall, in_seq. lia.
Qed.

Lemma b64_char_plain n : (0 <= n < 64)%Z ->
  is_newline (b64_char n) = false /\ Ascii.eqb (b64_char n) "=" = false /\
  ((n < 62)%Z -> Ascii.eqb (b64_char n) "/" = false /\ Ascii.eqb (b64_char n) "+" = false).
Proof.
  intros Hn.
  assert (Hall : forallb (fun i => let c := b64_char (Z.of_nat i) in
      negb (is_newline c) && negb (Ascii.eqb c "=") &&
      ((62 <=? i)%nat || negb (Ascii.eqb c "/") && negb (Ascii.eqb c "+"))) (seq 0 64) = true)
    by (vm_compute; reflexivity).
  rewrite forallb_forall in Hall. specialize (Hall (Z.to_nat n)).
  rewrite Z2Nat.id in Hall by lia.
  assert (Hin : In (Z.to_nat n) (seq 0 64)) by (apply in_seq; lia).
  apply Hall in Hin. clear Hall. cbv zeta in Hin. breflect. split_and!; [done..|]. intros Hlt.
  match goal with H : _ || _ = true |- _ => apply orb_true_iff in H as [H|H] end.
  - breflect. match goal with H : (_ <=? _)%nat = true |- _ => apply Nat.leb_le in H end. lia.
  - breflect. done.
Qed.

Lemma is_newline_b64 n : (0 <= n < 64)%Z -> is_newline (b64_char n) = false.
Proof. apply b64_char_plain. Qed.

Lemma eqb_pad_b64 n : (0 <= n < 64)%Z -> Ascii.eqb (b64_char n) "=" = false.
Proof. apply b64_char_plain. Qed.

Lemma eqb_slash_b64 n : (0 <= n < 62)%Z -> Ascii.eqb (b64_char n) "/" = false.
Proof. intros Hn. apply b64_char_plain; lia. Qed.

Lemma eqb_plus_b64 n : (0 <= n < 62)%Z -> Ascii.eqb (b64_char n) "+" = false.
Proof. intros Hn. apply b64_char_plain; lia. Qed.

Lemma byte_char_rune a z : z = rune_of a -> byte_char z = a.
Proof. intros ->. unfold byte_char, rune_of. by rewrite N2Z.id, ascii_N_embedding. Qed.

(** Induction by blocks of three bytes. *)
Lemma string_ind3 (P : string -> Prop) :
  P "" -> (forall a, P (String a "")) -> (forall a b, P (String a (String b ""))) ->
  (forall a b c s, P s -> P (String a (String b (String c s)))) -> forall s, P s.
Proof.
  intros H0 H1 H2 H3. fix IH 1. intros [|a [|b [|c s]]]; [done|apply H1|apply H2|apply H3, IH].
Qed.

Ltac rune_ranges :=
  repeat match goal with a : ascii |- _ =>
    lazymatch goal with H : (0 <= rune_of a < 256)%Z |- _ => fail | _ => pose proof (rune_of_range a) end
  end.

Ltac zdiv := rune_ranges; Z.to_euclidean_division_equations; lia.

Lemma strip_EncodeToString s : strip_newlines (EncodeToString s) = EncodeToString s.
Proof.
  induction s as [|a|a b|a b c s IH] using string_ind3; [done|..]; cbn [EncodeToString strip_newlines];
    rewrite ?is_newline_b64 by zdiv; [done..|]. by rewrite IH.
Qed.

Lemma decode_encode s : decode_quanta (EncodeToString s) = Ok s.
Proof.
  induction s as [|a|a b|a b c s IH] using string_ind3; [done|..];
    cbn [EncodeToString decode_quanta]; rewrite ?b64_val_char by zdiv;
    rewrite ?eqb_pad_b64 by zdiv; cbn [andb Ascii.eqb].
  - cbn. f_equal. f_equal. apply byte_char_rune. zdiv.
  - cbn. f_equal. f_equal; [apply byte_char_rune; zdiv|]. f_equal. apply byte_char_rune. zdiv.
  - rewrite IH. cbn [result_bind]. do 2 f_equal; [apply byte_char_rune; zdiv|].
    f_equal; [apply byte_char_rune; zdiv|]. f_equal. apply byte_char_rune. zdiv.
Qed.

(** Decoding undoes encoding, on every byte string. *)
Lemma Decode_Encode s : DecodeString (EncodeToString s) = Ok s.
Proof. unfold DecodeString. by rewrite strip_EncodeToString, decode_encode. Qed.

Lemma EncodeToString_inj s t : EncodeToString s = EncodeToString t -> s = t.
Proof.
  intros He. pose proof (Decode_Encode s) as Hs. rewrite He, Decode_Encode in Hs. congruence.
Qed.
