(* ===== verification/RandomID.v ===== *)
(** Package store/keychain/internal/go-keychain, util.go: random identifiers,
    the base32 text of 256 random bits. *)

From S2P Require Import Prelude GoErrors GoStrings.

(** ** encoding/base32, StdEncoding *)

Definition b32_alphabet : string := "ABCDEFGHIJKLMNOPQRSTUVWXYZ234567".

(** The bits of a byte, the highest first, and the number of such a list. *)
Definition byte_bits (b : Byte.byte) : list bool :=
  map (fun i => N.testbit (Byte.to_N b) i) [7; 6; 5; 4; 3; 2; 1; 0]%N.

Definition bits_number (l : list bool) : nat := foldl (fun n b => (2 * n + Nat.b2n b)%nat) 0%nat l.

Definition b32_char (l : list bool) : ascii := default "A"%char (String.get (bits_number l) b32_alphabet).

(** Groups of five bits, the last one filled up with zeros. *)
Fixpoint b32_text (l : list bool) : string :=
  match l with
  | b0 :: b1 :: b2 :: b3 :: b4 :: l' => String (b32_char [b0; b1; b2; b3; b4]) (b32_text l')
  | [] => ""
  | _ => String (b32_char (take 5 (l ++ replicate 4 false))) ""
  end.

(** Padded to a multiple of eight characters. *)
Definition padding (n : nat) : string := string_of_list_ascii (replicate ((8 - n mod 8) mod 8) "="%char).

Definition Base32_EncodeToString (src : list Byte.byte) : string :=
  let s := b32_text (flat_map byte_bits src) in s +:+ padding (String.length s).

(** ** util.go *)

(** [rand.Read] fills the buffer of the length it is given, or fails. *)
Definition RandBytes (randRead : nat -> result goerror (list Byte.byte)) (length_ : nat)
  : result goerror (list Byte.byte) := randRead length_.

Definition RandomID (randRead : nat -> result goerror (list Byte.byte)) (prefix : string) : result goerror string :=
  buf <-? RandBytes randRead 32 ;;
  let str := Base32_EncodeToString buf in
  let str := ReplaceAll str "=" "" in
  Ok (prefix +:+ str).

(** ** Lemmas *)

Definition b32_plain (c : ascii) : bool := existsb (Ascii.eqb c) (list_ascii_of_string b32_alphabet).

Lemma b32_char_inj a b c d e a' b' c' d' e' :
  b32_char [a; b; c; d; e] = b32_char [a'; b'; c'; d'; e'] -> [a; b; c; d; e] = [a'; b'; c'; d'; e'].
Proof.
  repeat match goal with b : bool |- _ => destruct b end; vm_compute; try reflexivity; discriminate.
Qed.

Lemma b32_char_plain l : length l = 5%nat -> b32_plain (b32_char l) = true.
Proof.
  intros Hl. do 5 (destruct l as [|? l]; [discriminate Hl|]). destruct l; [|discriminate Hl].
  repeat match goal with b : bool |- _ => destruct b end; reflexivity.
Qed.

Lemma byte_bits_inj b b' : byte_bits b = byte_bits b' -> b = b'.
Proof.
  intros Hb. apply (f_equal bits_number) in Hb.
  assert (Hn : forall b, bits_number (byte_bits b) = Byte.to_nat b) by (intros []; reflexivity).
  rewrite !Hn in Hb. apply (f_equal Byte.of_nat) in Hb. rewrite !Byte.of_to_nat in Hb. by injection Hb.
Qed.

(** Induction by groups of five. *)
Lemma list_ind5 {A} (P : list A -> Prop) :
  (forall l, (length l < 5)%nat -> P l) -> (forall a b c d e l, P l -> P (a :: b :: c :: d :: e :: l)) -> forall l, P l.
Proof.
  intros Hs Hl. fix IH 1. intros [|a [|b [|c [|d [|e l]]]]]; [apply Hs; cbn; lia..|]. apply Hl, IH.
Qed.

Lemma flat_bits_inj s s' : length s = length s' -> flat_map byte_bits s = flat_map byte_bits s' -> s = s'.
Proof.
  revert s'. induction s as [|b s IH]; intros [|b' s'] Hl Hf; try discriminate Hl; [done|].
  cbn [flat_map] in Hf. apply app_inj_1 in Hf as [Hb Hf]; [|done]. f_equal; [by apply byte_bits_inj|].
  apply IH; [by injection Hl|done].
Qed.

Lemma length_flat_bits s : length (flat_map byte_bits s) = (8 * length s)%nat.
Proof. induction s as [|b s IH]; [done|]. cbn [flat_map]. rewrite length_app, IH. cbn. lia. Qed.

(** The text of bits: how long it is, its characters, and that it has them all. *)
Lemma b32_text_spec l : String.length (b32_text l) = ((length l + 4) / 5)%nat /\
  string_forallb b32_plain (b32_text l) = true.
Proof.
  induction l as [l Hl|a b c d e l [IH1 IH2]] using list_ind5.
  - destruct l as [|a [|b [|c [|d [|e l]]]]]; try (split; reflexivity); try (cbn in Hl; lia);
      (split; [reflexivity|]); cbn [b32_text string_forallb]; rewrite b32_char_plain; reflexivity.
  - cbn [b32_text String.length string_forallb]. rewrite IH1, IH2, b32_char_plain by done. split; [|done].
    cbn [length]. replace (Datatypes.S (Datatypes.S (Datatypes.S (Datatypes.S (Datatypes.S (length l))))) + 4)%nat
      with (1 * 5 + (length l + 4))%nat by lia. rewrite Nat.div_add_l by lia. lia.
Qed.

Lemma b32_text_inj l l' : length l = length l' -> b32_text l = b32_text l' -> l = l'.
Proof.
  revert l'. induction l as [l Hs|a b c d e l IH] using list_ind5; intros l' Hl Ht.
  - destruct l as [|a [|b [|c [|d [|e l]]]]]; try (cbn in Hs; lia);
      destruct l' as [|a' [|b' [|c' [|d' [|e' l']]]]]; try discriminate Hl; [done|..];
      injection Ht as Hc; apply b32_char_inj in Hc; cbn in Hc; injection Hc; intros; subst; reflexivity.
  - do 5 (destruct l' as [|? l']; [discriminate Hl|]). cbn [b32_text] in Ht. injection Ht as Hc Ht.
    apply b32_char_inj in Hc. injection Hc as -> -> -> -> ->. do 5 f_equal. apply IH; [|done].
    by injection Hl.
Qed.

Lemma ReplaceAll_pad s n : string_forallb b32_plain s = true ->
  ReplaceAll (s +:+ string_of_list_ascii (replicate n "="%char)) "=" "" = s.
Proof.
  intros Hs. unfold ReplaceAll.
  assert (Hf : forall fuel, (String.length s + n <= fuel)%nat ->
    ReplaceAll_fuel fuel (s +:+ string_of_list_ascii (replicate n "="%char)) "=" "" = s).
  { induction s as [|c s IH]; intros fuel Hfuel.
    - revert n Hfuel. induction fuel as [|fuel IH]; intros [|n] Hfuel; try done; [cbn in Hfuel; lia|].
      cbn [replicate string_of_list_ascii String.append ReplaceAll_fuel].
      set (t := string_of_list_ascii (replicate n "="%char)). change (String "=" t) with ("=" +:+ t).
      rewrite HasPrefix_append, drop_bytes_append. apply IH. cbn in Hfuel |- *. lia.
    - cbn [string_forallb] in Hs. apply andb_true_iff in Hs as [Hc Hs]. destruct fuel as [|fuel]; [cbn in Hfuel; lia|].
      cbn [String.append ReplaceAll_fuel].
      assert (Hp : HasPrefix (String c (s +:+ string_of_list_ascii (replicate n "="%char))) "=" = false).
      { destruct (HasPrefix _ _) eqn:Hp; [|done]. apply HasPrefix_spec in Hp as [r Hr]. injection Hr as -> _. discriminate Hc. }
      rewrite Hp. f_equal. apply IH; [done|]. cbn in Hfuel. lia. }
  apply Hf. rewrite length_append. apply Nat.add_le_mono_l.
  clear. induction n; cbn; lia.
Qed.

(** ** Property *)

(** An identifier is the prefix and 52 characters of the base32 alphabet, and
    it carries all 256 bits: different random buffers give different identifiers.
    A failed read of random bytes is the error. *)
Theorem RandomID_bits randRead prefix : (forall buf, randRead 32%nat = Ok buf -> length buf = 32%nat) ->
  (forall err, randRead 32%nat = Err err -> RandomID randRead prefix = Err err) /\
  (forall buf, randRead 32%nat = Ok buf -> exists id, RandomID randRead prefix = Ok (prefix +:+ id) /\
     String.length id = 52%nat /\ string_forallb b32_plain id = true /\
     forall randRead' buf', randRead' 32%nat = Ok buf' -> length buf' = 32%nat ->
       RandomID randRead' prefix = Ok (prefix +:+ id) -> buf' = buf).
Proof.
  intros Hlen. unfold RandomID, RandBytes. split; [by intros err ->|]. intros buf Hbuf. rewrite Hbuf.
  specialize (Hlen buf Hbuf). cbn [result_bind]. unfold Base32_EncodeToString, padding.
  destruct (b32_text_spec (flat_map byte_bits buf)) as [Hl Hplain]. rewrite ReplaceAll_pad by done.
  eexists. split; [reflexivity|]. rewrite Hl, length_flat_bits, Hlen. split; [reflexivity|]. split; [done|].
  intros randRead' buf' Hbuf' Hlen'. rewrite Hbuf'. cbn [result_bind].
  destruct (b32_text_spec (flat_map byte_bits buf')) as [_ Hplain']. rewrite ReplaceAll_pad by done.
  intros Heq. injection Heq as Heq. apply append_inj_l in Heq.
  apply flat_bits_inj; [by rewrite Hlen, Hlen'|]. apply b32_text_inj; [by rewrite !length_flat_bits, Hlen, Hlen'|done].
Qed.

Lemma RandomID_bits_witness :
  RandomID (fun n => Ok (replicate n Byte.xff)) "k" = Ok "k777777777777777777777777777777777777777777777777777Q" /\
  forall buf, length buf = 32%nat ->
    RandomID (fun _ => Ok buf) "k" = Ok "k777777777777777777777777777777777777777777777777777Q" -> buf = replicate 32 Byte.xff.
Proof.
  destruct (RandomID_bits (fun n => Ok (replicate n Byte.xff)) "k") as [_ H].
  - intros buf [= <-]. reflexivity.
  - destruct (H _ eq_refl) as (id & Hid & _ & _ & Hinj).
    assert (Hval : RandomID (fun n => Ok (replicate n Byte.xff)) "k" =
      Ok "k777777777777777777777777777777777777777777777777777Q") by (vm_compute; reflexivity).
    split; [exact Hval|]. intros buf Hl Hr. apply (Hinj (fun _ => Ok buf) buf eq_refl Hl). congruence.
Defined.
