(* ===== verification/SecretFile.v ===== *)
(** Package store/posixage/internal/secretfile: the file system under an
    [os.Root] as far as the store uses it, the naming of the directories,
    atomic writes, [Persist] and the restore functions (secret.go), and the
    recipients and identities of age (keys.go). *)

From S2P Require Import Prelude GoErrors GoStrings Secrets Store Base64.

(** ** The file system *)

(** A directory entry of the root: a file, or a directory of files ([None] is
    a nested directory, which the store never makes). *)
Inductive Entry : Type :=
| EFile (data : bytes)
| EDir (files : gmap string (option bytes)).

(** The root directory, and the outcome script of the coming system calls: a
    call takes one entry, [Some e] makes it fail with [e] and no effect, an
    empty script grants every call. *)
Record Root : Type := {
  r_entries : gmap string Entry;
  r_faults : list (option goerror)
}.

Definition fs_ErrNotExist : goerror := Sentinel "fs.ErrNotExist".
Definition fs_ErrExist : goerror := Sentinel "fs.ErrExist".
Definition fs_ENOTDIR : goerror := Sentinel "ENOTDIR".
Definition fs_EISDIR : goerror := Sentinel "EISDIR".

Definition fs_call {A} (f : gmap string Entry -> result goerror A * gmap string Entry)
  : comp Root goerror A := fun r =>
  match r_faults r with
  | Some e :: faults => (Err e, {| r_entries := r_entries r; r_faults := faults |})
  | _ =>
      let '(x, entries) := f (r_entries r) in
      (x, {| r_entries := entries; r_faults := tail (r_faults r) |})
  end.

(** [Root.Stat]. *)
Definition root_Stat (name : string) : comp Root goerror unit := fs_call (fun m =>
  (match m !! name with Some _ => Ok tt | None => Err fs_ErrNotExist end, m)).

(** [Root.RemoveAll] of a name that may be absent. *)
Definition root_RemoveAll (name : string) : comp Root goerror unit := fs_call (fun m =>
  (Ok tt, delete name m)).

Definition root_Mkdir (name : string) : comp Root goerror unit := fs_call (fun m =>
  match m !! name with
  | Some _ => (Err fs_ErrExist, m)
  | None => (Ok tt, <[name := EDir ∅]> m)
  end).

(** [Root.OpenRoot]: the handle is the name, no other process renames the
    directory while the store is locked. *)
Definition root_OpenRoot (name : string) : comp Root goerror string := fs_call (fun m =>
  (match m !! name with
   | Some (EDir _) => Ok name
   | Some (EFile _) => Err fs_ENOTDIR
   | None => Err fs_ErrNotExist
   end, m)).

(** A call on the files of the directory [dir]. *)
Definition dir_call {A} (dir : string)
    (f : gmap string (option bytes) -> result goerror A * gmap string (option bytes))
  : comp Root goerror A := fs_call (fun m =>
  match m !! dir with
  | Some (EDir files) => let '(x, files') := f files in (x, <[dir := EDir files']> m)
  | _ => (Err fs_ErrNotExist, m)
  end).

(** [Root.Create] truncates an existing file. *)
Definition dir_Create (dir name : string) : comp Root goerror unit := dir_call dir (fun files =>
  match files !! name with
  | Some None => (Err fs_EISDIR, files)
  | _ => (Ok tt, <[name := Some []]> files)
  end).

Definition dir_Write (dir name : string) (data : bytes) : comp Root goerror unit :=
  dir_call dir (fun files =>
    (Ok tt, alter (fun f => match f with Some old => Some (old ++ data) | None => None end) name files)).

Definition dir_Sync (dir name : string) : comp Root goerror unit := dir_call dir (fun files => (Ok tt, files)).

Definition dir_Rename (dir old new : string) : comp Root goerror unit := dir_call dir (fun files =>
  match files !! old, files !! new with
  | None, _ => (Err fs_ErrNotExist, files)
  | Some _, Some None => (Err fs_EISDIR, files)
  | Some f, _ => (Ok tt, <[new := f]> (delete old files))
  end).

(** [fs.ReadDir]: the entries sorted by name, with whether each is a
    directory. *)
Definition sorted_names {A} (m : gmap string A) : list string :=
  merge_sort (fun a b => Is_true (string_leb a b)) (map_to_list m).*1.

Definition dir_ReadDir (dir : string) : comp Root goerror (list (string * bool)) :=
  dir_call dir (fun files =>
    (Ok (map (fun n => (n, match files !! n with Some None => true | _ => false end))
           (sorted_names files)), files)).

Definition dir_Open (dir name : string) : comp Root goerror string := dir_call dir (fun files =>
  (match files !! name with Some _ => Ok name | None => Err fs_ErrNotExist end, files)).

(** [io.ReadAll] of an open file, and [Root.ReadFile]. *)
Definition dir_Read (dir name : string) : comp Root goerror bytes := dir_call dir (fun files =>
  (match files !! name with
   | Some (Some data) => Ok data
   | Some None => Err fs_EISDIR
   | None => Err fs_ErrNotExist
   end, files)).

(** ** secret.go *)

Abbreviation KeyType := string (only parsing).

Record EncryptedSecret : Type := { es_KeyType : KeyType; es_EncryptedData : bytes }.

Definition IDToDirName (id : ID) : string := EncodeToString id.

Definition DirNameToID (dirName : string) : result goerror ID :=
  s <-? DecodeString dirName ;;
  ParseID s.

Definition SecretFileName : string := "secret".
Definition MetadataFileName : string := "metadata.json".

Definition atomicWrite (dir fileName : string) (data : bytes) : comp Root goerror unit :=
  let tmpFileName := fileName +:+ ".tmp" in
  _ <-! dir_Create dir tmpFileName ;;
  _ <-! dir_Write dir tmpFileName data ;;
  _ <-! dir_Sync dir tmpFileName ;;
  dir_Rename dir tmpFileName fileName.

(** The loop of [Persist] over the encrypted secrets. *)
Fixpoint write_secrets (dir : string) (secrets : list EncryptedSecret) : comp Root goerror unit :=
  match secrets with
  | [] => ret tt
  | s :: secrets' =>
      _ <-! atomicWrite dir (SecretFileName +:+ es_KeyType s) (es_EncryptedData s) ;;
      write_secrets dir secrets'
  end.

Section secretfile.
(** [json.Marshal] and [json.Unmarshal] on a map of strings. *)
Context (json_Marshal : gmap string string -> result goerror bytes).
Context (json_Unmarshal : bytes -> result goerror (gmap string string)).

(** What [Persist] does between [Mkdir] and its deferred calls. *)
Definition fill_directory (secretDirName : string) (metadata : gmap string string)
    (secrets : list EncryptedSecret) : comp Root goerror unit :=
  secretDir <-! root_OpenRoot secretDirName ;;
  meta <-! lift (json_Marshal metadata) ;;
  _ <-! atomicWrite secretDir MetadataFileName meta ;;
  write_secrets secretDir secrets.

Definition Persist (id : ID) (metadata : gmap string string) (secrets : list EncryptedSecret)
  : comp Root goerror unit :=
  let secretDirName := IDToDirName id in
  _ <-! try (root_Stat secretDirName) (fun r =>
    match r with
    | Ok _ => root_RemoveAll secretDirName
    | Err _ => ret tt
    end) ;;
  _ <-! root_Mkdir secretDirName ;;
  deferring (fill_directory secretDirName metadata secrets) (fun r =>
    match r with
    | Ok _ => ret tt
    | Err _ => root_RemoveAll secretDirName
    end).

Definition RestoreMetadata (secretDir : string) : comp Root goerror (gmap string string) :=
  metadataStore <-! dir_Open secretDir MetadataFileName ;;
  b <-! dir_Read secretDir metadataStore ;;
  lift (json_Unmarshal b).

(** The loop of [RestoreSecret] over the files. *)
Fixpoint restore_files (secretDir : string) (files : list (string * bool))
    (secrets : list EncryptedSecret) : comp Root goerror (list EncryptedSecret) :=
  match files with
  | [] => ret secrets
  | (name, isDir) :: files' =>
      if isDir : bool then restore_files secretDir files' secrets
      else if negb (HasPrefix name SecretFileName) then restore_files secretDir files' secrets
      else try (dir_Read secretDir name) (fun r =>
        match r with
        | Err _ => restore_files secretDir files' secrets
        | Ok encryptedData =>
            restore_files secretDir files' (secrets ++
              [{| es_KeyType := ReplaceAll name SecretFileName "";
                  es_EncryptedData := encryptedData |}])
        end)
  end.

Definition RestoreSecret (id : ID) : comp Root goerror (list EncryptedSecret * gmap string string) :=
  secretDir <-! root_OpenRoot (IDToDirName id) ;;
  metadata <-! RestoreMetadata secretDir ;;
  files <-! dir_ReadDir secretDir ;;
  secrets <-! restore_files secretDir files [] ;;
  ret (secrets, metadata).
End secretfile.

(** ** keys.go *)

Definition PasswordKeyType : KeyType := "pass".
Definition AgeKeyType : KeyType := "age".
Definition SSHKeyType : KeyType := "ssh".
Definition MaxScryptWorkFactor : Z := 22.

(** filippo.io/age: recipients and identities, their parsers, and encryption
    and decryption of a whole file; [entropy] stands for the random file key
    and nonce. *)
Class Age (Recipient Identity : Type) : Type := {
  NewScryptRecipient : string -> result goerror Recipient;
  SetWorkFactor : Z -> Recipient -> Recipient;
  ParseX25519Recipient : string -> result goerror Recipient;
  ParseSSHRecipient : string -> result goerror Recipient;
  NewScryptIdentity : string -> result goerror Identity;
  ParseX25519Identity : string -> result goerror Identity;
  ParseSSHIdentity : string -> result goerror Identity;
  age_Encrypt : Z -> list Recipient -> bytes -> result goerror bytes;
  age_Decrypt : bytes -> Identity -> result goerror bytes
}.

Section keys.
Context {Recipient Identity : Type} `{Age Recipient Identity}.

Definition getRecipient (k : KeyType) (encryptionKey : string) (scryptWorkFactor : Z)
  : result goerror Recipient :=
  if String.eqb k PasswordKeyType then
    scryptRecipient <-? NewScryptRecipient encryptionKey ;;
    if negb (scryptWorkFactor =? 0)%Z then
      if ((scryptWorkFactor <? 1) || (MaxScryptWorkFactor <? scryptWorkFactor))%Z
      then Err (ErrorNew "scrypt work factor out of range (1..%d): %d")
      else Ok (SetWorkFactor scryptWorkFactor scryptRecipient)
    else Ok scryptRecipient
  else if String.eqb k AgeKeyType then ParseX25519Recipient encryptionKey
  else if String.eqb k SSHKeyType then ParseSSHRecipient encryptionKey
  else Err (ErrorNew "unsupported encryption type %T").

Fixpoint GetRecipients (k : KeyType) (encryptionKeys : list string) (scryptWorkFactor : Z)
  : result goerror (list Recipient) :=
  match encryptionKeys with
  | [] => Ok []
  | encryptionKey :: keys' =>
      recipient <-? getRecipient k encryptionKey scryptWorkFactor ;;
      recipients <-? GetRecipients k keys' scryptWorkFactor ;;
      Ok (recipient :: recipients)
  end.

Definition GetIdentity (k : KeyType) (decryptionKey : string) : result goerror Identity :=
  if String.eqb k PasswordKeyType then NewScryptIdentity decryptionKey
  else if String.eqb k AgeKeyType then ParseX25519Identity decryptionKey
  else if String.eqb k SSHKeyType then ParseSSHIdentity decryptionKey
  else Err (ErrorNew "unsupported decryption type %T").
End keys.

(** ** Lemmas: directory names *)

(** The bytes whose base64 form cannot contain "/" or "+". *)
Definition plain_byte (a : ascii) : bool := ((rune_of a <? 128) && (rune_of a mod 64 <? 62))%Z.

Lemma byte_free_String c a s : byte_free c (String a s) = negb (Ascii.eqb a c) && byte_free c s.
Proof. done. Qed.

Lemma EncodeToString_plain s : string_forallb plain_byte s = true ->
  byte_free "/" (EncodeToString s) = true /\ byte_free "+" (EncodeToString s) = true.
Proof.
  induction s as [|a|a b|a b c s IH] using string_ind3; [done|..]; intros Hs;
    cbn [string_forallb EncodeToString] in *; unfold plain_byte in Hs; breflect;
    rewrite !byte_free_String.
  - rewrite !eqb_slash_b64, !eqb_plus_b64 by zdiv. done.
  - rewrite !eqb_slash_b64, !eqb_plus_b64 by zdiv. done.
  - rewrite !eqb_slash_b64, !eqb_plus_b64 by zdiv. by apply IH.
Qed.

Lemma id_byte_plain a : id_byte a = true -> plain_byte a = true.
Proof.
  intros Ha. assert (Hall : forallb (fun n => let a := ascii_of_nat n in
    negb (id_byte a) || plain_byte a) (seq 0 256) = true) by (vm_compute; reflexivity).
  rewrite forallb_forall in Hall. specialize (Hall (nat_of_ascii a)). cbv beta zeta in Hall.
  rewrite ascii_nat_embedding, Ha in Hall. apply Hall, in_seq.
  pose proof (nat_ascii_bounded a). lia.
Qed.

Lemma valid_id_plain id : validIdentifier id = true -> string_forallb plain_byte id = true.
Proof.
  intros Hv. apply validIdentifier_components in Hv. rewrite <- (Join_Split id "/").
  revert Hv. generalize (Split id "/"). intros l Hl.
  induction Hl as [|c l [_ Hc] Hl IH]; [done|].
  assert (Hcp : string_forallb plain_byte c = true)
    by (eapply string_forallb_impl; [apply id_byte_plain|exact Hc]).
  destruct l as [|c' l]; [done|].
  rewrite StringsJoin_cons, !string_forallb_append, Hcp, IH. done.
Qed.

(** ** Lemmas: computations under at most one failure *)

(** No call to come fails; at most one does. *)
Definition quiet (r : Root) : Prop := Forall (fun f => f = None) (r_faults r).
Definition one_fault (r : Root) : Prop := (length (omap id (r_faults r)) <= 1)%nat.

Lemma quiet_one_fault r : quiet r -> one_fault r.
Proof.
  unfold quiet, one_fault. induction (r_faults r) as [|f fs IH]; intros Hq; [simpl; lia|].
  inversion Hq; subst. simpl. by apply IH.
Qed.

Lemma one_fault_tail e fs entries entries' :
  one_fault {| r_entries := entries; r_faults := Some e :: fs |} ->
  quiet {| r_entries := entries'; r_faults := fs |}.
Proof.
  unfold one_fault, quiet. simpl. intros Hl. assert (Hn : omap id fs = []).
  { apply length_zero_iff_nil. change (Datatypes.S (length (omap id fs)) <= 1)%nat in Hl. lia. }
  clear Hl. induction fs as [|[f|] fs IH]; [constructor|discriminate Hn|constructor; auto].
Qed.

(** [m] run from entries in [P], under at most one failure, returns in [Q] or
    fails in [F]; a failure of a call that was granted is excluded, so after an
    error every call to come is granted. *)
Definition safely {A} (P : gmap string Entry -> Prop) (m : comp Root goerror A)
    (Q : A -> gmap string Entry -> Prop) (F : gmap string Entry -> Prop) : Prop :=
  forall r, one_fault r -> P (r_entries r) ->
    one_fault (m r).2 /\ (quiet r -> quiet (m r).2 /\ is_ok (m r).1 = true) /\
    match (m r).1 with
    | Ok a => Q a (r_entries (m r).2)
    | Err _ => quiet (m r).2 /\ F (r_entries (m r).2)
    end.

Lemma safely_bind {A B} P (m : comp Root goerror A) (f : A -> comp Root goerror B) Q Q' F :
  safely P m Q F -> (forall a, safely (Q a) (f a) Q' F) -> safely P (bind m f) Q' F.
Proof.
  intros Hm Hf r Hr HP. unfold bind. specialize (Hm r Hr HP).
  destruct (m r) as [[a|e] r1]; simpl in *; [|naive_solver].
  destruct Hm as (H1 & Hq1 & HQ). specialize (Hf a r1 H1 HQ). destruct Hf as (H2 & Hq2 & HQ2).
  split_and!; [done| |done]. intros Hq. by apply Hq2, Hq1.
Qed.

Lemma safely_ret {A} (a : A) (P : gmap string Entry -> Prop) Q F :
  (forall m, P m -> Q a m) -> safely P (ret a) Q F.
Proof. intros HQ r Hr HP. simpl. auto. Qed.

Lemma safely_lift {A} (x : result goerror A) a (P : gmap string Entry -> Prop) Q F :
  x = Ok a -> (forall m, P m -> Q a m) -> safely P (lift x) Q F.
Proof. intros -> HQ r Hr HP. simpl. auto. Qed.

Lemma safely_call {A} f (P F : gmap string Entry -> Prop) (Q : A -> gmap string Entry -> Prop) :
  (forall m, P m -> F m) ->
  (forall m, P m -> exists a m', f m = (Ok a, m') /\ Q a m') -> safely P (fs_call f) Q F.
Proof.
  intros HF HQ [m fs] Hr HP. unfold fs_call. simpl in *.
  destruct fs as [|[e|] fs]; simpl.
  - destruct (HQ m HP) as (a & m' & -> & Hm'). simpl. split_and!; [done|done|done].
  - pose proof (one_fault_tail _ _ _ m Hr) as Hq. split_and!; [by apply quiet_one_fault| |done|auto].
    intros Hq'. by inversion Hq'.
  - destruct (HQ m HP) as (a & m' & -> & Hm'). simpl. split_and!; [done| |done].
    intros Hq. split; [by inversion Hq|done].
Qed.

Lemma safely_mono {A} (P P' : gmap string Entry -> Prop) (m : comp Root goerror A) Q Q' F F' :
  safely P m Q F -> (forall x, P' x -> P x) -> (forall a x, Q a x -> Q' a x) ->
  (forall x, F x -> F' x) -> safely P' m Q' F'.
Proof.
  intros Hm HP HQ HF r Hr HP'. specialize (Hm r Hr (HP _ HP')).
  destruct (m r) as [[a|e] r1]; simpl in *; naive_solver.
Qed.

(** ** Lemmas: Persist *)

(** The entries of [m0] but for the directory [dir]. *)
Definition others (dir : string) (m0 m : gmap string Entry) : Prop :=
  forall d, d <> dir -> m !! d = m0 !! d.

(** The directory holds exactly [files], the rest is [m0]. *)
Definition dir_is (dir : string) (m0 : gmap string Entry) (files : gmap string (option bytes))
    (m : gmap string Entry) : Prop :=
  m !! dir = Some (EDir files) /\ others dir m0 m.

Lemma others_insert dir m0 m e : others dir m0 m -> others dir m0 (<[dir := e]> m).
Proof. intros Ho d Hd. rewrite lookup_insert_ne by done. by apply Ho. Qed.

Lemma safely_dir {A} dir m0 files files' (a : A) f :
  f files = (Ok a, files') ->
  safely (dir_is dir m0 files) (dir_call dir f)
    (fun b m => b = a /\ dir_is dir m0 files' m) (others dir m0).
Proof.
  intros Hf. apply safely_call; [by intros m [_ Ho]|]. intros m [Hd Ho].
  rewrite Hd, Hf. eexists _, _. split; [done|]. split; [done|]. split.
  - apply lookup_insert_eq.
  - by apply others_insert.
Qed.

Lemma append_neq s t : t <> "" -> s +:+ t <> s.
Proof.
  intros Ht He. apply (f_equal String.length) in He. rewrite length_append in He.
  apply Ht. destruct t; [done|]. simpl in He. lia.
Qed.

Lemma safely_atomicWrite dir m0 files name data :
  files !! (name +:+ ".tmp") = None -> files !! name <> Some None ->
  safely (dir_is dir m0 files) (atomicWrite dir name data)
    (fun _ => dir_is dir m0 (<[name := Some data]> files)) (others dir m0).
Proof.
  intros Htmp Hname. assert (Hne : name +:+ ".tmp" <> name) by (by apply append_neq).
  unfold atomicWrite. set (tmp := name +:+ ".tmp") in *.
  eapply safely_bind; [apply (safely_dir _ _ _ (<[tmp := Some []]> files) tt); by rewrite Htmp|].
  intros u. eapply safely_bind.
  { eapply safely_mono; [apply (safely_dir dir m0 (<[tmp := Some []]> files) (<[tmp := Some data]> files) tt)
      |by intros x [_ Hx]|done|done].
    f_equal. apply map_eq. intros k. destruct (decide (k = tmp)) as [->|Hk].
    - by rewrite lookup_alter_eq, !lookup_insert_eq.
    - by rewrite lookup_alter_ne, !lookup_insert_ne. }
  intros u2. eapply safely_bind.
  { eapply safely_mono; [by apply (safely_dir dir m0 (<[tmp := Some data]> files) (<[tmp := Some data]> files) tt)
      |by intros x [_ Hx]|done|done]. }
  intros u3. eapply safely_mono; [apply (safely_dir dir m0 (<[tmp := Some data]> files) (<[name := Some data]> files) tt)| | |];
    [|by intros x [_ Hx]|by intros ? x [_ Hx]|done].
  rewrite lookup_insert_eq, lookup_insert_ne by done.
  destruct (files !! name) as [[old|]|]; [|done|];
    by rewrite delete_insert_eq, delete_id.
Qed.

(** The files of a persisted secret. *)
Definition secret_files (meta : bytes) (secrets : list EncryptedSecret) : gmap string (option bytes) :=
  foldl (fun files s => <[SecretFileName +:+ es_KeyType s := Some (es_EncryptedData s)]> files)
    {[MetadataFileName := Some meta]} secrets.

Definition known_type (s : EncryptedSecret) : Prop :=
  es_KeyType s = PasswordKeyType \/ es_KeyType s = AgeKeyType \/ es_KeyType s = SSHKeyType.

(** Nothing but regular files under names of secrets. *)
Definition regular (files : gmap string (option bytes)) : Prop :=
  forall k f, files !! k = Some f -> is_Some f /\
    (k = MetadataFileName \/ exists s, known_type s /\ k = SecretFileName +:+ es_KeyType s).

Lemma regular_no_tmp files name : regular files ->
  (name = MetadataFileName \/ exists s, known_type s /\ name = SecretFileName +:+ es_KeyType s) ->
  files !! (name +:+ ".tmp") = None /\ files !! name <> Some None.
Proof.
  intros Hr Hn. split.
  - apply eq_None_not_Some. intros [f Hf]. apply Hr in Hf as [_ Hf].
    destruct Hn as [->|(s & [Hs|[Hs|Hs]] & ->)]; try rewrite Hs in Hf;
      (destruct Hf as [Hf|(t & [Ht|[Ht|Ht]] & Hf)]; try rewrite Ht in Hf; by vm_compute in Hf).
  - intros Hf. apply Hr in Hf as [[? ?] _]. done.
Qed.

Lemma regular_insert files name data : regular files ->
  (name = MetadataFileName \/ exists s, known_type s /\ name = SecretFileName +:+ es_KeyType s) ->
  regular (<[name := Some data]> files).
Proof.
  intros Hr Hn k f Hf. apply lookup_insert_Some in Hf as [[<- <-]|[_ Hf]]; [by eauto|by apply Hr].
Qed.

Lemma safely_write_secrets dir m0 files secrets : regular files -> Forall known_type secrets ->
  safely (dir_is dir m0 files) (write_secrets dir secrets)
    (fun _ => dir_is dir m0 (foldl (fun files s =>
       <[SecretFileName +:+ es_KeyType s := Some (es_EncryptedData s)]> files) files secrets))
    (others dir m0).
Proof.
  intros Hr Hk. revert files Hr. induction Hk as [|s secrets Hs Hk IH]; intros files Hr.
  { by apply safely_ret. }
  destruct (regular_no_tmp files (SecretFileName +:+ es_KeyType s) Hr) as [Ht Hn]; [eauto|].
  cbn [write_secrets]. eapply safely_bind; [by apply safely_atomicWrite|]. intros u.
  apply IH. apply regular_insert; eauto.
Qed.

Lemma safely_fill json_Marshal dir m0 metadata meta secrets :
  json_Marshal metadata = Ok meta -> Forall known_type secrets ->
  safely (dir_is dir m0 ∅) (fill_directory json_Marshal dir metadata secrets)
    (fun _ => dir_is dir m0 (secret_files meta secrets)) (others dir m0).
Proof.
  intros Hm Hk. unfold fill_directory. eapply safely_bind.
  { apply (safely_call _ _ _ (fun d m => d = dir /\ dir_is dir m0 ∅ m)); [by intros m [_ Ho]|].
    intros m [Hd Ho]. rewrite Hd. eexists _, _. by split. }
  intros d. eapply safely_bind.
  { apply (safely_lift _ meta _ (fun b m => b = meta /\ d = dir /\ dir_is dir m0 ∅ m)); [done|]. tauto. }
  intros b. intros r Hr (-> & -> & Hd).
  assert (He : regular ∅) by (intros k f Hf; by rewrite lookup_empty in Hf).
  revert r Hr Hd.
  change (safely (dir_is dir m0 ∅) (bind (atomicWrite dir MetadataFileName meta)
    (fun _ => write_secrets dir secrets)) (fun _ => dir_is dir m0 (secret_files meta secrets)) (others dir m0)).
  destruct (regular_no_tmp ∅ MetadataFileName He) as [Ht Hn]; [by left|].
  eapply safely_bind; [by apply safely_atomicWrite|]. intros u.
  apply safely_write_secrets; [|done]. apply regular_insert; [done|by left].
Qed.

(** ** Lemmas: restoring *)

Lemma runs_call {A} f r (Q : A -> Root -> Prop) a m' : quiet r ->
  f (r_entries r) = (Ok a, m') ->
  (forall r', quiet r' -> r_entries r' = m' -> Q a r') -> runs (fs_call f) r Q.
Proof.
  intros Hq Hf HQ. unfold runs, fs_call. unfold quiet in Hq.
  destruct (r_faults r) as [|[e|] fs] eqn:Hfs; [|by inversion Hq|]; rewrite Hf;
    (eexists _, _; split; [done|]; apply HQ; [|done]).
  - constructor.
  - by inversion Hq.
Qed.

Lemma runs_dir_call {A} dir f r files (Q : A -> Root -> Prop) a : quiet r ->
  r_entries r !! dir = Some (EDir files) -> f files = (Ok a, files) ->
  (forall r', quiet r' -> r_entries r' = r_entries r -> Q a r') -> runs (dir_call dir f) r Q.
Proof.
  intros Hq Hd Hf HQ. eapply runs_call; [done|by rewrite Hd, Hf|]. intros r' Hq' He. apply HQ; [done|].
  rewrite He. by apply insert_id.
Qed.

Lemma runs_safely {A} P (m : comp Root goerror A) Q F r : safely P m Q F -> quiet r -> P (r_entries r) ->
  runs m r (fun a r' => quiet r' /\ Q a (r_entries r')).
Proof.
  intros Hm Hq HP. destruct (Hm r (quiet_one_fault _ Hq) HP) as (_ & Hqq & HQ).
  destruct (Hqq Hq) as [Hq' Hok]. unfold runs. destruct (m r) as [[a|e] r']; [|done]. by eexists _, _.
Qed.

(** What one file of the directory restores to. *)
Definition restored_file (files : gmap string (option bytes)) (name : string) : option EncryptedSecret :=
  match files !! name with
  | Some (Some data) =>
      if HasPrefix name SecretFileName
      then Some {| es_KeyType := ReplaceAll name SecretFileName ""; es_EncryptedData := data |}
      else None
  | _ => None
  end.

Lemma runs_restore_files dir files names acc r Q : quiet r ->
  r_entries r !! dir = Some (EDir files) -> regular files ->
  (forall n, n ∈ names -> is_Some (files !! n)) ->
  (forall r', quiet r' -> r_entries r' = r_entries r -> Q (acc ++ omap (restored_file files) names) r') ->
  runs (restore_files dir (map (fun n => (n, match files !! n with Some None => true | _ => false end)) names) acc)
    r Q.
Proof.
  intros Hq Hd Hreg Hin HQ. revert acc r Hq Hd HQ.
  induction names as [|n names IH]; intros acc r Hq Hd HQ.
  { cbn. apply runs_ret. rewrite <- (app_nil_r acc). by apply HQ. }
  destruct (Hin n) as [f Hf]; [by left|]. pose proof (Hreg n f Hf) as [[data ->] _].
  assert (Hin' : forall n', n' ∈ names -> is_Some (files !! n')) by (intros; apply Hin; by right).
  specialize (IH Hin'). cbn [map restore_files]. rewrite Hf.
  assert (Hstep : omap (restored_file files) (n :: names) = match restored_file files n with
    | Some s => s :: omap (restored_file files) names | None => omap (restored_file files) names end) by done.
  rewrite Hstep in HQ. unfold restored_file at 1 in HQ. rewrite Hf in HQ.
  destruct (HasPrefix n SecretFileName); cbn [negb]; [|by apply IH].
  apply runs_try. eapply (runs_dir_call _ _ _ files); [done|done|by rewrite Hf|].
  intros r' Hq' He. apply IH; [done|by rewrite He|]. intros r2 Hq2 He2. rewrite <- app_assoc.
  apply HQ; [done|congruence].
Qed.

Lemma sorted_names_perm {A} (m : gmap string A) : sorted_names m ≡ₚ (map_to_list m).*1.
Proof. apply merge_sort_Permutation. Qed.

Lemma elem_of_sorted_names {A} (m : gmap string A) n : n ∈ sorted_names m <-> is_Some (m !! n).
Proof.
  rewrite sorted_names_perm, list_elem_of_fmap. split.
  - intros ([k v] & -> & Hin). apply elem_of_map_to_list in Hin. eauto.
  - intros [v Hv]. exists (n, v). split; [done|]. by apply elem_of_map_to_list.
Qed.

Definition secret_binding (s : EncryptedSecret) : string * option bytes :=
  (SecretFileName +:+ es_KeyType s, Some (es_EncryptedData s)).

Lemma secret_files_bindings meta secrets : NoDup (map es_KeyType secrets) ->
  map_to_list (secret_files meta secrets) ≡ₚ
    (MetadataFileName, Some meta) :: map secret_binding secrets.
Proof.
  intros Hnd. set (l := _ :: _).
  assert (Hl : NoDup l.*1).
  { subst l. cbn. apply list.NoDup_cons. split.
    - intros Hin. apply list_elem_of_fmap in Hin as ([k v] & Hk & Hin). cbn in Hk. subst k.
      apply list_elem_of_fmap in Hin as (s & Hs & _). injection Hs. discriminate.
    - change (map secret_binding secrets) with (secret_binding <$> secrets).
      rewrite <- list_fmap_compose.
      replace (fst ∘ secret_binding <$> secrets) with ((fun t => SecretFileName +:+ t) <$> map es_KeyType secrets)
        by (change (map es_KeyType secrets) with (es_KeyType <$> secrets);
            by rewrite <- list_fmap_compose).
      apply NoDup_fmap_2; [|done]. intros a b Hab. by apply append_inj_l in Hab. }
  assert (Hm : secret_files meta secrets = list_to_map l).
  { unfold secret_files. subst l.
    assert (Hgen : forall init, (forall s, s ∈ secrets -> init !! (SecretFileName +:+ es_KeyType s) = None) ->
      foldl (fun files s => <[SecretFileName +:+ es_KeyType s := Some (es_EncryptedData s)]> files) init secrets
      = (list_to_map (map secret_binding secrets) : gmap string (option bytes)) ∪ init).
    { clear Hl. induction secrets as [|s secrets IH]; intros init Hi; [symmetry; apply (left_id_L ∅ (∪))|].
      cbn in Hnd. apply list.NoDup_cons in Hnd as [Hs Hnd]. cbn [foldl map list_to_map].
      rewrite IH; [|done|].
      - cbn. rewrite <- insert_union_r, insert_union_l; [done|].
        apply not_elem_of_list_to_map. intros Hin. apply Hs.
        apply list_elem_of_fmap in Hin as ([k v] & Hk & Hin). apply list_elem_of_fmap in Hin as (s' & Heq & Hin).
        injection Heq as -> ->. cbn in Hk. apply list_elem_of_fmap. exists s'. split; [|done].
        change (SecretFileName +:+ es_KeyType s = SecretFileName +:+ es_KeyType s') in Hk.
        by apply append_inj_l in Hk.
      - intros s' Hs'. rewrite lookup_insert_ne; [apply Hi; by right|].
        intros Heq. apply append_inj_l in Heq. apply Hs. rewrite Heq. apply list_elem_of_fmap. by exists s'. }
    rewrite Hgen.
    - cbn [list_to_map foldr]. rewrite insert_union_singleton_l. apply map_union_comm.
      apply map_disjoint_spec. intros k x y Hx Hy. apply lookup_singleton_Some in Hy as [<- _].
      apply elem_of_list_to_map_2 in Hx. apply list_elem_of_fmap in Hx as (s & Hs & _). discriminate Hs.
    - intros s _. by apply lookup_singleton_ne. }
  rewrite Hm. by apply map_to_list_to_map.
Qed.

Lemma restored_secret meta secrets s : NoDup (map es_KeyType secrets) -> known_type s -> s ∈ secrets ->
  restored_file (secret_files meta secrets) (SecretFileName +:+ es_KeyType s) = Some s.
Proof.
  intros Hnd Hk Hin. unfold restored_file.
  assert (Hl : secret_files meta secrets !! (SecretFileName +:+ es_KeyType s) = Some (Some (es_EncryptedData s))).
  { apply elem_of_map_to_list. rewrite (secret_files_bindings meta secrets Hnd). right.
    apply list_elem_of_fmap. by exists s. }
  rewrite Hl. destruct s as [kt d]. unfold known_type in Hk. cbn in *.
  destruct Hk as [->|[->| ->]]; done.
Qed.

Lemma restored_all meta secrets : NoDup (map es_KeyType secrets) -> Forall known_type secrets ->
  omap (restored_file (secret_files meta secrets)) (sorted_names (secret_files meta secrets)) ≡ₚ secrets.
Proof.
  intros Hnd Hk. set (g := restored_file _).
  rewrite sorted_names_perm, (secret_files_bindings meta secrets Hnd). cbn.
  assert (Hmeta : g MetadataFileName = None).
  { subst g. unfold restored_file. by destruct (_ !! _) as [[?|]|]. }
  rewrite Hmeta. change (map secret_binding secrets) with (secret_binding <$> secrets).
  rewrite <- list_fmap_compose.
  assert (Hall : forall l, (forall s, s ∈ l -> s ∈ secrets) ->
    omap (M := list) g (fst ∘ secret_binding <$> l) = l).
  { induction l as [|s l IH]; intros Hl; [done|].
    assert (Hs : s ∈ secrets) by (apply Hl; by left).
    assert (Hg : g ((fst ∘ secret_binding) s) = Some s).
    { apply restored_secret; [done| |done]. rewrite Forall_forall in Hk. by apply Hk, list_elem_of_In. }
    change (match g ((fst ∘ secret_binding) s) with
            | Some y => y :: omap (M := list) g (fst ∘ secret_binding <$> l)
            | None => omap (M := list) g (fst ∘ secret_binding <$> l) end = s :: l).
    rewrite Hg. f_equal. apply IH. intros s' Hs'. apply Hl. by right. }
  by rewrite Hall.
Qed.


(** ** Persist as a whole *)

Lemma fs_call_cases {A} (f : gmap string Entry -> result goerror A * gmap string Entry) r :
  one_fault r -> exists r1, one_fault r1 /\
  ((exists e, fs_call f r = (Err e, r1) /\ r_entries r1 = r_entries r /\ quiet r1 /\ ~ quiet r) \/
   (fs_call f r = ((f (r_entries r)).1, r1) /\ r_entries r1 = (f (r_entries r)).2 /\
    (quiet r -> quiet r1))).
Proof.
  intros Hr. unfold fs_call. destruct r as [m [|[e|] fs]]; simpl.
  - destruct (f m) as [x m']. eexists. split; [|right; split_and!; [done..|]]; [exact Hr|].
    intros _. constructor.
  - pose proof (one_fault_tail e fs m m Hr) as Hq. eexists. split; [by apply quiet_one_fault|].
    left. exists e. split_and!; [done..|]. intros Hq'. by inversion Hq'.
  - destruct (f m) as [x m']. eexists. split; [|right; split_and!; [done..|]]; [exact Hr|].
    intros Hq. by inversion Hq.
Qed.

Section persist.
Context (json_Marshal : gmap string string -> result goerror bytes) (metadata : gmap string string).
Context (meta : bytes) (secrets : list EncryptedSecret) (dir : string).
Context (Hmeta : json_Marshal metadata = Ok meta) (Hknown : Forall known_type secrets).

(** From [Mkdir] on, when the directory is absent. *)
Lemma persist_fresh m0 r : one_fault r -> others dir m0 (r_entries r) -> r_entries r !! dir = None ->
  let '(x, r') := bind (root_Mkdir dir) (fun _ =>
    deferring (fill_directory json_Marshal dir metadata secrets) (fun r =>
      match r with Ok _ => ret tt | Err _ => root_RemoveAll dir end)) r in
  others dir m0 (r_entries r') /\ (quiet r -> quiet r' /\ is_ok x = true) /\
  r_entries r' !! dir = match x with Ok _ => Some (EDir (secret_files meta secrets)) | Err _ => None end.
Proof.
  intros Hr Ho Hnone. unfold bind, root_Mkdir.
  match goal with |- context [fs_call ?f r] => destruct (fs_call_cases f r Hr) as (r1 & H1 & [Hc|Hc]) end.
  - destruct Hc as (e & -> & He & Hq & Hnq). rewrite He. by split_and!.
  - destruct Hc as (-> & He & Hq). rewrite Hnone in He |- *. cbn in He |- *.
    assert (Hdir : dir_is dir m0 ∅ (r_entries r1)).
    { rewrite He. split; [apply lookup_insert_eq|by apply others_insert]. }
    destruct (safely_fill json_Marshal dir m0 metadata meta secrets Hmeta Hknown r1 H1 Hdir)
      as (H2 & Hq2 & HQ).
    unfold deferring. destruct (fill_directory json_Marshal dir metadata secrets r1) as [[u|e] r2].
    + destruct HQ as [Hd Ho']. cbn in *. split_and!; [done| |done]. intros Hqr. by apply Hq2, Hq.
    + destruct HQ as [Hqe Ho']. cbn in *. unfold root_RemoveAll, fs_call.
      destruct r2 as [m2 fs2]. unfold quiet in Hqe. cbn in *.
      assert (Hfail : quiet r -> False).
      { intros Hqr. destruct (Hq2 (Hq Hqr)) as [_ Hbad]. discriminate. }
      destruct fs2 as [|[f|] fs2]; [|by inversion Hqe|]; cbn;
        (split_and!; [|by intros ?%Hfail|apply lookup_delete_eq]);
        (intros d Hd; rewrite lookup_delete_ne by done; by apply Ho').
Qed.

(** [Mkdir] on a directory that is still there changes nothing. *)
Lemma persist_exists r e : quiet r -> r_entries r !! dir = Some e ->
  let '(x, r') := bind (root_Mkdir dir) (fun _ =>
    deferring (fill_directory json_Marshal dir metadata secrets) (fun r =>
      match r with Ok _ => ret tt | Err _ => root_RemoveAll dir end)) r in
  r_entries r' = r_entries r /\ is_ok x = false.
Proof.
  intros Hq He. unfold bind, root_Mkdir, fs_call. unfold quiet in Hq.
  destruct (r_faults r) as [|[f|] fs]; [|by inversion Hq|]; by rewrite He.
Qed.
End persist.

(** The whole of [Persist], under at most one failing call. *)
Lemma Persist_safely json_Marshal id metadata meta secrets r :
  json_Marshal metadata = Ok meta -> Forall known_type secrets -> one_fault r ->
  let '(x, r') := Persist json_Marshal id metadata secrets r in
  others (IDToDirName id) (r_entries r) (r_entries r') /\
  (quiet r -> quiet r' /\ x = Ok tt) /\
  match x with
  | Ok _ => r_entries r' !! IDToDirName id = Some (EDir (secret_files meta secrets))
  | Err _ => r_entries r' !! IDToDirName id = None \/
             r_entries r' !! IDToDirName id = r_entries r !! IDToDirName id
  end.
Proof.
  intros Hm Hk Hr. unfold Persist. set (dir := IDToDirName id).
  set (rest := fun _ : unit => bind (root_Mkdir dir) _).
  assert (Hfresh : forall r1, one_fault r1 -> others dir (r_entries r) (r_entries r1) ->
    r_entries r1 !! dir = None -> (quiet r -> quiet r1) ->
    let '(x, r') := rest tt r1 in
    others dir (r_entries r) (r_entries r') /\ (quiet r -> quiet r' /\ x = Ok tt) /\
    match x with
    | Ok _ => r_entries r' !! dir = Some (EDir (secret_files meta secrets))
    | Err _ => r_entries r' !! dir = None \/ r_entries r' !! dir = r_entries r !! dir
    end).
  { intros r1 H1 Ho Hn Hq. pose proof (persist_fresh json_Marshal metadata meta secrets dir Hm Hk
      (r_entries r) r1 H1 Ho Hn) as Hp. subst rest. cbv beta in Hp |- *.
    destruct (bind _ _ r1) as [[[]|e] r']; destruct Hp as (? & Hqq & ?); split_and!; auto;
      intros Hqr; destruct (Hqq (Hq Hqr)); done. }
  unfold bind at 1, try, root_Stat.
  match goal with |- context [fs_call ?f r] => destruct (fs_call_cases f r Hr) as (r1 & H1 & [Hc|Hc]) end.
  - destruct Hc as (e & -> & He & Hq & Hnq). cbn [ret]. cbv beta.
    destruct (r_entries r1 !! dir) as [old|] eqn:Hd.
    + pose proof (persist_exists json_Marshal metadata secrets dir r1 old Hq Hd) as Hp.
      subst rest. cbv beta. unfold ret. destruct (bind _ _ r1) as [[u|e'] r']; [by destruct Hp|].
      destruct Hp as [Hp _]. rewrite Hp, He. split_and!; [done|by intros ?%Hnq|by right].
    + unfold ret. apply Hfresh; [done|by rewrite He|done|by intros ?%Hnq].
  - destruct Hc as (-> & He & Hq). cbn in He |- *.
    destruct (r_entries r !! dir) as [old|] eqn:Hd.
    + unfold root_RemoveAll.
      match goal with |- context [fs_call ?f r1] => destruct (fs_call_cases f r1 H1) as (r2 & H2 & [Hc|Hc]) end.
      * destruct Hc as (e & -> & He2 & _ & Hnq). rewrite He2, He.
        split_and!; [done|by intros ?%Hq%Hnq|by right].
      * destruct Hc as (-> & He2 & Hq2). cbn in He2 |- *. rewrite He in He2.
        pose proof (Hfresh r2 H2) as Hf. destruct (rest tt r2) as [x r'].
        apply Hf; [|by rewrite He2, lookup_delete_eq|auto].
        rewrite He2. intros d Hne. by rewrite lookup_delete_ne.
    + unfold ret. pose proof (Hfresh r1 H1) as Hf. rewrite He, Hd in Hf.
      destruct (rest tt r1) as [x r']. by apply Hf.
Qed.

(** ** Properties of the secret files *)

(** The case folding of a file system that ignores the case of ASCII letters. *)
Fixpoint fold_case (s : string) : string :=
  match s with
  | EmptyString => EmptyString
  | String a s' => String (byte_char (ascii_lower (rune_of a))) (fold_case s')
  end.

(** the directory of a secret identifies it: for every valid identifier the
    name decodes back to it and contains neither "/" nor "+", different
    identifiers have different names, and a name decodes to valid identifiers
    only. The names are not distinct on a file system that ignores case (the
    default on macOS and Windows): "abc" and "abI" are different identifiers
    whose directories have the same name there, so saving one removes the
    other. *)
Theorem dir_names id : validIdentifier id = true ->
  DirNameToID (IDToDirName id) = Ok id /\
  byte_free "/" (IDToDirName id) = true /\ byte_free "+" (IDToDirName id) = true /\
  (forall id', IDToDirName id' = IDToDirName id -> id' = id) /\
  (forall name id', DirNameToID name = Ok id' -> validIdentifier id' = true) /\
  (IDToDirName "abc" = "YWJj" /\ IDToDirName "abI" = "YWJJ" /\
   fold_case (IDToDirName "abc") = fold_case (IDToDirName "abI")).
Proof.
  intros Hv. unfold DirNameToID, IDToDirName. rewrite Decode_Encode. simpl.
  destruct (EncodeToString_plain id (valid_id_plain id Hv)) as [Hs Hp].
  split_and!; [|done|done|intros id' He; by apply EncodeToString_inj| |by vm_compute..].
  - unfold ParseID, valid. by rewrite Hv.
  - intros name id' Hn. apply result_bind_Ok_inv in Hn as (i & _ & Hi). by eapply ParseID_valid.
Qed.

Lemma dir_names_witness :
  DirNameToID (IDToDirName "docker/key") = Ok "docker/key" /\
  byte_free "/" (IDToDirName "docker/key") = true /\ byte_free "+" (IDToDirName "docker/key") = true /\
  (forall id', IDToDirName id' = IDToDirName "docker/key" -> id' = "docker/key") /\
  (forall name id', DirNameToID name = Ok id' -> validIdentifier id' = true).
Proof. pose proof (dir_names "docker/key" eq_refl) as (H1 & H2 & H3 & H4 & H5 & _). auto. Defined.



Lemma runs_Restore json_Unmarshal id metadata meta secrets r Q : quiet r ->
  r_entries r !! IDToDirName id = Some (EDir (secret_files meta secrets)) ->
  json_Unmarshal meta = Ok metadata -> Forall known_type secrets -> NoDup (map es_KeyType secrets) ->
  (forall secrets' r', quiet r' -> r_entries r' = r_entries r -> secrets' ≡ₚ secrets ->
     Q (secrets', metadata) r') ->
  runs (RestoreSecret json_Unmarshal id) r Q.
Proof.
  intros Hq Hd Hj Hk Hnd HQ. set (files := secret_files meta secrets) in *.
  assert (Hmeta : files !! MetadataFileName = Some (Some meta)).
  { apply elem_of_map_to_list. subst files. rewrite (secret_files_bindings meta secrets Hnd). by left. }
  assert (Hreg : regular files).
  { intros k f Hf. apply elem_of_map_to_list in Hf. subst files.
    rewrite (secret_files_bindings meta secrets Hnd) in Hf. apply elem_of_cons in Hf as [Heq|Hf].
    - injection Heq as -> ->. eauto.
    - apply list_elem_of_fmap in Hf as (s & Heq & Hin). injection Heq as -> ->. split; [eauto|].
      right. exists s. split; [|done]. rewrite Forall_forall in Hk. by apply Hk, list_elem_of_In. }
  unfold RestoreSecret. apply runs_bind. eapply runs_call; [done|by rewrite Hd|].
  intros r1 Hq1 He1. apply runs_bind. unfold RestoreMetadata. apply runs_bind.
  eapply (runs_dir_call _ _ _ files); [done|by rewrite He1|by rewrite Hmeta|].
  intros r2 Hq2 He2. apply runs_bind.
  eapply (runs_dir_call _ _ _ files); [done|by rewrite He2, He1|by rewrite Hmeta|].
  intros r3 Hq3 He3. eapply runs_lift; [exact Hj|]. apply runs_bind.
  eapply (runs_dir_call _ _ _ files); [done|by rewrite He3, He2, He1|reflexivity|].
  intros r4 Hq4 He4. apply runs_bind.
  eapply (runs_restore_files _ files); [done|by rewrite He4, He3, He2, He1|done| |].
  - intros n Hn. by apply elem_of_sorted_names in Hn.
  - intros r5 Hq5 He5. apply runs_ret. apply HQ; [done|congruence|]. by apply restored_all.
Qed.

(** what [Persist] wrote, [RestoreSecret] reads: the metadata and, up to
    order, the encrypted files with their key types. *)
Theorem Persist_Restore json_Marshal json_Unmarshal id metadata meta secrets r : quiet r ->
  json_Marshal metadata = Ok meta -> json_Unmarshal meta = Ok metadata ->
  Forall known_type secrets -> NoDup (map es_KeyType secrets) ->
  runs (Persist json_Marshal id metadata secrets) r (fun _ r1 =>
    runs (RestoreSecret json_Unmarshal id) r1 (fun x r2 =>
      r_entries r2 = r_entries r1 /\ x.2 = metadata /\ x.1 ≡ₚ secrets)).
Proof.
  intros Hq Hm Hj Hk Hnd.
  pose proof (Persist_safely json_Marshal id metadata meta secrets r Hm Hk (quiet_one_fault r Hq)) as Hp.
  unfold runs at 1. destruct (Persist json_Marshal id metadata secrets r) as [x r1].
  destruct Hp as (_ & Hok & Hd). destruct (Hok Hq) as [Hq1 ->]. exists tt, r1. split; [done|].
  eapply runs_Restore; done.
Qed.

Lemma Persist_Restore_witness :
  let secrets := [{| es_KeyType := "pass"; es_EncryptedData := [Byte.x01] |};
                  {| es_KeyType := "age"; es_EncryptedData := [Byte.x02] |}] in
  runs (Persist (fun _ => Ok [Byte.x7b]) "a" {["k" := "v"]} secrets)
    {| r_entries := ∅; r_faults := [] |} (fun _ r1 =>
    runs (RestoreSecret (fun _ => Ok {["k" := "v"]}) "a") r1 (fun x r2 =>
      r_entries r2 = r_entries r1 /\ x.2 = {["k" := "v"]} /\ x.1 ≡ₚ secrets)).
Proof.
  intros secrets.
  apply (Persist_Restore (fun _ => Ok [Byte.x7b]) (fun _ => Ok {["k" := "v"]}) "a" {["k" := "v"]}
    [Byte.x7b] secrets {| r_entries := ∅; r_faults := [] |}); try reflexivity.
  - constructor.
  - constructor; [by left|]. constructor; [right; by left|constructor].
  - cbn. repeat (apply list.NoDup_cons; split; [set_solver|]). apply list.NoDup_nil. done.
Defined.
