(* ===== verification/Posixage.v ===== *)
(** Package store/posixage: the prompts (prompt.go), the configuration and the
    operations of the file store (store.go), over the file system and the age
    interface of SecretFile. *)

From S2P Require Import Prelude GoErrors GoStrings Secrets Store Base64 SecretFile.

(** ** prompt.go *)

(** The callback types; a registered callback of any other type is
    [OtherPrompt]. *)
Inductive PromptKind : Type :=
| EncryptionPassword | EncryptionAgeX25519 | EncryptionSSH
| DecryptionAgeX25519 | DecryptionSSH | DecryptionPassword
| OtherPrompt.

(** A [promptCaller]: its dynamic type and what calling it returns. *)
Record promptCaller : Type := {
  prompt_kind : PromptKind;
  prompt_call : result goerror string
}.

Definition getPromptCallerKeyType (f : promptCaller) : result goerror KeyType :=
  match prompt_kind f with
  | EncryptionPassword => Ok PasswordKeyType
  | EncryptionAgeX25519 => Ok AgeKeyType
  | EncryptionSSH => Ok SSHKeyType
  | DecryptionPassword => Ok PasswordKeyType
  | DecryptionAgeX25519 => Ok AgeKeyType
  | DecryptionSSH => Ok SSHKeyType
  | OtherPrompt => Err (ErrorNew "invalid callback function type")
  end.

Definition keys_of (m : gmap KeyType (list string)) (k : KeyType) : list string := default [] (m !! k).

(** The loop of [promptForEncryptionKeys]. *)
Fixpoint prompt_keys (funcs : list promptCaller) (m : gmap KeyType (list string))
  : result goerror (gmap KeyType (list string)) :=
  match funcs with
  | [] => Ok m
  | f :: funcs' =>
      groupType <-? getPromptCallerKeyType f ;;
      raw <-? prompt_call f ;;
      let raw := TrimSpace raw in
      if String.eqb raw "" then Err (ErrorNew "empty key provided on registered callback function")
      else prompt_keys funcs' (<[groupType := keys_of m groupType ++ [raw]]> m)
  end.

Definition promptForEncryptionKeys (funcs : list promptCaller)
  : result goerror (gmap KeyType (list string)) := prompt_keys funcs ∅.

(** ** store.go: configuration *)

Record config : Type := {
  registeredDecryptionFunc : list promptCaller;
  registeredEncryptionFuncs : list promptCaller;
  scryptWorkFactor : Z
}.

Definition Options : Type := config -> result goerror config.

Definition WithScryptWorkFactor (logN : Z) : Options := fun c =>
  if ((logN <? 1) || (MaxScryptWorkFactor <? logN))%Z
  then Err (ErrorNew "scrypt work factor out of range (1..%d): %d")
  else Ok {| registeredDecryptionFunc := registeredDecryptionFunc c;
             registeredEncryptionFuncs := registeredEncryptionFuncs c;
             scryptWorkFactor := logN |}.

Definition WithEncryptionCallbackFunc (callback : promptCaller) : Options := fun c =>
  Ok {| registeredDecryptionFunc := registeredDecryptionFunc c;
        registeredEncryptionFuncs := registeredEncryptionFuncs c ++ [callback];
        scryptWorkFactor := scryptWorkFactor c |}.

Definition WithDecryptionCallbackFunc (callback : promptCaller) : Options := fun c =>
  Ok {| registeredDecryptionFunc := registeredDecryptionFunc c ++ [callback];
        registeredEncryptionFuncs := registeredEncryptionFuncs c;
        scryptWorkFactor := scryptWorkFactor c |}.

Fixpoint apply_options (opts : list Options) (c : config) : result goerror config :=
  match opts with
  | [] => Ok c
  | opt :: opts' => c <-? opt c ;; apply_options opts' c
  end.

(** [New]; the logger, which only observes, is left out. *)
Definition New (opts : list Options) : result goerror config :=
  cfg <-? apply_options opts {| registeredDecryptionFunc := []; registeredEncryptionFuncs := [];
                                scryptWorkFactor := 0 |} ;;
  match registeredEncryptionFuncs cfg, registeredDecryptionFunc cfg with
  | [], _ => Err (ErrorNew "requires at least one encryption callback function to be registered")
  | _, [] => Err (ErrorNew "requires at least one decryption callback function to be registered")
  | _, _ => Ok cfg
  end.

(** ** fs.WalkDir over the root directory *)

(** The run-time panic of a method call on a nil [fs.DirEntry]. *)
Definition panic_nil_DirEntry : goerror := Sentinel "panic: nil pointer dereference".

(** The entries of the root, sorted, with whether each is a directory. *)
Definition root_ReadDir : comp Root goerror (list (string * bool)) := fs_call (fun m =>
  (Ok (map (fun n => (n, match m !! n with Some (EDir _) => true | _ => false end)) (sorted_names m)), m)).

(** The directories of the root, each given to [fn]; [fn] either skips the
    directory with a new accumulator or stops the walk with an error. *)
Fixpoint walk_dirs {A} (fn : string -> A -> comp Root goerror A) (entries : list (string * bool)) (acc : A)
  : comp Root goerror A :=
  match entries with
  | [] => ret acc
  | (name, isDir) :: entries' =>
      if negb isDir then walk_dirs fn entries' acc
      else acc <-! fn name acc ;; walk_dirs fn entries' acc
  end.

(** [fs.WalkDir(root, ".", fn)] with the callbacks of the store, which ignore
    the error they are given: after a failed [Stat] of the root they call a
    method of a nil entry, after a failed [ReadDir] they go on with nothing. *)
Definition WalkDir {A} (fn : string -> A -> comp Root goerror A) (acc : A) : comp Root goerror A :=
  try (fs_call (fun m => (Ok tt, m))) (fun st =>
    match st with
    | Err _ => throw panic_nil_DirEntry
    | Ok _ =>
        try root_ReadDir (fun entries =>
          match entries with
          | Err _ => ret acc
          | Ok entries => walk_dirs fn entries acc
          end)
    end).

(** ** store.go: operations *)

Section posixage.
Context {T Recipient Identity : Type} `{Store.Secret T} `{Age Recipient Identity}.
Context (json_Marshal : gmap string string -> result goerror bytes).
Context (json_Unmarshal : bytes -> result goerror (gmap string string)).
(** The outcome of [flock.TryLock] ([true]) and [flock.TryRLock] in the call. *)
Context (flock : bool -> option goerror).
(** The random source of the encryption. *)
Context (entropy : Z).
Context (ord : list (KeyType * list string) -> list (KeyType * list string)).
Context (factory : Factory T) (c : config).

Definition locked {A} (exclusive : bool) (body : comp Root goerror A) : comp Root goerror A :=
  match flock exclusive with
  | Some err => throw err
  | None => body
  end.

(** [tryDecrypt]; the key is cleared afterwards. *)
Definition tryDecrypt (keyType : KeyType) (decryptionKey : string) (encryptedData : bytes)
  : result goerror bytes :=
  identity <-? GetIdentity keyType decryptionKey ;;
  age_Decrypt encryptedData identity.

(** The loop of [decryptSecret]. *)
Fixpoint decrypt_with (prompts : list promptCaller) (encryptedSecrets : list EncryptedSecret)
  : result goerror bytes :=
  match prompts with
  | [] => Err (ErrorNew "could not decrypt secret with provided decryption keys")
  | prompt :: prompts' =>
      keyType <-? getPromptCallerKeyType prompt ;;
      match List.find (fun v => String.eqb (es_KeyType v) keyType) encryptedSecrets with
      | None => Err (ErrorNew "decryption function of type %s was specified, but the file was never encrypted with this type")
      | Some v =>
          decryptionKey <-? prompt_call prompt ;;
          match tryDecrypt keyType decryptionKey (es_EncryptedData v) with
          | Err _ => decrypt_with prompts' encryptedSecrets
          | Ok plaintext => Ok plaintext
          end
      end
  end.

Definition decryptSecret (encryptedSecrets : list EncryptedSecret) : result goerror bytes :=
  decrypt_with (registeredDecryptionFunc c) encryptedSecrets.

Definition Delete (id : ID) : comp Root goerror unit :=
  locked true (root_RemoveAll (IDToDirName id)).

(** The callback of [Filter]. *)
Definition filter_dir (pattern : Pattern) (name : string) (secrets : gmap ID T)
  : comp Root goerror (gmap ID T) :=
  match DirNameToID name with
  | Err _ => ret secrets
  | Ok id =>
      if negb (pattern_Match pattern id) then ret secrets
      else try (RestoreSecret json_Unmarshal id) (fun r =>
        match r with
        | Err _ => ret secrets
        | Ok (encryptedSecrets, metadata) =>
            decryptedSecret <-! lift (decryptSecret encryptedSecrets) ;;
            secret <-! lift (restore_secret factory id metadata decryptedSecret) ;;
            ret (<[id := secret]> secrets)
        end)
  end.

Definition Filter (pattern : Pattern) : comp Root goerror (gmap ID T) :=
  locked false (
    secrets <-! WalkDir (filter_dir pattern) ∅ ;;
    if decide (secrets = ∅) then throw ErrCredentialNotFound else ret secrets).

Definition Get (id : ID) : comp Root goerror T :=
  locked false (
    '(encryptedSecrets, metadata) <-! RestoreSecret json_Unmarshal id ;;
    decryptedSecret <-! lift (decryptSecret encryptedSecrets) ;;
    lift (restore_secret factory id metadata decryptedSecret)).

(** The callback of [GetAllMetadata]. *)
Definition metadata_dir (name : string) (secrets : gmap ID T) : comp Root goerror (gmap ID T) :=
  match DirNameToID name with
  | Err _ => ret secrets
  | Ok id =>
      secretDir <-! root_OpenRoot name ;;
      metadata <-! RestoreMetadata json_Unmarshal secretDir ;;
      secret <-! lift (SetMetadata (factory id) metadata) ;;
      ret (<[id := secret]> secrets)
  end.

Definition GetAllMetadata : comp Root goerror (gmap ID T) :=
  locked false (
    secrets <-! WalkDir metadata_dir ∅ ;;
    if decide (secrets = ∅) then throw ErrCredentialNotFound else ret secrets).

(** The loop of [Save] over the key groups. *)
Fixpoint encrypt_groups (groups : list (KeyType * list string)) (secret : bytes)
  : result goerror (list EncryptedSecret) :=
  match groups with
  | [] => Ok []
  | (k, encryptionKeys) :: groups' =>
      recipients <-? GetRecipients k encryptionKeys (scryptWorkFactor c) ;;
      encryptedSecret <-? age_Encrypt entropy recipients secret ;;
      rest <-? encrypt_groups groups' secret ;;
      Ok ({| es_KeyType := k; es_EncryptedData := encryptedSecret |} :: rest)
  end.

Definition Save (id : ID) (s : T) : comp Root goerror unit :=
  locked true (
    keyGroups <-! lift (promptForEncryptionKeys (registeredEncryptionFuncs c)) ;;
    secret <-! lift (Marshal s) ;;
    let metadata := Metadata s in
    secrets <-! lift (encrypt_groups (range_map ord keyGroups) secret) ;;
    Persist json_Marshal id metadata secrets).

Definition Upsert (id : ID) (s : T) : comp Root goerror unit := Save id s.
End posixage.

(** ** Lemmas: prompts and encryption *)

Definition known_key (k : KeyType) : Prop := k = PasswordKeyType \/ k = AgeKeyType \/ k = SSHKeyType.

Lemma getPromptCallerKeyType_known f k : getPromptCallerKeyType f = Ok k -> known_key k.
Proof. unfold getPromptCallerKeyType, known_key. destruct (prompt_kind f); intros [= <-]; auto. Qed.

Lemma prompt_keys_known funcs m m' : prompt_keys funcs m = Ok m' ->
  (forall k, is_Some (m !! k) -> known_key k) -> forall k, is_Some (m' !! k) -> known_key k.
Proof.
  revert m. induction funcs as [|f funcs IH]; intros m Hm Hk; cbn in Hm; [by simplify_eq|].
  destruct (getPromptCallerKeyType f) as [t|] eqn:Ht; cbn in Hm; [|done].
  destruct (prompt_call f) as [raw|]; cbn in Hm; [|done].
  destruct (String.eqb (TrimSpace raw) ""); [done|].
  apply (IH _ Hm). intros k [v Hv]. apply lookup_insert_Some in Hv as [[<- _]|[_ Hv]]; [|eauto].
  by eapply getPromptCallerKeyType_known.
Qed.

(** The keys of a type, in the order of the callbacks. *)
Definition keys_for (t : KeyType) (funcs : list promptCaller) : list string :=
  omap (fun f => match getPromptCallerKeyType f, prompt_call f with
                 | Ok t', Ok raw => if String.eqb t t' then Some (TrimSpace raw) else None
                 | _, _ => None
                 end) funcs.

Lemma prompt_keys_of funcs m m' t : prompt_keys funcs m = Ok m' ->
  keys_of m' t = keys_of m t ++ keys_for t funcs.
Proof.
  revert m. induction funcs as [|f funcs IH]; intros m Hm; cbn in Hm.
  { simplify_eq. by rewrite app_nil_r. }
  destruct (getPromptCallerKeyType f) as [t'|] eqn:Ht; cbn in Hm; [|done].
  destruct (prompt_call f) as [raw|] eqn:Hraw; cbn in Hm; [|done].
  destruct (String.eqb (TrimSpace raw) ""); [done|]. rewrite (IH _ Hm).
  assert (Hk : keys_for t (f :: funcs) =
    (if String.eqb t t' then [TrimSpace raw] else []) ++ keys_for t funcs).
  { unfold keys_for. cbn. rewrite Ht, Hraw. by destruct (String.eqb t t'). }
  rewrite Hk. unfold keys_of. destruct (String.eqb_spec t t') as [->|Hne].
  - rewrite lookup_insert_eq. simpl. by rewrite <- app_assoc.
  - by rewrite lookup_insert_ne.
Qed.

Section encryption.
Context {Recipient Identity : Type} `{Age Recipient Identity} (entropy : Z) (c : config).

Lemma encrypt_groups_Ok l data secrets : encrypt_groups entropy c l data = Ok secrets ->
  map es_KeyType secrets = l.*1 /\
  forall k keys, (k, keys) ∈ l -> exists rs ct, GetRecipients k keys (scryptWorkFactor c) = Ok rs /\
    age_Encrypt entropy rs data = Ok ct /\ {| es_KeyType := k; es_EncryptedData := ct |} ∈ secrets.
Proof.
  revert secrets. induction l as [|[k keys] l IH]; intros secrets Hs; cbn in Hs.
  { simplify_eq. split; [done|]. intros k keys Hin. by apply elem_of_nil in Hin. }
  destruct (GetRecipients k keys (scryptWorkFactor c)) as [rs|] eqn:Hrs; cbn in Hs; [|done].
  destruct (age_Encrypt entropy rs data) as [ct|] eqn:Hct; cbn in Hs; [|done].
  destruct (encrypt_groups entropy c l data) as [rest|]; cbn in Hs; [|done]. injection Hs as <-.
  destruct (IH rest eq_refl) as [Hmap Hin]. split; [cbn; by f_equal|].
  intros k' keys' [Heq|Hl]%elem_of_cons.
  - injection Heq as -> ->. exists rs, ct. split_and!; [done..|by left].
  - destruct (Hin k' keys' Hl) as (rs' & ct' & ? & ? & ?). exists rs', ct'. split_and!; [done..|by right].
Qed.
End encryption.

Lemma find_by_type secrets s : NoDup (map es_KeyType secrets) -> s ∈ secrets ->
  List.find (fun v => String.eqb (es_KeyType v) (es_KeyType s)) secrets = Some s.
Proof.
  induction secrets as [|v secrets IH]; intros Hnd Hin; [by apply elem_of_nil in Hin|].
  cbn in Hnd. apply list.NoDup_cons in Hnd as [Hv Hnd]. cbn [List.find].
  apply elem_of_cons in Hin as [<-|Hin]; [by rewrite String.eqb_refl|].
  destruct (String.eqb_spec (es_KeyType v) (es_KeyType s)) as [He|_]; [|by apply IH].
  exfalso. apply Hv. rewrite He. apply list_elem_of_fmap. by exists s.
Qed.

(** The key types of what [Save] encrypts are known and distinct. *)
Lemma encrypted_types {Recipient Identity} `{Age Recipient Identity} entropy (c : config) ord
    `{!MapOrder ord} groups data secrets :
  promptForEncryptionKeys (registeredEncryptionFuncs c) = Ok groups ->
  encrypt_groups entropy c (range_map ord groups) data = Ok secrets ->
  NoDup (map es_KeyType secrets) /\ Forall known_type secrets.
Proof.
  intros Hg He. destruct (encrypt_groups_Ok entropy c _ _ _ He) as [Hmap _].
  split; [rewrite Hmap; by apply NoDup_range_map|].
  apply Forall_forall. intros v Hv. unfold known_type.
  assert (Hkv : es_KeyType v ∈ map es_KeyType secrets).
  { apply list_elem_of_fmap. exists v. split; [done|]. by apply list_elem_of_In. }
  rewrite Hmap in Hkv. apply list_elem_of_fmap in Hkv as ([k ks] & -> & Hks).
  apply (elem_of_range_map ord) in Hks. eapply (prompt_keys_known _ _ _ Hg); [|by eauto].
  intros k' [? Hk']. by rewrite lookup_empty in Hk'.
Qed.

(** The first decryption callback opens what was encrypted for its key. *)
Lemma decrypt_saved {Recipient Identity} `{Age Recipient Identity} entropy (c : config) ord
    `{!MapOrder ord} groups data secrets secrets' p ps kt key keys :
  promptForEncryptionKeys (registeredEncryptionFuncs c) = Ok groups ->
  encrypt_groups entropy c (range_map ord groups) data = Ok secrets -> secrets' ≡ₚ secrets ->
  registeredDecryptionFunc c = p :: ps -> getPromptCallerKeyType p = Ok kt -> prompt_call p = Ok key ->
  groups !! kt = Some keys ->
  (forall rs ct, GetRecipients kt keys (scryptWorkFactor c) = Ok rs ->
     age_Encrypt entropy rs data = Ok ct ->
     exists i, GetIdentity kt key = Ok i /\ age_Decrypt ct i = Ok data) ->
  decryptSecret c secrets' = Ok data.
Proof.
  intros Hg He Hp2 Hdec Hkt Hkey Hkeys Hage.
  destruct (encrypted_types entropy c ord groups data secrets Hg He) as [Hnd _].
  destruct (encrypt_groups_Ok entropy c _ _ _ He) as [_ Hin].
  destruct (Hin kt keys) as (rs & ct & Hrs & Hct & Hs); [by apply (elem_of_range_map ord)|].
  destruct (Hage rs ct Hrs Hct) as (i & Hi & Hd2).
  assert (Hfind : List.find (fun v => String.eqb (es_KeyType v) kt) secrets' =
    Some {| es_KeyType := kt; es_EncryptedData := ct |}).
  { apply (find_by_type secrets' {| es_KeyType := kt; es_EncryptedData := ct |}).
    - change (NoDup (es_KeyType <$> secrets')). by rewrite Hp2.
    - by rewrite Hp2. }
  unfold decryptSecret. rewrite Hdec. cbn. rewrite Hkt. cbn. rewrite Hfind, Hkey. cbn.
  unfold tryDecrypt. rewrite Hi. cbn. by rewrite Hd2.
Qed.

(** ** A toy age *)

(** A recipient is a key and whether it is a password; a file is encrypted to
    its first recipient by prefixing the key. Like age, it refuses a password
    next to any other recipient. *)
#[export] Instance toy_age : Age (bool * string) string := {
  NewScryptRecipient k := Ok (true, k);
  SetWorkFactor _ r := r;
  ParseX25519Recipient k := Ok (false, k);
  ParseSSHRecipient k := Ok (false, k);
  NewScryptIdentity k := Ok k;
  ParseX25519Identity k := Ok k;
  ParseSSHIdentity k := Ok k;
  age_Encrypt _ rs data :=
    match rs with
    | [] => Err (ErrorNew "no recipients specified")
    | [(_, key)] => Ok (bytes_of key ++ data)
    | (_, key) :: _ => if existsb fst rs then Err (ErrorNew "incompatible recipients")
                       else Ok (bytes_of key ++ data)
    end;
  age_Decrypt ct key :=
    if decide (take (length (bytes_of key)) ct = bytes_of key)
    then Ok (drop (length (bytes_of key)) ct) else Err (ErrorNew "no identity matched")
}.

(** ** Properties of the file store *)

(** a secret saved in the file store is read back unchanged, for any set of
    registered encryption callbacks, when the first decryption callback
    provides the key of one of the types it was encrypted for; the directories
    of the other secrets do not change. *)
Theorem posix_Save_Get {T Recipient Identity} `{Store.Secret T} `{Age Recipient Identity}
    json_Marshal json_Unmarshal flock entropy ord `{!MapOrder ord} (factory : Factory T) (c : config)
    id s data meta groups secrets p ps kt key keys r :
  quiet r -> (forall exclusive, flock exclusive = None) ->
  promptForEncryptionKeys (registeredEncryptionFuncs c) = Ok groups ->
  Marshal s = Ok data -> restore_secret factory id (Metadata s) data = Ok s ->
  json_Marshal (Metadata s) = Ok meta -> json_Unmarshal meta = Ok (Metadata s) ->
  encrypt_groups entropy c (range_map ord groups) data = Ok secrets ->
  registeredDecryptionFunc c = p :: ps -> getPromptCallerKeyType p = Ok kt -> prompt_call p = Ok key ->
  groups !! kt = Some keys ->
  (forall rs ct, GetRecipients kt keys (scryptWorkFactor c) = Ok rs ->
     age_Encrypt entropy rs data = Ok ct ->
     exists i, GetIdentity kt key = Ok i /\ age_Decrypt ct i = Ok data) ->
  runs (Save json_Marshal flock entropy ord c id s) r (fun _ r1 =>
    others (IDToDirName id) (r_entries r) (r_entries r1) /\
    runs (Get json_Unmarshal flock factory c id) r1 (fun x r2 =>
      x = s /\ r_entries r2 = r_entries r1)).
Proof.
  intros Hq Hfl Hg Hm Hr Hjm Hju He Hdec Hkt Hkey Hkeys Hage.
  destruct (encrypted_types entropy c ord groups data secrets Hg He) as [Hnd Hknown].
  pose proof (Persist_safely json_Marshal id (Metadata s) meta secrets r Hjm Hknown
    (quiet_one_fault r Hq)) as Hp.
  unfold Save, Get, locked. rewrite !Hfl.
  apply runs_bind. eapply runs_lift; [exact Hg|]. apply runs_bind. eapply runs_lift; [exact Hm|].
  apply runs_bind. eapply runs_lift; [exact He|]. unfold runs at 1.
  destruct (Persist json_Marshal id (Metadata s) secrets r) as [x r1].
  destruct Hp as (Ho & Hok & Hd). destruct (Hok Hq) as [Hq1 ->]. exists tt, r1.
  split; [done|]. split; [done|].
  apply runs_bind. eapply runs_Restore; try done. intros secrets' r2 Hq2 He2 Hp2. cbv beta iota.
  apply runs_bind. eapply (runs_lift _ data); [|by eapply runs_lift].
  by eapply (decrypt_saved entropy c ord).
Qed.

(** A configuration with one callback of each kind. *)
Definition sample_config : config := {|
  registeredDecryptionFunc := [{| prompt_kind := DecryptionAgeX25519; prompt_call := Ok "agekey" |}];
  registeredEncryptionFuncs := [{| prompt_kind := EncryptionPassword; prompt_call := Ok " pw " |};
                                {| prompt_kind := EncryptionAgeX25519; prompt_call := Ok "agekey" |}];
  scryptWorkFactor := 10 |}.

Lemma posix_Save_Get_witness :
  let s := {| pv_value := [Byte.x41]; pv_metadata := ∅ |} in
  let r := {| r_entries := ∅; r_faults := [] |} in
  runs (Save (fun _ => Ok [Byte.x7b]) (fun _ => None) 0 (@rev _) sample_config "a/b" s) r (fun _ r1 =>
    others (IDToDirName "a/b") (r_entries r) (r_entries r1) /\
    runs (Get (fun _ => Ok ∅) (fun _ => None) PassValue_factory sample_config "a/b") r1 (fun x r2 =>
      x = s /\ r_entries r2 = r_entries r1)).
Proof.
  intros s r.
  eapply (posix_Save_Get (fun _ => Ok [Byte.x7b]) (fun _ => Ok ∅) (fun _ => None) 0 (@rev _)
    PassValue_factory sample_config "a/b" s [Byte.x41] [Byte.x7b]
    (<["age" := ["agekey"]]> (<["pass" := ["pw"]]> ∅)) _ _ [] "age" "agekey" ["agekey"] r);
    try reflexivity.
  - constructor.
  - intros rs ct Hrs Hct. exists "agekey". split; [reflexivity|].
    vm_compute in Hrs. injection Hrs as <-. vm_compute in Hct. injection Hct as <-.
    vm_compute. reflexivity.
Defined.

(** several passwords cannot protect one secret, against the package
    documentation ("multiple keys of the same type are allowed (e.g., password
    + password)"): age refuses a password recipient next to another one, so
    with two password callbacks [Save] never succeeds. *)
Theorem posix_two_passwords {T Recipient Identity} `{Store.Secret T} `{Age Recipient Identity}
    json_Marshal flock entropy ord `{!MapOrder ord} (c : config) id s p1 p2 k1 k2 r :
  (forall e rs data k1 k2 r1 r2 n1 n2, NewScryptRecipient k1 = Ok r1 -> NewScryptRecipient k2 = Ok r2 ->
     rs = [r1; r2] \/ rs = [SetWorkFactor n1 r1; SetWorkFactor n2 r2] ->
     is_ok (age_Encrypt e rs data) = false) ->
  registeredEncryptionFuncs c = [p1; p2] ->
  prompt_kind p1 = EncryptionPassword -> prompt_kind p2 = EncryptionPassword ->
  prompt_call p1 = Ok k1 -> prompt_call p2 = Ok k2 ->
  is_ok (Save json_Marshal flock entropy ord c id s r).1 = false.
Proof.
  intros Halone Hreg Hk1 Hk2 Hc1 Hc2. unfold Save, locked. destruct (flock true); [done|].
  unfold bind, lift, promptForEncryptionKeys. rewrite Hreg.
  set (groups := <[PasswordKeyType := [TrimSpace k1; TrimSpace k2]]> ∅ : gmap KeyType (list string)).
  assert (Hpk : prompt_keys [p1; p2] ∅ = Ok groups \/ is_ok (prompt_keys [p1; p2] ∅) = false).
  { cbn [prompt_keys]. unfold getPromptCallerKeyType. rewrite Hk1, Hk2, Hc1, Hc2. cbn [result_bind].
    destruct (String.eqb (TrimSpace k1) ""); [by right|].
    destruct (String.eqb (TrimSpace k2) ""); [by right|]. left.
    unfold keys_of. rewrite lookup_empty, lookup_insert_eq. simpl. by rewrite insert_insert_eq. }
  destruct (prompt_keys [p1; p2] ∅); [|done]. destruct Hpk as [[= ->]|?]; [|done].
  destruct (Marshal s) as [data|]; [|done].
  assert (Hl : range_map ord groups = [(PasswordKeyType, [TrimSpace k1; TrimSpace k2])]).
  { apply Permutation_singleton_r. rewrite (range_map_perm ord). subst groups.
    rewrite insert_empty. by rewrite map_to_list_singleton. }
  rewrite Hl. cbn [encrypt_groups GetRecipients]. unfold getRecipient. cbn [String.eqb].
  change (String.eqb PasswordKeyType PasswordKeyType) with true. cbv iota.
  destruct (NewScryptRecipient (TrimSpace k1)) as [r1|] eqn:Hr1; [|done].
  destruct (NewScryptRecipient (TrimSpace k2)) as [r2|] eqn:Hr2; cbn [result_bind].
  2: { destruct (negb _); [|done]. by destruct (_ || _). }
  destruct (negb (scryptWorkFactor c =? 0)%Z); cbn [result_bind].
  - destruct ((scryptWorkFactor c <? 1) || (MaxScryptWorkFactor <? scryptWorkFactor c))%Z;
      cbn [result_bind]; [done|].
    specialize (Halone entropy [SetWorkFactor (scryptWorkFactor c) r1; SetWorkFactor (scryptWorkFactor c) r2]
      data _ _ r1 r2 (scryptWorkFactor c) (scryptWorkFactor c) Hr1 Hr2 (or_intror eq_refl)).
    by destruct (age_Encrypt entropy _ data).
  - specialize (Halone entropy [r1; r2] data _ _ r1 r2 0%Z 0%Z Hr1 Hr2 (or_introl eq_refl)).
    by destruct (age_Encrypt entropy _ data).
Qed.

Lemma posix_two_passwords_witness :
  let c := {| registeredDecryptionFunc := [];
    registeredEncryptionFuncs := [{| prompt_kind := EncryptionPassword; prompt_call := Ok "one" |};
                                  {| prompt_kind := EncryptionPassword; prompt_call := Ok "two" |}];
    scryptWorkFactor := 0 |} in
  is_ok (Save (fun _ => Ok []) (fun _ => None) 0 (fun l => l) c "a" (NewPassValue [])
    {| r_entries := ∅; r_faults := [] |}).1 = false.
Proof.
  intros c.
  apply (posix_two_passwords (fun _ => Ok []) (fun _ => None) 0 (fun l => l) c "a" (NewPassValue [])
    {| prompt_kind := EncryptionPassword; prompt_call := Ok "one" |}
    {| prompt_kind := EncryptionPassword; prompt_call := Ok "two" |} "one" "two"); try reflexivity.
  - intros e rs data a b r1 r2 n1 n2 Ha Hb Hrs. cbn in Ha, Hb. injection Ha as <-. injection Hb as <-.
    destruct Hrs as [->| ->]; reflexivity.
Defined.

(** a failure to read the root directory is not reported: the callbacks of
    [Filter] and [GetAllMetadata] ignore the error [fs.WalkDir] gives them, so
    a store that holds a secret answers [ErrCredentialNotFound]; and when the
    root cannot even be examined the callback is called without an entry and
    the call panics. *)
Theorem posix_walk_error_swallowed {T Recipient Identity} `{Store.Secret T} `{Age Recipient Identity}
    json_Unmarshal flock factory (c : config) pattern entries e faults :
  (forall exclusive, flock exclusive = None) ->
  let unreadable := {| r_entries := entries; r_faults := None :: Some e :: faults |} in
  let no_root := {| r_entries := entries; r_faults := Some e :: faults |} in
  (Filter (T := T) json_Unmarshal flock factory c pattern unreadable).1 = Err ErrCredentialNotFound /\
  (GetAllMetadata (T := T) json_Unmarshal flock factory unreadable).1 = Err ErrCredentialNotFound /\
  (Filter (T := T) json_Unmarshal flock factory c pattern no_root).1 = Err panic_nil_DirEntry.
Proof.
  intros Hfl unreadable no_root. unfold Filter, GetAllMetadata, locked. rewrite !Hfl.
  unfold bind, WalkDir, try. cbn. by rewrite decide_True.
Qed.

Lemma posix_walk_error_swallowed_witness :
  let c := sample_config in
  let entries := {[IDToDirName "a" := EDir ∅]} in
  let unreadable := {| r_entries := entries; r_faults := [None; Some fs_ENOTDIR] |} in
  let no_root := {| r_entries := entries; r_faults := [Some fs_ENOTDIR] |} in
  (Filter (fun _ => Ok ∅) (fun _ => None) PassValue_factory c "**" unreadable).1 = Err ErrCredentialNotFound /\
  (GetAllMetadata (fun _ => Ok ∅) (fun _ => None) PassValue_factory unreadable).1
    = Err ErrCredentialNotFound /\
  (Filter (fun _ => Ok ∅) (fun _ => None) PassValue_factory c "**" no_root).1 = Err panic_nil_DirEntry.
Proof.
  apply (posix_walk_error_swallowed (fun _ => Ok ∅) (fun _ => None) PassValue_factory sample_config "**"
    {[IDToDirName "a" := EDir ∅]} fs_ENOTDIR []). reflexivity.
Defined.
