(* ===== verification/PosixStore.v ===== *)
(** The file store as a store: an [os.Root] whose directories are secrets it
    saved, next to whatever else lies in the root, implements a map from
    identifiers to secrets (store/posixage/store.go over
    internal/secretfile). *)

From S2P Require Import Prelude GoErrors GoStrings Secrets Store StoreSpec Base64 SecretFile Posixage.

(** ** What a walk over the root collects *)

Section walked.
Context {V : Type}.

(** The value a directory contributes, if any, added to those so far. *)
Definition collect (g : string -> Entry -> option (ID * V)) (m : gmap string Entry)
    (acc : gmap ID V) (name : string) : gmap ID V :=
  match m !! name ≫= g name with
  | Some (id, v) => <[id := v]> acc
  | None => acc
  end.

Definition walked (g : string -> Entry -> option (ID * V)) (m : gmap string Entry) : gmap ID V :=
  foldl (collect g m) ∅ (sorted_names m).

(** Every contribution is under the name of its identifier. *)
Definition named (g : string -> Entry -> option (ID * V)) (m : gmap string Entry) : Prop :=
  forall name e id v, m !! name = Some e -> g name e = Some (id, v) -> name = IDToDirName id.

Lemma IDToDirName_inj id id' : IDToDirName id = IDToDirName id' -> id = id'.
Proof. apply EncodeToString_inj. Qed.

Lemma collect_lookup g m names acc id : named g m ->
  foldl (collect g m) acc names !! id =
  if decide (IDToDirName id ∈ names) then
    match m !! IDToDirName id ≫= g (IDToDirName id) with
    | Some (_, v) => Some v
    | None => acc !! id
    end
  else acc !! id.
Proof.
  intros Hn. revert acc. induction names as [|n names IH]; intros acc; cbn [foldl].
  { rewrite decide_False; [done|apply not_elem_of_nil]. }
  rewrite IH. unfold collect. destruct (decide (n = IDToDirName id)) as [->|Hne].
  - rewrite (decide_True _ _ (list_elem_of_here _ _)).
    destruct (m !! IDToDirName id) as [e|] eqn:He; simpl; [|by case_decide].
    destruct (g (IDToDirName id) e) as [[id' v]|] eqn:Hg; [|by case_decide].
    assert (id = id') as <- by (apply IDToDirName_inj; by eapply Hn).
    rewrite lookup_insert_eq. by case_decide.
  - assert (Hd : match m !! n ≫= g n with Some (id', v) => <[id':=v]> acc | None => acc end !! id = acc !! id).
    { destruct (m !! n) as [e|] eqn:He; simpl; [|done]. destruct (g n e) as [[id' v]|] eqn:Hg; [|done].
      apply lookup_insert_ne. intros ->. by apply Hne; eapply Hn. }
    rewrite Hd. destruct (decide (IDToDirName id ∈ names)) as [Hin|Hin].
    + rewrite decide_True; [done|by right].
    + rewrite decide_False; [done|]. intros [?|?]%elem_of_cons; congruence.
Qed.

Lemma walked_lookup g m id : named g m ->
  walked g m !! id = snd <$> (m !! IDToDirName id ≫= g (IDToDirName id)).
Proof.
  intros Hn. unfold walked. rewrite collect_lookup by done. rewrite lookup_empty.
  case_decide as Hin.
  - by destruct (_ ≫= _) as [[]|].
  - destruct (m !! IDToDirName id) eqn:He; [|done]. destruct Hin. apply elem_of_sorted_names. by eexists.
Qed.
End walked.

(** The walk of the store, when every callback adds what [g] says. *)
Lemma runs_walk {V} (g : string -> Entry -> option (ID * V)) fn m r Q : quiet r -> r_entries r = m ->
  (forall name data, g name (EFile data) = None) ->
  (forall name files acc r1, quiet r1 -> r_entries r1 = m -> m !! name = Some (EDir files) ->
     runs (fn name acc) r1 (fun acc' r2 => quiet r2 /\ r_entries r2 = m /\ acc' = collect g m acc name)) ->
  (forall r', quiet r' -> r_entries r' = m -> Q (walked g m) r') ->
  runs (WalkDir fn ∅) r Q.
Proof.
  intros Hq Hr Hfile Hfn HQ. unfold WalkDir. apply runs_try.
  eapply runs_call; [done|done|]. intros r1 Hq1 Hr1. apply runs_try.
  eapply runs_call; [done|done|]. rewrite Hr1, Hr. intros r2 Hq2 Hr2. cbv beta iota.
  unfold walked in HQ. revert HQ. generalize (∅ : gmap ID V) as acc.
  assert (Hin : forall n, n ∈ sorted_names m -> is_Some (m !! n)) by (intros; by apply elem_of_sorted_names).
  revert r2 Hq2 Hr2. induction (sorted_names m) as [|n names IH]; intros r2 Hq2 Hr2 acc HQ.
  { apply runs_ret, HQ; congruence. }
  destruct (Hin n) as [e He]; [by left|]. cbn [map walk_dirs]. rewrite He.
  assert (Hin' : forall n', n' ∈ names -> is_Some (m !! n')) by (intros; apply Hin; by right).
  destruct e as [data|files]; cbn [negb].
  - apply (IH Hin'); [done..|]. intros r' Hq' Hr'. cbn [foldl] in HQ. unfold collect at 2 in HQ.
    rewrite He in HQ. simpl in HQ. rewrite Hfile in HQ. by apply HQ.
  - apply runs_bind. eapply runs_mono; [by eapply Hfn|]. cbv beta. intros acc' r3 (Hq3 & Hr3 & ->).
    apply (IH Hin'); [done..|]. intros r' Hq' Hr'. by apply HQ.
Qed.

(** ** The content of a root *)

Section content.
Context {T Recipient Identity : Type} `{Store.Secret T} `{Age Recipient Identity}.
Context (json_Marshal : gmap string string -> result goerror bytes).
Context (json_Unmarshal : bytes -> result goerror (gmap string string)).
Context (entropy : Z) (ord : list (KeyType * list string) -> list (KeyType * list string)).
Context (factory : Factory T) (c : config).

(** What [RestoreSecret] reads of the files of a directory. *)
Definition dir_metadata (files : gmap string (option bytes)) : option (gmap string string) :=
  match files !! MetadataFileName with
  | Some (Some b) => match json_Unmarshal b with Ok md => Some md | Err _ => None end
  | _ => None
  end.
Definition dir_secrets (files : gmap string (option bytes)) : list EncryptedSecret :=
  omap (restored_file files) (sorted_names files).

(** What [f] makes of a directory named after an identifier. *)
Definition dir_value {V} (f : ID -> gmap string string -> list EncryptedSecret -> result goerror V)
    (name : string) (e : Entry) : option (ID * V) :=
  match e, DirNameToID name with
  | EDir files, Ok id =>
      md ← dir_metadata files;
      match f id md (dir_secrets files) with Ok v => Some (id, v) | Err _ => None end
  | _, _ => None
  end.

(** The secret of a directory, its metadata only, and the secret if a pattern
    selects it. *)
Definition open_secret (id : ID) (md : gmap string string) (secrets : list EncryptedSecret)
  : result goerror T :=
  data <-? decryptSecret c secrets ;; restore_secret factory id md data.
Definition secret_of : string -> Entry -> option (ID * T) := dir_value open_secret.
Definition metadata_of : string -> Entry -> option (ID * T) :=
  dir_value (fun id md _ => SetMetadata (factory id) md).
Definition selected_of (pattern : Pattern) (name : string) (e : Entry) : option (ID * T) :=
  '(id, s) ← secret_of name e; if pattern_Match pattern id then Some (id, s) else None.

Definition posix_content (m : gmap string Entry) : gmap ID T := walked secret_of m.

(** The entry holds the secret [s] of [id], as [Save] would have stored it. *)
Definition dir_holds (id : ID) (s : T) (e : Entry) : Prop :=
  exists meta secrets data, e = EDir (secret_files meta secrets) /\
    Forall known_type secrets /\ NoDup (map es_KeyType secrets) /\
    json_Unmarshal meta = Ok (Metadata s) /\
    (forall secrets', secrets' ≡ₚ secrets -> decryptSecret c secrets' = Ok data) /\
    restore_secret factory id (Metadata s) data = Ok s.

(** What is named after an identifier is a secret the store saved; everything
    else in the root is arbitrary. *)
Definition posix_kept (m : gmap string Entry) : Prop :=
  forall name e id, m !! name = Some e -> DirNameToID name = Ok id ->
    name = IDToDirName id /\ exists s, dir_holds id s e.

(** A secret the store can hold under [id] with the callbacks it has. *)
Definition posix_acceptable (id : ID) (s : T) : Prop :=
  validIdentifier id = true /\
  exists data meta groups secrets,
    Marshal s = Ok data /\ restore_secret factory id (Metadata s) data = Ok s /\
    json_Marshal (Metadata s) = Ok meta /\ json_Unmarshal meta = Ok (Metadata s) /\
    promptForEncryptionKeys (registeredEncryptionFuncs c) = Ok groups /\
    encrypt_groups entropy c (range_map ord groups) data = Ok secrets /\
    (forall secrets', secrets' ≡ₚ secrets -> decryptSecret c secrets' = Ok data).

Lemma DirName_id id : validIdentifier id = true -> DirNameToID (IDToDirName id) = Ok id.
Proof.
  intros Hv. unfold DirNameToID, IDToDirName. rewrite Decode_Encode. simpl.
  unfold ParseID, valid. by rewrite Hv.
Qed.

Lemma dir_value_named {V} (f : ID -> gmap string string -> list EncryptedSecret -> result goerror V) m :
  posix_kept m -> named (dir_value f) m.
Proof.
  intros Hk name e id v He Hg. unfold dir_value in Hg. destruct e as [|files]; [done|].
  destruct (DirNameToID name) as [id'|] eqn:Hid; [|done].
  destruct (Hk name _ id' He Hid) as [Hname _].
  destruct (dir_metadata files); [|done]. cbn in Hg. by destruct (f _ _ _); simplify_eq.
Qed.

Lemma selected_named pattern m : posix_kept m -> named (selected_of pattern) m.
Proof.
  intros Hk name e id v He Hg. unfold selected_of in Hg.
  destruct (secret_of name e) as [[id' s]|] eqn:Hs; [|done]. cbn in Hg.
  destruct (pattern_Match pattern id'); simplify_eq. by eapply (dir_value_named open_secret).
Qed.

(** What the files of a saved secret give back. *)
Lemma holds_files id s e : dir_holds id s e -> exists files secrets data, e = EDir files /\
  dir_metadata files = Some (Metadata s) /\ dir_secrets files = secrets /\
  decryptSecret c secrets = Ok data /\ restore_secret factory id (Metadata s) data = Ok s.
Proof.
  intros (meta & secrets & data & -> & Hk & Hnd & Hj & Hd & Hr).
  exists (secret_files meta secrets), (dir_secrets (secret_files meta secrets)), data.
  split; [done|]. split; [|split; [done|split; [|done]]].
  - unfold dir_metadata.
    assert (Hm : secret_files meta secrets !! MetadataFileName = Some (Some meta)).
    { apply elem_of_map_to_list. rewrite (secret_files_bindings meta secrets Hnd). by left. }
    by rewrite Hm, Hj.
  - apply Hd. by apply restored_all.
Qed.

Lemma holds_value {V} (f : ID -> gmap string string -> list EncryptedSecret -> result goerror V) id s e v :
  validIdentifier id = true -> dir_holds id s e ->
  (forall secrets data, decryptSecret c secrets = Ok data ->
     restore_secret factory id (Metadata s) data = Ok s -> f id (Metadata s) secrets = Ok v) ->
  dir_value f (IDToDirName id) e = Some (id, v).
Proof.
  intros Hv Hh Hf. destruct (holds_files id s e Hh) as (files & secrets & data & -> & Hm & Hs & Hd & Hr).
  unfold dir_value. rewrite DirName_id, Hm by done. cbn. rewrite Hs. by rewrite (Hf secrets data Hd Hr).
Qed.

Lemma root_holds_secret id s e : validIdentifier id = true -> dir_holds id s e ->
  secret_of (IDToDirName id) e = Some (id, s).
Proof.
  intros Hv Hh. apply (holds_value open_secret id s); [done..|]. intros secrets data Hd Hr.
  unfold open_secret. by rewrite Hd.
Qed.

(** The content, entry by entry. *)
Lemma posix_content_lookup m id s : posix_kept m -> validIdentifier id = true ->
  posix_content m !! id = Some s <-> exists e, m !! IDToDirName id = Some e /\ dir_holds id s e.
Proof.
  intros Hk Hv. unfold posix_content. rewrite walked_lookup by by apply dir_value_named.
  split.
  - intros Hs. destruct (m !! IDToDirName id) as [e|] eqn:He; [|done]. exists e. split; [done|].
    destruct (Hk _ e id He (DirName_id id Hv)) as [_ [s' Hs']]. cbn in Hs.
    change (dir_value open_secret) with secret_of in Hs. rewrite (root_holds_secret id s' e Hv Hs') in Hs.
    cbn in Hs. by simplify_eq.
  - intros (e & He & Hh). rewrite He. cbn. change (dir_value open_secret) with secret_of.
    by rewrite (root_holds_secret id s e Hv Hh).
Qed.

Lemma posix_content_valid m id s : posix_kept m -> posix_content m !! id = Some s ->
  validIdentifier id = true.
Proof.
  intros Hk. unfold posix_content. rewrite walked_lookup by by apply dir_value_named.
  intros Hs. destruct (m !! IDToDirName id) as [e|]; [|done]. cbn in Hs. unfold secret_of, dir_value in Hs.
  destruct e as [|files]; [done|]. destruct (DirNameToID (IDToDirName id)) as [id'|] eqn:Hid; [|done].
  unfold DirNameToID, IDToDirName in Hid. rewrite Decode_Encode in Hid. cbn in Hid.
  assert (id' = id) as ->; [|by eapply ParseID_valid].
  unfold ParseID in Hid. by destruct (valid id); simplify_eq.
Qed.
End content.

(** ** The operations *)

#[export] Instance posix_Store {T Recipient Identity} `{Store.Secret T} `{Age Recipient Identity}
    json_Marshal json_Unmarshal flock entropy ord (factory : Factory T) c : Store.Store Root T := {|
  store_Delete := Delete flock;
  store_Get := Get json_Unmarshal flock factory c;
  store_GetAllMetadata := GetAllMetadata json_Unmarshal flock factory;
  store_Save := Save json_Marshal flock entropy ord c;
  store_Upsert := Upsert json_Marshal flock entropy ord c;
  store_Filter := Filter json_Unmarshal flock factory c
|}.

Section operations.
Context {T Recipient Identity : Type} `{Store.Secret T} `{Age Recipient Identity}.
Context (json_Marshal : gmap string string -> result goerror bytes).
Context (json_Unmarshal : bytes -> result goerror (gmap string string)).
Context (flock : bool -> option goerror) (Hflock : forall exclusive, flock exclusive = None).
Context (entropy : Z) (ord : list (KeyType * list string) -> list (KeyType * list string)) `{!MapOrder ord}.
Context (factory : Factory T) (c : config).

Abbreviation kept := (posix_kept json_Unmarshal factory c) (only parsing).
Abbreviation content := (posix_content json_Unmarshal factory c) (only parsing).
Abbreviation holds := (dir_holds json_Unmarshal factory c) (only parsing).

(** No call to come fails, and the root is in order. *)
Definition in_order (r : Root) : Prop := quiet r /\ kept (r_entries r).

Lemma root_kept_delete m name : kept m -> kept (delete name m).
Proof. intros Hk n e id Hn. apply lookup_delete_Some in Hn as [_ Hn]. by apply Hk. Qed.

Lemma content_insert m m' id s e : kept m -> kept m' -> validIdentifier id = true ->
  others (IDToDirName id) m m' -> m' !! IDToDirName id = Some e -> holds id s e ->
  content m' = <[id := s]> (content m).
Proof.
  intros Hk Hk' Hv Ho He Hh. apply map_eq. intros id'. destruct (decide (id' = id)) as [->|Hne].
  - rewrite lookup_insert_eq. apply posix_content_lookup; eauto.
  - rewrite lookup_insert_ne by done. unfold posix_content.
    rewrite !walked_lookup by by eapply dir_value_named. rewrite Ho; [done|].
    intros Heq. by apply Hne, IDToDirName_inj.
Qed.

Lemma runs_posix_Delete id r : in_order r ->
  runs (Delete flock id) r (fun _ r' =>
    in_order r' /\ content (r_entries r') = delete id (content (r_entries r))).
Proof.
  intros [Hq Hk]. unfold Delete, locked. rewrite Hflock.
  eapply runs_call; [done|reflexivity|]. intros r' Hq' He.
  assert (Hk' : kept (r_entries r')) by (rewrite He; by apply root_kept_delete).
  split; [by split|]. apply map_eq. intros id'. unfold posix_content.
  rewrite lookup_delete, !walked_lookup by by eapply dir_value_named. rewrite He, lookup_delete.
  destruct (decide (id = id')) as [->|Hne]; [by rewrite decide_True|].
  rewrite decide_False; [done|]. intros Heq. by apply Hne, IDToDirName_inj.
Qed.

Lemma runs_posix_Save id s r : in_order r ->
  posix_acceptable json_Marshal json_Unmarshal entropy ord factory c id s ->
  runs (Save json_Marshal flock entropy ord c id s) r (fun _ r' =>
    in_order r' /\ content (r_entries r') = <[id := s]> (content (r_entries r))).
Proof.
  intros [Hq Hk] (Hv & data & meta & groups & secrets & Hm & Hr & Hjm & Hju & Hg & He & Hd).
  destruct (encrypted_types entropy c ord groups data secrets Hg He) as [Hnd Hknown].
  pose proof (Persist_safely json_Marshal id (Metadata s) meta secrets r Hjm Hknown
    (quiet_one_fault r Hq)) as Hp.
  unfold Save, locked. rewrite Hflock. apply runs_bind. eapply runs_lift; [exact Hg|].
  apply runs_bind. eapply runs_lift; [exact Hm|]. apply runs_bind. eapply runs_lift; [exact He|].
  unfold runs. destruct (Persist json_Marshal id (Metadata s) secrets r) as [x r1].
  destruct Hp as (Ho & Hok & Hdir). destruct (Hok Hq) as [Hq1 ->]. exists tt, r1. split; [done|].
  assert (Hh : holds id s (EDir (secret_files meta secrets))) by (by exists meta, secrets, data).
  assert (Hk1 : kept (r_entries r1)).
  { intros name e id' Hn Hid'. destruct (decide (name = IDToDirName id)) as [->|Hne].
    - rewrite Hdir in Hn. injection Hn as <-. rewrite DirName_id in Hid' by done.
      injection Hid' as <-. split; [done|by exists s].
    - rewrite Ho in Hn by done. by apply Hk. }
  split; [by split|]. by eapply content_insert.
Qed.

(** [RestoreSecret] on a directory of the store, and on one that is absent. *)
Lemma runs_restore_held id s r : quiet r -> posix_kept json_Unmarshal factory c (r_entries r) ->
  (exists e, r_entries r !! IDToDirName id = Some e /\ holds id s e) ->
  runs (RestoreSecret json_Unmarshal id) r (fun x r' => quiet r' /\ r_entries r' = r_entries r /\
    exists data, decryptSecret c x.1 = Ok data /\ x.2 = Metadata s /\
      restore_secret factory id (Metadata s) data = Ok s).
Proof.
  intros Hq Hk (e & He & meta & secrets & data & -> & Hknown & Hnd & Hj & Hd & Hr).
  eapply runs_Restore; [done..|]. intros secrets' r' Hq' He' Hp. split; [done|]. split; [done|].
  exists data. split; [by apply Hd|done].
Qed.

Lemma yields_posix_Get id r : in_order r -> validIdentifier id = true ->
  yields (Get json_Unmarshal flock factory c id) r (fun x r' =>
    in_order r' /\ r_entries r' = r_entries r /\
    x = match content (r_entries r) !! id with Some s => Ok s | None => Err fs_ErrNotExist end).
Proof.
  intros [Hq Hk] Hv. unfold Get, locked. rewrite Hflock.
  destruct (content (r_entries r) !! id) as [s|] eqn:Hs.
  - apply (posix_content_lookup _ _ _ _ id s Hk Hv) in Hs.
    apply yields_bind. eapply runs_mono; [by eapply runs_restore_held|].
    intros [secrets md] r1 (Hq1 & He1 & data & Hd & Hmd & Hr). cbn [fst snd] in *. subst md.
    apply yields_bind. eapply runs_lift; [exact Hd|]. apply yields_lift.
    split; [split; [done|by rewrite He1]|done].
  - assert (Hnone : r_entries r !! IDToDirName id = None).
    { destruct (r_entries r !! IDToDirName id) as [e|] eqn:He; [|done].
      destruct (Hk _ e id He (DirName_id id Hv)) as [_ [s Hh]].
      assert (Hc : content (r_entries r) !! id = Some s) by (apply posix_content_lookup; eauto). congruence. }
    unfold yields, bind, RestoreSecret, root_OpenRoot, bind, fs_call. unfold quiet in Hq.
    destruct (r_faults r) as [|[f|] fs] eqn:Hf; [|by inversion Hq|]; rewrite Hnone; cbn;
      (split; [split; [|done]|done]); [constructor|by inversion Hq].
Qed.

(** The callback of [GetAllMetadata]. *)
Lemma runs_metadata_dir name files acc r : quiet r -> kept (r_entries r) ->
  r_entries r !! name = Some (EDir files) ->
  runs (metadata_dir json_Unmarshal factory name acc) r (fun acc' r' => quiet r' /\
    r_entries r' = r_entries r /\ acc' = collect (metadata_of json_Unmarshal factory) (r_entries r) acc name).
Proof.
  intros Hq Hk Hd. unfold metadata_dir, collect. rewrite Hd. cbn [mbind option_bind].
  destruct (DirNameToID name) as [id|] eqn:Hid.
  2: { apply runs_ret. unfold metadata_of, dir_value. by rewrite Hid. }
  destruct (Hk name _ id Hd Hid) as [-> [s Hh]].
  destruct (holds_files json_Unmarshal factory c id s _ Hh) as (fs & secrets & data & [= <-] & Hm & _ & _ & Hr).
  apply runs_bind. eapply runs_call; [done|by rewrite Hd|]. intros r1 Hq1 He1.
  unfold dir_metadata in Hm. destruct (files !! MetadataFileName) as [[b|]|] eqn:Hb; try done.
  destruct (json_Unmarshal b) as [md|] eqn:Hj; [|done]. injection Hm as ->.
  apply runs_bind. unfold RestoreMetadata. apply runs_bind.
  eapply (runs_dir_call _ _ _ files); [done|by rewrite He1|by rewrite Hb|]. intros r2 Hq2 He2.
  apply runs_bind. eapply (runs_dir_call _ _ _ files); [done|by rewrite He2, He1|by rewrite Hb|].
  intros r3 Hq3 He3. eapply runs_lift; [exact Hj|]. cbv beta.
  unfold restore_secret in Hr. destruct (SetMetadata (factory id) (Metadata s)) as [v|] eqn:Hv; [|done].
  apply runs_bind. eapply runs_lift; [reflexivity|]. apply runs_ret.
  split; [done|]. split; [congruence|].
  unfold metadata_of, dir_value, dir_metadata. rewrite Hid, Hb, Hj. cbn. by rewrite Hv.
Qed.

(** The callback of [Filter]. *)
Lemma runs_filter_dir pattern name files acc r : quiet r -> kept (r_entries r) ->
  r_entries r !! name = Some (EDir files) ->
  runs (filter_dir json_Unmarshal factory c pattern name acc) r (fun acc' r' => quiet r' /\
    r_entries r' = r_entries r /\
    acc' = collect (selected_of json_Unmarshal factory c pattern) (r_entries r) acc name).
Proof.
  intros Hq Hk Hd. unfold filter_dir, collect. rewrite Hd. cbn [mbind option_bind].
  unfold selected_of. destruct (DirNameToID name) as [id|] eqn:Hid.
  2: { apply runs_ret. unfold secret_of, dir_value. by rewrite Hid. }
  destruct (Hk name _ id Hd Hid) as [-> [s Hh]].
  assert (Hv : validIdentifier id = true).
  { apply result_bind_Ok_inv in Hid as (i & _ & Hi). by eapply ParseID_valid. }
  rewrite (root_holds_secret json_Unmarshal factory c id s _ Hv Hh). cbn.
  destruct (pattern_Match pattern id); cbn [negb]; [|by apply runs_ret].
  apply runs_try. eapply runs_mono; [eapply (runs_restore_held id s); eauto|].
  intros [secrets md] r1 (Hq1 & He1 & data & Hdec & Hmd & Hr). cbn [fst snd] in *. subst md.
  apply runs_bind. eapply runs_lift; [exact Hdec|]. apply runs_bind. eapply runs_lift; [exact Hr|].
  by apply runs_ret.
Qed.

(** What an operation that walks the root answers. *)
Lemma yields_walked (g : string -> Entry -> option (ID * T)) fn r : in_order r ->
  (forall name data, g name (EFile data) = None) ->
  (forall name files acc r1, quiet r1 -> kept (r_entries r1) -> r_entries r1 !! name = Some (EDir files) ->
     runs (fn name acc) r1 (fun acc' r2 => quiet r2 /\ r_entries r2 = r_entries r1 /\
       acc' = collect g (r_entries r1) acc name)) ->
  yields (locked flock false (secrets <-! WalkDir fn (∅ : gmap ID T) ;;
      if decide (secrets = ∅) then throw ErrCredentialNotFound else ret secrets)) r
    (fun x r' => in_order r' /\ r_entries r' = r_entries r /\
       x = if decide (walked g (r_entries r) = ∅) then Err ErrCredentialNotFound
           else Ok (walked g (r_entries r))).
Proof.
  intros [Hq Hk] Hfile Hfn. unfold locked. rewrite Hflock. apply yields_bind.
  eapply (runs_walk g _ (r_entries r)); [done|done|done| |].
  - intros name files acc r1 Hq1 He1 Hd. rewrite <- He1. eapply Hfn; [done|by rewrite He1|rewrite He1; exact Hd].
  - intros r1 Hq1 He1. case_decide.
    + apply yields_throw. split; [split; [done|by rewrite He1]|done].
    + apply yields_ret. split; [split; [done|by rewrite He1]|done].
Qed.

Lemma yields_posix_GetAllMetadata r : in_order r ->
  yields (GetAllMetadata json_Unmarshal flock factory) r (fun x r' =>
    in_order r' /\ r_entries r' = r_entries r /\
    let m := walked (metadata_of json_Unmarshal factory) (r_entries r) in
    x = if decide (m = ∅) then Err ErrCredentialNotFound else Ok m).
Proof. intros Hr. apply yields_walked; [done|done|]. intros. by eapply runs_metadata_dir. Qed.

Lemma yields_posix_Filter pattern r : in_order r ->
  yields (Filter json_Unmarshal flock factory c pattern) r (fun x r' =>
    in_order r' /\ r_entries r' = r_entries r /\
    let m := walked (selected_of json_Unmarshal factory c pattern) (r_entries r) in
    x = if decide (m = ∅) then Err ErrCredentialNotFound else Ok m).
Proof. intros Hr. apply yields_walked; [done|done|]. intros. by eapply runs_filter_dir. Qed.

Lemma walked_selected pattern m : kept m ->
  walked (selected_of json_Unmarshal factory c pattern) m = matching pattern (content m).
Proof.
  intros Hk. apply map_eq. intros id. apply option_eq. intros s. unfold matching.
  rewrite walked_lookup by by eapply selected_named.
  rewrite map_lookup_filter_Some. unfold posix_content.
  rewrite walked_lookup by by eapply dir_value_named.
  destruct (m !! IDToDirName id) as [e|] eqn:He; cbn; [|naive_solver].
  unfold selected_of. destruct (secret_of json_Unmarshal factory c (IDToDirName id) e) as [[id' s']|] eqn:Hs;
    cbn; [|naive_solver].
  assert (id = id') as <-.
  { apply IDToDirName_inj. by eapply (dir_value_named json_Unmarshal factory c). }
  destruct (pattern_Match pattern id) eqn:Hp; cbn; split; [intros [= <-]|intros [[= <-] _]|done|intros [_ ?]]; done.
Qed.

Lemma walked_metadata m : kept m ->
  dom (walked (metadata_of json_Unmarshal factory) m) = dom (content m) /\
  forall id v, walked (metadata_of json_Unmarshal factory) m !! id = Some v ->
    exists s, content m !! id = Some s /\ SetMetadata (factory id) (Metadata s) = Ok v.
Proof.
  intros Hk.
  assert (Hboth : forall id s, content m !! id = Some s -> exists v,
    walked (metadata_of json_Unmarshal factory) m !! id = Some v /\
    SetMetadata (factory id) (Metadata s) = Ok v).
  { intros id s Hs. pose proof (posix_content_valid _ _ _ m id s Hk Hs) as Hv.
    apply (posix_content_lookup _ _ _ m id s Hk Hv) in Hs as (e & He & Hh).
    destruct (holds_files json_Unmarshal factory c id s e Hh) as (_ & _ & data & _ & _ & _ & _ & Hr).
    unfold restore_secret in Hr. destruct (SetMetadata (factory id) (Metadata s)) as [v|] eqn:Hsm; [|done].
    exists v. split; [|done]. rewrite walked_lookup by by eapply dir_value_named. rewrite He. cbn.
    unfold metadata_of. by rewrite (holds_value json_Unmarshal factory c _ id s e v Hv Hh (fun _ _ _ _ => Hsm)). }
  assert (Hback : forall id v, walked (metadata_of json_Unmarshal factory) m !! id = Some v ->
    exists s, content m !! id = Some s).
  { intros id v Hw. rewrite walked_lookup in Hw by by eapply dir_value_named.
    destruct (m !! IDToDirName id) as [e|] eqn:He; [|done]. cbn in Hw.
    destruct (metadata_of json_Unmarshal factory (IDToDirName id) e) as [[id' v']|] eqn:Hm; [|done].
    assert (Hv : validIdentifier id = true /\ DirNameToID (IDToDirName id) = Ok id).
    { assert (id = id') as <- by (apply IDToDirName_inj; by eapply (dir_value_named json_Unmarshal factory c)).
      unfold metadata_of, dir_value in Hm. destruct e as [|files]; [done|].
      destruct (DirNameToID (IDToDirName id)) as [i|] eqn:Hid; [|done].
      destruct (dir_metadata json_Unmarshal files); [|done]. cbn in Hm. case_match; [|done]. simplify_eq.
      split; [|done]. apply result_bind_Ok_inv in Hid as (j & _ & Hj). by eapply ParseID_valid. }
    destruct Hv as [Hv Hid]. destruct (Hk _ e id He Hid) as [_ [s Hh]]. exists s.
    apply posix_content_lookup; eauto. }
  split.
  - apply set_eq. intros id. rewrite !elem_of_dom. split.
    + intros [v Hw]. destruct (Hback id v Hw) as [s Hs]. by exists s.
    + intros [s Hs]. destruct (Hboth id s Hs) as (v & Hw & _). by exists v.
  - intros id v Hw. destruct (Hback id v Hw) as [s Hs]. exists s. split; [done|].
    destruct (Hboth id s Hs) as (v' & Hw' & Hsm). congruence.
Qed.
End operations.

(** ** Properties *)

(** C2: The file store is a map from identifiers to secrets. In a root where
    everything named after an identifier is a secret the store saved with its
    present callbacks, next to any other files and directories, and while no
    system call fails: [Save] and [Upsert] insert, [Delete] removes and accepts
    an absent identifier, [Get] and [Filter] return the stored secrets with
    their metadata, [GetAllMetadata] one secret per identifier with the
    metadata alone, reads do not change the root, and the invariant is kept. A
    [Filter] or [GetAllMetadata] with nothing to return says
    [ErrCredentialNotFound], as the other stores do; a [Get] of an absent
    identifier passes on the [fs.ErrNotExist] of the file system, which is not
    [ErrCredentialNotFound]. *)
Theorem posix_refines_map {T Recipient Identity} `{Store.Secret T} `{Age Recipient Identity}
    json_Marshal json_Unmarshal flock entropy ord `{!MapOrder ord} (factory : Factory T) c r :
  (forall exclusive, flock exclusive = None) -> in_order json_Unmarshal factory c r ->
  let view r := posix_content json_Unmarshal factory c (r_entries r) in
  let wf := in_order json_Unmarshal factory c in
  (forall id s, posix_acceptable json_Marshal json_Unmarshal entropy ord factory c id s ->
     runs (Save json_Marshal flock entropy ord c id s) r (fun _ r' => wf r' /\ view r' = <[id := s]> (view r)) /\
     runs (Upsert json_Marshal flock entropy ord c id s) r
       (fun _ r' => wf r' /\ view r' = <[id := s]> (view r))) /\
  (forall id, runs (Delete flock id) r (fun _ r' => wf r' /\ view r' = delete id (view r))) /\
  (forall id, validIdentifier id = true ->
     yields (Get json_Unmarshal flock factory c id) r (fun x r' => wf r' /\ r_entries r' = r_entries r /\
       x = match view r !! id with Some s => Ok s | None => Err fs_ErrNotExist end)) /\
  yields (GetAllMetadata json_Unmarshal flock factory) r (fun x r' => wf r' /\ r_entries r' = r_entries r /\
    if decide (view r = ∅) then x = Err ErrCredentialNotFound
    else exists m, x = Ok m /\ dom m = dom (view r) /\
      forall id v, m !! id = Some v -> exists s, view r !! id = Some s /\
        SetMetadata (factory id) (Metadata s) = Ok v) /\
  (forall pattern, yields (Filter json_Unmarshal flock factory c pattern) r (fun x r' =>
     wf r' /\ r_entries r' = r_entries r /\
     x = if decide (matching pattern (view r) = ∅) then Err ErrCredentialNotFound
         else Ok (matching pattern (view r)))) /\
  errors_Is fs_ErrNotExist ErrCredentialNotFound = false.
Proof.
  intros Hfl Hr view wf. split_and!.
  - intros id s Hok. split; by apply runs_posix_Save.
  - intros id. by apply runs_posix_Delete.
  - intros id Hv. by apply yields_posix_Get.
  - eapply yields_mono; [by apply (yields_posix_GetAllMetadata json_Unmarshal flock Hfl factory c)|].
    cbv beta zeta. intros x r' (Hw & He & ->). split; [done|]. split; [done|].
    destruct (walked_metadata json_Unmarshal factory c _ (proj2 Hr)) as [Hd Hm].
    change (dom (walked (metadata_of json_Unmarshal factory) (r_entries r)) = dom (view r)) in Hd.
    destruct (decide (view r = ∅)) as [Hv|Hv].
    + rewrite Hv, dom_empty_L in Hd. apply dom_empty_inv_L in Hd. by rewrite decide_True.
    + rewrite decide_False; [eauto|]. intros Hw'. apply Hv. rewrite Hw', dom_empty_L in Hd.
      by apply dom_empty_inv_L.
  - intros pattern. eapply yields_mono; [by apply (yields_posix_Filter json_Unmarshal flock Hfl factory c)|].
    cbv beta zeta. intros x r' (Hw & He & ->). split; [done|]. split; [done|].
    by rewrite (walked_selected json_Unmarshal factory c _ _ (proj2 Hr)).
  - reflexivity.
Qed.

(** A root with the lock file and a directory that is not the store's. *)
Definition sample_root : Root :=
  {| r_entries := {[".posixage.lock" := EFile []; ".git" := EDir ∅]}; r_faults := [] |}.
Definition sample_json_Marshal (_ : gmap string string) : result goerror bytes := Ok [Byte.x7b].
Definition sample_json_Unmarshal (_ : bytes) : result goerror (gmap string string) := Ok ∅.

Lemma sample_root_in_order : in_order sample_json_Unmarshal PassValue_factory sample_config sample_root.
Proof.
  split; [constructor|]. intros name e id Hn Hid. exfalso. cbn [r_entries sample_root] in Hn.
  apply lookup_insert_Some in Hn as [[<- _]|[_ Hn]]; [by vm_compute in Hid|].
  apply lookup_singleton_Some in Hn as [<- _]. by vm_compute in Hid.
Qed.

Lemma sample_acceptable id : validIdentifier id = true ->
  posix_acceptable sample_json_Marshal sample_json_Unmarshal 0 (@List.rev _) PassValue_factory
    sample_config id (NewPassValue [Byte.x41]).
Proof.
  intros Hv. split; [done|].
  eexists [Byte.x41], _, (<["age" := ["agekey"]]> (<["pass" := ["pw"]]> ∅)), _.
  do 5 (split; [reflexivity|]). split; [vm_compute; reflexivity|]. intros secrets' Hp.
  eapply (decrypt_saved 0 sample_config (@List.rev _) (<["age" := ["agekey"]]> (<["pass" := ["pw"]]> ∅)));
    [reflexivity|vm_compute; reflexivity|exact Hp|reflexivity..|].
  intros rs ct Hrs Hct. exists "agekey". split; [reflexivity|].
  vm_compute in Hrs. injection Hrs as <-. vm_compute in Hct. injection Hct as <-. reflexivity.
Qed.

Lemma posix_refines_map_witness :
  let view r := posix_content sample_json_Unmarshal PassValue_factory sample_config (r_entries r) in
  runs (Save sample_json_Marshal (fun _ => None) 0 (@List.rev _) sample_config "a/b" (NewPassValue [Byte.x41]))
    sample_root (fun _ r' =>
      in_order sample_json_Unmarshal PassValue_factory sample_config r' /\
      view r' = <["a/b" := NewPassValue [Byte.x41]]> (view sample_root)) /\
  yields (Get sample_json_Unmarshal (fun _ => None) PassValue_factory sample_config "a/b") sample_root
    (fun x r' => x = Err fs_ErrNotExist).
Proof.
  destruct (posix_refines_map sample_json_Marshal sample_json_Unmarshal (fun _ => None) 0 (@List.rev _)
    PassValue_factory sample_config sample_root (fun _ => eq_refl) sample_root_in_order)
    as (Hs & _ & Hg & _).
  split; [apply Hs, sample_acceptable; reflexivity|].
  eapply yields_mono; [by apply Hg|]. cbv beta. intros x r' (_ & _ & ->). vm_compute. reflexivity.
Defined.

(** The file store is a machine over a map. *)
Definition posix_conventions : conventions :=
  {| on_absent := fs_ErrNotExist; on_no_listing := Some ErrCredentialNotFound;
     on_no_match := Some ErrCredentialNotFound; on_duplicate := None |}.

#[export] Instance posix_machine {T Recipient Identity} `{Store.Secret T} `{Age Recipient Identity}
    json_Marshal json_Unmarshal flock entropy ord `{!MapOrder ord} (factory : Factory T) c
    (Hfl : forall exclusive, flock exclusive = None) :
  @StoreMachine Root T (posix_Store json_Marshal json_Unmarshal flock entropy ord factory c)
    (in_order json_Unmarshal factory c) (fun id => validIdentifier id = true)
    (posix_acceptable json_Marshal json_Unmarshal entropy ord factory c)
    (fun r => posix_content json_Unmarshal factory c (r_entries r)) posix_conventions.
Proof.
  split. intros call r Hr Hok. destruct call as [id|id| |id v|id v|pattern]; cbn [perform spec_perform permitted] in *.
  - destruct (runs_posix_Delete json_Unmarshal flock Hfl factory c id r Hr) as (a & r' & Hd & Hw & Hv).
    cbn. rewrite Hd. by rewrite <- Hv.
  - pose proof (yields_posix_Get json_Unmarshal flock Hfl factory c id r Hr Hok) as Hy.
    unfold yields in Hy. cbn. destruct (Get _ _ _ _ _ r) as [x r']. cbn [fst snd] in Hy. destruct Hy as (Hw & He & ->).
    cbn [fst snd] in *. rewrite He. split; [done|]. by destruct (_ !! id).
  - pose proof (yields_posix_GetAllMetadata json_Unmarshal flock Hfl factory c r Hr) as Hy.
    unfold yields in Hy. cbn. destruct (GetAllMetadata _ _ _ r) as [x r']. cbn [fst snd] in Hy. destruct Hy as (Hw & He & ->).
    cbn [fst snd] in *. rewrite He. split; [done|].
    destruct (walked_metadata json_Unmarshal factory c _ (proj2 Hr)) as [Hd _].
    case_bool_decide as Hv.
    + rewrite Hv, dom_empty_L in Hd. apply dom_empty_inv_L in Hd. by rewrite decide_True.
    + rewrite decide_False; [cbn; by rewrite Hd|]. intros Hw'. apply Hv. rewrite Hw', dom_empty_L in Hd.
      by apply dom_empty_inv_L.
  - destruct (runs_posix_Save json_Marshal json_Unmarshal flock Hfl entropy ord factory c id v r Hr Hok)
      as (a & r' & Hd & Hw & Hv). cbn. rewrite Hd. by rewrite <- Hv.
  - destruct (runs_posix_Save json_Marshal json_Unmarshal flock Hfl entropy ord factory c id v r Hr Hok)
      as (a & r' & Hd & Hw & Hv). cbn. unfold Upsert. rewrite Hd. by rewrite <- Hv.
  - pose proof (yields_posix_Filter json_Unmarshal flock Hfl factory c pattern r Hr) as Hy.
    unfold yields in Hy. cbn. destruct (Filter _ _ _ _ _ r) as [x r']. cbn [fst snd] in Hy. destruct Hy as (Hw & He & ->).
    cbn [fst snd] in *. rewrite He. split; [done|].
    rewrite (walked_selected json_Unmarshal factory c _ _ (proj2 Hr)).
    case_bool_decide as Hv; [by rewrite decide_True|by rewrite decide_False].
Qed.
