(* ===== verification/Syscalls.v ===== *)
(** Computations as sequences of calls, so that what several processes do can
    be interleaved: a [prog] is what is left of a computation, one call on the
    shared state at a time. [Calls] says that a computation is such a sequence,
    and that each of its calls changes the state only as a relation allows. *)

From S2P Require Import Prelude GoErrors Store StoreSpec.

(** What is left to do: nothing, or a call, given by its effect on the state and
    by how the caller goes on with what it saw. *)
Inductive prog (S X : Type) : Type :=
| Finished (x : X)
| Do (effect : S -> S) (next : S -> prog S X).
Arguments Finished {S X} x.
Arguments Do {S X} effect next.

Section prog.
Context {S : Type}.

(** All the calls in a row. *)
Fixpoint run {X} (p : prog S X) (s : S) : X * S :=
  match p with
  | Finished x => (x, s)
  | Do effect next => run (next s) (effect s)
  end.

Fixpoint andThen {X Y} (p : prog S X) (f : X -> prog S Y) : prog S Y :=
  match p with
  | Finished x => f x
  | Do effect next => Do effect (fun s => andThen (next s) f)
  end.

(** Each call takes the state to one that [R] allows. *)
Fixpoint within {X} (R : S -> S -> Prop) (p : prog S X) : Prop :=
  match p with
  | Finished _ => True
  | Do effect next => forall s, R s (effect s) /\ within R (next s)
  end.

Lemma run_andThen {X Y} (p : prog S X) (f : X -> prog S Y) s :
  run (andThen p f) s = run (f (run p s).1) (run p s).2.
Proof. revert s. induction p as [x|effect next IH]; intros s; [done|]. cbn. apply IH. Qed.

Lemma within_andThen {X Y} R (p : prog S X) (f : X -> prog S Y) :
  within R p -> (forall x, within R (f x)) -> within R (andThen p f).
Proof.
  intros Hp Hf. induction p as [x|effect next IH]; [apply Hf|]. cbn in *. intros s.
  destruct (Hp s) as [HR Hn]. split; [done|]. by apply IH.
Qed.

Lemma within_mono {X} (R R' : S -> S -> Prop) (p : prog S X) :
  (forall s s', R s s' -> R' s s') -> within R p -> within R' p.
Proof.
  intros HRR. induction p as [x|effect next IH]; [done|]. cbn. intros Hp s.
  destruct (Hp s) as [HR Hn]. split; [by apply HRR|by apply IH].
Qed.

(** What every call keeps, the whole sequence keeps. *)
Lemma within_keeps {X} (P : S -> Prop) (p : prog S X) s :
  within (fun s s' => P s -> P s') p -> P s -> P (run p s).2.
Proof.
  revert s. induction p as [x|effect next IH]; intros s Hp HP; [done|]. cbn in *.
  destruct (Hp s) as [HR Hn]. apply IH; auto.
Qed.

(** A caller that is left alone gets to the end. *)
Fixpoint steps {X} (n : nat) (p : prog S X) (s : S) : prog S X * S :=
  match n, p with
  | Datatypes.S n', Do effect next => steps n' (next s) (effect s)
  | _, _ => (p, s)
  end.

Lemma steps_finish {X} (p : prog S X) s : exists n, steps n p s = (Finished (run p s).1, (run p s).2).
Proof.
  revert s. induction p as [x|effect next IH]; intros s; [by exists 0%nat|].
  destruct (IH s (effect s)) as [n Hn]. by exists (Datatypes.S n).
Qed.
End prog.

(** ** Computations that are sequences of calls *)

Class Calls {S E A} (R : S -> S -> Prop) (m : comp S E A) : Type := {
  calls : prog S (result E A);
  calls_run s : run calls s = m s;
  calls_within : within R calls
}.
Arguments calls {S E A} R m {_}.
Arguments calls_run {S E A} R m {_} s.
Arguments calls_within {S E A} R m {_}.
#[export] Hint Mode Calls ! ! ! ! ! : typeclass_instances.

Section calls.
Context {S E : Type} {R : S -> S -> Prop}.

#[export] Instance Calls_ret {A} (a : A) : Calls (E := E) R (ret a).
Proof. by exists (Finished (Ok a)). Defined.

#[export] Instance Calls_throw {A} (e : E) : Calls (A := A) R (throw e).
Proof. by exists (Finished (Err e)). Defined.

#[export] Instance Calls_lift {A} (r : result E A) : Calls R (lift r).
Proof. by exists (Finished r). Defined.

#[export] Instance Calls_bind {A B} (m : comp S E A) (f : A -> comp S E B) :
  Calls R m -> (forall a, Calls R (f a)) -> Calls R (bind m f).
Proof.
  intros Hm Hf. exists (andThen (calls R m) (fun r =>
    match r with Ok a => calls R (f a) | Err e => Finished (Err e) end)).
  - intros s. rewrite run_andThen, calls_run. unfold bind. destruct (m s) as [[a|e] s']; cbn; [|done].
    apply calls_run.
  - apply within_andThen; [apply calls_within|]. intros [a|e]; [apply calls_within|done].
Defined.

#[export] Instance Calls_try {A B} (m : comp S E A) (f : result E A -> comp S E B) :
  Calls R m -> (forall r, Calls R (f r)) -> Calls R (try m f).
Proof.
  intros Hm Hf. exists (andThen (calls R m) (fun r => calls R (f r))).
  - intros s. rewrite run_andThen, !calls_run. unfold try. by destruct (m s).
  - apply within_andThen; [apply calls_within|]. intros r. apply calls_within.
Defined.

#[export] Instance Calls_deferring {A} (m : comp S E A) (d : result E A -> comp S E unit) :
  Calls R m -> (forall r, Calls R (d r)) -> Calls R (deferring m d).
Proof.
  intros Hm Hd. exists (andThen (calls R m) (fun r => andThen (calls R (d r)) (fun _ => Finished r))).
  - intros s. rewrite !run_andThen, !calls_run. unfold deferring. by destruct (m s).
  - apply within_andThen; [apply calls_within|]. intros r.
    apply within_andThen; [apply calls_within|done].
Defined.

(** One call. *)
Definition one_call {A} (m : comp S E A) (HR : forall s, R s (m s).2) : Calls R m.
Proof.
  exists (Do (fun s => (m s).2) (fun s => Finished (m s).1)).
  - intros s. cbn. by destruct (m s).
  - intros s. split; [apply HR|done].
Defined.
End calls.

(** The calls of an operation of a store, and the reply to its client. *)
Definition reply_prog {S T A} (R : S -> S -> Prop) (f : A -> store_reply T) (m : comp S goerror A)
    `{!Calls R m} : prog S (store_reply T) :=
  andThen (calls R m) (fun r => Finished (reply_of f r)).

Lemma run_reply_prog {S T A} (R : S -> S -> Prop) (f : A -> store_reply T) (m : comp S goerror A)
    `{!Calls R m} s : run (reply_prog R f m) s = (reply_of f (m s).1, (m s).2).
Proof. unfold reply_prog. by rewrite run_andThen, calls_run. Qed.

Lemma within_reply_prog {S T A} (R R' : S -> S -> Prop) (f : A -> store_reply T) (m : comp S goerror A)
    `{!Calls R m} : (forall s s', R s s' -> R' s s') -> within R' (reply_prog R f m).
Proof.
  intros HR. apply within_andThen; [|done]. eapply within_mono; [exact HR|apply calls_within].
Qed.

(** ** What holds whatever others do between the calls *)

(** [p] keeps the invariant [I] at every call and ends with a value that
    satisfies [Q], when the others, who may make calls between any two of its
    own, keep [I] as well. *)
Fixpoint guarded {S X} (I : S -> Prop) (Q : X -> Prop) (p : prog S X) : Prop :=
  match p with
  | Finished x => Q x
  | Do effect next => forall s, I s -> I (effect s) /\ guarded I Q (next s)
  end.

Section guarded.
Context {S E : Type} (I : S -> Prop) {R : S -> S -> Prop}.

Lemma guarded_mono {X} (Q Q' : X -> Prop) (p : prog S X) :
  guarded I Q p -> (forall x, Q x -> Q' x) -> guarded I Q' p.
Proof.
  intros Hp HQ. induction p as [x|effect next IH]; cbn in *; [auto|]. intros s Hs.
  destruct (Hp s Hs). auto.
Qed.

Lemma guarded_andThen {X Y} (Q : Y -> Prop) (p : prog S X) (f : X -> prog S Y) :
  guarded I (fun x => guarded I Q (f x)) p -> guarded I Q (andThen p f).
Proof.
  intros Hp. induction p as [x|effect next IH]; cbn in *; [done|]. intros s Hs.
  destruct (Hp s Hs). auto.
Qed.

(** The calls of [m], as [Hm] lists them. *)
Definition obeys {A} (m : comp S E A) (Hm : Calls R m) (Q : result E A -> Prop) : Prop :=
  guarded I Q (calls R m).

Lemma obeys_mono {A} (m : comp S E A) Hm (Q Q' : result E A -> Prop) :
  obeys m Hm Q -> (forall r, Q r -> Q' r) -> obeys m Hm Q'.
Proof. apply guarded_mono. Qed.

Lemma obeys_ret {A} (a : A) (Q : result E A -> Prop) : Q (Ok a) -> obeys (ret a) (Calls_ret a) Q.
Proof. done. Qed.

Lemma obeys_throw {A} e (Q : result E A -> Prop) : Q (Err e) -> obeys (throw e) (Calls_throw e) Q.
Proof. done. Qed.

Lemma obeys_lift {A} r (Q : result E A -> Prop) : Q r -> obeys (lift r) (Calls_lift r) Q.
Proof. done. Qed.

Lemma obeys_bind {A B} (m : comp S E A) (f : A -> comp S E B) Hm Hf Q :
  obeys m Hm (fun r => match r with Ok a => obeys (f a) (Hf a) Q | Err e => Q (Err e) end) ->
  obeys (bind m f) (Calls_bind m f Hm Hf) Q.
Proof.
  intros H. apply guarded_andThen. eapply guarded_mono; [exact H|]. by intros [a|e].
Qed.

Lemma obeys_try {A B} (m : comp S E A) (f : result E A -> comp S E B) Hm Hf Q :
  obeys m Hm (fun r => obeys (f r) (Hf r) Q) -> obeys (try m f) (Calls_try m f Hm Hf) Q.
Proof. intros H. apply guarded_andThen. exact H. Qed.

Lemma obeys_deferring {A} (m : comp S E A) d Hm Hd Q :
  obeys m Hm (fun r => obeys (d r) (Hd r) (fun _ => Q r)) ->
  obeys (deferring m d) (Calls_deferring m d Hm Hd) Q.
Proof.
  intros H. apply guarded_andThen. eapply guarded_mono; [exact H|]. cbv beta. intros r Hr.
  apply guarded_andThen. eapply guarded_mono; [exact Hr|done].
Qed.

Lemma obeys_one_call {A} (m : comp S E A) HR (Q : result E A -> Prop) :
  (forall s, I s -> I (m s).2 /\ Q (m s).1) -> obeys m (one_call m HR) Q.
Proof. done. Qed.

(** A call that succeeds. *)
Lemma obeys_runs {A} (m : comp S E A) HR (Q : result E A -> Prop) :
  (forall s, I s -> runs m s (fun a s' => I s' /\ Q (Ok a))) -> obeys m (one_call m HR) Q.
Proof.
  intros Hm. apply obeys_one_call. intros s Hs. destruct (Hm s Hs) as (a & s' & -> & HI & HQ). done.
Qed.
End guarded.

(** ** Callers that take turns *)

(** Callers by their numbers, each with what it has left to do, and the answers
    of those that are done. *)
Record pool (S X : Type) : Type := {
  pl_state : S;
  pl_work : gmap nat (prog S X);
  pl_log : list (nat * X)
}.
Arguments pl_state {S X} p.
Arguments pl_work {S X} p.
Arguments pl_log {S X} p.

Section pool.
Context {S X : Type} (start : nat -> prog S X).

(** The turn of caller [p]: it begins, makes its next call, or returns. *)
Definition turn (p : nat) (st : pool S X) : pool S X :=
  match pl_work st !! p with
  | None =>
      {| pl_state := pl_state st; pl_work := <[p := start p]> (pl_work st); pl_log := pl_log st |}
  | Some (Do effect next) =>
      {| pl_state := effect (pl_state st); pl_work := <[p := next (pl_state st)]> (pl_work st);
         pl_log := pl_log st |}
  | Some (Finished x) =>
      {| pl_state := pl_state st; pl_work := delete p (pl_work st); pl_log := pl_log st ++ [(p, x)] |}
  end.

Definition turns (schedule : list nat) (st : pool S X) : pool S X := foldl (fun st p => turn p st) st schedule.

Definition pool_of (s : S) : pool S X := {| pl_state := s; pl_work := ∅; pl_log := [] |}.

(** Callers that keep [I] whatever the others do, together keep it in every
    schedule, and answer as they promise. *)
Record pool_ok (I : S -> Prop) (Q : nat -> X -> Prop) (st : pool S X) : Prop := {
  po_state : I (pl_state st);
  po_work p w : pl_work st !! p = Some w -> guarded I (Q p) w;
  po_log : Forall (fun '(p, x) => Q p x) (pl_log st)
}.

Lemma turn_ok I Q p st : (forall p, guarded I (Q p) (start p)) -> pool_ok I Q st -> pool_ok I Q (turn p st).
Proof.
  intros Hstart [Hs Hw Hl]. unfold turn. destruct (pl_work st !! p) as [[x|effect next]|] eqn:Hp.
  - split; cbn; [done| |].
    + intros q w [_ Hq]%lookup_delete_Some. by apply Hw.
    + apply Forall_app. split; [done|]. repeat constructor. exact (Hw p _ Hp).
  - destruct (Hw p _ Hp (pl_state st) Hs) as [HI Hn]. split; cbn; [done| |done].
    intros q w [[<- <-]|[_ Hq]]%lookup_insert_Some; [done|by apply Hw].
  - split; cbn; [done| |done].
    intros q w [[<- <-]|[_ Hq]]%lookup_insert_Some; [apply Hstart|by apply Hw].
Qed.

Lemma turns_ok I Q schedule s : (forall p, guarded I (Q p) (start p)) -> I s ->
  pool_ok I Q (turns schedule (pool_of s)).
Proof.
  intros Hstart Hs. assert (Hok : pool_ok I Q (pool_of s)) by (split; cbn; [done|set_solver|constructor]).
  revert Hok. generalize (pool_of s). induction schedule as [|p schedule IH]; intros st Hok; [done|].
  apply IH. by apply turn_ok.
Qed.

(** Each caller is done after finitely many turns of its own. *)
Lemma turns_alone p w st : pl_work st !! p = Some w -> exists n x,
  pl_log (turns (replicate n p) st) = pl_log st ++ [(p, x)].
Proof.
  revert st. induction w as [x|effect next IH]; intros st Hp.
  - exists 1%nat, x. cbn. unfold turn. by rewrite Hp.
  - destruct (IH (pl_state st) (turn p st)) as (n & x & Hn).
    { unfold turn. rewrite Hp. apply lookup_insert_eq. }
    exists (Datatypes.S n), x. cbn. unfold turns in Hn. rewrite Hn. unfold turn. by rewrite Hp.
Qed.
End pool.

(** The calls of code with branches. *)
Ltac calls_tac :=
  repeat first
    [ progress intros
    | match goal with
      | |- Calls _ (match ?x with _ => _ end) => destruct x
      | |- Calls _ (bind _ _) => apply Calls_bind
      | |- Calls _ (try _ _) => apply Calls_try
      | |- Calls _ (deferring _ _) => apply Calls_deferring
      end
    | typeclasses eauto ].
