(* ===== verification/Flock.v ===== *)
(** Package store/posixage/internal/flock: the advisory lock of the file store
    (flock.go, recover.go, flock_unix.go) as a transition system: processes
    that run [tryLock] one system call at a time on a shared lock file, whose
    path may be unlinked by the recovery of a stale lock. *)

From S2P Require Import Prelude.

(** ** The shared file system *)

(** Seconds. *)
Definition staleThreshold : Z := 30.
Definition heartbeatInterval : Z := 10.

(** Where a process is inside [tryLock]. [first] tells the first attempt from
    those of [retryLock]. *)
Inductive pc : Type :=
| Idle                               (** not in the package *)
| Opened (inode : nat) (first : bool)    (** [openFile] returned *)
| Flocked (inode : nat) (first : bool)   (** [lockFile] succeeded *)
| Truncated (inode : nat) (first : bool) (** [Truncate] returned *)
| Holding (inode : nat)              (** the lock is verified and returned *)
| Recovering                         (** at the [Stat] of [recoverStaleLock] *)
| Stale                              (** at its [Remove] *)
| Retrying                           (** at the [openFile] of [retryLock] *)
| Failed.                            (** [tryLock] returned an error *)

Record lockfs : Type := {
  lf_path : option nat;        (** the inode at the lock-file path *)
  lf_mtime : gmap nat Z;       (** modification times *)
  lf_next : nat;               (** the next inode number *)
  lf_now : Z;                  (** the clock *)
  lf_procs : gmap nat pc       (** the processes; absent ones are idle *)
}.

Definition pc_of (st : lockfs) (p : nat) : pc := default Idle (lf_procs st !! p).
Definition mtime (st : lockfs) (i : nat) : Z := default 0%Z (lf_mtime st !! i).

Definition set_pc (p : nat) (c : pc) (st : lockfs) : lockfs :=
  {| lf_path := lf_path st; lf_mtime := lf_mtime st; lf_next := lf_next st; lf_now := lf_now st;
     lf_procs := <[p := c]> (lf_procs st) |}.
Definition set_mtime (i : nat) (st : lockfs) : lockfs :=
  {| lf_path := lf_path st; lf_mtime := <[i := lf_now st]> (lf_mtime st); lf_next := lf_next st;
     lf_now := lf_now st; lf_procs := lf_procs st |}.
Definition set_path (path : option nat) (st : lockfs) : lockfs :=
  {| lf_path := path; lf_mtime := lf_mtime st; lf_next := lf_next st; lf_now := lf_now st;
     lf_procs := lf_procs st |}.

(** The inode a process has an advisory lock on. *)
Definition locked_inode (c : pc) : option nat :=
  match c with
  | Flocked i _ | Truncated i _ | Holding i => Some i
  | _ => None
  end.

(** ** The steps *)

Section flock.
(** Which processes ask for an exclusive lock. *)
Context (exclusive : nat -> bool).

(** [openFile] with [O_CREATE]. *)
Definition openFile (st : lockfs) : nat * lockfs :=
  match lf_path st with
  | Some i => (i, st)
  | None =>
      let i := lf_next st in
      (i, {| lf_path := Some i; lf_mtime := <[i := lf_now st]> (lf_mtime st);
             lf_next := Datatypes.S i; lf_now := lf_now st; lf_procs := lf_procs st |})
  end.

(** [flock(fd, LOCK_NB | mode)] succeeds when every other lock on the inode is
    compatible. *)
Definition lockFile (p i : nat) (st : lockfs) : bool :=
  forallb (fun '(q, c) =>
    (q =? p)%nat || negb (bool_decide (locked_inode c = Some i)) ||
    negb (exclusive p) && negb (exclusive q)) (map_to_list (lf_procs st)).

Definition isCurrentLockFile (i : nat) (st : lockfs) : bool := bool_decide (lf_path st = Some i).

(** After a failed [acquireOnce]: the first attempt recovers, a retry retries.
    The descriptor and its lock are released. *)
Definition after_failure (first : bool) : pc := if first then Recovering else Retrying.

(** The next system call of a process in [acquireOnce]; [fault] makes it fail. *)
Definition acquire_step (p : nat) (fault : bool) (c : pc) (st : lockfs) : option lockfs :=
  match c with
  | Idle | Retrying =>
      let first := match c with Idle => true | _ => false end in
      if fault then Some (set_pc p (after_failure first) st)
      else let '(i, st) := openFile st in Some (set_pc p (Opened i first) st)
  | Opened i first =>
      if negb fault && lockFile p i st then Some (set_pc p (Flocked i first) st)
      else Some (set_pc p (after_failure first) st)
  | Flocked i first =>
      Some (set_pc p (Truncated i first) (if fault then st else set_mtime i st))
  | Truncated i first =>
      if negb fault && isCurrentLockFile i st then Some (set_pc p (Holding i) st)
      else Some (set_pc p (after_failure first) st)
  | _ => None
  end.

(** The two system calls of [recoverStaleLock]. *)
Definition recover_step (p : nat) (fault : bool) (c : pc) (st : lockfs) : option lockfs :=
  match c with
  | Recovering =>
      if fault then Some (set_pc p Failed st)
      else match lf_path st with
           | None => Some (set_pc p Retrying st)
           | Some i =>
               if (lf_now st - mtime st i <? staleThreshold)%Z
               then Some (set_pc p Retrying st)
               else Some (set_pc p Stale st)
           end
  | Stale =>
      if fault then Some (set_pc p Failed st)
      else Some (set_pc p Retrying (set_path None st))
  | _ => None
  end.

(** What can happen next: a process makes its next call, the heartbeat of a
    holder truncates the file, a holder calls its [UnlockFunc], the context of
    a waiting process is cancelled, time passes. *)
Inductive action : Type :=
| Run (p : nat) (fault : bool)
| Heartbeat (p : nat)
| Unlock (p : nat)
| Cancel (p : nat)
| Tick (d : Z).

Definition step (a : action) (st : lockfs) : option lockfs :=
  match a with
  | Run p fault =>
      match pc_of st p with
      | Recovering => recover_step p fault Recovering st
      | Stale => recover_step p fault Stale st
      | c => acquire_step p fault c st
      end
  | Heartbeat p =>
      match pc_of st p with
      | Holding i => Some (set_mtime i st)
      | _ => None
      end
  | Unlock p =>
      match pc_of st p with
      | Holding _ => Some (set_pc p Idle st)
      | _ => None
      end
  | Cancel p =>
      match pc_of st p with
      | Recovering | Retrying => Some (set_pc p Failed st)
      | _ => None
      end
  | Tick d =>
      if (0 <? d)%Z
      then Some {| lf_path := lf_path st; lf_mtime := lf_mtime st; lf_next := lf_next st;
                   lf_now := (lf_now st + d)%Z; lf_procs := lf_procs st |}
      else None
  end.

(** Every holder's lock file is younger than the threshold: the heartbeats are
    in time. *)
Definition fresh (st : lockfs) : Prop :=
  forall p i, pc_of st p = Holding i -> (lf_now st - mtime st i < staleThreshold)%Z.

(** [tryLock] was called by nobody yet; a lock file may be left from before. *)
Definition initial (st : lockfs) : Prop :=
  lf_procs st = ∅ /\ forall i, lf_path st = Some i -> (i < lf_next st)%nat.

(** An execution whose heartbeats are in time. *)
Inductive execution : lockfs -> Prop :=
| exec_init st : initial st -> execution st
| exec_step st a st' : execution st -> step a st = Some st' -> fresh st' -> execution st'.

(** One in which, in addition, nothing happens between the [Stat] and the
    [Remove] of a recovery. *)
Inductive atomic_execution : lockfs -> Prop :=
| atomic_init st : initial st -> atomic_execution st
| atomic_step st a st' : atomic_execution st -> step a st = Some st' -> fresh st' ->
    (forall p, pc_of st p = Stale -> exists fault, a = Run p fault) ->
    atomic_execution st'.

(** No two processes hold the lock unless both share it. *)
Definition mutual_exclusion (st : lockfs) : Prop :=
  forall p q i j, p <> q -> pc_of st p = Holding i -> pc_of st q = Holding j ->
    exclusive p = false /\ exclusive q = false.

(** ** Invariants *)

(** Two locks on one inode are compatible: what flock guarantees. *)
Definition compatible_locks (st : lockfs) : Prop :=
  forall p q i, p <> q -> locked_inode (pc_of st p) = Some i -> locked_inode (pc_of st q) = Some i ->
    exclusive p = false /\ exclusive q = false.

(** Every holder holds the inode at the path. *)
Definition holders_current (st : lockfs) : Prop :=
  forall p i, pc_of st p = Holding i -> lf_path st = Some i.

(** When a recovery is about to unlink, the file at the path is stale. *)
Definition stale_is_stale (st : lockfs) : Prop :=
  forall p i, pc_of st p = Stale -> lf_path st = Some i -> (staleThreshold <= lf_now st - mtime st i)%Z.

Lemma pc_of_set_pc p c st q : pc_of (set_pc p c st) q = if decide (q = p) then c else pc_of st q.
Proof.
  unfold pc_of, set_pc. cbn [lf_procs]. destruct (decide (q = p)) as [->|Hne].
  - by rewrite lookup_insert_eq.
  - by rewrite lookup_insert_ne.
Qed.

Lemma lockFile_spec p i st : lockFile p i st = true <->
  forall q, q <> p -> locked_inode (pc_of st q) = Some i -> exclusive p = false /\ exclusive q = false.
Proof.
  unfold lockFile. rewrite forallb_elem. split.
  2: { intros Hall [q c] Hin. apply elem_of_map_to_list in Hin.
       destruct (Nat.eqb_spec q p) as [->|Hne]; [done|]. cbn [orb].
       destruct (decide (locked_inode c = Some i)) as [Hl|Hl]; [|by rewrite bool_decide_false].
       destruct (Hall q Hne) as [-> ->]; [unfold pc_of; by rewrite Hin|]. apply orb_true_r. }
  intros Hall q Hne Hq. unfold pc_of in Hq.
  destruct (lf_procs st !! q) as [c|] eqn:Hc; [|done]. simpl in Hq.
  specialize (Hall (q, c)). cbn in Hall. rewrite bool_decide_true in Hall by done.
  rewrite (proj2 (Nat.eqb_neq q p) Hne) in Hall. simpl in Hall.
  assert (Hb : negb (exclusive p) && negb (exclusive q) = true)
    by (apply Hall; by apply elem_of_map_to_list).
  apply andb_true_iff in Hb as [Hp Hq']. by split; apply negb_true_iff.
Qed.

(** A step that gives [p] no new lock keeps the locks compatible. *)
Lemma compatible_set_pc p c st st0 : (forall q, pc_of st0 q = pc_of st q) ->
  compatible_locks st ->
  (forall i, locked_inode c = Some i -> locked_inode (pc_of st p) = Some i \/
     forall q, q <> p -> locked_inode (pc_of st q) = Some i -> exclusive p = false /\ exclusive q = false) ->
  compatible_locks (set_pc p c st0).
Proof.
  intros Hsame Hc Hnew a b i Hne. rewrite !pc_of_set_pc, !Hsame.
  destruct (decide (a = p)) as [->|Ha]; destruct (decide (b = p)) as [->|Hb]; intros Hi Hj.
  - done.
  - destruct (Hnew i Hi) as [Hp|Hq]; [by eapply Hc|by apply Hq].
  - destruct (Hnew i Hj) as [Hp|Hq]; [by eapply Hc|]. destruct (Hq a Ha Hi). done.
  - by eapply Hc.
Qed.

Lemma compatible_step a st st' : compatible_locks st -> step a st = Some st' -> compatible_locks st'.
Proof.
  intros Hc Hs. destruct a as [p fault|p|p|p|d]; cbn [step] in Hs.
  - destruct (pc_of st p) as [|i f|i f|i f|i| | | |] eqn:Hp; cbn in Hs; try done.
    + destruct fault; [|destruct (openFile st) as [i st0] eqn:Ho]; injection Hs as <-;
        eapply compatible_set_pc; try done.
      unfold openFile in Ho. by destruct (lf_path st); injection Ho as <- <-.
    + destruct (negb fault && lockFile p i st) eqn:Hl; injection Hs as <-;
        (eapply compatible_set_pc; [done..|]).
      * apply andb_true_iff in Hl as [_ Hl]. intros j [= <-]. right. by apply (lockFile_spec p i st).
      * by destruct f.
    + injection Hs as <-. eapply (compatible_set_pc _ _ st); [by destruct fault|done|].
      intros j Hj. left. by rewrite Hp.
    + destruct (negb fault && isCurrentLockFile i st); injection Hs as <-;
        (eapply compatible_set_pc; [done..|]).
      * intros j Hj. left. by rewrite Hp.
      * by destruct f.
    + destruct fault; [injection Hs as <-; by eapply compatible_set_pc|].
      destruct (lf_path st); [destruct (_ <? _)%Z|]; injection Hs as <-; by eapply compatible_set_pc.
    + destruct fault; injection Hs as <-; by eapply (compatible_set_pc _ _ st).
    + destruct fault; [|destruct (openFile st) as [i st0] eqn:Ho]; injection Hs as <-;
        eapply compatible_set_pc; try done.
      unfold openFile in Ho. by destruct (lf_path st); injection Ho as <- <-.
  - destruct (pc_of st p); try done. injection Hs as <-. exact Hc.
  - destruct (pc_of st p); try done. injection Hs as <-. by eapply compatible_set_pc.
  - destruct (pc_of st p); try done; injection Hs as <-; by eapply compatible_set_pc.
  - destruct (0 <? d)%Z; [|done]. injection Hs as <-. exact Hc.
Qed.

(** A step either keeps the path, or puts a new inode at a path that was empty,
    or is the [Remove] of a recovery. *)
Lemma step_path a st st' : step a st = Some st' ->
  lf_path st' = lf_path st \/ lf_path st = None \/
  exists p, a = Run p false /\ pc_of st p = Stale /\ lf_path st' = None.
Proof.
  intros Hs. destruct a as [p fault|p|p|p|d]; cbn [step] in Hs.
  - destruct (pc_of st p) as [|i f|i f|i f|i| | | |] eqn:Hp; cbn in Hs; try done;
      unfold openFile in Hs; repeat case_match; simplify_eq; auto.
    right. right. by exists p.
  - repeat case_match; simplify_eq. by left.
  - repeat case_match; simplify_eq. by left.
  - repeat case_match; simplify_eq; by left.
  - repeat case_match; simplify_eq. by left.
Qed.

(** A process becomes a holder only by verifying that it holds the inode at
    the path. *)
Lemma step_holding a st st' p i : step a st = Some st' -> pc_of st' p = Holding i ->
  pc_of st p = Holding i \/ lf_path st' = Some i.
Proof.
  intros Hs Hh. destruct a as [q fault|q|q|q|d]; cbn [step] in Hs.
  - destruct (pc_of st q) as [|j f|j f|j f|j| | | |] eqn:Hq; cbn in Hs; try done;
      unfold openFile, isCurrentLockFile, after_failure in Hs;
      repeat case_match; simplify_eq; breflect; rewrite pc_of_set_pc in Hh;
      repeat case_decide; simplify_eq; auto.
  - repeat case_match; simplify_eq. by left.
  - repeat case_match; simplify_eq. rewrite pc_of_set_pc in Hh. case_decide; [done|by left].
  - repeat case_match; simplify_eq; rewrite pc_of_set_pc in Hh; case_decide; try done; by left.
  - repeat case_match; simplify_eq. by left.
Qed.

(** A process gets to the [Remove] only by finding the file at the path
    stale; no other step leaves a process there. *)
Lemma step_stale a st st' p : step a st = Some st' -> pc_of st' p = Stale ->
  (pc_of st p = Stale /\ forall fault, a <> Run p fault) \/
  (forall i, lf_path st' = Some i -> (staleThreshold <= lf_now st' - mtime st' i)%Z).
Proof.
  intros Hs Hh. destruct a as [q fault|q|q|q|d]; cbn [step] in Hs.
  - destruct (pc_of st q) as [|j f|j f|j f|j| | | |] eqn:Hq; cbn in Hs; try done;
      unfold openFile, isCurrentLockFile, after_failure in Hs;
      repeat case_match; simplify_eq; breflect; rewrite pc_of_set_pc in Hh;
      (destruct (decide (p = q)) as [->|Hne]; [try done|left; split; [done|congruence]]).
    right. intros k Hk. cbn in Hk |- *. simplify_eq. unfold mtime in *. cbn. lia.
  - repeat case_match; simplify_eq. by left.
  - repeat case_match; simplify_eq. rewrite pc_of_set_pc in Hh. case_decide; [done|by left].
  - repeat case_match; simplify_eq; rewrite pc_of_set_pc in Hh; case_decide; try done; by left.
  - repeat case_match; simplify_eq. by left.
Qed.

Lemma initial_idle st p : initial st -> pc_of st p = Idle.
Proof. intros [Hi _]. unfold pc_of. rewrite Hi. by rewrite lookup_empty. Qed.

Lemma atomic_invariant st : atomic_execution st ->
  compatible_locks st /\ holders_current st /\ stale_is_stale st /\ fresh st.
Proof.
  induction 1 as [st Hi|st a st' Hex IH Hs Hf Hat].
  { split_and!; intros p; intros; rewrite initial_idle in *; done. }
  destruct IH as (Hc & Hh & Hst & Hfr). split_and!; [by eapply compatible_step| | |done].
  - intros p i Hp. destruct (step_holding a st st' p i Hs Hp) as [Hold|?]; [|done].
    pose proof (Hh p i Hold) as Hpath.
    destruct (step_path a st st' Hs) as [Hsame|[Hnone|(q & -> & Hq & Hrem)]]; [congruence..|].
    exfalso. specialize (Hst q i Hq Hpath). specialize (Hfr p i Hold). lia.
  - intros p i Hp Hpath. destruct (step_stale a st st' p Hs Hp) as [[Hold Hne]|Hnew]; [|by apply Hnew].
    destruct (Hat p Hold) as [fault Ha]. by destruct (Hne fault).
Qed.

(** ** Progress *)

(** The inode a process has open. *)
Definition open_inode (c : pc) : option nat :=
  match c with
  | Opened i _ | Flocked i _ | Truncated i _ | Holding i => Some i
  | _ => None
  end.

(** Inode numbers are allocated in order. *)
Definition allocated (st : lockfs) : Prop :=
  (forall i, lf_path st = Some i -> (i < lf_next st)%nat) /\
  (forall p i, open_inode (pc_of st p) = Some i -> (i < lf_next st)%nat).

Lemma openFile_allocated st i st' : allocated st -> openFile st = (i, st') ->
  allocated st' /\ (i < lf_next st')%nat /\ lf_path st' = Some i /\ (forall p, pc_of st' p = pc_of st p).
Proof.
  intros [Hpath Hpc] Ho. unfold openFile in Ho. destruct (lf_path st) as [j|] eqn:Hj;
    injection Ho as <- <-; cbn.
  - split_and!; [by split; [rewrite Hj|]|auto|done|done].
  - split_and!; [|lia|done|done]. split; [intros i [= <-]; cbn; lia|].
    intros p i Hi. specialize (Hpc p i Hi). cbn. lia.
Qed.

Lemma allocated_set_pc p c st : allocated st ->
  (forall i, open_inode c = Some i -> (i < lf_next st)%nat) -> allocated (set_pc p c st).
Proof.
  intros [Hpath Hpc] Hc. split; [exact Hpath|]. intros q i. rewrite pc_of_set_pc. cbn.
  case_decide; [apply Hc|apply Hpc].
Qed.

Lemma allocated_step a st st' : allocated st -> step a st = Some st' -> allocated st'.
Proof.
  intros Ha Hs. pose proof Ha as [Hpath Hpc]. destruct a as [p fault|p|p|p|d]; cbn [step] in Hs.
  - assert (Hopen : forall i, open_inode (pc_of st p) = Some i -> (i < lf_next st)%nat) by apply Hpc.
    assert (Hfirst : forall first i, open_inode (after_failure first) <> Some i) by by intros [].
    assert (Hmt : forall j, allocated (set_mtime j st)) by done.
    destruct (pc_of st p) as [|i f|i f|i f|i| | | |] eqn:Hp; cbn in Hs; try done;
      [destruct fault; [|destruct (openFile st) as [i st0] eqn:Ho]|destruct (_ && _)|destruct fault
      |destruct (_ && _)|destruct fault; [|destruct (lf_path st); [destruct (_ <? _)%Z|]]
      |destruct fault|destruct fault; [|destruct (openFile st) as [i st0] eqn:Ho]];
      injection Hs as <-; apply allocated_set_pc;
      repeat match goal with
      | Ho : openFile _ = _ |- _ => apply openFile_allocated in Ho as (? & ? & ? & ?); [|done]
      end; try done; try (by intros j [= <-]); try (by intros j Hj; destruct (Hfirst _ _ Hj));
      try (intros j [= <-]; by apply Hopen).
  - destruct (pc_of st p); try done. by injection Hs as <-.
  - destruct (pc_of st p); try done. injection Hs as <-. by apply allocated_set_pc.
  - destruct (pc_of st p); try done; injection Hs as <-; by apply allocated_set_pc.
  - destruct (0 <? d)%Z; [|done]. by injection Hs as <-.
Qed.

Lemma execution_allocated st : execution st -> allocated st.
Proof.
  induction 1 as [st Hi|st a st' Hex IH Hs Hf]; [|by eapply allocated_step].
  split; [apply Hi|]. intros p i. by rewrite initial_idle.
Qed.

(** No other process has a lock on the file at the path that excludes [p]. *)
Definition unblocked (p : nat) (st : lockfs) : Prop :=
  forall i, lf_path st = Some i -> lockFile p i st = true.

(** The calls of [p] before it has the lock, when nobody interferes. *)
Definition rank (p : nat) (st : lockfs) : nat :=
  match pc_of st p with
  | Holding _ => 0
  | Truncated i _ => if isCurrentLockFile i st then 1 else 7
  | Flocked i _ => if isCurrentLockFile i st then 2 else 8
  | Opened i _ => if isCurrentLockFile i st then 3 else 9
  | Idle | Retrying => 4
  | Stale => 5
  | Recovering => 6
  | Failed => 0
  end.

(** The calls of [p] alone, without faults. *)
Fixpoint run_alone (p : nat) (n : nat) (st : lockfs) : option lockfs :=
  match n with
  | O => Some st
  | Datatypes.S n' => st ← step (Run p false) st; run_alone p n' st
  end.

Definition holding (p : nat) (st : lockfs) : Prop := exists i, pc_of st p = Holding i.

Lemma lockFile_others p i st st' : (forall q, q <> p -> pc_of st' q = pc_of st q) ->
  lockFile p i st = true -> lockFile p i st' = true.
Proof.
  intros Hsame. rewrite !lockFile_spec. intros Hl q Hne Hq. apply (Hl q Hne). by rewrite <- Hsame.
Qed.

Lemma lockFile_fresh p i st : allocated st -> (lf_next st <= i)%nat -> lockFile p i st = true.
Proof.
  intros [_ Hpc] Hi. apply lockFile_spec. intros q _ Hq. exfalso.
  assert (Ho : open_inode (pc_of st q) = Some i) by by destruct (pc_of st q).
  apply Hpc in Ho. lia.
Qed.

(** [p] alone makes a step that brings it closer. *)
Lemma unblocked_step p st : allocated st -> unblocked p st ->
  pc_of st p <> Failed -> ~ holding p st ->
  exists st', step (Run p false) st = Some st' /\ unblocked p st' /\ (rank p st' < rank p st)%nat /\
    pc_of st' p <> Failed.
Proof.
  intros Ha Hu Hnf Hnh.
  assert (Hset : forall c st0, lf_path st0 = lf_path st -> (forall q, pc_of st0 q = pc_of st q) ->
    unblocked p (set_pc p c st0)).
  { intros c st0 Hpath Hpc i Hi. cbn in Hi. rewrite Hpath in Hi.
    eapply (lockFile_others _ _ st); [|by apply Hu]. intros q Hq. rewrite pc_of_set_pc.
    by rewrite decide_False. }
  assert (Hopen : forall f, (forall i st0, openFile st = (i, st0) ->
    unblocked p (set_pc p (Opened i f) st0) /\ rank p (set_pc p (Opened i f) st0) = 3%nat)).
  { intros f i st0 Ho. pose proof (openFile_allocated _ _ _ Ha Ho) as (_ & _ & Hp0 & Hpc0). split.
    - intros j Hj. cbn in Hj. rewrite Hp0 in Hj. injection Hj as <-.
      apply (lockFile_others _ _ st); [intros q Hq; by rewrite pc_of_set_pc, decide_False|].
      unfold openFile in Ho. destruct (lf_path st) eqn:Hpath; injection Ho as <- <-; [by apply Hu|].
      by apply lockFile_fresh.
    - unfold rank. rewrite pc_of_set_pc, decide_True by done. unfold isCurrentLockFile. cbn.
      by rewrite Hp0, bool_decide_true. }
  unfold rank at 2. cbn [step].
  destruct (pc_of st p) as [|i f|i f|i f|i| | | |] eqn:Hp; cbn.
  - destruct (openFile st) as [i st0] eqn:Ho. eexists. split; [done|].
    destruct (Hopen true _ _ eq_refl) as [? ->]. rewrite pc_of_set_pc, decide_True by done. split_and!; [done|lia|done].
  - destruct (isCurrentLockFile i st) eqn:Hcur.
    + rewrite Hu by by apply bool_decide_eq_true in Hcur. eexists. split; [done|].
      unfold rank. rewrite pc_of_set_pc, decide_True by done. unfold isCurrentLockFile in *. cbn.
      rewrite Hcur. split_and!; [by apply Hset|lia|done].
    + destruct (lockFile p i st); (eexists; split; [done|]); unfold rank;
        rewrite pc_of_set_pc, decide_True by done; [|destruct f]; unfold isCurrentLockFile in *; cbn;
        rewrite ?Hcur; split_and!; try done; try lia; by apply Hset.
  - eexists. split; [done|]. unfold rank. rewrite pc_of_set_pc, decide_True by done.
    unfold isCurrentLockFile. cbn. split_and!; [by apply Hset| |done].
    destruct (bool_decide _); lia.
  - destruct (isCurrentLockFile i st) eqn:Hcur; (eexists; split; [done|]); unfold rank;
      rewrite pc_of_set_pc, decide_True by done; [|destruct f]; cbn; split_and!; try done; try lia; by apply Hset.
  - destruct Hnh. by exists i.
  - destruct (lf_path st) as [i|] eqn:Hpath; [destruct (_ <? _)%Z|]; (eexists; split; [done|]); unfold rank;
      rewrite pc_of_set_pc, decide_True by done; cbn; split_and!; try done; try lia; by apply Hset; rewrite ?Hpath.
  - eexists. split; [done|]. unfold rank. rewrite pc_of_set_pc, decide_True by done. cbn.
    split_and!; [|lia|done]. intros i Hi. by cbn in Hi.
  - destruct (openFile st) as [i st0] eqn:Ho. eexists. split; [done|].
    destruct (Hopen false _ _ eq_refl) as [? ->]. rewrite pc_of_set_pc, decide_True by done. split_and!; [done|lia|done].
  - done.
Qed.

Lemma alone_gets_lock n p st : (rank p st <= n)%nat -> allocated st -> unblocked p st ->
  pc_of st p <> Failed ->
  exists m st', (m <= n)%nat /\ run_alone p m st = Some st' /\ holding p st'.
Proof.
  revert st. induction n as [|n IH]; intros st Hr Ha Hu Hnf;
    (destruct (pc_of st p) as [| | | |i| | | |] eqn:Hp; try done;
       try (exists 0%nat, st; split_and!; [lia|done|by exists i];fail));
    try (exfalso; unfold rank in Hr; rewrite Hp in Hr; repeat case_match; lia);
    (destruct (unblocked_step p st) as (st1 & Hs & Hu1 & Hr1 & Hf1);
       [done|done|by rewrite Hp|by intros [j Hj]; congruence|];
     destruct (IH st1) as (m & st' & Hm & Hrun & Hh);
       [lia|by eapply allocated_step|done|done|];
     exists (Datatypes.S m), st'; split_and!; [lia| |done]; cbn [run_alone]; rewrite Hs; exact Hrun).
Qed.
End flock.

(** ** Checking executions *)

Definition fresh_check (st : lockfs) : bool :=
  forallb (fun '(_, c) => match c with
                          | Holding i => (lf_now st - mtime st i <? staleThreshold)%Z
                          | _ => true
                          end) (map_to_list (lf_procs st)).

Definition no_stale (st : lockfs) : bool :=
  forallb (fun '(_, c) => match c with Stale => false | _ => true end) (map_to_list (lf_procs st)).

Lemma pc_of_elem st p c : pc_of st p = c -> c <> Idle -> (p, c) ∈ map_to_list (lf_procs st).
Proof.
  unfold pc_of. intros Hp Hc. apply elem_of_map_to_list.
  destruct (lf_procs st !! p); simpl in Hp; congruence.
Qed.

Lemma fresh_check_ok st : fresh_check st = true -> fresh st.
Proof.
  unfold fresh_check. rewrite forallb_elem. intros Hall p i Hp.
  specialize (Hall _ (pc_of_elem st p _ Hp ltac:(done))). cbn in Hall. by apply Z.ltb_lt.
Qed.

Lemma no_stale_ok st : no_stale st = true -> forall p, pc_of st p <> Stale.
Proof.
  unfold no_stale. rewrite forallb_elem. intros Hall p Hp.
  specialize (Hall _ (pc_of_elem st p _ Hp ltac:(done))). done.
Qed.

(** The state after the actions, when the heartbeats were in time throughout
    and, with [atomic], no process was between a check and an unlink. *)
Fixpoint checked_run (exclusive : nat -> bool) (atomic : bool) (actions : list action) (st : lockfs)
  : option lockfs :=
  match actions with
  | [] => Some st
  | a :: actions' =>
      if atomic && negb (no_stale st) then None
      else match step exclusive a st with
           | Some st' => if fresh_check st' then checked_run exclusive atomic actions' st' else None
           | None => None
           end
  end.

Lemma checked_run_execution exclusive actions st st' : execution exclusive st ->
  checked_run exclusive false actions st = Some st' -> execution exclusive st'.
Proof.
  revert st. induction actions as [|a actions IH]; intros st Hst Hr; cbn in Hr; [by simplify_eq|].
  destruct (step exclusive a st) as [st1|] eqn:Hs; [|done].
  destruct (fresh_check st1) eqn:Hf; [|done]. apply (IH st1); [|done].
  eapply exec_step; [exact Hst|exact Hs|by apply fresh_check_ok].
Qed.

Lemma checked_run_atomic exclusive actions st st' : atomic_execution exclusive st ->
  checked_run exclusive true actions st = Some st' -> atomic_execution exclusive st'.
Proof.
  revert st. induction actions as [|a actions IH]; intros st Hst Hr; cbn in Hr; [by simplify_eq|].
  destruct (no_stale st) eqn:Hn; [|done]. cbn in Hr.
  destruct (step exclusive a st) as [st1|] eqn:Hs; [|done].
  destruct (fresh_check st1) eqn:Hf; [|done]. apply (IH st1); [|done].
  eapply atomic_step; [exact Hst|exact Hs|by apply fresh_check_ok|].
  intros p Hp. by destruct (no_stale_ok st Hn p).
Qed.

(** ** Properties of the lock *)

(** C11: the lock excludes: in every execution where the heartbeats of the
    holders are in time and nothing happens between the check and the unlink
    of a stale-lock recovery, two processes hold the lock at once only if both
    asked for it shared. System calls may fail at any point, processes may
    arrive, give up and recover in any order, and a stale file may be left
    from before. *)
Theorem flock_mutual_exclusion exclusive st :
  atomic_execution exclusive st -> mutual_exclusion exclusive st.
Proof.
  intros Hex p q i j Hne Hp Hq. destruct (atomic_invariant exclusive st Hex) as (Hc & Hh & _ & _).
  pose proof (Hh p i Hp) as Hi. rewrite (Hh q j Hq) in Hi. injection Hi as ->.
  apply (Hc p q i Hne); [by rewrite Hp|by rewrite Hq].
Qed.


(** A lock file left over from 100 seconds ago. *)
Definition leftover : lockfs :=
  {| lf_path := Some 0%nat; lf_mtime := {[0%nat := 0%Z]}; lf_next := 1; lf_now := 100; lf_procs := ∅ |}.

(** Every process asks for an exclusive lock. *)
Definition all_exclusive (p : nat) : bool := true.

(** The state after four calls of process 1 on the leftover file. *)
Definition one_holder : lockfs :=
  default leftover (checked_run all_exclusive true (replicate 4 (Run 1 false)) leftover).

Lemma leftover_initial : initial leftover.
Proof. split; [reflexivity|]. intros i [= <-]. cbn. lia. Qed.

Lemma flock_mutual_exclusion_witness :
  pc_of one_holder 1 = Holding 0 /\ mutual_exclusion all_exclusive one_holder.
Proof.
  split; [vm_compute; reflexivity|]. apply flock_mutual_exclusion.
  apply (checked_run_atomic all_exclusive (replicate 4 (Run 1 false)) leftover).
  - by apply atomic_init, leftover_initial.
  - vm_compute. reflexivity.
Defined.


(** Process 2 has locked the leftover file and not yet truncated it when
    process 1, whose attempt failed, finds it stale; process 2 then verifies its
    lock, and process 1 unlinks the file and locks a new one. *)
Definition race : list action :=
  [Run 1 false; Run 2 false; Run 2 false; Run 1 false; Run 1 false; Run 2 false; Run 2 false;
   Run 1 false; Run 1 false; Run 1 false; Run 1 false; Run 1 false].

Definition after_race : lockfs := default leftover (checked_run all_exclusive false race leftover).

(** without that atomicity the lock does not exclude, against the comment on
    [recoverStaleLock] ("a missed recovery cannot let two callers hold the same
    name"): with the heartbeats in time throughout, two processes end up
    holding the exclusive lock. The recoverer checks the age of a file that
    another process has already locked but not yet truncated, and unlinks it
    after that process verified its lock. *)
Theorem flock_recovery_race :
  execution all_exclusive after_race /\
  pc_of after_race 2 = Holding 0 /\ pc_of after_race 1 = Holding 1 /\
  ~ mutual_exclusion all_exclusive after_race.
Proof.
  assert (H2 : pc_of after_race 2 = Holding 0) by (vm_compute; reflexivity).
  assert (H1 : pc_of after_race 1 = Holding 1) by (vm_compute; reflexivity).
  split_and!; [|done|done|].
  - apply (checked_run_execution all_exclusive race leftover); [by apply exec_init, leftover_initial|vm_compute; reflexivity].
  - intros Hm. destruct (Hm 2%nat 1%nat 0%nat 1%nat ltac:(done) H2 H1). done.
Qed.
