(* ===== verification/FlockFile.v ===== *)
(** Package store/posixage/internal/flock, the resources of a lock call
    (flock.go, recover.go, flock_unix.go, flock_windows.go), and the mutex the
    file store takes around it (store/posixage/store.go): which descriptors and
    locks [tryLock] leaves, whatever its calls answer. Flock.v has the
    interleavings of several processes. *)

From S2P Require Import Prelude GoErrors Flock.

(** ** The process *)

(** What a system call answers. [Differs] is a [Stat] that finds another file
    than the one at hand. *)
Inductive answer : Type :=
| Done
| Fault (err : goerror)
| Differs.

(** The open descriptors, the advisory lock each holds ([true] is exclusive),
    the [sync.RWMutex] of the store as its count of readers or -1 for a writer,
    and the answers of the calls to come; without an entry a call succeeds. *)
Record process : Type := {
  pr_open : gset Z;
  pr_locks : gmap Z bool;
  pr_next : Z;
  pr_mutex : Z;
  pr_calls : list answer
}.

Definition set_files (o : gset Z) (l : gmap Z bool) (w : process) : process :=
  {| pr_open := o; pr_locks := l; pr_next := pr_next w; pr_mutex := pr_mutex w; pr_calls := pr_calls w |}.
Definition set_mutex (m : Z) (w : process) : process :=
  {| pr_open := pr_open w; pr_locks := pr_locks w; pr_next := pr_next w; pr_mutex := m;
     pr_calls := pr_calls w |}.
Definition set_calls (c : list answer) (w : process) : process :=
  {| pr_open := pr_open w; pr_locks := pr_locks w; pr_next := pr_next w; pr_mutex := pr_mutex w;
     pr_calls := c |}.

(** The next answer; [f] is what a call that does not fail does. *)
Definition os_call {A} (f : answer -> process -> A * process) : comp process goerror A := fun w =>
  let w' := set_calls (tl (pr_calls w)) w in
  match pr_calls w with
  | Fault err :: _ => (Err err, w')
  | a :: _ => let '(v, w'') := f a w' in (Ok v, w'')
  | [] => let '(v, w'') := f Done w' in (Ok v, w'')
  end.

Definition root_OpenFile : comp process goerror Z :=
  os_call (fun _ w =>
    (pr_next w, {| pr_open := {[pr_next w]} ∪ pr_open w; pr_locks := pr_locks w;
                   pr_next := (pr_next w + 1)%Z; pr_mutex := pr_mutex w; pr_calls := pr_calls w |})).

(** [File.Close]: the descriptor and its lock are gone even when it reports an
    error. *)
Definition File_Close (fd : Z) : comp process goerror unit := fun w =>
  os_call (fun _ w => (tt, w)) (set_files (pr_open w ∖ {[fd]}) (delete fd (pr_locks w)) w).

Definition File_Truncate (fd : Z) : comp process goerror unit := os_call (fun _ w => (tt, w)).
Definition File_Stat (fd : Z) : comp process goerror unit := os_call (fun _ w => (tt, w)).
(** Whether the file at the path is the one of the descriptor. *)
Definition root_Stat : comp process goerror bool :=
  os_call (fun a w => (match a with Differs => false | _ => true end, w)).
Definition root_Remove : comp process goerror unit := os_call (fun _ w => (tt, w)).

Definition ErrNotExist : goerror := Sentinel "file does not exist".

(** A call whose error is dropped. *)
Definition dropped {A} (m : comp process goerror A) : comp process goerror unit := try m (fun _ => ret tt).

(** ** flock_unix.go, flock_windows.go *)

Inductive platform : Type := Unix | Windows.

Definition ErrLockUnsuccessful : goerror := Sentinel "store is locked".
Definition ErrUnlockUnsuccessful : goerror := Sentinel "could not unlock store".
Definition errStaleInode : goerror := Sentinel "lock file inode changed under us".
Definition errRecoverLock : goerror :=
  Sentinel "recovery failed. lock file is not older than 30 seconds".

Definition LOCK_SH : Z := 1.
Definition LOCK_EX : Z := 2.
Definition LOCK_NB : Z := 4.
Definition LOCKFILE_FAIL_IMMEDIATELY : Z := 1.
Definition LOCKFILE_EXCLUSIVE_LOCK : Z := 2.

(** [unix.Flock] and [windows.LockFileEx] that do not wait: a failure is an
    answer. In both the second bit of the flags asks for an exclusive lock. *)
Definition lock_call (fd flag : Z) : comp process goerror unit :=
  os_call (fun _ w => (tt, set_files (pr_open w) (<[fd := Z.testbit flag 1]> (pr_locks w)) w)).
Definition unlock_call (fd : Z) : comp process goerror unit :=
  os_call (fun _ w => (tt, set_files (pr_open w) (delete fd (pr_locks w)) w)).

Definition lockFile_unix (fd : Z) (exclusive : bool) : comp process goerror unit :=
  lock_call fd (if exclusive then Z.lor LOCK_NB LOCK_EX else Z.lor LOCK_NB LOCK_SH).

Definition lockFile_windows (fd : Z) (exclusive : bool) : comp process goerror unit :=
  lock_call fd (if exclusive then Z.lor LOCKFILE_FAIL_IMMEDIATELY LOCKFILE_EXCLUSIVE_LOCK
                else LOCKFILE_FAIL_IMMEDIATELY).

Definition lockFile (p : platform) : Z -> bool -> comp process goerror unit :=
  match p with Unix => lockFile_unix | Windows => lockFile_windows end.

Definition releaseLock (fd : Z) : comp process goerror unit :=
  try (unlock_call fd) (fun r =>
    match r with
    | Ok _ => ret tt
    | Err err => throw (Join [ErrUnlockUnsuccessful; err])
    end).

Definition unlockFile (fd : Z) : comp process goerror unit :=
  deferring (releaseLock fd) (fun _ => File_Close fd).

(** ** flock.go, recover.go *)

Section lock.
Context (p : platform) (exclusive : bool).

Definition openFile : comp process goerror Z := root_OpenFile.

Definition isCurrentLockFile (fl : Z) : comp process goerror bool :=
  _ <-! File_Stat fl ;;
  try root_Stat (fun r =>
    match r with
    | Ok same => ret same
    | Err err => if errors_Is err ErrNotExist then ret false else throw err
    end).

Definition acquireOnce : comp process goerror Z :=
  fl <-! openFile ;;
  try (lockFile p fl exclusive) (fun r =>
    match r with
    | Err err => _ <-! dropped (File_Close fl) ;; throw err
    | Ok _ =>
        _ <-! dropped (File_Truncate fl) ;;
        try (isCurrentLockFile fl) (fun r =>
          match r with
          | Err err =>
              _ <-! dropped (releaseLock fl) ;; _ <-! dropped (File_Close fl) ;; throw err
          | Ok same =>
              if negb same then
                _ <-! dropped (releaseLock fl) ;; _ <-! dropped (File_Close fl) ;;
                throw errStaleInode
              else ret fl
          end)
    end).

(** [age] is how long ago the lock file was modified, in seconds. *)
Definition recoverStaleLock (age : Z) : comp process goerror unit :=
  try root_Stat (fun r =>
    match r with
    | Err err => if errors_Is err ErrNotExist then ret tt else throw err
    | Ok _ =>
        if (age <? staleThreshold)%Z then throw errRecoverLock
        else try root_Remove (fun r =>
          match r with
          | Err err => if errors_Is err ErrNotExist then ret tt else throw err
          | Ok _ => ret tt
          end)
    end).

(** [attempts] further tries are left before the context ends. *)
Fixpoint retryLock (attempts : nat) : comp process goerror Z :=
  try acquireOnce (fun r =>
    match r with
    | Ok fl => ret fl
    | Err err =>
        match attempts with
        | O => throw (Join [ErrLockUnsuccessful; err])
        | Datatypes.S attempts' => retryLock attempts'
        end
    end).

(** What [startHeartbeat] returns: the descriptor, and the value [sync.OnceValue]
    keeps of the first call. *)
Record UnlockFunc : Type := {
  un_fd : Z;
  un_result : option (option goerror)
}.

Definition startHeartbeat (fl : Z) : UnlockFunc := {| un_fd := fl; un_result := None |}.

(** One tick of [heartbeat]; its failures are only logged. *)
Definition heartbeat_tick (fl : Z) : comp process goerror unit :=
  try (File_Truncate fl) (fun r =>
    match r with
    | Err _ => ret tt
    | Ok _ => dropped (isCurrentLockFile fl)
    end).

Definition unlock (u : UnlockFunc) : comp process goerror (UnlockFunc * option goerror) :=
  match un_result u with
  | Some r => ret (u, r)
  | None =>
      try (unlockFile (un_fd u)) (fun r =>
        let e := match r with Ok _ => None | Err err => Some err end in
        ret ({| un_fd := un_fd u; un_result := Some e |}, e))
  end.

(** [ctx_err] is the error of the context after the first attempt. *)
Definition tryLock (age : Z) (ctx_err : option goerror) (attempts : nat)
  : comp process goerror UnlockFunc :=
  try acquireOnce (fun r =>
    match r with
    | Ok fl => ret (startHeartbeat fl)
    | Err err =>
        let firstErr := Join [ErrLockUnsuccessful; err] in
        match ctx_err with
        | Some c => throw (Join [firstErr; c])
        | None =>
            try (recoverStaleLock age) (fun r =>
              let retry := fl <-! retryLock attempts ;; ret (startHeartbeat fl) in
              match r with
              | Err recoverErr =>
                  if errors_Is recoverErr errRecoverLock then retry
                  else throw (Join [firstErr; recoverErr])
              | Ok _ => retry
              end)
        end
    end).
End lock.

(** ** store.go *)

(** The state in which the mutex is granted; [mutex_free] is what [Lock] and
    [RLock] wait for. *)
Definition mutex_free (exclusive : bool) (w : process) : Prop :=
  if exclusive then pr_mutex w = 0%Z else (0 <= pr_mutex w)%Z.
Definition mutex_Lock (exclusive : bool) : comp process goerror unit := fun w =>
  (Ok tt, set_mutex (if exclusive then -1 else pr_mutex w + 1)%Z w).
Definition mutex_Unlock (exclusive : bool) : comp process goerror unit := fun w =>
  (Ok tt, set_mutex (if exclusive then 0 else pr_mutex w - 1)%Z w).

(** [fileStore.tryLock] and [fileStore.tryRLock]. *)
Definition store_tryLock (p : platform) (exclusive : bool) (age : Z) (ctx_err : option goerror)
    (attempts : nat) : comp process goerror UnlockFunc :=
  _ <-! mutex_Lock exclusive ;;
  try (tryLock p exclusive age ctx_err attempts) (fun r =>
    match r with
    | Err err => _ <-! mutex_Unlock exclusive ;; throw err
    | Ok u => ret u
    end).

(** The function they return, once; an error of the unlock is only logged. *)
Definition store_unlock (exclusive : bool) (u : UnlockFunc) : comp process goerror UnlockFunc :=
  match un_result u with
  | Some _ => ret u
  | None => '(u', _) <-! unlock u ;; _ <-! mutex_Unlock exclusive ;; ret u'
  end.

(** ** Lemmas: what the calls change *)

(** [w'] differs from [w] in the descriptors and locks it names, and in the
    answers to come. *)
Definition becomes (o : gset Z) (l : gmap Z bool) (w w' : process) : Prop :=
  pr_open w' = o /\ pr_locks w' = l /\ pr_next w' = pr_next w /\ pr_mutex w' = pr_mutex w.

Abbreviation unchanged w w' := (becomes (pr_open w) (pr_locks w) w w') (only parsing).

Lemma becomes_refl w : unchanged w w.
Proof. done. Qed.

Lemma becomes_trans o l o' l' w1 w2 w3 : becomes o l w1 w2 -> becomes o' l' w2 w3 -> becomes o' l' w1 w3.
Proof. intros (_ & _ & Hn & Hm) (Ho & Hl & Hn' & Hm'). split_and!; congruence. Qed.

(** A call without an effect on the files, and what is called next. *)
Definition idle {A} (m : comp process goerror A) : Prop := forall w, unchanged w (m w).2.

Lemma idle_ret {A} (a : A) : idle (ret a).
Proof. done. Qed.

Lemma idle_throw {A} e : idle (throw (A := A) e).
Proof. done. Qed.

Lemma idle_call {A} (g : answer -> A) : idle (os_call (fun a w => (g a, w))).
Proof. intros w. unfold os_call. by destruct (pr_calls w) as [|[] ?]. Qed.

Lemma idle_bind {A B} (m : comp process goerror A) (f : A -> comp process goerror B) :
  idle m -> (forall a, idle (f a)) -> idle (bind m f).
Proof.
  intros Hm Hf w. specialize (Hm w). unfold bind. destruct (m w) as [[a|e] w1]; [|done]. cbn [snd] in *.
  pose proof Hm as (Ho & Hl & _). specialize (Hf a w1). rewrite Ho, Hl in Hf.
  by eapply becomes_trans.
Qed.

Lemma idle_try {A B} (m : comp process goerror A) (f : result goerror A -> comp process goerror B) :
  idle m -> (forall r, idle (f r)) -> idle (try m f).
Proof.
  intros Hm Hf w. specialize (Hm w). unfold try. destruct (m w) as [r w1]. cbn [snd] in *.
  pose proof Hm as (Ho & Hl & _). specialize (Hf r w1). rewrite Ho, Hl in Hf.
  by eapply becomes_trans.
Qed.

Create HintDb idle discriminated.
#[export] Hint Resolve idle_ret idle_throw idle_bind idle_try : idle.
#[export] Hint Extern 1 (idle (File_Truncate _)) => apply (idle_call (fun _ => tt)) : idle.
#[export] Hint Extern 1 (idle (File_Stat _)) => apply (idle_call (fun _ => tt)) : idle.
#[export] Hint Extern 1 (idle root_Stat) => apply idle_call : idle.
#[export] Hint Extern 1 (idle root_Remove) => apply (idle_call (fun _ => tt)) : idle.
#[export] Hint Extern 5 (idle (match ?r with _ => _ end)) => destruct r : idle.

Lemma isCurrentLockFile_idle fl : idle (isCurrentLockFile fl).
Proof. unfold isCurrentLockFile. auto 10 with idle. Qed.

Lemma recoverStaleLock_idle age : idle (recoverStaleLock age).
Proof. unfold recoverStaleLock. auto 10 with idle. Qed.

Lemma dropped_idle {A} (m : comp process goerror A) : idle m -> idle (dropped m).
Proof. unfold dropped. auto with idle. Qed.
#[export] Hint Resolve isCurrentLockFile_idle recoverStaleLock_idle dropped_idle : idle.

(** The heartbeat changes nothing but the modification time. *)
Lemma heartbeat_tick_idle fl : idle (heartbeat_tick fl).
Proof. unfold heartbeat_tick. auto 10 with idle. Qed.

Lemma File_Close_spec fd w :
  becomes (pr_open w ∖ {[fd]}) (delete fd (pr_locks w)) w (File_Close fd w).2.
Proof. unfold File_Close. apply (idle_call (fun _ => tt) (set_files _ _ w)). Qed.

Lemma lock_call_spec fd flag w : let '(r, w') := lock_call fd flag w in
  becomes (pr_open w) (if is_ok r then <[fd := Z.testbit flag 1]> (pr_locks w) else pr_locks w) w w'.
Proof. unfold lock_call, os_call. by destruct (pr_calls w) as [|[] ?]. Qed.

Lemma lockFile_result p fd exclusive w : let '(r, w') := lockFile p fd exclusive w in
  becomes (pr_open w) (if is_ok r then <[fd := exclusive]> (pr_locks w) else pr_locks w) w w'.
Proof. by destruct p, exclusive; apply lock_call_spec. Qed.

Lemma dropped_result {A} (m : comp process goerror A) w : dropped m w = (Ok tt, (m w).2).
Proof. unfold dropped, try. by destruct (m w). Qed.

(** Releasing the lock, or failing to, and closing the descriptor. *)
Lemma release_close {A} fd (k : comp process goerror A) w (e : goerror) :
  (forall w', k w' = (Err e, w')) ->
  let '(r, w') := (_ <-! dropped (releaseLock fd) ;; _ <-! dropped (File_Close fd) ;; k) w in
  r = Err e /\ becomes (pr_open w ∖ {[fd]}) (delete fd (pr_locks w)) w w'.
Proof.
  intros Hk.
  assert (Hr : exists w1, dropped (releaseLock fd) w = (Ok tt, w1) /\ pr_open w1 = pr_open w /\
    delete fd (pr_locks w1) = delete fd (pr_locks w) /\ pr_next w1 = pr_next w /\ pr_mutex w1 = pr_mutex w).
  { unfold dropped, releaseLock, unlock_call, try, os_call.
    destruct (pr_calls w) as [|[] ?]; eexists; (split; [reflexivity|]); cbn;
      split_and!; try done; apply delete_delete_eq. }
  destruct Hr as (w1 & Hw1 & Ho & Hl & Hn & Hm). rewrite (bind_Ok _ _ _ _ _ Hw1).
  rewrite (bind_Ok _ _ _ _ _ (dropped_result (File_Close fd) w1)), Hk. split; [done|].
  destruct (File_Close_spec fd w1) as (Ho' & Hl' & Hn' & Hm'). split_and!; congruence.
Qed.

(** ** Lemmas: a lock call *)

(** New descriptors are new, and only open ones hold locks. *)
Definition well_formed (w : process) : Prop :=
  (forall fd, fd ∈ pr_open w -> (fd < pr_next w)%Z) /\ dom (pr_locks w) ⊆ pr_open w.

(** Nothing is left of what was opened on the way. *)
Definition released (w w' : process) : Prop :=
  pr_open w' = pr_open w /\ pr_locks w' = pr_locks w /\ pr_mutex w' = pr_mutex w /\
  (pr_next w <= pr_next w')%Z.

(** One new descriptor, and its lock. *)
Definition acquired (exclusive : bool) (fd : Z) (w w' : process) : Prop :=
  fd ∉ pr_open w /\ pr_open w' = {[fd]} ∪ pr_open w /\ pr_locks w' = <[fd := exclusive]> (pr_locks w) /\
  pr_mutex w' = pr_mutex w.

Lemma released_trans w1 w2 w3 : released w1 w2 -> released w2 w3 -> released w1 w3.
Proof. intros (?&?&?&?) (?&?&?&?). split_and!; try congruence. lia. Qed.

Lemma released_wf w w' : released w w' -> well_formed w -> well_formed w'.
Proof.
  intros (Ho & Hl & _ & Hn) [Hf Hd]. split; [|by rewrite Ho, Hl].
  intros fd. rewrite Ho. intros Hin. specialize (Hf fd Hin). lia.
Qed.

Lemma unchanged_released w w' : unchanged w w' -> released w w'.
Proof. intros (?&?&?&?). split_and!; try done. lia. Qed.

Lemma released_acquired exclusive fd w1 w2 w3 :
  released w1 w2 -> acquired exclusive fd w2 w3 -> acquired exclusive fd w1 w3.
Proof. intros (Ho & Hl & Hm & _) (?&?&?&?). rewrite Ho, Hl in *. split_and!; congruence. Qed.

(** Closing the one descriptor that was opened. *)
Lemma closed_released fd (b : bool) w w' : well_formed w -> fd = pr_next w ->
  pr_open w' = ({[fd]} ∪ pr_open w) ∖ {[fd]} ->
  (pr_locks w' = delete fd (pr_locks w) \/ pr_locks w' = delete fd (<[fd := b]> (pr_locks w))) ->
  pr_mutex w' = pr_mutex w -> (pr_next w <= pr_next w')%Z -> released w w'.
Proof.
  intros [Hf Hd] -> Ho Hl Hm Hn.
  assert (Hfresh : pr_next w ∉ pr_open w) by (intros Hin; apply Hf in Hin; lia).
  assert (Hnone : pr_locks w !! pr_next w = None).
  { apply not_elem_of_dom. intros Hin. by apply Hfresh, Hd. }
  split_and!; [set_solver| |done|done].
  destruct Hl as [->| ->]; [|rewrite delete_insert_eq]; by apply delete_id.
Qed.

Section acquire.
Context (p : platform) (exclusive : bool).

Lemma acquireOnce_spec w : well_formed w ->
  let '(r, w') := acquireOnce p exclusive w in
  match r with
  | Ok fd => acquired exclusive fd w w'
  | Err _ => released w w'
  end.
Proof.
  intros Hwf. unfold acquireOnce, openFile, root_OpenFile. unfold bind at 1, os_call at 1.
  set (w0 := set_calls (tl (pr_calls w)) w). set (fd := pr_next w).
  set (w1 := {| pr_open := {[pr_next w0]} ∪ pr_open w0; pr_locks := pr_locks w0;
                pr_next := (pr_next w0 + 1)%Z; pr_mutex := pr_mutex w0; pr_calls := pr_calls w0 |}).
  assert (Hbody : let '(r, w') := try (lockFile p fd exclusive) (fun r =>
      match r with
      | Err err => _ <-! dropped (File_Close fd) ;; throw err
      | Ok _ =>
          _ <-! dropped (File_Truncate fd) ;;
          try (isCurrentLockFile fd) (fun r =>
            match r with
            | Err err =>
                _ <-! dropped (releaseLock fd) ;; _ <-! dropped (File_Close fd) ;; throw err
            | Ok same =>
                if negb same then
                  _ <-! dropped (releaseLock fd) ;; _ <-! dropped (File_Close fd) ;;
                  throw errStaleInode
                else ret fd
            end)
      end) w1 in
    match r with Ok fd' => acquired exclusive fd' w w' | Err _ => released w w' end).
  2: { destruct (pr_calls w) as [|[] ?]; [exact Hbody|exact Hbody| |exact Hbody].
       by apply unchanged_released. }
  unfold try at 1. pose proof (lockFile_result p fd exclusive w1) as Hlock.
  destruct (lockFile p fd exclusive w1) as [[[]|e] w2].
  - destruct Hlock as (Ho2 & Hl2 & Hn2 & Hm2). cbn [is_ok] in Hl2.
    rewrite (bind_Ok _ _ _ _ _ (dropped_result _ w2)).
    destruct (idle_call (fun _ => tt) w2) as (Ho3 & Hl3 & Hn3 & Hm3).
    fold (File_Truncate fd) in Ho3, Hl3, Hn3, Hm3.
    set (w3 := (File_Truncate fd w2).2) in *. unfold try at 1.
    destruct (isCurrentLockFile_idle fd w3) as (Ho4 & Hl4 & Hn4 & Hm4).
    destruct (isCurrentLockFile fd w3) as [r w4]. cbn [snd] in *.
    assert (Hrel : forall e : goerror, let '(r, w') :=
      (_ <-! dropped (releaseLock fd) ;; _ <-! dropped (File_Close fd) ;; throw (A := Z) e) w4 in
      match r with Ok fd' => acquired exclusive fd' w w' | Err _ => released w w' end).
    { intros e. pose proof (release_close fd (throw (A := Z) e) w4 e (fun _ => eq_refl)) as Hr.
      destruct (bind _ _ w4) as [r' w5]. destruct Hr as (-> & Ho5 & Hl5 & Hn5 & Hm5).
      apply (closed_released fd exclusive); [done|done| | | |].
      - rewrite Ho5, Ho4, Ho3, Ho2. done.
      - right. rewrite Hl5, Hl4, Hl3, Hl2. done.
      - rewrite Hm5, Hm4, Hm3, Hm2. done.
      - rewrite Hn5, Hn4, Hn3, Hn2. subst w1 w0. cbn. lia. }
    destruct r as [[]|e]; cbn [negb]; [|apply Hrel..].
    split_and!; [destruct Hwf as [Hf _]; intros Hin; apply Hf in Hin; lia| | |].
    + rewrite Ho4, Ho3, Ho2. done.
    + rewrite Hl4, Hl3, Hl2. done.
    + rewrite Hm4, Hm3, Hm2. done.
  - destruct Hlock as (Ho2 & Hl2 & Hn2 & Hm2). cbn [is_ok] in Hl2.
    rewrite (bind_Ok _ _ _ _ _ (dropped_result _ w2)).
    destruct (File_Close_spec fd w2) as (Ho3 & Hl3 & Hn3 & Hm3).
    apply (closed_released fd exclusive); [done|done| | | |]; cbn [throw].
    + rewrite Ho3, Ho2. done.
    + left. rewrite Hl3, Hl2. done.
    + rewrite Hm3, Hm2. done.
    + rewrite Hn3, Hn2. subst w1 w0. cbn. lia.
Qed.

(** What a lock call leaves, and how it fails. *)
Definition lock_result {A} (fd_of : A -> Z) (fresh : A -> Prop) (w : process)
    (out : result goerror A * process) : Prop :=
  match out.1 with
  | Ok u => acquired exclusive (fd_of u) w out.2 /\ fresh u
  | Err e => released w out.2 /\ errors_Is e ErrLockUnsuccessful = true
  end.

Lemma lock_result_after {A} (fd_of : A -> Z) fresh w1 w2 out :
  released w1 w2 -> lock_result fd_of fresh w2 out -> lock_result fd_of fresh w1 out.
Proof.
  intros Hr. destruct out as [[u|e] w3]; unfold lock_result; cbn [fst snd]; intros [Hr2 He]; split; try done.
  - by eapply released_acquired.
  - by eapply released_trans.
Qed.

Lemma retryLock_spec attempts w : well_formed w ->
  lock_result id (fun _ => True) w (retryLock p exclusive attempts w).
Proof.
  revert w. induction attempts as [|n IH]; intros w Hwf; simpl; unfold try at 1;
    pose proof (acquireOnce_spec w Hwf) as Ha; destruct (acquireOnce p exclusive w) as [[fd|e] w1];
    try by split.
  eapply lock_result_after; [exact Ha|]. apply IH. by eapply released_wf.
Qed.

(** A lock that has not been given back yet. *)
Definition held (u : UnlockFunc) : Prop := un_result u = None.

Lemma retry_spec attempts w : well_formed w ->
  lock_result un_fd held w ((fl <-! retryLock p exclusive attempts ;; ret (startHeartbeat fl)) w).
Proof.
  intros Hwf. pose proof (retryLock_spec attempts w Hwf) as Hl. unfold bind.
  destruct (retryLock p exclusive attempts w) as [[fd|e'] w3]; [|exact Hl].
  destruct Hl as [Hl _]. by split.
Qed.

Lemma tryLock_spec age ctx_err attempts w : well_formed w ->
  lock_result un_fd held w (tryLock p exclusive age ctx_err attempts w).
Proof.
  intros Hwf. unfold tryLock. unfold try at 1. pose proof (acquireOnce_spec w Hwf) as Ha.
  destruct (acquireOnce p exclusive w) as [[fd|e] w1]; [by split|].
  destruct ctx_err as [c|]; [by split|].
  unfold try at 1. pose proof (unchanged_released _ _ (recoverStaleLock_idle age w1)) as Hr.
  destruct (recoverStaleLock age w1) as [r w2]. cbn [snd] in Hr.
  assert (Hr2 : released w w2) by by eapply released_trans.
  pose proof (retry_spec attempts w2 (released_wf _ _ Hr2 Hwf)) as Hretry.
  eapply lock_result_after; [exact Hr2|]. destruct r as [[]|re]; [exact Hretry|].
  destruct (errors_Is re errRecoverLock); [exact Hretry|]. split; [|done].
  by apply unchanged_released, becomes_refl.
Qed.
End acquire.

(** The function [tryLock] returned gives everything back, whatever its calls
    answer. *)
Lemma unlock_spec u w : held u ->
  exists u' e w', unlock u w = (Ok (u', e), w') /\ un_result u' = Some e /\ un_fd u' = un_fd u /\
    becomes (pr_open w ∖ {[un_fd u]}) (delete (un_fd u) (pr_locks w)) w w'.
Proof.
  intros Hu. unfold unlock. rewrite (Hu : un_result u = None). unfold try, unlockFile, deferring.
  assert (Hr : exists r w1, releaseLock (un_fd u) w = (r, w1) /\ pr_open w1 = pr_open w /\
    delete (un_fd u) (pr_locks w1) = delete (un_fd u) (pr_locks w) /\
    pr_next w1 = pr_next w /\ pr_mutex w1 = pr_mutex w).
  { unfold releaseLock, unlock_call, try, os_call.
    destruct (pr_calls w) as [|[] ?]; eexists _, _; (split; [reflexivity|]); cbn;
      split_and!; try done; apply delete_delete_eq. }
  destruct Hr as (r & w1 & -> & Ho & Hl & Hn & Hm).
  destruct (File_Close_spec (un_fd u) w1) as (Ho' & Hl' & Hn' & Hm').
  eexists _, _, _. split; [reflexivity|]. split; [done|]. split; [done|].
  split_and!; cbn [snd]; congruence.
Qed.

(** C21: The file store gives back what a lock call took. On Unix and on Windows,
    for a shared or an exclusive lock, whatever the calls on the lock file
    answer, however often the acquisition is retried and whenever the context
    ends: a failure to lock leaves the descriptors, the advisory locks and the
    mutex of the store as they were and says [ErrLockUnsuccessful]; a success
    adds one descriptor with a lock of the mode that was asked for, and holds
    the mutex; the function it returns restores all three even when the unlock
    or the close fail, and does nothing when it is called again. *)
Theorem lock_resources p exclusive age ctx_err attempts w :
  well_formed w -> mutex_free exclusive w ->
  let '(r, w1) := store_tryLock p exclusive age ctx_err attempts w in
  match r with
  | Err e =>
      pr_open w1 = pr_open w /\ pr_locks w1 = pr_locks w /\ pr_mutex w1 = pr_mutex w /\
      errors_Is e ErrLockUnsuccessful = true
  | Ok u =>
      un_fd u ∉ pr_open w /\ pr_open w1 = {[un_fd u]} ∪ pr_open w /\
      pr_locks w1 = <[un_fd u := exclusive]> (pr_locks w) /\
      ~ mutex_free true w1 /\
      forall answers, exists u' w2, store_unlock exclusive u (set_calls answers w1) = (Ok u', w2) /\
        pr_open w2 = pr_open w /\ pr_locks w2 = pr_locks w /\ pr_mutex w2 = pr_mutex w /\
        forall w3, store_unlock exclusive u' w3 = (Ok u', w3)
  end.
Proof.
  intros Hwf Hfree. unfold store_tryLock. unfold bind at 1, mutex_Lock at 1.
  set (w0 := set_mutex _ w).
  assert (Hwf0 : well_formed w0) by exact Hwf.
  pose proof (tryLock_spec p exclusive age ctx_err attempts w0 Hwf0) as Hl.
  unfold try. destruct (tryLock p exclusive age ctx_err attempts w0) as [[u|e] w1];
    unfold lock_result in Hl; cbn [fst snd] in *.
  - destruct Hl as ((Hfd & Ho & Hk & Hm) & Hnew). split_and!; [done..| |].
    { intros Hf. unfold mutex_free in *. rewrite Hm in Hf. subst w0. cbn in Hf. destruct exclusive; lia. }
    intros answers. unfold store_unlock. rewrite (Hnew : un_result u = None).
    destruct (unlock_spec u (set_calls answers w1) Hnew) as (u' & e & w2 & Hw2 & Hr & _ & Ho2 & Hl2 & _ & Hm2).
    exists u', (mutex_Unlock exclusive w2).2. rewrite (bind_Ok _ _ _ _ _ Hw2). split; [done|].
    cbn in Ho2, Hl2, Hm2 |- *. rewrite Ho2, Hl2, Hm2, Ho, Hk, Hm.
    assert (Hnone : pr_locks w !! un_fd u = None).
    { apply not_elem_of_dom. intros Hin. by apply Hfd, (proj2 Hwf). }
    split_and!; [subst w0; cbn; clear -Hfd; set_solver| | |].
    + subst w0. cbn. rewrite delete_insert_eq. by apply delete_id.
    + subst w0. unfold mutex_free in Hfree. cbn. destruct exclusive; lia.
    + intros w3. by rewrite Hr.
  - destruct Hl as [(Ho & Hk & Hm & _) He]. unfold bind. cbn. rewrite Ho, Hk, Hm.
    split_and!; [done..| |done]. subst w0. unfold mutex_free in Hfree. cbn. destruct exclusive; lia.
Qed.

(** A first attempt that locks a file which is then replaced, a recovery that
    finds the file recent, and a second attempt that succeeds. *)
Definition busy_process : process :=
  {| pr_open := {[3]}%Z; pr_locks := ∅; pr_next := 4; pr_mutex := 0;
     pr_calls := [Done; Done; Done; Done; Differs; Fault (ErrorNew "unlock"); Done; Done] |}.

Lemma lock_resources_witness :
  let '(r, w1) := store_tryLock Unix true 5 None 1 busy_process in
  r = Ok {| un_fd := 5; un_result := None |} /\ pr_open w1 = {[3; 5]}%Z /\ pr_mutex w1 = (-1)%Z /\
  forall answers, exists u' w2,
    store_unlock true {| un_fd := 5; un_result := None |} (set_calls answers w1) = (Ok u', w2) /\
    pr_open w2 = {[3]}%Z /\ pr_locks w2 = ∅ /\ pr_mutex w2 = 0%Z.
Proof.
  assert (Hwf : well_formed busy_process).
  { split; [|set_solver]. intros fd Hfd. cbn in Hfd. apply elem_of_singleton in Hfd as ->. cbn. lia. }
  pose proof (lock_resources Unix true 5 None 1 busy_process Hwf eq_refl) as H.
  destruct (store_tryLock Unix true 5 None 1 busy_process) as [r w1] eqn:Hr.
  vm_compute in Hr. injection Hr as <- <-. cbv iota in H. destruct H as (_ & _ & _ & _ & H).
  split_and!; [done|by vm_compute|done|].
  intros answers. destruct (H answers) as (u' & w2 & Hu & Ho & Hl & Hm & _). by exists u', w2.
Defined.
