(* ===== verification/SharedStore.v ===== *)
(** The file store used by several processes at a time: the lock of
    internal/flock and the system calls of the operations of
    store/posixage/store.go, interleaved. Each operation runs between
    [tryLock] or [tryRLock] and the unlock it defers; the answers are those of a
    map to which the calls are made one after the other. *)

From S2P Require Import Prelude GoErrors Secrets Store StoreSpec SecretFile Posixage PosixStore Flock Syscalls.

(** ** The calls of a store under a lock *)

(** Which lock an operation takes: [tryLock] or [tryRLock]. *)
Definition call_exclusive {T} (c : store_call T) : bool :=
  match c with
  | CallDelete _ | CallSave _ _ | CallUpsert _ _ => true
  | CallGet _ | CallGetAllMetadata | CallFilter _ => false
  end.

(** A store whose operations are sequences of calls on the state, those under
    the shared lock without effect. *)
Class StoreCalls (S T : Type) `{Store S T} (wf : S -> Prop) : Type := {
  call_prog : store_call T -> prog S (store_reply T);
  call_run c s : run (call_prog c) s = perform c s;
  call_reads c : call_exclusive c = false -> within (fun s s' => wf s -> s' = s) (call_prog c)
}.

Lemma spec_reads {T} cv (c : store_call T) m : call_exclusive c = false -> (spec_perform cv c m).2 = m.
Proof. by destruct c. Qed.

Lemma spec_all_snoc {T} cv cs (c : store_call T) m rs m1 : spec_all cv cs m = (rs, m1) ->
  spec_all cv (cs ++ [c]) m = (rs ++ [(spec_perform cv c m1).1], (spec_perform cv c m1).2).
Proof.
  revert m rs. induction cs as [|c' cs IH]; intros m rs Hs; cbn [spec_all app] in *.
  - injection Hs as <- <-. by destruct (spec_perform cv c m).
  - destruct (spec_perform cv c' m) as [r m2]. destruct (spec_all cv cs m2) as [rs2 m3] eqn:H2.
    injection Hs as <- ->. by rewrite (IH _ _ H2).
Qed.

(** The callers, numbered: a goroutine or a process that makes one call, again
    and again if it likes. *)
Record shared (S T : Type) : Type := {
  sh_lock : lockfs;                                (** the lock and who waits for it *)
  sh_disk : S;                                     (** what the lock protects *)
  sh_work : gmap nat (prog S (store_reply T));     (** what the holders have left to do *)
  sh_log : list (nat * store_reply T)              (** the replies, in the order of the unlocks *)
}.
Arguments sh_lock {S T} s.
Arguments sh_disk {S T} s.
Arguments sh_work {S T} s.
Arguments sh_log {S T} s.

(** A step of the lock; the start of the work of a caller that was given the
    lock, one call of it, and the deferred unlock. *)
Inductive shared_action : Type :=
| Locking (a : action)
| Begin (p : nat)
| Work (p : nat)
| Finish (p : nat).

Definition is_unlock (a : action) : bool := match a with Unlock _ => true | _ => false end.

Section shared.
Context {S T : Type} `{Store S T} {wf : S -> Prop} `{!StoreCalls S T wf}.
Context (call : nat -> store_call T).

Abbreviation shared := (shared S T).

Definition mode (p : nat) : bool := call_exclusive (call p).

Definition shared_step (a : shared_action) (st : shared) : option shared :=
  match a with
  | Locking la =>
      if is_unlock la then None
      else l ← step mode la (sh_lock st);
        Some {| sh_lock := l; sh_disk := sh_disk st; sh_work := sh_work st; sh_log := sh_log st |}
  | Begin p =>
      match pc_of (sh_lock st) p, sh_work st !! p with
      | Holding _, None =>
          Some {| sh_lock := sh_lock st; sh_disk := sh_disk st;
                  sh_work := <[p := call_prog (call p)]> (sh_work st); sh_log := sh_log st |}
      | _, _ => None
      end
  | Work p =>
      match sh_work st !! p with
      | Some (Do effect next) =>
          Some {| sh_lock := sh_lock st; sh_disk := effect (sh_disk st);
                  sh_work := <[p := next (sh_disk st)]> (sh_work st); sh_log := sh_log st |}
      | _ => None
      end
  | Finish p =>
      match sh_work st !! p with
      | Some (Finished r) =>
          l ← step mode (Unlock p) (sh_lock st);
          Some {| sh_lock := l; sh_disk := sh_disk st; sh_work := delete p (sh_work st);
                  sh_log := sh_log st ++ [(p, r)] |}
      | _ => None
      end
  end.

(** What an action does to the lock. *)
Definition lock_action (a : shared_action) : option action :=
  match a with
  | Locking la => Some la
  | Finish p => Some (Unlock p)
  | Begin _ | Work _ => None
  end.

(** Nobody has called yet. *)
Definition shared_initial (s : S) (st : shared) : Prop :=
  initial (sh_lock st) /\ sh_disk st = s /\ sh_work st = ∅ /\ sh_log st = [].

(** The executions in which the heartbeats of the lock are in time and nothing
    happens to the lock between the check and the unlink of a stale lock file. *)
Inductive shared_execution (s : S) : shared -> Prop :=
| shared_init st : shared_initial s st -> shared_execution s st
| shared_next st a st' : shared_execution s st -> shared_step a st = Some st' -> fresh (sh_lock st') ->
    (forall la p, lock_action a = Some la -> pc_of (sh_lock st) p = Stale -> exists fault, la = Run p fault) ->
    shared_execution s st'.

(** [p] alone: the calls it has left, and its unlock. *)
Fixpoint finish_alone (p n : nat) (st : shared) : option shared :=
  match n with
  | O => shared_step (Finish p) st
  | Datatypes.S n' => st' ← shared_step (Work p) st; finish_alone p n' st'
  end.

(** ** The lock of an execution *)

Lemma step_keeps_holding a l l' p i : step mode a l = Some l' -> is_unlock a = false ->
  pc_of l p = Holding i -> pc_of l' p = Holding i.
Proof.
  intros Hs Hu Hp. destruct a as [q fault|q|q|q|d]; cbn [step is_unlock] in *; [|..|done| |].
  - destruct (decide (q = p)) as [->|Hne]; [by rewrite Hp in Hs|].
    destruct (pc_of l q); cbn in Hs; try done; unfold openFile in Hs;
      repeat case_match; simplify_eq; by rewrite pc_of_set_pc, decide_False.
  - repeat case_match; simplify_eq; done.
  - destruct (decide (q = p)) as [->|Hne]; [by rewrite Hp in Hs|].
    repeat case_match; simplify_eq; by rewrite pc_of_set_pc, decide_False.
  - repeat case_match; simplify_eq; done.
Qed.

Lemma step_unlock l l' p : step mode (Unlock p) l = Some l' -> l' = set_pc p Idle l.
Proof. cbn [step]. destruct (pc_of l p); congruence. Qed.

Lemma shared_lock s st : shared_execution s st -> atomic_execution mode (sh_lock st).
Proof.
  induction 1 as [st (Hi & _)|st a st' Hex IH Hs Hf Hat]; [by apply atomic_init|].
  destruct (lock_action a) as [la|] eqn:Hla.
  - eapply (atomic_step _ (sh_lock st) la); [done| |done|intros p; by apply Hat].
    destruct a as [la'|p|p|p]; cbn [lock_action shared_step] in Hla, Hs; try done;
      injection Hla as Hla; subst la.
    + destruct (is_unlock la'); [done|]. destruct (step mode la' (sh_lock st)); [|done]. by injection Hs as <-.
    + destruct (sh_work st !! p) as [[r|]|]; try done.
      destruct (step mode (Unlock p) (sh_lock st)); [|done]. by injection Hs as <-.
  - destruct a as [la'|p|p|p]; cbn in Hla, Hs; try done; repeat case_match; try done; by injection Hs as <-.
Qed.

(** ** What the callers are in the middle of *)

Context {named : ID -> Prop} {ok : ID -> T -> Prop} {view : S -> gmap ID T} {cv : conventions}.
Context `{!StoreMachine S T wf named ok view cv}.
Context (Hcalls : forall p, permitted named ok (call p)).

(** The content of the store after the calls in the log, and the calls. *)
Definition log_calls (st : shared) : list (store_call T) := map (fun '(p, _) => call p) (sh_log st).
Definition replies (st : shared) : list (store_reply T) := map snd (sh_log st).

(** The invariant, with the content [m] that the log leaves: who works holds
    the lock, and would answer as the map does if it were left alone; while
    nobody works under an exclusive lock, the store holds [m]. *)
Record linearized (m0 m : gmap ID T) (st : shared) : Prop := {
  lin_log : spec_all cv (log_calls st) m0 = (replies st, m);
  lin_holds p w : sh_work st !! p = Some w -> holding p (sh_lock st);
  lin_work p w : sh_work st !! p = Some w ->
    let '(r, d) := run w (sh_disk st) in wf d /\ (r, view d) = spec_perform cv (call p) m;
  lin_reads p w : sh_work st !! p = Some w -> mode p = false -> within (fun s s' => wf s -> s' = s) w;
  lin_rest : (forall p w, sh_work st !! p = Some w -> mode p = false) ->
    wf (sh_disk st) /\ view (sh_disk st) = m
}.

(** An exclusive holder works alone. *)
Definition alone_if_exclusive (st : shared) : Prop :=
  forall p q w, holding p (sh_lock st) -> sh_work st !! q = Some w -> p <> q ->
    mode p = false /\ mode q = false.

Lemma shared_alone s m0 m st : shared_execution s st -> linearized m0 m st -> alone_if_exclusive st.
Proof.
  intros Hex HI p q w [i Hp] Hq Hne. destruct (lin_holds _ _ _ HI q w Hq) as [j Hj].
  pose proof (shared_lock s st Hex) as Hl. destruct (atomic_invariant mode _ Hl) as (Hc & Hh & _ & _).
  pose proof (Hh p i Hp) as Hi. rewrite (Hh q j Hj) in Hi. injection Hi as ->.
  apply (Hc p q i Hne); [by rewrite Hp|by rewrite Hj].
Qed.

(** Who is working when [p] is about to. *)
Lemma others_share st p : alone_if_exclusive st -> holding p (sh_lock st) -> sh_work st !! p = None ->
  forall q w, sh_work st !! q = Some w -> mode q = false.
Proof. intros Hal Hh Hp q w Hq. apply (Hal p q w Hh Hq). congruence. Qed.

Lemma linearized_initial s st : wf s -> shared_initial s st -> linearized (view s) (view s) st.
Proof.
  intros Hwf (_ & Hd & Hw & Hl).
  split; unfold log_calls, replies; rewrite ?Hl, ?Hw, ?Hd; try done; intros p w; by rewrite lookup_empty.
Qed.

Lemma linearized_lock m0 m st l : (forall p, holding p (sh_lock st) -> holding p l) -> linearized m0 m st ->
  linearized m0 m {| sh_lock := l; sh_disk := sh_disk st; sh_work := sh_work st; sh_log := sh_log st |}.
Proof. intros Hl [Hlog Hh Hw Hr Hrest]. split; cbn; eauto. Qed.

Lemma linearized_begin m0 m st p : alone_if_exclusive st -> linearized m0 m st ->
  holding p (sh_lock st) -> sh_work st !! p = None ->
  linearized m0 m {| sh_lock := sh_lock st; sh_disk := sh_disk st;
                     sh_work := <[p := call_prog (call p)]> (sh_work st); sh_log := sh_log st |}.
Proof.
  intros Hal [Hlog Hh Hw Hr Hrest] Hp Hnone. destruct (Hrest (others_share st p Hal Hp Hnone)) as [Hwf Hview].
  split; cbn [sh_lock sh_disk sh_work sh_log]; [done|..].
  - intros q w [[<- <-]|[_ Hq]]%lookup_insert_Some; eauto.
  - intros q w [[<- <-]|[_ Hq]]%lookup_insert_Some; [|by apply Hw].
    rewrite call_run, <- Hview. apply machine_step; [done|apply Hcalls].
  - intros q w [[<- <-]|[_ Hq]]%lookup_insert_Some; [|by apply Hr]. by apply call_reads.
  - by intros _.
Qed.

Lemma linearized_work m0 m st p effect next : alone_if_exclusive st -> linearized m0 m st ->
  sh_work st !! p = Some (Do effect next) ->
  linearized m0 m {| sh_lock := sh_lock st; sh_disk := effect (sh_disk st);
                     sh_work := <[p := next (sh_disk st)]> (sh_work st); sh_log := sh_log st |}.
Proof.
  intros Hal [Hlog Hh Hw Hr Hrest] Hp. pose proof (Hh p _ Hp) as Hhp.
  assert (Hothers : forall q w, q <> p -> sh_work st !! q = Some w -> mode p = false /\ mode q = false)
    by (intros q w Hne Hq; by apply (Hal p q w)).
  assert (Hsame : mode p = false -> effect (sh_disk st) = sh_disk st /\ within (fun s s' => wf s -> s' = s) (next (sh_disk st))).
  { intros Hm. destruct (Hr p _ Hp Hm (sh_disk st)) as [He Hn]. split; [|done]. apply He, Hrest.
    intros q w Hq. destruct (decide (q = p)) as [->|Hne]; [done|]. by apply (Hothers q w). }
  split; cbn [sh_lock sh_disk sh_work sh_log]; [done|..].
  - intros q w [[<- <-]|[_ Hq]]%lookup_insert_Some; eauto.
  - intros q w [[<- <-]|[Hne Hq]]%lookup_insert_Some; [exact (Hw p _ Hp)|].
    destruct (Hothers q w) as [Hm _]; [congruence|done|]. rewrite (proj1 (Hsame Hm)). by apply Hw.
  - intros q w [[<- <-]|[_ Hq]]%lookup_insert_Some Hm; [by apply Hsame|by apply (Hr q)].
  - intros Hall. assert (Hm : mode p = false) by (eapply Hall; by rewrite lookup_insert_eq).
    rewrite (proj1 (Hsame Hm)). apply Hrest. intros q w Hq.
    destruct (decide (q = p)) as [->|Hne]; [done|]. by apply (Hothers q w).
Qed.

Lemma linearized_finish m0 m st p r : alone_if_exclusive st -> linearized m0 m st ->
  sh_work st !! p = Some (Finished r) ->
  linearized m0 (spec_perform cv (call p) m).2
    {| sh_lock := set_pc p Idle (sh_lock st); sh_disk := sh_disk st;
       sh_work := delete p (sh_work st); sh_log := sh_log st ++ [(p, r)] |}.
Proof.
  intros Hal [Hlog Hh Hw Hr Hrest] Hp. pose proof (Hh p _ Hp) as Hhp.
  pose proof (Hw p _ Hp) as [Hwf Hspec]. cbn in Hwf, Hspec.
  assert (Hothers : forall q w, q <> p -> sh_work st !! q = Some w -> (spec_perform cv (call p) m).2 = m).
  { intros q w Hne Hq. apply spec_reads. by apply (Hal p q w). }
  split; cbn [sh_lock sh_disk sh_work sh_log].
  - unfold log_calls, replies. cbn [sh_log]. rewrite !map_app. cbn [map].
    rewrite (spec_all_snoc cv _ _ _ _ _ Hlog). by rewrite <- Hspec.
  - intros q w [Hne Hq]%lookup_delete_Some. destruct (Hh q w Hq) as [i Hi]. exists i.
    by rewrite pc_of_set_pc, decide_False.
  - intros q w [Hne Hq]%lookup_delete_Some. rewrite (Hothers q w) by congruence. by apply Hw.
  - intros q w [Hne Hq]%lookup_delete_Some. by apply (Hr q).
  - intros _. split; [done|]. by rewrite <- Hspec.
Qed.

Lemma shared_linearized s st : wf s -> shared_execution s st -> exists m, linearized (view s) m st.
Proof.
  intros Hwf Hex. induction Hex as [st Hi|st a st' Hex [m IH] Hs Hf Hat].
  { exists (view s). by apply linearized_initial. }
  pose proof (shared_alone s _ m st Hex IH) as Hal.
  destruct a as [la|p|p|p]; cbn [shared_step] in Hs.
  - destruct (is_unlock la) eqn:Hu; [done|]. destruct (step mode la (sh_lock st)) as [l|] eqn:Hl; [|done].
    injection Hs as <-. exists m. apply linearized_lock; [|done].
    intros p [i Hp]. exists i. by eapply step_keeps_holding.
  - destruct (pc_of (sh_lock st) p) eqn:Hp; try done. destruct (sh_work st !! p) eqn:Hw; [done|].
    injection Hs as <-. exists m. apply linearized_begin; try done. by eexists.
  - destruct (sh_work st !! p) as [[|effect next]|] eqn:Hw; try done. injection Hs as <-.
    exists m. by apply linearized_work.
  - destruct (sh_work st !! p) as [[r|]|] eqn:Hw; try done.
    destruct (step mode (Unlock p) (sh_lock st)) as [l|] eqn:Hl; [|done]. apply step_unlock in Hl as ->.
    injection Hs as <-. eexists. by apply linearized_finish.
Qed.

(** A caller in the middle of its work can always finish it. *)
Lemma work_finishes p w st : sh_work st !! p = Some w -> holding p (sh_lock st) ->
  exists n st', finish_alone p n st = Some st' /\
    sh_log st' = sh_log st ++ [(p, (run w (sh_disk st)).1)] /\ sh_disk st' = (run w (sh_disk st)).2.
Proof.
  revert st. induction w as [r|effect next IH]; intros st Hp [i Hi].
  - exists 0%nat. eexists. cbn [finish_alone shared_step step]. rewrite Hp, Hi. by split_and!.
  - destruct (IH (sh_disk st) {| sh_lock := sh_lock st; sh_disk := effect (sh_disk st);
        sh_work := <[p := next (sh_disk st)]> (sh_work st); sh_log := sh_log st |}) as (n & st' & Hn & Hlog & Hd);
      [apply lookup_insert_eq|by exists i|].
    exists (Datatypes.S n), st'. cbn [finish_alone shared_step]. by rewrite Hp.
Qed.
End shared.

(** ** The system calls of the file store *)

(** While no system call fails, what a call of a reader does to the root, and
    what any call does. *)
Definition unread (r r' : Root) : Prop := r_faults r = [] -> r' = r.
Definition granted (r r' : Root) : Prop := r_faults r = [] -> r_faults r' = [].

#[export] Instance granted_fs_call {A} (f : gmap string Entry -> result goerror A * gmap string Entry) :
  Calls granted (fs_call f).
Proof.
  apply one_call. intros r Hr. unfold fs_call. rewrite Hr. by destruct (f (r_entries r)).
Defined.

Definition unread_fs_call {A} (f : gmap string Entry -> result goerror A * gmap string Entry) :
  (forall m, (f m).2 = m) -> Calls unread (fs_call f).
Proof.
  intros Hf. apply one_call. intros r Hr. unfold fs_call. rewrite Hr.
  specialize (Hf (r_entries r)). destruct (f (r_entries r)) as [x m]. cbn in *. subst m.
  destruct r as [m l]. cbn in Hr. by subst l.
Defined.

Definition unread_dir_call {A} dir
    (f : gmap string (option bytes) -> result goerror A * gmap string (option bytes)) :
  (forall files, (f files).2 = files) -> Calls unread (dir_call dir f).
Proof.
  intros Hf. apply unread_fs_call. intros m.
  destruct (m !! dir) as [[data|files]|] eqn:Hd; [done| |done].
  specialize (Hf files). destruct (f files) as [x files']. cbn in *. subst files'. by apply insert_id.
Defined.

#[export] Instance unread_OpenRoot name : Calls unread (root_OpenRoot name).
Proof. by apply unread_fs_call. Defined.
#[export] Instance unread_Stat name : Calls unread (root_Stat name).
Proof. by apply unread_fs_call. Defined.
#[export] Instance unread_root_ReadDir : Calls unread root_ReadDir.
Proof. by apply unread_fs_call. Defined.
#[export] Instance unread_ReadDir dir : Calls unread (dir_ReadDir dir).
Proof. by apply unread_dir_call. Defined.
#[export] Instance unread_Open dir name : Calls unread (dir_Open dir name).
Proof. by apply unread_dir_call. Defined.
#[export] Instance unread_Read dir name : Calls unread (dir_Read dir name).
Proof. by apply unread_dir_call. Defined.

#[export] Instance granted_dir_call {A} dir
    (f : gmap string (option bytes) -> result goerror A * gmap string (option bytes)) :
  Calls granted (dir_call dir f).
Proof. unfold dir_call. exact _. Defined.

#[export] Instance granted_write_secrets dir secrets : Calls granted (write_secrets dir secrets).
Proof. induction secrets as [|s secrets IH]; cbn [write_secrets]; unfold atomicWrite; exact _. Defined.

#[export] Instance granted_Persist json_Marshal id metadata secrets :
  Calls granted (Persist json_Marshal id metadata secrets).
Proof. unfold Persist, fill_directory, root_RemoveAll, root_Mkdir, root_Stat, root_OpenRoot, atomicWrite. calls_tac. Defined.

#[export] Instance unread_restore_files dir files secrets : Calls unread (restore_files dir files secrets).
Proof.
  revert secrets. induction files as [|[name isDir] files IH]; intros secrets; cbn [restore_files]; calls_tac.
Defined.

#[export] Instance unread_RestoreMetadata json_Unmarshal dir : Calls unread (RestoreMetadata json_Unmarshal dir).
Proof. unfold RestoreMetadata. exact _. Defined.

#[export] Instance unread_RestoreSecret json_Unmarshal id : Calls unread (RestoreSecret json_Unmarshal id).
Proof. unfold RestoreSecret. exact _. Defined.

#[export] Instance unread_walk_dirs {A} (fn : string -> A -> comp Root goerror A) entries acc :
  (forall name acc, Calls unread (fn name acc)) -> Calls unread (walk_dirs fn entries acc).
Proof.
  intros Hfn. revert acc. induction entries as [|[name isDir] entries IH]; intros acc; cbn [walk_dirs]; calls_tac.
Defined.

#[export] Instance unread_WalkDir {A} (fn : string -> A -> comp Root goerror A) acc :
  (forall name acc, Calls unread (fn name acc)) -> Calls unread (WalkDir fn acc).
Proof.
  intros Hfn. unfold WalkDir. apply Calls_try; [by apply unread_fs_call|]. calls_tac.
Defined.

Section posix.
Context {T Recipient Identity : Type} `{Store.Secret T} `{Age Recipient Identity}.
Context (json_Marshal : gmap string string -> result goerror bytes).
Context (json_Unmarshal : bytes -> result goerror (gmap string string)).
Context (entropy : Z) (ord : list (KeyType * list string) -> list (KeyType * list string)).
Context (factory : Factory T) (c : config).

(** The lock is the other half of the model: inside, it was given. *)
Definition lock_given (exclusive : bool) : option goerror := None.

#[export] Instance granted_Delete id : Calls granted (Delete lock_given id).
Proof. unfold Delete, locked, lock_given, root_RemoveAll. exact _. Defined.
#[export] Instance granted_Save id s : Calls granted (Save json_Marshal lock_given entropy ord c id s).
Proof. unfold Save, locked, lock_given. exact _. Defined.
#[export] Instance granted_Upsert id s : Calls granted (Upsert json_Marshal lock_given entropy ord c id s).
Proof. unfold Upsert. exact _. Defined.
#[export] Instance unread_Get id : Calls unread (Get json_Unmarshal lock_given factory c id).
Proof. unfold Get, locked, lock_given. calls_tac. Defined.
#[export] Instance unread_filter_dir pattern name secrets :
  Calls unread (filter_dir json_Unmarshal factory c pattern name secrets).
Proof. unfold filter_dir. calls_tac. Defined.
#[export] Instance unread_metadata_dir name secrets :
  Calls unread (metadata_dir json_Unmarshal factory name secrets).
Proof. unfold metadata_dir. calls_tac. Defined.
#[export] Instance unread_Filter pattern : Calls unread (Filter json_Unmarshal lock_given factory c pattern).
Proof. unfold Filter, locked, lock_given. calls_tac. Defined.
#[export] Instance unread_GetAllMetadata : Calls unread (GetAllMetadata json_Unmarshal lock_given factory).
Proof. unfold GetAllMetadata, locked, lock_given. calls_tac. Defined.

Abbreviation posix_given := (posix_Store json_Marshal json_Unmarshal lock_given entropy ord factory c).

Definition posix_prog (call : store_call T) : prog Root (store_reply T) :=
  match call with
  | CallDelete id => reply_prog granted (fun _ => ReplyDone) (Delete lock_given id)
  | CallGet id => reply_prog unread ReplySecret (Get json_Unmarshal lock_given factory c id)
  | CallGetAllMetadata =>
      reply_prog unread (fun m => ReplyListing (dom m)) (GetAllMetadata json_Unmarshal lock_given factory)
  | CallSave id v => reply_prog granted (fun _ => ReplyDone) (Save json_Marshal lock_given entropy ord c id v)
  | CallUpsert id v => reply_prog granted (fun _ => ReplyDone) (Upsert json_Marshal lock_given entropy ord c id v)
  | CallFilter pattern => reply_prog unread ReplySecrets (Filter json_Unmarshal lock_given factory c pattern)
  end.

Lemma posix_prog_run call r : run (posix_prog call) r = @perform Root T posix_given call r.
Proof.
  destruct call; cbn [posix_prog perform]; rewrite run_reply_prog; cbn [store_Delete store_Get
    store_GetAllMetadata store_Save store_Upsert store_Filter posix_Store];
    match goal with |- (reply_of _ (?m r).1, _) = _ => by destruct (m r) end.
Qed.

Lemma posix_prog_granted call : within granted (posix_prog call).
Proof.
  destruct call; apply within_reply_prog; intros r r' Hr; try done; intros Hf; by rewrite (Hr Hf).
Qed.

(** A root in order, whose system calls all succeed. *)
Definition undisturbed (r : Root) : Prop := in_order json_Unmarshal factory c r /\ r_faults r = [].

#[export] Instance posix_calls : @StoreCalls Root T posix_given undisturbed.
Proof.
  exists posix_prog; [apply posix_prog_run|].
  intros call Hc. destruct call; try done; apply within_reply_prog; intros r r' Hr [_ Hf]; by apply Hr.
Defined.

#[export] Instance posix_undisturbed `{!MapOrder ord} :
  @StoreMachine Root T posix_given undisturbed (fun id => validIdentifier id = true)
    (posix_acceptable json_Marshal json_Unmarshal entropy ord factory c)
    (fun r => posix_content json_Unmarshal factory c (r_entries r)) posix_conventions.
Proof.
  split. intros call r [Hr Hf] Hp.
  pose proof (posix_machine json_Marshal json_Unmarshal lock_given entropy ord factory c (fun _ => eq_refl)) as HM.
  pose proof (@machine_step _ _ _ _ _ _ _ _ HM call r Hr Hp) as Hstep.
  pose proof (within_keeps (fun r => r_faults r = []) (posix_prog call) r (posix_prog_granted call) Hf) as Hk.
  rewrite posix_prog_run in Hk. destruct (perform call r) as [x r']. destruct Hstep as [Hw Hstep].
  by split.
Qed.

(** An operation takes the lock its call names, and does nothing without it. *)
Lemma perform_refused flock call e r : flock (call_exclusive call) = Some e ->
  @perform Root T (posix_Store json_Marshal json_Unmarshal flock entropy ord factory c) call r = (ReplyError e, r).
Proof.
  intros Hf. destruct call; cbn in *; unfold Upsert, Delete, Get, GetAllMetadata, Save, Filter, locked;
    by rewrite Hf.
Qed.

Lemma perform_given flock call r : flock (call_exclusive call) = None ->
  @perform Root T (posix_Store json_Marshal json_Unmarshal flock entropy ord factory c) call r =
  @perform Root T posix_given call r.
Proof.
  intros Hf. destruct call; cbn in *; unfold Upsert, Delete, Get, GetAllMetadata, Save, Filter, locked;
    by rewrite Hf.
Qed.
End posix.

(** The file store inside its lock. *)
Abbreviation posix_given json_Marshal json_Unmarshal entropy ord factory c :=
  (posix_Store json_Marshal json_Unmarshal lock_given entropy ord factory c).

(** ** Checking executions *)

Section checked.
Context {S T : Type} `{Store S T} {wf : S -> Prop} `{!StoreCalls S T wf}.
Context (call : nat -> store_call T).

(** The state after the actions, when the heartbeats were in time throughout and
    no caller was between the check and the unlink of a lock file. *)
Fixpoint shared_run (actions : list shared_action) (st : shared S T) : option (shared S T) :=
  match actions with
  | [] => Some st
  | a :: actions' =>
      if no_stale (sh_lock st) then
        st' ← shared_step call a st;
        if fresh_check (sh_lock st') then shared_run actions' st' else None
      else None
  end.

Lemma shared_run_execution s actions st st' : shared_execution call s st ->
  shared_run actions st = Some st' -> shared_execution call s st'.
Proof.
  revert st. induction actions as [|a actions IH]; intros st Hst Hr; cbn [shared_run] in Hr; [by simplify_eq|].
  destruct (no_stale (sh_lock st)) eqn:Hn; [|done].
  destruct (shared_step call a st) as [st1|] eqn:Hs; [|done]. cbn in Hr.
  destruct (fresh_check (sh_lock st1)) eqn:Hf; [|done]. apply (IH st1); [|done].
  eapply shared_next; [exact Hst|exact Hs|by apply fresh_check_ok|].
  intros la p _ Hp. by destruct (no_stale_ok _ Hn p).
Qed.
End checked.

(** ** Properties *)

(** C3: several processes can use one file store at a time. The callers run
    [tryLock] or [tryRLock], their operation and the deferred unlock with
    their system calls interleaved in any order, readers at the same time as
    readers. As long as the system calls of the operations succeed, the
    heartbeats of the lock are in time and nothing comes between the check and
    the unlink of a stale lock file, the replies are those of a map of
    identifiers to secrets to which the calls are made one after the other in
    the order of their unlocks; whenever nobody is writing, the root is in
    order and holds that map; and whoever holds the lock can finish and reply.
    An operation that is not given its lock reports the error of the lock and
    does nothing. *)
Theorem posix_shared {T Recipient Identity} `{Store.Secret T} `{Age Recipient Identity}
    json_Marshal json_Unmarshal entropy ord `{!MapOrder ord} (factory : Factory T) c
    (call : nat -> store_call T) r0 st :
  (forall p, permitted (fun id => validIdentifier id = true)
     (posix_acceptable json_Marshal json_Unmarshal entropy ord factory c) (call p)) ->
  undisturbed json_Unmarshal factory c r0 ->
  shared_execution (H := posix_given json_Marshal json_Unmarshal entropy ord factory c) call r0 st ->
  let view r := posix_content json_Unmarshal factory c (r_entries r) in
  let '(answers, content) := spec_all posix_conventions (log_calls call st) (view r0) in
  replies st = answers /\
  ((forall p w, sh_work st !! p = Some w -> mode call p = false) ->
     in_order json_Unmarshal factory c (sh_disk st) /\ view (sh_disk st) = content) /\
  (forall p w, sh_work st !! p = Some w -> exists n st' reply,
     finish_alone (H := posix_given json_Marshal json_Unmarshal entropy ord factory c) call p n st = Some st' /\
     sh_log st' = sh_log st ++ [(p, reply)]) /\
  (forall flock e p r, flock (mode call p) = Some e ->
     @perform Root T (posix_Store json_Marshal json_Unmarshal flock entropy ord factory c) (call p) r =
     (ReplyError e, r)).
Proof.
  intros Hcalls Hr Hex view.
  destruct (shared_linearized call Hcalls r0 st Hr Hex) as [m [Hlog Hh _ _ Hrest]].
  change (spec_all posix_conventions (log_calls call st) (view r0) = (replies st, m)) in Hlog. rewrite Hlog.
  split_and!; [done| | |].
  - intros Hw. destruct (Hrest Hw) as [[Ho _] Hv]. by split.
  - intros p w Hw. destruct (work_finishes (H := posix_given json_Marshal json_Unmarshal entropy ord factory c)
      call p w st Hw (Hh p w Hw)) as (n & st' & Hn & Hl & _).
    by exists n, st', (run w (sh_disk st)).1.
  - intros flock e p r. apply perform_refused.
Qed.

(** Caller 0 saves a secret, 1 reads it, 2 lists the store, 3 deletes it. *)
Definition sample_calls (p : nat) : store_call PassValue :=
  match p with
  | O => CallSave "a/b" (NewPassValue [Byte.x41])
  | 1 => CallGet "a/b"
  | 2 => CallGetAllMetadata
  | _ => CallDelete "a/b"
  end.

#[local] Instance sample_store : Store.Store Root PassValue :=
  posix_given sample_json_Marshal sample_json_Unmarshal 0 (@List.rev _) PassValue_factory sample_config.

Definition sample_shared : shared Root PassValue :=
  {| sh_lock := leftover; sh_disk := sample_root; sh_work := ∅; sh_log := [] |}.

Lemma sample_shared_initial : shared_initial sample_root sample_shared.
Proof. split; [apply leftover_initial|done]. Qed.

(** 1 fails to get the lock while 0 saves and tries again; then 1 and 2 read at
    the same time, and 2 is done first. *)
Definition sample_schedule : list shared_action :=
  replicate 4 (Locking (Run 0 false)) ++ Begin 0 :: replicate 7 (Work 0) ++
  replicate 2 (Locking (Run 1 false)) ++ replicate 8 (Work 0) ++
  [Locking (Run 1 false); Finish 0] ++ replicate 4 (Locking (Run 1 false)) ++
  replicate 4 (Locking (Run 2 false)) ++ [Begin 1; Begin 2; Locking (Heartbeat 1)] ++
  concat (replicate 5 [Work 1; Work 2]) ++ [Work 1; Finish 2; Finish 1].

Lemma sample_permitted p : permitted (fun id => validIdentifier id = true)
  (posix_acceptable sample_json_Marshal sample_json_Unmarshal 0 (@List.rev _) PassValue_factory sample_config)
  (sample_calls p).
Proof. destruct p as [|[|[|p]]]; cbn; [|done..]. by apply sample_acceptable. Qed.

Lemma posix_shared_witness : exists st,
  shared_run sample_calls sample_schedule sample_shared = Some st /\
  map fst (sh_log st) = [0; 2; 1]%nat /\
  replies st = [ReplyDone; ReplyListing {["a/b"]}; ReplySecret (NewPassValue [Byte.x41])].
Proof.
  destruct (shared_run sample_calls sample_schedule sample_shared) as [st|] eqn:Hst.
  2: { assert (Hsome : is_ok (match shared_run sample_calls sample_schedule sample_shared with
         Some _ => Ok tt | None => Err tt end) = true) by (vm_compute; reflexivity). by rewrite Hst in Hsome. }
  assert (Hlog : option_map (fun st => map fst (sh_log st))
    (shared_run sample_calls sample_schedule sample_shared) = Some [0; 2; 1]%nat) by (vm_compute; reflexivity).
  rewrite Hst in Hlog. cbn in Hlog. injection Hlog as Hlog.
  exists st. split; [done|]. split; [done|].
  pose proof (posix_shared sample_json_Marshal sample_json_Unmarshal 0 (@List.rev _) PassValue_factory
    sample_config sample_calls sample_root st sample_permitted
    (conj sample_root_in_order eq_refl)
    (shared_run_execution sample_calls sample_root sample_schedule sample_shared st
      (shared_init _ _ _ sample_shared_initial) Hst)) as Hall.
  assert (Hcalls : log_calls sample_calls st = map sample_calls [0; 2; 1]%nat).
  { rewrite <- Hlog. unfold log_calls. rewrite map_map. apply map_ext. by intros [p r]. }
  cbv zeta in Hall. rewrite Hcalls in Hall.
  assert (Hr : replies st = (spec_all posix_conventions (map sample_calls [0; 2; 1]%nat)
    (posix_content sample_json_Unmarshal PassValue_factory sample_config (r_entries sample_root))).1).
  { destruct (spec_all posix_conventions _ _) as [answers content]. by destruct Hall as [-> _]. }
  rewrite Hr. vm_compute. reflexivity.
Defined.
