(* ===== verification/LinuxShared.v ===== *)
(** The Linux keychain used by several clients at a time: the operations of
    keychain_linux.go as sequences of requests to the Secret Service, with the
    requests of the others in between. There is no lock: what the operations
    promise to each other is shown here, and where they do not. *)

From S2P Require Import Prelude GoErrors GoStrings Secrets Store StoreSpec Keychain SecretService.
From S2P Require Import KeychainLinux LinuxStore Syscalls.

(** ** The requests of the operations *)

(** Any request may follow any state. *)
Definition anything {W} (w w' : W) : Prop := True.

Section requests.
Context {T W : Type} `{Store.Secret T} `{secretService W}.
Context (IsValid : ObjectPath -> bool).
Context (ord : list (string * string) -> list (string * string)).
Context (k : keychainStore T).

Definition one_request {A} (m : comp W goerror A) : Calls anything m := one_call m (fun _ => I).

#[export] Instance requests_new : Calls anything newService := one_request _.
#[export] Instance requests_close : Calls anything svc_Close := one_request _.
#[export] Instance requests_open mode : Calls anything (svc_OpenSession mode) := one_request _.
#[export] Instance requests_closesession s : Calls anything (svc_CloseSession s) := one_request _.
#[export] Instance requests_collections : Calls anything svc_Collections := one_request _.
#[export] Instance requests_alias a : Calls anything (svc_ReadAlias a) := one_request _.
#[export] Instance requests_islocked p : Calls anything (svc_IsLocked p) := one_request _.
#[export] Instance requests_unlock ps : Calls anything (svc_Unlock ps) := one_request _.
#[export] Instance requests_search c a : Calls anything (svc_SearchCollection c a) := one_request _.
#[export] Instance requests_create c a s r : Calls anything (svc_CreateItem c a s r) := one_request _.
#[export] Instance requests_delete p : Calls anything (svc_DeleteItem p) := one_request _.
#[export] Instance requests_getattributes p : Calls anything (svc_GetAttributes p) := one_request _.
#[export] Instance requests_getsecret p s : Calls anything (svc_GetSecret p s) := one_request _.
#[export] Instance requests_setsecret p s : Calls anything (svc_SetItemSecret p s) := one_request _.
#[export] Instance requests_setattributes p a : Calls anything (svc_SetItemAttributes p a) := one_request _.
#[export] Instance requests_setlabel p l : Calls anything (svc_SetItemLabel p l) := one_request _.
#[export] Instance requests_newsecret s v : Calls anything (session_NewSecret s v) := one_request _.

#[export] Instance requests_wrapped {A} fmt (m : comp W goerror A) :
  Calls anything m -> Calls anything (wrapped fmt m).
Proof.
  intros Hm. exists (andThen (calls anything m) (fun r => Finished
    match r with Ok a => Ok a | Err e => Err (Wrap fmt [e]) end)).
  - intros w. rewrite run_andThen, calls_run. unfold wrapped. by destruct (m w) as [[a|e] w'].
  - apply within_andThen; [apply calls_within|done].
Defined.

(** The sleep, then what follows it. *)
#[export] Instance requests_sleep {A} d (m : comp W goerror A) :
  Calls anything m -> Calls anything (fun w => m (sleepFn d w)).
Proof.
  intros Hm. exists (Do (sleepFn d) (fun _ => calls anything m)).
  - intros w. cbn. apply calls_run.
  - intros w. split; [done|apply calls_within].
Defined.

#[export] Instance requests_loop {A} n d c (op : comp W goerror A) r :
  Calls anything op -> Calls anything (relock_loop n d c op r).
Proof.
  intros Hop. revert d r. induction n as [|n IH]; intros d r; cbn [relock_loop]; [exact _|].
  destruct r as [a|err]; [exact _|]. destruct (isLockedDBusError err); [|exact _].
  apply requests_sleep. apply Calls_try; [exact _|]. intros [u|e]; exact _.
Defined.

#[export] Instance requests_relock {A} c (op : comp W goerror A) :
  Calls anything op -> Calls anything (withRelockRetry c op).
Proof. intros Hop. exact (Calls_try _ _ _ (fun r => requests_loop _ _ c op r _)). Defined.

#[export] Instance requests_session {A} (body : Session -> comp W goerror A) :
  (forall s, Calls anything (body s)) -> Calls anything (with_session body).
Proof. intros Hb. unfold with_session. exact _. Defined.

#[export] Instance requests_unlocked : Calls anything (unlockedCollection IsValid).
Proof.
  apply Calls_bind.
  - apply Calls_bind; [exact _|]. intros cs. destruct (existsb _ cs); exact _.
  - intros p. apply Calls_bind; [|exact _]. apply Calls_try; [unfold isCollectionUnlocked; calls_tac|].
    intros [u|e]; [exact _|]. destruct (negb _); exact _.
Defined.

#[export] Instance requests_Delete id : Calls anything (Delete IsValid ord k id).
Proof. unfold Delete. apply requests_session. calls_tac. Defined.

#[export] Instance requests_Get id : Calls anything (Get IsValid ord k id).
Proof. unfold Get. apply requests_session. calls_tac. Defined.

#[export] Instance requests_metadata l acc : Calls anything (collectMetadata ord k l acc).
Proof. revert acc. induction l as [|p l IH]; intros acc; cbn [collectMetadata]; calls_tac. Defined.

#[export] Instance requests_GetAllMetadata : Calls anything (GetAllMetadata IsValid ord k).
Proof. unfold GetAllMetadata. apply requests_session. calls_tac. Defined.

#[export] Instance requests_duplicates c l : Calls anything (delete_duplicates c l).
Proof. induction l as [|p l IH]; cbn [delete_duplicates]; calls_tac. Defined.

#[export] Instance requests_Save id s : Calls anything (Save IsValid ord k id s).
Proof. unfold Save. apply requests_session. calls_tac. Defined.

#[export] Instance requests_Upsert id s : Calls anything (Upsert IsValid ord k id s) := requests_Save id s.

#[export] Instance requests_load id c p s a : Calls anything (loadSecret ord k id c p s a).
Proof. unfold loadSecret. exact _. Defined.

#[export] Instance requests_secrets pattern c s l acc : Calls anything (collectSecrets ord k pattern c s l acc).
Proof. revert acc. induction l as [|p l IH]; intros acc; cbn [collectSecrets]; calls_tac. Defined.

#[export] Instance requests_Filter pattern : Calls anything (Filter IsValid ord k pattern).
Proof. unfold Filter. apply requests_session. calls_tac. Defined.
End requests.

(** The requests of a call, and its reply. *)
Definition linux_prog {T W} `{Store.Secret T} `{secretService W} (IsValid : ObjectPath -> bool)
    (ord : list (string * string) -> list (string * string)) (k : keychainStore T) (c : store_call T)
  : prog W (store_reply T) :=
  match c with
  | CallDelete id => reply_prog anything (fun _ => ReplyDone) (Delete IsValid ord k id)
  | CallGet id => reply_prog anything ReplySecret (Get IsValid ord k id)
  | CallGetAllMetadata => reply_prog anything (fun m => ReplyListing (dom m)) (GetAllMetadata IsValid ord k)
  | CallSave id s => reply_prog anything (fun _ => ReplyDone) (Save IsValid ord k id s)
  | CallUpsert id s => reply_prog anything (fun _ => ReplyDone) (Upsert IsValid ord k id s)
  | CallFilter pattern => reply_prog anything ReplySecrets (Filter IsValid ord k pattern)
  end.

(** A client that is alone is answered as the store answers. *)
Lemma linux_prog_run {T W} `{Store.Secret T} `{secretService W} IsValid ord (k : keychainStore T) c (w : W) :
  run (linux_prog IsValid ord k c) w = @perform W T (linux_Store IsValid ord k) c w.
Proof.
  destruct c; cbn [linux_prog perform]; rewrite run_reply_prog; cbn;
    match goal with |- (reply_of _ (?m w).1, _) = _ => by destruct (m w) end.
Qed.

(** ** Clients that keep the items in place *)

Section in_place.
Context {T W : Type} `{Store.Secret T} `{GrantedService W items plain extra}.
Context (IsValid : ObjectPath -> bool).
Context (ord : list (string * string) -> list (string * string)) `{!MapOrder ord}.
Context (k : keychainStore T).
Context (Hforeign : foreign (extra := extra)).

Abbreviation content := (content ord k) (only parsing).
Abbreviation kept := (kept (extra := extra) ord k) (only parsing).
Abbreviation holds := (holds (extra := extra) ord k) (only parsing).
Abbreviation identity := (identity ord k) (only parsing).
Abbreviation service_identity := (service_identity ord k) (only parsing).
Abbreviation restore := (restore_secret (factory k)) (only parsing).

(** The items at the start, and the secrets the clients save meanwhile, under
    identifiers that have one. *)
Context (m0 : gmap ObjectPath Item) (Hkept : kept m0).
Context (saves : ID -> T -> Prop).
Context (Hsaves : forall id s, saves id s -> acceptable (extra := extra) k id s /\ is_Some (content m0 !! id)).

(** The secrets of an identifier, before and meanwhile. *)
Definition seen (id : ID) (s : T) : Prop := content m0 !! id = Some s \/ saves id s.

(** An item with the metadata of one secret of [id] and the value of one. *)
Definition mixed (id : ID) (it : Item) : Prop := exists s1 s2, seen id s1 /\ seen id s2 /\
  it_attributes it = stored_metadata ord k id (Metadata s1) /\ restore id (Metadata s2) (it_value it) = Ok s2.

(** What became of an item: those of others are as they were, those of the
    store belong to the same identifier. *)
Definition in_place (it0 it : Item) : Prop :=
  if decide (service_identity ⊆ it_attributes it0)
  then exists id s, holds id s it0 /\ mixed id it
  else it = it0.

Definition undisplaced (m : gmap ObjectPath Item) : Prop := forall p,
  match m0 !! p, m !! p with
  | Some it0, Some it => in_place it0 it
  | None, None => True
  | _, _ => False
  end.

Lemma seen_held id s : seen id s -> plain_metadata (extra := extra) (Metadata s) /\ validIdentifier id = true.
Proof.
  intros [Hs|Hs].
  - rewrite (content_lookup (extra := extra)) in Hs by done. destruct Hs as (p & it & _ & Hv & Hm & _). by split.
  - destruct (Hsaves id s Hs) as [(Hv & Hm & _) _]. by split.
Qed.

Lemma mixed_identity id it : mixed id it -> identity id ⊆ it_attributes it.
Proof.
  intros (s1 & s2 & Hs & _ & -> & _). apply identity_subseteq; [done|]. by apply seen_held in Hs as [[Hu _] _].
Qed.

Lemma undisplaced_start : undisplaced m0.
Proof.
  intros p. destruct (m0 !! p) as [it|] eqn:Hp; [|done]. unfold in_place. case_decide as Hs; [|done].
  destruct (proj1 Hkept p it Hp Hs) as (id & s & Hh). exists id, s. split; [done|].
  assert (Hc : seen id s) by (left; rewrite (content_lookup (extra := extra)) by done; eauto).
  destruct Hh as (_ & _ & Ha & Hr). by exists s, s.
Qed.

(** Whose an item is does not change. *)
Lemma undisplaced_item m p it : undisplaced m -> m !! p = Some it -> service_identity ⊆ it_attributes it ->
  exists it0 id s, m0 !! p = Some it0 /\ holds id s it0 /\ mixed id it.
Proof.
  intros Hm Hp Hs. specialize (Hm p). rewrite Hp in Hm. destruct (m0 !! p) as [it0|]; [|done].
  unfold in_place in Hm. case_decide as Hs0; [|by subst]. destruct Hm as (id & s & Hh & Hx).
  by exists it0, id, s.
Qed.

Lemma undisplaced_held m p it0 id s : undisplaced m -> m0 !! p = Some it0 -> holds id s it0 ->
  exists it, m !! p = Some it /\ mixed id it.
Proof.
  intros Hm Hp Hh. specialize (Hm p). rewrite Hp in Hm. destruct (m !! p) as [it|]; [|done].
  unfold in_place in Hm. rewrite decide_True in Hm by by eapply holds_service.
  destruct Hm as (id' & s' & Hh' & Hx). exists it. split; [done|].
  pose proof (holds_id _ _ _ _ _ Hh). pose proof (holds_id _ _ _ _ _ Hh'). by simplify_eq.
Qed.

(** So a search finds the same paths all the time. *)
Lemma undisplaced_search m id p : undisplaced m ->
  (exists it, m !! p = Some it /\ identity id ⊆ it_attributes it) <->
  (exists it0, m0 !! p = Some it0 /\ identity id ⊆ it_attributes it0).
Proof.
  intros Hm. split.
  - intros (it & Hp & Hs). destruct (undisplaced_item m p it Hm Hp) as (it0 & i & s & Hp0 & Hh & Hx).
    { etrans; [apply (service_identity_subseteq ord k id)|exact Hs]. }
    exists it0. split; [done|]. pose proof (identity_id ord k i it (mixed_identity i it Hx)).
    pose proof (identity_id ord k id it Hs). simplify_eq. by apply (holds_identity (extra := extra) ord k i s).
  - intros (it0 & Hp & Hs). destruct (proj1 Hkept p it0 Hp) as (i & s & Hh).
    { etrans; [apply (service_identity_subseteq ord k id)|exact Hs]. }
    destruct (undisplaced_held m p it0 i s Hm Hp Hh) as (it & Hp' & Hx). exists it. split; [done|].
    rewrite (holds_same_id _ _ _ _ _ _ Hh Hs). by apply mixed_identity.
Qed.

Lemma undisplaced_service m p : undisplaced m ->
  (exists it, m !! p = Some it /\ service_identity ⊆ it_attributes it) <->
  (exists it0, m0 !! p = Some it0 /\ service_identity ⊆ it_attributes it0).
Proof.
  intros Hm. split.
  - intros (it & Hp & Hs). destruct (undisplaced_item m p it Hm Hp Hs) as (it0 & i & s & Hp0 & Hh & Hx).
    exists it0. split; [done|]. by eapply holds_service.
  - intros (it0 & Hp & Hs). destruct (proj1 Hkept p it0 Hp Hs) as (i & s & Hh).
    destruct (undisplaced_held m p it0 i s Hm Hp Hh) as (it & Hp' & Hx). exists it. split; [done|].
    etrans; [apply (service_identity_subseteq ord k i)|by apply mixed_identity].
Qed.

(** A write of another mixture to the item keeps the items in place. *)
Lemma undisplaced_write m p it0 id s it : undisplaced m -> m0 !! p = Some it0 -> holds id s it0 ->
  mixed id it -> undisplaced (<[p := it]> m).
Proof.
  intros Hm Hp Hh Hx q. destruct (decide (q = p)) as [->|Hne].
  - rewrite lookup_insert_eq, Hp. unfold in_place. rewrite decide_True by by eapply holds_service. eauto.
  - rewrite lookup_insert_ne by done. apply Hm.
Qed.

(** ** The operations among such clients *)

Definition steady (w : W) : Prop := undisplaced (items w).

Lemma obeys_wrapped {A} fmt (m : comp W goerror A) Hm Q :
  obeys steady m Hm (fun r => Q (match r with Ok a => Ok a | Err e => Err (Wrap fmt [e]) end)) ->
  obeys steady (wrapped fmt m) (requests_wrapped fmt m Hm) Q.
Proof. intros Hq. apply guarded_andThen. exact Hq. Qed.

(** A request that succeeds and changes no item. *)
Lemma obeys_reads {A} (m : comp W goerror A) (P : A -> Prop) Q :
  (forall w, steady w -> runs m w (fun a w' => items w' = items w /\ P a)) ->
  (forall a, P a -> Q (Ok a)) -> obeys steady m (one_request m) Q.
Proof.
  intros Hm HQ. apply obeys_runs. intros w Hw. eapply runs_mono; [by apply Hm|].
  cbv beta. intros a w' [Hi HP]. split; [|by apply HQ]. unfold steady. by rewrite Hi.
Qed.

Lemma obeys_relock {A} c (op : comp W goerror A) Hop Q :
  obeys steady op Hop (fun r => is_ok r = true /\ Q r) ->
  obeys steady (withRelockRetry c op) (requests_relock c op Hop) Q.
Proof.
  intros Hq. apply obeys_try. eapply obeys_mono; [exact Hq|]. intros [a|e] [Hok HQ]; [|done]. exact HQ.
Qed.

Lemma obeys_session {A} (body : Session -> comp W goerror A) Hb Q :
  (forall s, obeys steady (body s) (Hb s) Q) ->
  obeys steady (with_session body) (requests_session body Hb) Q.
Proof.
  intros Hq. apply obeys_bind. apply (obeys_reads _ (fun _ => True)).
  { intros w _. eapply runs_mono; [apply gs_new|done]. }
  intros [] _. apply obeys_deferring, obeys_bind. apply (obeys_reads _ (fun _ => True)).
  { intros w _. eapply runs_mono; [apply gs_open|done]. }
  intros s _. apply obeys_deferring. eapply obeys_mono; [apply Hq|]. cbv beta. intros r Hr.
  apply obeys_one_call. intros w Hw. unfold steady. rewrite gs_closesession. split; [done|].
  apply obeys_one_call. intros w' Hw'. unfold steady. by rewrite gs_close.
Qed.

Lemma obeys_unlocked Q : (forall c, Q (Ok c)) ->
  obeys steady (unlockedCollection IsValid) (requests_unlocked IsValid) Q.
Proof.
  intros HQ. apply obeys_bind, obeys_bind.
  apply (obeys_reads _ (fun cs => In loginKeychainObjectPath cs)).
  { intros w _. eapply runs_mono; [apply gs_collections|]. by intros cs w' [? ?]. }
  intros cs Hcs. assert (Hex : existsb (String.eqb loginKeychainObjectPath) cs = true).
  { apply existsb_exists. eexists. split; [exact Hcs|]. apply String.eqb_refl. }
  rewrite Hex. apply obeys_ret, obeys_bind, obeys_try, obeys_bind.
  apply (obeys_reads _ (fun _ => True)).
  { intros w _. eapply runs_mono; [apply gs_islocked|done]. }
  intros [] _; cbn.
  - intros w Hw. destruct (gs_unlock [loginKeychainObjectPath] w) as (u & w' & -> & Hi). cbn.
    unfold steady. rewrite Hi. by split.
  - apply HQ.
Qed.

(** A search finds what it would have found at the start. *)
Lemma obeys_search c attrs Q :
  (forall m p, undisplaced m -> (exists it, m !! p = Some it /\ attrs ⊆ it_attributes it) <->
     (exists it0, m0 !! p = Some it0 /\ attrs ⊆ it_attributes it0)) ->
  (forall l, NoDup l -> (forall p, p ∈ l <-> exists it, m0 !! p = Some it /\ attrs ⊆ it_attributes it) ->
     Q (Ok l)) ->
  obeys steady (svc_SearchCollection c attrs) (requests_search c attrs) Q.
Proof.
  intros Hsame HQ. apply (obeys_reads _ (fun l => NoDup l /\
    forall p, p ∈ l <-> exists it, m0 !! p = Some it /\ attrs ⊆ it_attributes it)).
  - intros w Hw. eapply runs_mono; [apply gs_search|]. cbv beta. intros l w' (Hi & Hnd & Hl).
    split; [done|]. split; [done|]. intros p. rewrite Hl. by apply Hsame.
  - intros l [Hnd Hl]. by apply HQ.
Qed.

(** What the requests for an item of the store find. *)
Lemma obeys_getattributes p it0 id s Q : m0 !! p = Some it0 -> holds id s it0 ->
  (forall s1, seen id s1 -> Q (Ok (extra ∪ stored_metadata ord k id (Metadata s1)))) ->
  obeys steady (svc_GetAttributes p) (requests_getattributes p) Q.
Proof.
  intros Hp Hh HQ. apply obeys_runs. intros w Hw.
  destruct (undisplaced_held _ p it0 id s Hw Hp Hh) as (it & Hit & s1 & s2 & Hs1 & _ & Ha & _).
  eapply runs_mono; [by apply gs_getattributes|]. cbv beta. intros a w' [-> Hi]. unfold steady.
  rewrite Hi, Ha. split; [done|]. by apply HQ.
Qed.

Lemma obeys_getsecret p sess it0 id s Q : m0 !! p = Some it0 -> holds id s it0 ->
  (forall s2 data, seen id s2 -> restore id (Metadata s2) data = Ok s2 -> Q (Ok data)) ->
  obeys steady (svc_GetSecret p sess) (requests_getsecret p sess) Q.
Proof.
  intros Hp Hh HQ. apply obeys_runs. intros w Hw.
  destruct (undisplaced_held _ p it0 id s Hw Hp Hh) as (it & Hit & s1 & s2 & _ & Hs2 & _ & Hr).
  eapply runs_mono; [by apply gs_getsecret|]. cbv beta. intros v w' [-> Hi]. unfold steady.
  rewrite Hi. split; [done|]. by apply (HQ s2).
Qed.

Lemma clean_seen id s : seen id s ->
  safelyCleanMetadata ord (extra ∪ stored_metadata ord k id (Metadata s)) = Metadata s.
Proof.
  intros Hs. destruct (seen_held id s Hs) as [[Hu Hd] _]. destruct Hforeign as [_ Hf].
  by apply metadata_stored_clean.
Qed.

Lemma seen_id id s : seen id s -> (extra ∪ stored_metadata ord k id (Metadata s)) !! "id" = Some id.
Proof.
  intros Hs. destruct (seen_held id s Hs) as [[Hu Hd] _]. destruct Hforeign as [Hf _].
  change "id" with secretIDKey. rewrite lookup_union_r by done.
  apply (identity_id ord k id {| it_label := ""; it_attributes := stored_metadata ord k id (Metadata s);
    it_value := [] |}). by apply identity_subseteq.
Qed.

(** A secret that a reader may put together: the metadata of one, the value of
    another. *)
Definition blend (id : ID) (r : result goerror T) : Prop := exists s1 s2 data,
  seen id s1 /\ seen id s2 /\ restore id (Metadata s2) data = Ok s2 /\ r = restore id (Metadata s1) data.

Lemma obeys_Get id : obeys steady (Get IsValid ord k id) (requests_Get IsValid ord k id) (fun r =>
  if decide (is_Some (content m0 !! id)) then blend id r else r = Err ErrCredentialNotFound).
Proof.
  apply obeys_session. intros sess. apply obeys_bind, obeys_unlocked. intros coll.
  apply obeys_bind, obeys_wrapped, obeys_search; [intros; by apply undisplaced_search|]. intros l Hnd Hl.
  pose proof (kept_search ord k _ id l Hkept Hnd Hl) as Hc. destruct l as [|p l].
  - apply obeys_throw. rewrite Hc. rewrite decide_False; [done|]. by intros [? ?].
  - destruct Hc as (-> & it0 & s & Hp & Hh & Hs).
    apply obeys_bind. eapply obeys_getattributes; [done..|]. intros s1 Hs1.
    apply obeys_bind, obeys_relock. eapply obeys_getsecret; [done..|]. intros s2 data Hs2 Hr.
    split; [done|]. apply obeys_lift. rewrite clean_seen by done. rewrite decide_True by done.
    by exists s1, s2, data.
Qed.

(** A request that writes to an item. *)
Lemma obeys_update p it0 id s (f : Item -> Item) (m : comp W goerror unit) Q :
  m0 !! p = Some it0 -> holds id s it0 ->
  (forall w it, items w !! p = Some it -> runs m w (fun _ w' => items w' = <[p := f it]> (items w))) ->
  (forall it, mixed id it -> mixed id (f it)) -> Q (Ok tt) -> obeys steady m (one_request m) Q.
Proof.
  intros Hp Hh Hm Hf HQ. apply obeys_runs. intros w Hw.
  destruct (undisplaced_held _ p it0 id s Hw Hp Hh) as (it & Hit & Hx).
  eapply runs_mono; [by apply Hm|]. cbv beta. intros [] w' Hi. split; [|done].
  unfold steady. rewrite Hi. eapply undisplaced_write; [done..|by apply Hf].
Qed.

Lemma obeys_Save id s : saves id s ->
  obeys steady (Save IsValid ord k id s) (requests_Save IsValid ord k id s) (fun r => r = Ok tt).
Proof.
  intros Hs. destruct (Hsaves id s Hs) as [(Hv & Hmd & value & Hm & Hr) [s0 Hs0]].
  apply obeys_session. intros sess. apply obeys_bind, obeys_unlocked. intros coll.
  apply obeys_bind, obeys_lift. rewrite Hm.
  apply obeys_bind. eapply (obeys_reads _ (fun sec => plain sec = value)).
  { intros w _. eapply runs_mono; [apply gs_newsecret|]. by intros sec w' [? ?]. }
  intros sec Hsec. apply obeys_bind, obeys_search; [intros; by apply undisplaced_search|]. intros l Hnd Hl.
  pose proof (kept_search ord k _ id l Hkept Hnd Hl) as Hc. destruct l as [|p l]; [congruence|].
  destruct Hc as (-> & it0 & s' & Hp & Hh & _).
  assert (Hseen : seen id s) by by right.
  apply obeys_bind, obeys_relock.
  apply (obeys_update p it0 id s' (fun it => {| it_label := it_label it; it_attributes := it_attributes it;
    it_value := plain sec |})); [done|done|intros; by apply gs_setsecret| |].
  { intros it (s1 & s2 & Hs1 & _ & Ha & _). exists s1, s. by rewrite Hsec. }
  split; [done|]. apply obeys_try.
  apply (obeys_update p it0 id s' (fun it => {| it_label := it_label it;
    it_attributes := stored_metadata ord k id (Metadata s); it_value := it_value it |}));
    [done|done|intros; by apply gs_setattributes| |].
  { intros it (s1 & s2 & _ & Hs2 & _ & Hr2). by exists s, s2. }
  apply obeys_try.
  apply (obeys_update p it0 id s' (fun it => {| it_label := itemLabel k id;
    it_attributes := it_attributes it; it_value := it_value it |}));
    [done|done|intros; by apply gs_setlabel|done|].
  by apply obeys_ret.
Qed.

Lemma obeys_Delete id : content m0 !! id = None ->
  obeys steady (Delete IsValid ord k id) (requests_Delete IsValid ord k id) (fun r => r = Ok tt).
Proof.
  intros Hno. apply obeys_session. intros sess. apply obeys_bind, obeys_unlocked. intros coll.
  apply obeys_bind, obeys_search; [intros; by apply undisplaced_search|]. intros l Hnd Hl.
  pose proof (kept_search ord k _ id l Hkept Hnd Hl) as Hc. destruct l as [|p l].
  - by apply obeys_ret.
  - destruct Hc as (_ & it & s & _ & _ & Hs). congruence.
Qed.

(** The identifiers of the items at some paths. *)
Definition named_at (l : list ObjectPath) (id : ID) : Prop :=
  exists p it s, p ∈ l /\ m0 !! p = Some it /\ holds id s it.

Lemma named_at_cons p l it id s : m0 !! p = Some it -> holds id s it ->
  forall j, named_at (p :: l) j <-> j = id \/ named_at l j.
Proof.
  intros Hp Hh j. split.
  - intros (q & jt & u & [->|Hq]%elem_of_cons & Hjt & Hj); [|right; by exists q, jt, u].
    left. apply (holds_id (extra := extra)) in Hj, Hh; [|done..]. by simplify_eq.
  - intros [->|(q & jt & u & Hq & Hjt & Hj)]; [exists p, it, s|exists q, jt, u]; (split; [|done]); set_solver.
Qed.

(** The items of the store are those of its identifiers. *)
Lemma named_at_service l :
  (forall p, p ∈ l <-> exists it, m0 !! p = Some it /\ service_identity ⊆ it_attributes it) ->
  known (extra := extra) ord k m0 l /\ forall id, named_at l id <-> is_Some (content m0 !! id).
Proof.
  intros Hl. split; [by apply search_known|]. intros id. split.
  - intros (p & it & s & _ & Hp & Hh). exists s. rewrite (content_lookup (extra := extra)) by done. eauto.
  - intros [s Hs]. rewrite (content_lookup (extra := extra)) in Hs by done. destruct Hs as (p & it & Hp & Hh).
    exists p, it, s. split; [|done]. apply Hl. exists it. split; [done|]. by eapply holds_service.
Qed.

Lemma seen_restores id s : seen id s -> exists v data,
  SetMetadata (factory k id) (Metadata s) = Ok v /\ restore id (Metadata s) data = Ok s.
Proof.
  intros Hs. assert (Hr : exists data, restore id (Metadata s) data = Ok s).
  { destruct Hs as [Hs|Hs].
    - rewrite (content_lookup (extra := extra)) in Hs by done. destruct Hs as (p & it & _ & _ & _ & _ & Hr). eauto.
    - destruct (Hsaves id s Hs) as [(_ & _ & data & _ & Hr) _]. eauto. }
  destruct Hr as [data Hr]. pose proof Hr as Hv. unfold restore_secret in Hv.
  apply result_bind_Ok_inv in Hv as (v & Hv & _). eauto.
Qed.

Lemma obeys_collectMetadata l acc Q : known (extra := extra) ord k m0 l ->
  (forall m, (forall id, is_Some (m !! id) <-> is_Some (acc !! id) \/ named_at l id) -> Q (Ok m)) ->
  obeys steady (collectMetadata ord k l acc) (requests_metadata ord k l acc) Q.
Proof.
  revert acc. induction l as [|p l IH]; intros acc Hl HQ.
  { apply obeys_ret, HQ. intros id. split; [by left|]. intros [?|(? & ? & ? & Hin & _)]; [done|].
    by apply elem_of_nil in Hin. }
  apply list.Forall_cons in Hl as [(it & id & s & Hp & Hh) Hl]. cbn [collectMetadata].
  apply obeys_bind. eapply obeys_getattributes; [done..|]. intros s1 Hs1.
  rewrite (seen_id id s1 Hs1). destruct (seen_restores id s1 Hs1) as (v & data & Hv & _).
  apply obeys_bind, obeys_lift. destruct (seen_held id s1 Hs1) as [_ Hid].
  unfold ParseID, valid. rewrite Hid. cbv beta zeta. rewrite clean_seen by done.
  apply obeys_bind, obeys_lift. rewrite Hv. apply IH; [done|]. intros m Hm. apply HQ. intros j.
  rewrite Hm, (named_at_cons p l it id s Hp Hh j), lookup_insert_is_Some'. naive_solver.
Qed.

Lemma obeys_GetAllMetadata :
  obeys steady (GetAllMetadata IsValid ord k) (requests_GetAllMetadata IsValid ord k)
    (fun r => exists m, r = Ok m /\ dom m = dom (content m0)).
Proof.
  apply obeys_session. intros sess. apply obeys_bind, obeys_unlocked. intros coll.
  apply obeys_bind, obeys_wrapped, obeys_search; [intros; by apply undisplaced_service|]. intros l Hnd Hl.
  destruct (named_at_service l Hl) as [Hknown Hnamed].
  apply obeys_collectMetadata; [done|]. intros m Hm. exists m. split; [done|].
  apply set_eq. intros id. rewrite !elem_of_dom, Hm, Hnamed, lookup_empty. split; [|by right].
  by intros [[? ?]|?].
Qed.

(** Every blend of the secrets of an identifier can be restored. *)
Context (Hblend : forall id r, blend id r -> is_ok r = true).

Lemma blend_Ok id r : blend id r -> exists v, r = Ok v /\ blend id (Ok v).
Proof. intros Hr. pose proof (Hblend id r Hr). destruct r as [v|e]; [|done]. by exists v. Qed.

Lemma obeys_collectSecrets pattern coll sess l acc Q : known (extra := extra) ord k m0 l ->
  (forall m, (forall id, is_Some (m !! id) <->
                is_Some (acc !! id) \/ pattern_Match pattern id = true /\ named_at l id) ->
     (forall id v, m !! id = Some v -> acc !! id = Some v \/ blend id (Ok v)) -> Q (Ok m)) ->
  obeys steady (collectSecrets ord k pattern coll sess l acc)
    (requests_secrets ord k pattern coll sess l acc) Q.
Proof.
  revert acc. induction l as [|p l IH]; intros acc Hl HQ.
  { apply obeys_ret, HQ; [|by left]. intros id. split; [by left|].
    intros [?|(_ & ? & ? & ? & Hin & _)]; [done|]. by apply elem_of_nil in Hin. }
  apply list.Forall_cons in Hl as [(it & id & s & Hp & Hh) Hl]. cbn [collectSecrets].
  apply obeys_bind. eapply obeys_getattributes; [done..|]. intros s1 Hs1.
  rewrite (seen_id id s1 Hs1). destruct (seen_held id s1 Hs1) as [_ Hid].
  unfold ParseID, valid. rewrite Hid. cbn [negb]. cbv iota beta.
  destruct (pattern_Match pattern id) eqn:Hpm; cbn [negb].
  - apply obeys_bind, obeys_bind, obeys_relock. eapply obeys_getsecret; [done..|]. intros s2 data Hs2 Hr.
    split; [done|]. apply obeys_lift. rewrite clean_seen by done.
    destruct (blend_Ok id (restore id (Metadata s1) data)) as (v & Hv & Hbv); [by exists s1, s2, data|].
    rewrite Hv. apply IH; [done|]. intros m Hm Hmv. apply HQ.
    + intros j. rewrite Hm, (named_at_cons p l it id s Hp Hh j), lookup_insert_is_Some'. naive_solver.
    + intros j u Hu. destruct (Hmv j u Hu) as [[[<- <-]|[_ ?]]%lookup_insert_Some|?]; auto.
  - apply (IH acc); [done|]. intros m Hm Hmv. apply HQ; [|done].
    intros j. rewrite Hm, (named_at_cons p l it id s Hp Hh j). naive_solver congruence.
Qed.

Lemma obeys_Filter pattern :
  obeys steady (Filter IsValid ord k pattern) (requests_Filter IsValid ord k pattern) (fun r =>
    if decide (matching pattern (content m0) = ∅) then r = Err ErrCredentialNotFound
    else exists m, r = Ok m /\ dom m = dom (matching pattern (content m0)) /\
      forall id v, m !! id = Some v -> blend id (Ok v)).
Proof.
  apply obeys_session. intros sess. apply obeys_bind, obeys_unlocked. intros coll.
  apply obeys_bind, obeys_wrapped, obeys_search; [intros; by apply undisplaced_service|]. intros l Hnd Hl.
  destruct (named_at_service l Hl) as [Hknown Hnamed].
  assert (Hdom : forall m : gmap ID T, (forall id, is_Some (m !! id) <-> is_Some ((∅ : gmap ID T) !! id) \/
      pattern_Match pattern id = true /\ named_at l id) -> dom m = dom (matching pattern (content m0))).
  { intros m Hm. apply set_eq. intros id. rewrite !elem_of_dom, Hm, Hnamed, lookup_empty.
    unfold matching. rewrite map_lookup_filter. destruct (content m0 !! id) as [s|]; cbn.
    - destruct (pattern_Match pattern id); cbn; naive_solver.
    - naive_solver. }
  assert (Hempty : forall m : gmap ID T, dom m = dom (matching pattern (content m0)) ->
    m = ∅ <-> matching pattern (content m0) = ∅).
  { intros m Hm. by rewrite <- !dom_empty_iff_L, Hm. }
  destruct l as [|p l].
  - apply obeys_throw. assert (Hd0 : dom (∅ : gmap ID T) = dom (matching pattern (content m0))).
    { apply Hdom. intros id. split; [by left|]. intros [?|(_ & ? & ? & ? & Hin & _)]; [done|].
      by apply elem_of_nil in Hin. }
    rewrite decide_True; [done|]. by apply (Hempty ∅ Hd0).
  - apply obeys_bind, obeys_collectSecrets; [done|]. intros m Hm Hb.
    assert (Hdm : dom m = dom (matching pattern (content m0))) by by apply Hdom.
    destruct (decide (m = ∅)) as [Hm0|Hm0].
    + apply obeys_throw. rewrite decide_True; [done|]. by apply (Hempty m).
    + apply obeys_ret. rewrite decide_False by by rewrite <- (Hempty m). exists m. split; [done|].
      split; [done|]. intros id v Hv. destruct (Hb id v Hv) as [Hv0|?]; [|done]. by rewrite lookup_empty in Hv0.
Qed.

(** ** Any number of clients *)

(** The clients that leave every identifier with its secret: they save under
    identifiers that have one and delete those that have none. *)
Definition keeping (c : store_call T) : Prop :=
  match c with
  | CallSave id s | CallUpsert id s => saves id s
  | CallDelete id => content m0 !! id = None
  | CallGet _ | CallGetAllMetadata | CallFilter _ => True
  end.

(** What such a client is told, whatever the others do meanwhile. *)
Definition expected (c : store_call T) (r : store_reply T) : Prop :=
  match c with
  | CallSave _ _ | CallUpsert _ _ | CallDelete _ => r = ReplyDone
  | CallGet id =>
      if decide (is_Some (content m0 !! id)) then exists v, r = ReplySecret v /\ blend id (Ok v)
      else r = ReplyError ErrCredentialNotFound
  | CallGetAllMetadata => r = ReplyListing (dom (content m0))
  | CallFilter pattern =>
      if decide (matching pattern (content m0) = ∅) then r = ReplyError ErrCredentialNotFound
      else exists m, r = ReplySecrets m /\ dom m = dom (matching pattern (content m0)) /\
        forall id v, m !! id = Some v -> blend id (Ok v)
  end.

Abbreviation linux_prog := (linux_prog IsValid ord k) (only parsing).

Lemma obeys_reply {A} (f : A -> store_reply T) (m : comp W goerror A) Hm Q (Q' : store_reply T -> Prop) :
  obeys steady m Hm Q -> (forall r, Q r -> Q' (reply_of f r)) -> guarded steady Q' (reply_prog anything f m).
Proof. intros Ho HQ. apply guarded_andThen. eapply guarded_mono; [exact Ho|exact HQ]. Qed.

Lemma linux_expected c : keeping c -> guarded steady (expected c) (linux_prog c).
Proof.
  intros Hc. destruct c as [id|id| |id s|id s|pattern]; cbn [keeping LinuxShared.linux_prog] in Hc |- *.
  - apply (obeys_reply _ _ _ _ _ (obeys_Delete id Hc)). by intros r ->.
  - apply (obeys_reply _ _ _ _ _ (obeys_Get id)). cbv beta. intros r Hr. cbn [expected].
    case_decide; [|by rewrite Hr]. destruct (blend_Ok id r Hr) as (v & -> & Hv). by exists v.
  - apply (obeys_reply _ _ _ _ _ obeys_GetAllMetadata). cbv beta. intros r (m & -> & Hd). cbn. by rewrite Hd.
  - apply (obeys_reply _ _ _ _ _ (obeys_Save id s Hc)). by intros r ->.
  - apply (obeys_reply _ _ _ _ _ (obeys_Save id s Hc)). by intros r ->.
  - apply (obeys_reply _ _ _ _ _ (obeys_Filter pattern)). cbv beta. intros r Hr. cbn [expected].
    case_decide; [by rewrite Hr|]. destruct Hr as (m & -> & Hd & Hb). by exists m.
Qed.
End in_place.

(** ** Properties *)

(** C4: Clients of one Linux keychain need no lock to keep its secrets. Any
    number of clients save and upsert secrets under identifiers that have one
    and read, list and filter, in any schedule of their requests to the Secret
    Service: every save succeeds, no reader ever misses a secret or sees one
    twice, a listing and a filter give exactly the identifiers that were there,
    and what a reader is given under an identifier has the metadata of one of
    its secrets, before or meanwhile, and the value of one. All the while the
    items of other applications are untouched and no item is added or lost;
    and each client is done after a bounded number of its own requests. *)
Theorem linux_shared {T W} `{Store.Secret T} `{GrantedService W items plain extra}
    IsValid ord `{!MapOrder ord} (k : keychainStore T) (call : nat -> store_call T)
    (saves : ID -> T -> Prop) w0 schedule :
  foreign (extra := extra) -> kept (extra := extra) ord k (items w0) ->
  (forall id s, saves id s ->
     acceptable (extra := extra) k id s /\ is_Some (content ord k (items w0) !! id)) ->
  (forall id r, blend ord k (items w0) saves id r -> is_ok r = true) ->
  (forall p, keeping ord k (items w0) saves (call p)) ->
  let st := turns (fun p => linux_prog IsValid ord k (call p)) schedule (pool_of w0) in
  Forall (fun '(p, r) => expected ord k (items w0) saves (call p) r) (pl_log st) /\
  undisplaced (extra := extra) ord k (items w0) saves (items (pl_state st)) /\
  (forall p w, pl_work st !! p = Some w -> exists n r,
     pl_log (turns (fun p => linux_prog IsValid ord k (call p)) (replicate n p) st) =
     pl_log st ++ [(p, r)] /\ expected ord k (items w0) saves (call p) r).
Proof.
  intros Hf Hk Hs Hb Hc st.
  pose proof (turns_ok (fun p => linux_prog IsValid ord k (call p))
    (steady (items := items) (extra := extra) ord k (items w0) saves)
    (fun p => expected ord k (items w0) saves (call p))) as Hok.
  assert (Hstart : forall p, guarded (steady (items := items) (extra := extra) ord k (items w0) saves)
    (expected ord k (items w0) saves (call p)) (linux_prog IsValid ord k (call p)))
    by (intros p; by apply linux_expected).
  assert (H0w : steady (items := items) (extra := extra) ord k (items w0) saves w0)
    by by apply undisplaced_start.
  destruct (Hok schedule w0 Hstart H0w) as [Hst Hw Hl]. split; [done|]. split; [done|].
  intros p w Hp. destruct (turns_alone (fun p => linux_prog IsValid ord k (call p)) p w st Hp) as (n & r & Hn).
  exists n, r. split; [done|]. destruct (Hok (schedule ++ replicate n p) w0 Hstart H0w) as [_ _ Hl'].
  unfold turns in Hl', Hn. rewrite foldl_app in Hl'. unfold st, turns in Hn. rewrite Hn in Hl'.
  apply Forall_app in Hl' as [_ Hl']. by apply list.Forall_cons in Hl' as [? _].
Qed.

(** Client 0 replaces the secret; 1 reads it; 2 lists the store. *)
Definition sample_update : PassValue :=
  {| pv_value := [Byte.x42]; pv_metadata := {["owner" := "you"]} |}.
Definition sample_clients (p : nat) : store_call PassValue :=
  match p with
  | O => CallUpsert "db/password" sample_update
  | 1 => CallGet "db/password"
  | _ => CallGetAllMetadata
  end.

Definition sample_prog (c : store_call PassValue) : prog (gmap ObjectPath Item) (store_reply PassValue) :=
  linux_prog (fun _ => true) (fun l => l) sample_keychain c.

(** 0 has written its value and not yet its metadata when 1 reads. *)
Definition sample_turns : list nat := (replicate 9 0 ++ replicate 12 1 ++ replicate 8 0 ++ replicate 11 2)%nat.

(** What 1 is given: the new value under the old metadata. *)
Definition sample_torn : PassValue := {| pv_value := [Byte.x42]; pv_metadata := {["owner" := "me"]} |}.

Lemma sample_content_lookup :
  content (fun l => l) sample_keychain sample_items !! "db/password" = Some sample_secret.
Proof.
  apply (content_lookup (extra := ∅) (fun l => l) sample_keychain _ _ _ sample_kept).
  eexists "/1", _. split; [reflexivity|apply sample_held].
Qed.

Lemma sample_update_acceptable : acceptable (extra := ∅) sample_keychain "db/password" sample_update.
Proof.
  split; [reflexivity|]. split; [|by exists [Byte.x42]]. split.
  - intros j v Hj. simpl in Hj. unfold PassValue_Metadata, sample_update in Hj. cbn [pv_metadata] in Hj.
    apply lookup_singleton_Some in Hj as [<- _]. reflexivity.
  - intros j [v Hv]. by rewrite lookup_empty in Hv.
Qed.

Lemma linux_shared_witness :
  let st := turns (fun p => sample_prog (sample_clients p)) sample_turns (pool_of sample_items) in
  map fst (pl_log st) = [1; 0; 2]%nat /\
  Forall (fun '(p, r) => expected (fun l => l) sample_keychain sample_items
    (fun id s => id = "db/password" /\ s = sample_update) (sample_clients p) r) (pl_log st).
Proof.
  intros st. split; [vm_compute; reflexivity|].
  apply (linux_shared (items := fun m => m) (fun _ => true) (fun l => l) sample_keychain sample_clients
    (fun id s => id = "db/password" /\ s = sample_update) sample_items sample_turns
    foreign_empty sample_kept).
  - intros id s [-> ->]. split; [apply sample_update_acceptable|]. rewrite sample_content_lookup. by eexists.
  - intros id r (s1 & s2 & data & _ & _ & _ & ->). reflexivity.
  - by intros [|[|p]].
Defined.

(** An update on Linux is not atomic for readers: the value and the metadata are
    written by two requests, and a client that reads in between is given a
    secret that nobody saved. *)
Theorem linux_torn_read :
  let st := turns (fun p => sample_prog (sample_clients p)) sample_turns (pool_of sample_items) in
  pl_log st = [(1, ReplySecret sample_torn); (0, ReplyDone); (2, ReplyListing {["db/password"]})]%nat /\
  content (fun l => l) sample_keychain sample_items !! "db/password" = Some sample_secret /\
  sample_torn <> sample_secret /\ sample_torn <> sample_update.
Proof.
  assert (Hv : pv_value sample_torn <> pv_value sample_secret) by (vm_compute; discriminate).
  assert (Hm : pv_metadata sample_torn !! "owner" <> pv_metadata sample_update !! "owner")
    by (vm_compute; discriminate).
  refine (conj _ (conj sample_content_lookup
    (conj (fun Heq => Hv (f_equal pv_value Heq)) (fun Heq => Hm (f_equal (fun s => pv_metadata s !! "owner") Heq))))).
  vm_compute. reflexivity.
Qed.

(** Two clients save the first secret of an identifier with different metadata:
    neither finds an item, and both create one. *)
Definition sample_first (p : nat) : store_call PassValue :=
  CallSave "db/password" (if (p =? 0)%nat then sample_secret else sample_update).

Example first_saves_duplicate :
  let st := turns (fun p => sample_prog (sample_first p))
    (replicate 8 0 ++ replicate 8 1 ++ replicate 4 0 ++ replicate 4 1)%nat (pool_of ∅) in
  pl_log st = [(0, ReplyDone); (1, ReplyDone)]%nat /\ size (pl_state st) = 2%nat.
Proof. vm_compute. split; reflexivity. Qed.
