(* ===== verification/Api.v ===== *)
(** Package x/api: names (name.go), versions (version.go) over the vendored
    golang.org/x/mod/semver, the daemon's version record (daemon.go) and the
    socket paths (defaults.go, defaults_linux.go, defaults_darwin.go,
    defaults_windows.go). *)

From S2P Require Import Prelude GoErrors GoStrings.

(** ** name.go *)

Definition ErrEmptyName : goerror := Sentinel "empty name".

(** A [Name] is the string it wraps. *)
Definition validName (s : string) : option goerror :=
  if String.eqb s "" then Some ErrEmptyName else None.

Definition NewName (s : string) : result goerror string :=
  match validName s with
  | Some err => Err (Wrap "parsing name: %w" [err])
  | None => Ok s
  end.

Definition MustNewName (s : string) : outcome goerror string :=
  match NewName s with
  | Ok v => Returns v
  | Err err => Panics err
  end.

(** ** semver *)

Definition isIdentChar (c : ascii) : bool :=
  let c := rune_of c in
  (((65 <=? c) && (c <=? 90)) || ((97 <=? c) && (c <=? 122)) ||
   ((48 <=? c) && (c <=? 57)) || (c =? 45))%Z.

(** The longest prefix of [s] whose bytes satisfy [f], and the rest. *)
Fixpoint string_span (f : ascii -> bool) (s : string) : string * string :=
  match s with
  | EmptyString => ("", "")
  | String a s' => if f a then let '(t, r) := string_span f s' in (String a t, r) else ("", s)
  end.

Definition isNum (v : string) : bool := string_forallb is_digit v.

Definition isBadNum (v : string) : bool :=
  isNum v && (1 <? String.length v)%nat && HasPrefix v "0".

Definition parseInt (v : string) : option (string * string) :=
  match v with
  | EmptyString => None
  | String c _ =>
      if negb (is_digit c) then None
      else let '(t, rest) := string_span is_digit v in
           if Ascii.eqb c "0" && negb (String.length t =? 1)%nat then None
           else Some (t, rest)
  end.

(** The loop of [parsePrerelease] from the byte after the '-': [ident] is the
    identifier being read, [v[start:i]]. It stops before a '+'. *)
Fixpoint parsePrerelease_loop (v ident : string) : option (string * string) :=
  let close := String.eqb ident "" || isBadNum ident in
  match v with
  | EmptyString => if close then None else Some ("", "")
  | String c v' =>
      if Ascii.eqb c "+" then if close then None else Some ("", v)
      else if negb (isIdentChar c) && negb (Ascii.eqb c ".") then None
      else if Ascii.eqb c "." then
        if close then None
        else (fun '(t, r) => (String c t, r)) <$> parsePrerelease_loop v' ""
      else (fun '(t, r) => (String c t, r)) <$> parsePrerelease_loop v' (ident +:+ String c "")
  end.

Definition parsePrerelease (v : string) : option (string * string) :=
  match v with
  | String "-" v' => (fun '(t, r) => (String "-" t, r)) <$> parsePrerelease_loop v' ""
  | _ => None
  end.

(** The loop of [parseBuild]: [empty] tells whether [start == i]. *)
Fixpoint parseBuild_loop (v : string) (empty : bool) : bool :=
  match v with
  | EmptyString => negb empty
  | String c v' =>
      if negb (isIdentChar c) && negb (Ascii.eqb c ".") then false
      else if Ascii.eqb c "." then if empty then false else parseBuild_loop v' true
      else parseBuild_loop v' false
  end.

Definition parseBuild (v : string) : option (string * string) :=
  match v with
  | String "+" v' => if parseBuild_loop v' true then Some (v, "") else None
  | _ => None
  end.

Record parsed : Type := {
  p_major : string;
  p_minor : string;
  p_patch : string;
  p_short : string;
  p_prerelease : string;
  p_build : string
}.

(** The suffixes that may follow the patch number. *)
Definition parse_suffixes (v : string) : option (string * string) :=
  pre ← (if HasPrefix v "-" then parsePrerelease v else Some ("", v));
  let '(prerelease, v) := pre : string * string in
  bld ← (if HasPrefix v "+" then parseBuild v else Some ("", v));
  let '(build, v) := bld : string * string in
  if String.eqb v "" then Some (prerelease, build) else None.

Definition parse (v : string) : option parsed :=
  match v with
  | String "v" v =>
      '(major, v) ← parseInt v;
      match v with
      | EmptyString => Some (Build_parsed major "0" "0" ".0.0" "" "")
      | String "." v =>
          '(minor, v) ← parseInt v;
          match v with
          | EmptyString => Some (Build_parsed major minor "0" ".0" "" "")
          | String "." v =>
              '(patch, v) ← parseInt v;
              '(prerelease, build) ← parse_suffixes v;
              Some (Build_parsed major minor patch "" prerelease build)
          | _ => None
          end
      | _ => None
      end
  | _ => None
  end.

Definition IsValid (v : string) : bool :=
  match parse v with Some _ => true | None => false end.

Definition Canonical (v : string) : string :=
  match parse v with
  | None => ""
  | Some p =>
      if negb (String.eqb (p_build p) "")
      then take_bytes (String.length v - String.length (p_build p)) v
      else if negb (String.eqb (p_short p) "") then v +:+ p_short p
      else v
  end.

(** ** version.go *)

Definition ErrEmptyVersion : goerror := Sentinel "empty version".
Definition ErrVPrefix : goerror := Sentinel "missing version prefix".

(** [valid] of version.go; a [Version] is the string it wraps. *)
Definition valid_version (s : string) : option goerror :=
  if (0 <? String.length s)%nat && negb (HasPrefix s "v") then Some ErrVPrefix
  else if String.eqb s "" then Some ErrEmptyVersion
  else if negb (IsValid s) then Some (ErrorNew "invalid version: %s")
  else None.

Definition NewVersion (s : string) : result goerror string :=
  match valid_version s with
  | Some err => Err (Wrap "parsing version: %w" [err])
  | None => Ok s
  end.

Definition MustNewVersion (s : string) : outcome goerror string :=
  match NewVersion s with
  | Ok v => Returns v
  | Err err => Panics err
  end.

(** ** daemon.go, defaults*.go *)

Record DaemonVersion : Type := {
  dv_Version : string;
  dv_Date : string;
  dv_CommitHash : string
}.

Definition PluginLaunchedByEngineVar : string := "DOCKER_SECRETS_ENGINE_PLUGIN_LAUNCH_CFG".

(** Durations in nanoseconds. *)
Definition Second : Z := 1000000000.
Definition DefaultPluginRegistrationTimeout : Z := 5 * Second.
Definition DefaultClientRequestTimeout : Z := 0.
Definition DefaultClientResponseHeaderTimeout : Z := Second.

(** What the process reads of its environment to find the sockets. *)
Record Host : Type := {
  UserCacheDir : option string;
  UserConfigDir : result goerror string;
  TempDir : string;
  Getuid : Z;
  LookupEnv : string -> string
}.

Section paths.
Context (path_Join : list string -> string) (host : Host).

Definition DefaultSocketPath : string :=
  match UserCacheDir host with
  | Some dir => path_Join [dir; "docker-secrets-engine"; "engine.sock"]
  | None => path_Join [TempDir host; "docker-secrets-engine"; "engine.sock"]
  end.

Definition DefaultSecretsEngineDirectory : result goerror string :=
  dir <-? UserConfigDir host ;;
  Ok (path_Join [dir; "docker-secrets-engine"]).

Definition DaemonSocketPath_darwin : string :=
  match UserCacheDir host with
  | Some dir => path_Join [dir; "docker-secrets-engine"; "daemon.sock"]
  | None => path_Join [TempDir host; "docker-secrets-engine"; "daemon.sock"]
  end.

Definition DaemonSocketPath_linux : string :=
  "@docker-secrets-engine/" +:+ Itoa (Getuid host) +:+ "/daemon.sock".

Definition DaemonSocketPath_windows : string :=
  let base := LookupEnv host "LOCALAPPDATA" in
  let base := if String.eqb base ""
              then path_Join [LookupEnv host "USERPROFILE"; "AppData"; "Local"]
              else base in
  path_Join [base; "DockerSecretsEngine"; "service"; "daemon.sock"].
End paths.

(** ** Lemmas *)

Example IsValid_samples :
  map IsValid ["v1"; "v1.2"; "v1.2.3"; "v1.2.3-pre.1+meta"; "v1.2.3+meta-x"] =
    [true; true; true; true; true] /\
  map IsValid [""; "1.2.3"; "v01.2.3"; "v1.2.3-01"; "v1.2.3-"; "v1.2-pre"; "v1.2.3+"; "v1.2.3 "] =
    [false; false; false; false; false; false; false; false].
Proof. by vm_compute. Qed.

Lemma NewName_Ok s v : NewName s = Ok v <-> s <> "" /\ v = s.
Proof.
  unfold NewName, validName. destruct (String.eqb_spec s ""); split.
  - discriminate.
  - by intros [? _].
  - by intros [= <-].
  - by intros [_ ->].
Qed.

Lemma IsValid_v s : IsValid s = true -> HasPrefix s "v" = true.
Proof.
  unfold IsValid, parse. destruct s as [|c s]; [done|].
  destruct (Ascii.eqb_spec c "v") as [->|Hc].
  - intros _. apply (HasPrefix_append "v" s).
  - destruct c as [[] [] [] [] [] [] [] []]; done.
Qed.

Lemma NewVersion_Ok s v : NewVersion s = Ok v <-> IsValid s = true /\ v = s.
Proof.
  unfold NewVersion, valid_version. destruct (IsValid s) eqn:Hi.
  - rewrite (IsValid_v _ Hi). rewrite andb_false_r. simpl.
    destruct (String.eqb_spec s "") as [->|_]; [by vm_compute in Hi|].
    split; [by intros [= <-]|by intros [_ ->]].
  - split; [|by intros [? _]]. repeat case_match; try discriminate; done.
Qed.

(** ** Lemmas: parsing a version *)

(** [s] does not start with a byte that satisfies [f]. *)
Definition stops (f : ascii -> bool) (s : string) : bool :=
  match s with EmptyString => true | String a _ => negb (f a) end.

Lemma string_span_append f t r : string_forallb f t = true -> stops f r = true ->
  string_span f (t +:+ r) = (t, r).
Proof.
  intros Ht Hr. induction t as [|a t IH]; simpl.
  - destruct r as [|b r]; [done|]. simpl in Hr. apply negb_true_iff in Hr. simpl. by rewrite Hr.
  - simpl in Ht. apply andb_true_iff in Ht as [-> Ht]. by rewrite IH.
Qed.

Lemma parseInt_Itoa z r : (0 <= z)%Z -> stops is_digit r = true ->
  parseInt (Itoa z +:+ r) = Some (Itoa z, r).
Proof.
  intros Hz Hr. destruct (Itoa_head z Hz) as (c & t & He & Hd & H0). rewrite He.
  pose proof (string_span_append is_digit (String c t) r Hd Hr) as Hspan.
  unfold parseInt. cbn [String.append] in Hspan |- *. rewrite Hspan.
  simpl in Hd. apply andb_true_iff in Hd as [-> _]. cbn [negb].
  destruct (Ascii.eqb c "0") eqn:Hc; [|done]. by rewrite (H0 eq_refl).
Qed.

(** The text of a release version. *)
Definition release_version (a b c : Z) : string :=
  "v" +:+ Itoa a +:+ "." +:+ Itoa b +:+ "." +:+ Itoa c.

Lemma parse_release a b c sfx : (0 <= a)%Z -> (0 <= b)%Z -> (0 <= c)%Z ->
  stops is_digit sfx = true ->
  parse (release_version a b c +:+ sfx) =
  match parse_suffixes sfx with
  | Some (prerelease, build) => Some (Build_parsed (Itoa a) (Itoa b) (Itoa c) "" prerelease build)
  | None => None
  end.
Proof.
  intros Ha Hb Hc Hs. unfold release_version.
  rewrite <- !append_assoc. rewrite !append_assoc. unfold parse. cbn [String.append].
  rewrite parseInt_Itoa by done. cbn [mbind option_bind String.append].
  rewrite parseInt_Itoa by done. cbn [mbind option_bind String.append].
  rewrite parseInt_Itoa by done. cbn [mbind option_bind].
  by destruct (parse_suffixes sfx) as [[? ?]|].
Qed.

Lemma Canonical_release a b c build : (0 <= a)%Z -> (0 <= b)%Z -> (0 <= c)%Z ->
  (build = "" \/ parseBuild build = Some (build, "")) ->
  Canonical (release_version a b c +:+ build) = release_version a b c.
Proof.
  intros Ha Hb Hc Hbuild. unfold Canonical.
  assert (Hs : stops is_digit build = true /\ parse_suffixes build = Some ("", build)).
  { destruct Hbuild as [->|Hbuild]; [done|].
    destruct build as [|x build]; [done|]. unfold parseBuild in Hbuild.
    destruct (Ascii.eqb_spec x "+") as [->|Hx].
    - split; [done|]. unfold parse_suffixes. simpl. simpl in Hbuild.
      destruct (parseBuild_loop build true); [by destruct build|discriminate].
    - destruct x as [[] [] [] [] [] [] [] []]; done. }
  destruct Hs as [Hs1 Hs2]. rewrite parse_release, Hs2 by done. cbn [p_build p_short].
  destruct (String.eqb_spec build "") as [->|Hne]; cbn [negb].
  - cbn [String.eqb negb]. apply append_nil_r.
  - rewrite length_append. replace (_ + _ - _)%nat with (String.length (release_version a b c)) by lia.
    apply take_bytes_append.
Qed.
