(* ===== verification/Resolver.v ===== *)
(** Package x/api/resolver (resolver.go): the connect handler that serves a
    [secrets.Resolver] and the client that turns the remote service back into a
    [secrets.Resolver], over the generated messages of x/api/resolver/v1. *)

From S2P Require Import Prelude GoErrors GoStrings Secrets.

(** ** secrets.Resolver *)

(** The interface [secrets.Resolver] over the state [St] behind it. *)
Definition Resolver (St : Type) : Type := Pattern -> comp St goerror (list Envelope).

(** ** Protobuf messages and timestamps *)

(** [timestamppb.Timestamp]. *)
Record Timestamp : Type := { seconds : Z; nanos : Z }.

Definition timestamppb_New (t : time) : Timestamp :=
  {| seconds := (t / 1000000000)%Z; nanos := (t mod 1000000000)%Z |}.

(** [x.AsTime()], of a nil message too: its getters return 0. *)
Definition AsTime (x : option Timestamp) : time :=
  match x with
  | Some x => (seconds x * 1000000000 + nanos x)%Z
  | None => 0%Z
  end.

(** A string field that may be unset, and its getter. *)
Definition get_string (field : option string) : string := default "" field.

Record GetSecretsRequest : Type := { req_Pattern : option string }.

Record ResponseEnvelope : Type := {
  re_Id : option string;
  re_Value : bytes;
  re_Metadata : gmap string string;
  re_Provider : option string;
  re_Version : option string;
  re_CreatedAt : option Timestamp;
  re_ResolvedAt : option Timestamp;
  re_ExpiresAt : option Timestamp
}.

Record GetSecretsResponse : Type := { resp_Envelopes : list ResponseEnvelope }.

(** ** resolverService *)

Definition envelope_to_proto (envelope : Envelope) : ResponseEnvelope :=
  {| re_Id := Some (env_ID envelope);
     re_Value := env_Value envelope;
     re_Metadata := env_Metadata envelope;
     re_Provider := Some (env_Provider envelope);
     re_Version := Some (env_Version envelope);
     re_CreatedAt := Some (timestamppb_New (env_CreatedAt envelope));
     re_ResolvedAt := Some (timestamppb_New (env_ResolvedAt envelope));
     re_ExpiresAt := Some (timestamppb_New (env_ExpiresAt envelope)) |}.

Definition resolverService_GetSecrets {St} (resolver : Resolver St) (msg : GetSecretsRequest)
  : comp St goerror GetSecretsResponse :=
  let msgPattern := get_string (req_Pattern msg) in
  match ParsePattern msgPattern with
  | Err err => throw (ConnectError CodeInvalidArgument (Wrap "invalid pattern %q: %w" [err]))
  | Ok pattern =>
      try (resolver pattern) (fun r =>
        match r with
        | Err err =>
            if errors_Is err ErrNotFound then throw (ConnectError CodeNotFound ErrNotFound)
            else throw (ConnectError CodeInternal (Wrap "failed to get secret %q: %w" [err]))
        | Ok envelopes =>
            if (length envelopes =? 0)%nat then throw (ConnectError CodeNotFound ErrNotFound)
            else ret {| resp_Envelopes := map envelope_to_proto envelopes |}
        end)
  end.

(** ** resolverClient *)

(** The loop of the client: an envelope whose ID does not parse is skipped. *)
Fixpoint envelopes_from_proto (items : list ResponseEnvelope) : list Envelope :=
  match items with
  | [] => []
  | item :: items' =>
      match ParseID (get_string (re_Id item)) with
      | Err _ => envelopes_from_proto items'
      | Ok id =>
          {| env_ID := id;
             env_Value := re_Value item;
             env_Metadata := re_Metadata item;
             env_Provider := get_string (re_Provider item);
             env_Version := get_string (re_Version item);
             env_CreatedAt := AsTime (re_CreatedAt item);
             env_ResolvedAt := AsTime (re_ResolvedAt item);
             env_ExpiresAt := AsTime (re_ExpiresAt item) |} :: envelopes_from_proto items'
      end
  end.

(** [call] is the generated client's [GetSecrets]. *)
Definition resolverClient_GetSecrets {St}
    (call : GetSecretsRequest -> comp St goerror GetSecretsResponse) : Resolver St :=
  fun pattern =>
    try (call {| req_Pattern := Some pattern |}) (fun r =>
      match r with
      | Err err =>
          let err := match connect_CodeOf err with CodeNotFound => ErrNotFound | _ => err end in
          throw err
      | Ok resp => ret (envelopes_from_proto (resp_Envelopes resp))
      end).

(** ** The connect transport *)

(** Protobuf strings are UTF-8: [utf8] is the check, which plain ASCII passes. *)
Class Utf8 (utf8 : string -> bool) : Prop :=
  utf8_ascii s : string_forallb ascii_byte s = true -> utf8 s = true.

(** The strictest check: ASCII only. *)
#[export] Instance ascii_Utf8 : Utf8 (string_forallb ascii_byte).
Proof. by intros s. Qed.

Section transport.
Context (utf8 : string -> bool).

Definition utf8_field (field : option string) : bool := utf8 (get_string field).

Definition utf8_map (m : gmap string string) : bool :=
  forallb (fun kv => utf8 kv.1 && utf8 kv.2) (map_to_list m).

Definition encodable_item (e : ResponseEnvelope) : bool :=
  utf8_field (re_Id e) && utf8_map (re_Metadata e) &&
  utf8_field (re_Provider e) && utf8_field (re_Version e).

Definition encodable_request (msg : GetSecretsRequest) : bool := utf8_field (req_Pattern msg).

Definition encodable_response (msg : GetSecretsResponse) : bool :=
  forallb encodable_item (resp_Envelopes msg).

(** A unary connect call of a reachable peer: messages arrive as they were sent
    when they can be encoded; of an error, its code and its text arrive. *)
Class Transport {St} (transport : (GetSecretsRequest -> comp St goerror GetSecretsResponse) ->
    GetSecretsRequest -> comp St goerror GetSecretsResponse) : Prop := {
  transport_ok handler msg s resp s' :
    encodable_request msg = true -> handler msg s = (Ok resp, s') ->
    encodable_response resp = true -> transport handler msg s = (Ok resp, s');
  transport_err handler msg s err s' :
    encodable_request msg = true -> handler msg s = (Err err, s') ->
    exists text, transport handler msg s =
      (Err (ConnectError (connect_CodeOf err) (ErrorNew text)), s')
}.

(** A transport with these properties: the error's text is its code's. *)
Definition plain_transport {St} (handler : GetSecretsRequest -> comp St goerror GetSecretsResponse)
    (msg : GetSecretsRequest) : comp St goerror GetSecretsResponse :=
  if encodable_request msg then
    try (handler msg) (fun r =>
      match r with
      | Ok resp => if encodable_response resp then ret resp
                   else throw (ConnectError CodeInternal (ErrorNew "marshal message"))
      | Err err => throw (ConnectError (connect_CodeOf err) (ErrorNew "remote error"))
      end)
  else throw (ConnectError CodeInternal (ErrorNew "marshal message")).

#[export] Instance plain_transport_Transport {St} : Transport (@plain_transport St).
Proof.
  split; unfold plain_transport, try; intros handler msg s ? s' Hm Hh.
  - intros Hr. by rewrite Hm, Hh, Hr.
  - rewrite Hm, Hh. by eexists.
Qed.
End transport.

(** ** Lemmas *)

Lemma AsTime_New t : AsTime (Some (timestamppb_New t)) = t.
Proof. unfold AsTime, timestamppb_New. simpl. pose proof (Z.div_mod t 1000000000). lia. Qed.

Lemma get_string_Some s : get_string (Some s) = s.
Proof. done. Qed.

(** What the client keeps of the envelopes a handler sent. *)
Lemma envelopes_round_trip l :
  envelopes_from_proto (map envelope_to_proto l) =
  base.filter (fun e => validIdentifier (env_ID e) = true) l.
Proof.
  induction l as [|e l IH]; [done|].
  cbn [map envelopes_from_proto envelope_to_proto re_Id re_Value re_Metadata
       re_Provider re_Version re_CreatedAt re_ResolvedAt re_ExpiresAt].
  rewrite !get_string_Some.
  rewrite !AsTime_New, filter_cons, IH. unfold ParseID, valid. case_decide as Hv.
  - rewrite Hv. cbn [negb]. f_equal. by destruct e.
  - apply not_true_iff_false in Hv. by rewrite Hv.
Qed.

(** ** A resolver across the transport *)

(** What the client side makes of an outcome of the resolver it calls. *)
Definition remote_outcome (r : result goerror (list Envelope)) (out : result goerror (list Envelope))
  : Prop :=
  match r with
  | Ok envelopes =>
      if (length envelopes =? 0)%nat then out = Err ErrNotFound
      else out = Ok (base.filter (fun e => validIdentifier (env_ID e) = true) envelopes)
  | Err err =>
      if errors_Is err ErrNotFound then out = Err ErrNotFound
      else exists text, out = Err (ConnectError CodeInternal (ErrorNew text))
  end.

(** What arrives of an answer that was sent. *)
Definition carried {St} (utf8 : string -> bool) (sent got : result goerror GetSecretsResponse * St) : Prop :=
  match sent with
  | (Ok resp, s') => encodable_response utf8 resp = true -> got = (Ok resp, s')
  | (Err err, s') => exists text, got = (Err (ConnectError (connect_CodeOf err) (ErrorNew text)), s')
  end.

Section remote.
Context {St : Type} (utf8 : string -> bool) `{!Utf8 utf8}.
Context (resolver : Resolver St).

(** The strings of the answer can be sent. *)
Definition sendable (r : result goerror (list Envelope)) : Prop :=
  match r with
  | Ok envelopes => forallb (fun e => encodable_item utf8 (envelope_to_proto e)) envelopes = true
  | Err _ => True
  end.

Lemma encodable_responses l :
  encodable_response utf8 {| resp_Envelopes := map envelope_to_proto l |} =
  forallb (fun e => encodable_item utf8 (envelope_to_proto e)) l.
Proof. unfold encodable_response. simpl. induction l as [|e l IH]; simpl; [done|]. by rewrite IH. Qed.

(** A valid pattern can be sent. *)
Lemma encodable_pattern pattern : validPattern pattern = true ->
  encodable_request utf8 {| req_Pattern := Some pattern |} = true.
Proof. intros Hp. change (utf8 pattern = true). apply utf8_ascii. by apply validPattern_ascii. Qed.

(** The handler's answer to a valid pattern. *)
Lemma resolverService_valid pattern s r s' : validPattern pattern = true -> resolver pattern s = (r, s') ->
  resolverService_GetSecrets resolver {| req_Pattern := Some pattern |} s =
    match r with
    | Err err => (Err (if errors_Is err ErrNotFound then ConnectError CodeNotFound ErrNotFound
                       else ConnectError CodeInternal (Wrap "failed to get secret %q: %w" [err])), s')
    | Ok l => (if (length l =? 0)%nat then Err (ConnectError CodeNotFound ErrNotFound)
               else Ok {| resp_Envelopes := map envelope_to_proto l |}, s')
    end.
Proof.
  intros Hp Hr. unfold resolverService_GetSecrets, ParsePattern, try. cbn [req_Pattern].
  rewrite get_string_Some, Hp. cbn [negb]. rewrite Hr. destruct r; by case_match.
Qed.

(** The client sees the resolver, from the state [s0] the handler runs in. *)
Lemma resolverClient_carried call pattern s s0 r s' : validPattern pattern = true ->
  carried utf8 (resolverService_GetSecrets resolver {| req_Pattern := Some pattern |} s0)
    (call {| req_Pattern := Some pattern |} s) ->
  resolver pattern s0 = (r, s') -> sendable r ->
  exists out, resolverClient_GetSecrets call pattern s = (out, s') /\ remote_outcome r out.
Proof.
  intros Hp Hc Hr Hs. rewrite (resolverService_valid _ _ _ _ Hp Hr) in Hc.
  unfold resolverClient_GetSecrets, try. destruct r as [l|err]; simpl in Hs |- *.
  - destruct (length l =? 0)%nat eqn:Hl.
    + destruct Hc as [text ->]. by eexists.
    + cbn [carried] in Hc. rewrite Hc by by rewrite encodable_responses.
      eexists. split; [done|]. simpl. by rewrite envelopes_round_trip.
  - destruct Hc as [text ->]. destruct (errors_Is err ErrNotFound); simpl; eauto.
Qed.

Lemma resolverClient_remote transport `{!Transport utf8 transport} pattern s r s' :
  validPattern pattern = true -> resolver pattern s = (r, s') -> sendable r ->
  exists out, resolverClient_GetSecrets (transport (resolverService_GetSecrets resolver)) pattern s
    = (out, s') /\ remote_outcome r out.
Proof.
  intros Hp. apply resolverClient_carried; [done|]. pose proof (encodable_pattern pattern Hp) as Hq.
  destruct (resolverService_GetSecrets resolver _ s) as [[resp|err] s1] eqn:Hh.
  - intros He. by apply (transport_ok utf8 (resolverService_GetSecrets resolver)).
  - by apply (transport_err utf8 (resolverService_GetSecrets resolver)).
Qed.

(** A request whose pattern does not parse never reaches the resolver. *)
Lemma resolverService_invalid req s :
  validPattern (get_string (req_Pattern req)) = false ->
  exists err, resolverService_GetSecrets resolver req s = (Err err, s) /\
    connect_CodeOf err = CodeInvalidArgument.
Proof.
  intros Hp. unfold resolverService_GetSecrets, ParsePattern. rewrite Hp. by eexists.
Qed.
End remote.
