(* ===== verification/Client.v ===== *)
(** Package client (client/client.go): the options of a client, its resolver,
    and the version and plugin-management calls. The generated clients of the
    services are arguments of the operations that use them. *)

From S2P Require Import Prelude GoErrors GoStrings Secrets Api Resolver.

Definition ErrSecretsEngineNotAvailable : goerror := Sentinel "secrets engine is not available".

(** ** Options *)

(** A dial function: [dialFromPath path], or one the caller supplies. *)
Inductive dial : Type :=
| dialFromPath (path : string)
| DialFunc (n : nat).

Record config : Type := {
  dialContext : option dial;
  requestTimeout : Z;
  responseTimeout : Z
}.

Definition Option : Type := config -> result goerror config.

Definition set_dial (s : config) (d : option dial) : config :=
  {| dialContext := d; requestTimeout := requestTimeout s; responseTimeout := responseTimeout s |}.

Definition WithSocketPath (path : string) : Option := fun s =>
  if String.eqb path "" then Err (ErrorNew "no path provided")
  else match dialContext s with
       | Some _ => Err (ErrorNew "cannot set socket path and dial")
       | None => Ok (set_dial s (Some (dialFromPath path)))
       end.

(** The function may be nil. *)
Definition WithDialContext (d : option dial) : Option := fun s =>
  match dialContext s with
  | Some _ => Err (ErrorNew "cannot set socket path and dial")
  | None => Ok (set_dial s d)
  end.

Definition WithTimeout (timeout : Z) : Option := fun s =>
  if (timeout <? 0)%Z then Err (ErrorNew "request timeout duration cannot be negative")
  else Ok {| dialContext := dialContext s; requestTimeout := timeout;
             responseTimeout := responseTimeout s |}.

Definition WithResponseTimeout (timeout : Z) : Option := fun s =>
  if (timeout <? 0)%Z then Err (ErrorNew "response timeout duration cannot be negative")
  else Ok {| dialContext := dialContext s; requestTimeout := requestTimeout s;
             responseTimeout := timeout |}.

Fixpoint apply_options (options : list Option) (cfg : config) : result goerror config :=
  match options with
  | [] => Ok cfg
  | opt :: options' => cfg <-? opt cfg ;; apply_options options' cfg
  end.

(** The settings of the [http.Client] and its transport that depend on the
    options. *)
Record HTTPClient : Type := {
  hc_DialContext : dial;
  hc_ResponseHeaderTimeout : Z;
  hc_Timeout : Z
}.

Definition New (daemonSocketPath : string) (options : list Option) : result goerror HTTPClient :=
  cfg <-? apply_options options
            {| dialContext := None;
               requestTimeout := DefaultClientRequestTimeout;
               responseTimeout := DefaultClientResponseHeaderTimeout |} ;;
  Ok {| hc_DialContext := default (dialFromPath daemonSocketPath) (dialContext cfg);
        hc_ResponseHeaderTimeout := responseTimeout cfg;
        hc_Timeout := requestTimeout cfg |}.

(** ** Errors *)

Definition isDialError (err : goerror) : bool :=
  match errors_As_OpError err with
  | Some op => String.eqb op "dial" || String.eqb op "connect"
  | None => false
  end.

Definition client_error (err : goerror) : goerror :=
  if isDialError err then Wrap "%w: %w" [ErrSecretsEngineNotAvailable; err] else err.

(** ** Secrets and versions *)

(** [resolver] is the [resolverClient] the client holds. *)
Definition GetSecrets {St} (resolver : Resolver St) : Resolver St := fun pattern =>
  try (resolver pattern) (fun r =>
    match r with
    | Err err => throw (client_error err)
    | Ok envelopes => ret envelopes
    end).

Record GetVersionResponse : Type := {
  gv_version : string;
  gv_date : string;
  gv_commitHash : string
}.

Definition Version (resp : result goerror GetVersionResponse) : result goerror DaemonVersion :=
  match resp with
  | Err err => Err (client_error err)
  | Ok msg =>
      match NewVersion (gv_version msg) with
      | Err err => Err (Wrap "parsing daemon version %q: %w" [err])
      | Ok ver => Ok {| dv_Version := ver; dv_Date := gv_date msg; dv_CommitHash := gv_commitHash msg |}
      end
  end.

(** ** Plugin management *)

Inductive PluginMetadata : Type :=
| Plugin_SecretsProvider (pattern : string)
| Plugin_AccessControlModule
| Plugin_not_set.

Record PluginMessage : Type := {
  pm_name : string;
  pm_version : string;
  pm_disabled : bool;
  pm_external : bool;
  pm_configurable : bool;
  pm_runStatus : Z;
  pm_statusMessage : string;
  pm_metadata : PluginMetadata
}.

Record PluginInfo : Type := {
  pi_Name : string;
  pi_Version : string;
  pi_Disabled : bool;
  pi_External : bool;
  pi_Configurable : bool;
  pi_RunStatus : Z;
  pi_StatusMessage : string;
  pi_SecretsProvider : option Pattern;
  pi_AccessControlModule : bool
}.

(** The body of the loop of [ListPlugins]: [None] when it continues. *)
Definition plugin_info (item : PluginMessage) : option PluginInfo :=
  match NewName (pm_name item) with
  | Err _ => None
  | Ok name =>
      match NewVersion (pm_version item) with
      | Err _ => None
      | Ok version =>
          let info provider module :=
            {| pi_Name := name; pi_Version := version; pi_Disabled := pm_disabled item;
               pi_External := pm_external item; pi_Configurable := pm_configurable item;
               pi_RunStatus := pm_runStatus item; pi_StatusMessage := pm_statusMessage item;
               pi_SecretsProvider := provider; pi_AccessControlModule := module |} in
          match pm_metadata item with
          | Plugin_SecretsProvider pattern =>
              match ParsePattern pattern with
              | Err _ => None
              | Ok pattern => Some (info (Some pattern) false)
              end
          | Plugin_AccessControlModule => Some (info None true)
          | Plugin_not_set => Some (info None false)
          end
      end
  end.

Fixpoint list_plugins (items : list PluginMessage) : list PluginInfo :=
  match items with
  | [] => []
  | item :: items' =>
      match plugin_info item with
      | Some info => info :: list_plugins items'
      | None => list_plugins items'
      end
  end.

Definition ListPlugins (resp : result goerror (list PluginMessage)) : result goerror (list PluginInfo) :=
  match resp with
  | Err err => Err (client_error err)
  | Ok plugins => Ok (list_plugins plugins)
  end.

Definition EnablePlugin {St} (engine_EnablePlugin : string -> comp St goerror unit) (name : string)
  : comp St goerror unit :=
  try (engine_EnablePlugin name) (fun r =>
    match r with Err err => throw (client_error err) | Ok _ => ret tt end).

Definition DisablePlugin {St} (engine_DisablePlugin : string -> comp St goerror unit) (name : string)
  : comp St goerror unit :=
  try (engine_DisablePlugin name) (fun r =>
    match r with Err err => throw (client_error err) | Ok _ => ret tt end).

(** ** Lemmas *)

Lemma client_error_unavailable err : isDialError err = true ->
  errors_Is (client_error err) ErrSecretsEngineNotAvailable = true.
Proof. intros H. unfold client_error. by rewrite H. Qed.

Lemma client_error_other err : isDialError err = false -> client_error err = err.
Proof. intros H. unfold client_error. by rewrite H. Qed.

(** The errors that come out of a remote resolver are no dial errors. *)
Lemma GetSecrets_remote {St} (resolver : Resolver St) pattern s r out s' :
  resolver pattern s = (out, s') -> remote_outcome r out ->
  GetSecrets resolver pattern s = (out, s').
Proof.
  intros Hr Ho. unfold GetSecrets, try. rewrite Hr. destruct out as [l|err]; [done|].
  unfold throw. f_equal. f_equal. apply client_error_other.
  destruct r as [l|e]; simpl in Ho; case_match; [|done|..]; simplify_eq; [done..|].
  by destruct Ho as [text [= ->]].
Qed.

(** ** The client as a resolver *)

(** Asking the engine through the client is asking the resolver behind the
    handler: for a valid pattern and an answer whose strings are UTF-8 the
    client returns, in order and with values, metadata and times intact,
    exactly the envelopes with a valid identifier; an empty answer and any
    error that wraps [ErrNotFound] arrive as [ErrNotFound] itself, any other
    error as an internal error that is not [ErrNotFound]; the state behind the
    resolver is the one its single call left. When the engine cannot be dialled
    the error wraps [ErrSecretsEngineNotAvailable]. *)
Theorem client_GetSecrets {St} utf8 `{!Utf8 utf8} transport `{!Transport (St := St) utf8 transport}
    (resolver : Resolver St) pattern s r s' :
  validPattern pattern = true -> resolver pattern s = (r, s') -> sendable utf8 r ->
  (exists out,
    GetSecrets (resolverClient_GetSecrets (transport (resolverService_GetSecrets resolver))) pattern s
      = (out, s') /\ remote_outcome r out) /\
  (forall down err, isDialError err = true -> connect_CodeOf err <> CodeNotFound ->
    down {| req_Pattern := Some pattern |} s = (Err err, s) ->
    exists err', GetSecrets (resolverClient_GetSecrets down) pattern s = (Err err', s) /\
      errors_Is err' ErrSecretsEngineNotAvailable = true).
Proof.
  intros Hp Hr Hs. split.
  - destruct (resolverClient_remote utf8 resolver transport pattern s r s' Hp Hr Hs) as (out & Hc & Ho).
    exists out. split; [|done]. by eapply GetSecrets_remote.
  - intros down err Hd Hc Hdown. unfold GetSecrets, resolverClient_GetSecrets, try. rewrite Hdown.
    eexists. split; [done|]. destruct (connect_CodeOf err); by apply client_error_unavailable.
Qed.

Definition sample_envelope : Envelope :=
  {| env_ID := "docker/auth/hub/bob"; env_Value := [Byte.x01; Byte.xff];
     env_Metadata := {[ "scope" := "read" ]}; env_Provider := "sample"; env_Version := "0.0.1";
     env_CreatedAt := time_zero; env_ResolvedAt := 1700000000123456789%Z;
     env_ExpiresAt := time_zero |}.

(** The resolver counts its calls. *)
Definition sample_resolver : Resolver nat := fun _ n => (Ok [sample_envelope], S n).

Lemma client_GetSecrets_witness :
  (exists out, GetSecrets (resolverClient_GetSecrets
      (plain_transport (string_forallb ascii_byte) (resolverService_GetSecrets sample_resolver)))
      "docker/auth/hub/**" 0%nat = (out, 1%nat) /\ remote_outcome (Ok [sample_envelope]) out) /\
  remote_outcome (Ok [sample_envelope]) (Ok [sample_envelope]).
Proof.
  split; [|by vm_compute].
  apply (client_GetSecrets (string_forallb ascii_byte) (plain_transport (string_forallb ascii_byte))
           sample_resolver "docker/auth/hub/**" 0%nat (Ok [sample_envelope]) 1%nat);
    by vm_compute.
Defined.

(** ** Plugin listings *)

(** What a listed plugin carries was accepted by the constructors. *)
Lemma list_plugins_valid items info : info ∈ list_plugins items ->
  pi_Name info <> "" /\ IsValid (pi_Version info) = true /\
  match pi_SecretsProvider info with
  | Some pattern => validPattern pattern = true
  | None => True
  end.
Proof.
  induction items as [|item items IH]; cbn [list_plugins]; [by intros ?%elem_of_nil|].
  destruct (plugin_info item) as [i|] eqn:Hi; [|done].
  intros [->|Hin]%elem_of_cons; [|auto]. unfold plugin_info in Hi.
  destruct (NewName _) as [n|] eqn:Hn; [|done]. destruct (NewVersion _) as [v|] eqn:Hv; [|done].
  apply NewName_Ok in Hn as [Hn ->]. apply NewVersion_Ok in Hv as [Hv ->].
  destruct (pm_metadata item); simplify_eq/=; [|done..].
  unfold ParsePattern in Hi. destruct (validPattern pattern) eqn:Hp; by simplify_eq/=.
Qed.
