(* ===== verification/AccessControl.v ===== *)
(** Package x/api/accesscontrol: the request types (accesscontrol.go and its
    three platform files), their translation from the generated messages
    (service_darwin.go, service_linux.go, service_windows.go) and the connect
    handler (service.go). *)

From S2P Require Import Prelude GoErrors GoStrings Secrets Resolver.

(** ** The messages of x/api/accesscontrol/v1 *)

Record DarwinSigningInfo : Type := {
  d_team_id : string;
  d_identifier : string;
  d_organization : string;
  d_common_name : string;
  d_cd_hash : string;
  d_status : Z
}.

Record WindowsSigningInfo : Type := {
  w_trusted_chain : bool;
  w_subject_org : string;
  w_subject_common_name : string;
  w_issuer : string;
  w_thumbprint_sha256 : string;
  w_is_ev : bool;
  w_integrity : Z;
  w_company_name : string;
  w_product_name : string;
  w_file_version : string
}.

Record SignerMessage : Type := {
  s_cert_issuer : string;
  s_cert_identity : string;
  s_source_repo : string;
  s_source_ref : string;
  s_source_commit : string;
  s_runner_environment : string;
  s_build_trigger : string;
  s_run_invocation_uri : string;
  s_rekor_log_index : Z;
  s_integrated_time : option Timestamp
}.

(** The [signing_info] oneof of a requester. *)
Inductive signing_info : Type :=
| Requester_Darwin (d : DarwinSigningInfo)
| Requester_Windows (w : WindowsSigningInfo)
| Requester_Linux (signers : list SignerMessage)
| Requester_not_set.

Record Requester : Type := {
  r_pid : Z;
  r_name : string;
  r_absolute_binary_path : string;
  r_signed_by_docker : bool;
  r_signing_info : signing_info
}.

Record CheckAccessMessage : Type := {
  cam_pattern : string;
  cam_requester : option Requester
}.

Inductive Decision : Type := DECISION_DENY | DECISION_ALLOW.

(** ** accesscontrol.go *)

Record ProcessInfo : Type := {
  PID : Z;
  Name : string;
  AbsoluteBinaryPath : string
}.

Record SigningInfoBase : Type := { SignedByDocker : bool }.

Record CheckAccessRequest (SigningInfo : Type) : Type := {
  car_Pattern : Pattern;
  car_ProcessInfo : ProcessInfo;
  car_SigningInfo : SigningInfo
}.
Arguments Build_CheckAccessRequest {SigningInfo}.
Arguments car_Pattern {SigningInfo}.
Arguments car_ProcessInfo {SigningInfo}.
Arguments car_SigningInfo {SigningInfo}.

Definition base_of (r : Requester) : SigningInfoBase := {| SignedByDocker := r_signed_by_docker r |}.

(** ** macOS *)

Module Darwin.

Record SigningInfo : Type := {
  base : SigningInfoBase;
  TeamID : string;
  Identifier : string;
  Organization : string;
  CommonName : string;
  CDHash : string;
  Status : Z
}.

Definition signingInfoFromProto (r : Requester) : SigningInfo :=
  match r_signing_info r with
  | Requester_Darwin d =>
      {| base := base_of r; TeamID := d_team_id d; Identifier := d_identifier d;
         Organization := d_organization d; CommonName := d_common_name d;
         CDHash := d_cd_hash d; Status := d_status d |}
  | _ => {| base := base_of r; TeamID := ""; Identifier := ""; Organization := "";
            CommonName := ""; CDHash := ""; Status := 0 |}
  end.

End Darwin.

(** ** Linux *)

Module Linux.

Record Signer : Type := {
  CertIssuer : string;
  CertIdentity : string;
  SourceRepo : string;
  SourceRef : string;
  SourceCommit : string;
  RunnerEnvironment : string;
  BuildTrigger : string;
  RunInvocationURI : string;
  RekorLogIndex : Z;
  IntegratedTime : time
}.

Record SigningInfo : Type := {
  base : SigningInfoBase;
  Signers : list Signer
}.

Definition signer_of (s : SignerMessage) : Signer :=
  {| CertIssuer := s_cert_issuer s;
     CertIdentity := s_cert_identity s;
     SourceRepo := s_source_repo s;
     SourceRef := s_source_ref s;
     SourceCommit := s_source_commit s;
     RunnerEnvironment := s_runner_environment s;
     BuildTrigger := s_build_trigger s;
     RunInvocationURI := s_run_invocation_uri s;
     RekorLogIndex := s_rekor_log_index s;
     IntegratedTime := match s_integrated_time s with
                       | Some t => AsTime (Some t)
                       | None => time_zero
                       end |}.

Definition signingInfoFromProto (r : Requester) : SigningInfo :=
  match r_signing_info r with
  | Requester_Linux signers => {| base := base_of r; Signers := map signer_of signers |}
  | _ => {| base := base_of r; Signers := [] |}
  end.

End Linux.

(** ** Windows *)

Module Windows.

Inductive IntegrityLevel : Type :=
| IntegrityUntrusted
| IntegrityLow
| IntegrityMedium
| IntegrityHigh
| IntegritySystem.

(** The values of [IntegrityLevel], the RIDs of winnt.h. *)
Definition integrity_rid (l : IntegrityLevel) : Z :=
  match l with
  | IntegrityUntrusted => 0x0000
  | IntegrityLow => 0x1000
  | IntegrityMedium => 0x2000
  | IntegrityHigh => 0x3000
  | IntegritySystem => 0x4000
  end.

Record SigningInfo : Type := {
  base : SigningInfoBase;
  TrustedChain : bool;
  SubjectOrg : string;
  SubjectCommonName : string;
  Issuer : string;
  ThumbprintSHA256 : string;
  IsEV : bool;
  Integrity : IntegrityLevel;
  CompanyName : string;
  ProductName : string;
  FileVersion : string
}.

(** The message's enum has the RIDs as its numbers; it is open, so any other
    number can arrive. *)
Definition integrityLevelFromProto (v : Z) : IntegrityLevel :=
  if (v =? 0x1000)%Z then IntegrityLow
  else if (v =? 0x2000)%Z then IntegrityMedium
  else if (v =? 0x3000)%Z then IntegrityHigh
  else if (v =? 0x4000)%Z then IntegritySystem
  else IntegrityUntrusted.

Definition signingInfoFromProto (r : Requester) : SigningInfo :=
  match r_signing_info r with
  | Requester_Windows w =>
      {| base := base_of r; TrustedChain := w_trusted_chain w; SubjectOrg := w_subject_org w;
         SubjectCommonName := w_subject_common_name w; Issuer := w_issuer w;
         ThumbprintSHA256 := w_thumbprint_sha256 w; IsEV := w_is_ev w;
         Integrity := integrityLevelFromProto (w_integrity w); CompanyName := w_company_name w;
         ProductName := w_product_name w; FileVersion := w_file_version w |}
  | _ => {| base := base_of r; TrustedChain := false; SubjectOrg := ""; SubjectCommonName := "";
            Issuer := ""; ThumbprintSHA256 := ""; IsEV := false; Integrity := IntegrityUntrusted;
            CompanyName := ""; ProductName := ""; FileVersion := "" |}
  end.

End Windows.

(** ** service.go *)

Section service.
Context {St SigningInfo : Type}.

(** The platform's [signingInfoFromProto], and the [AccessControl] module. *)
Context (signingInfoFromProto : Requester -> SigningInfo).
Context (ac : CheckAccessRequest SigningInfo -> comp St goerror bool).

Definition CheckAccess (msg : CheckAccessMessage) : comp St goerror Decision :=
  let msgPattern := cam_pattern msg in
  match ParsePattern msgPattern with
  | Err err => throw (ConnectError CodeInvalidArgument (Wrap "invalid pattern %q: %w" [err]))
  | Ok pattern =>
      match cam_requester msg with
      | None => throw (ConnectError CodeInvalidArgument (ErrorNew "requester is required"))
      | Some requester =>
          let req := {| car_Pattern := pattern;
                        car_ProcessInfo := {| PID := r_pid requester; Name := r_name requester;
                          AbsoluteBinaryPath := r_absolute_binary_path requester |};
                        car_SigningInfo := signingInfoFromProto requester |} in
          try (ac req) (fun r =>
            match r with
            | Err err => throw (ConnectError CodeInternal (Wrap "access check failed for %q: %w" [err]))
            | Ok allowed =>
                let decision := DECISION_DENY in
                let decision := if allowed : bool then DECISION_ALLOW else decision in
                ret decision
            end)
      end
  end.

(** The one question a well-formed message makes the handler ask. *)
Definition question (msg : CheckAccessMessage) : option (CheckAccessRequest SigningInfo) :=
  match cam_requester msg with
  | Some r =>
      if validPattern (cam_pattern msg)
      then Some {| car_Pattern := cam_pattern msg;
                   car_ProcessInfo := {| PID := r_pid r; Name := r_name r;
                     AbsoluteBinaryPath := r_absolute_binary_path r |};
                   car_SigningInfo := signingInfoFromProto r |}
      else None
  | None => None
  end.

Lemma CheckAccess_question msg s :
  CheckAccess msg s =
  match question msg with
  | Some req =>
      match ac req s with
      | (Ok true, s') => (Ok DECISION_ALLOW, s')
      | (Ok false, s') => (Ok DECISION_DENY, s')
      | (Err err, s') =>
          (Err (ConnectError CodeInternal (Wrap "access check failed for %q: %w" [err])), s')
      end
  | None =>
      (Err (ConnectError CodeInvalidArgument
              (if validPattern (cam_pattern msg) then ErrorNew "requester is required"
               else Wrap "invalid pattern %q: %w" [ErrInvalidPattern])), s)
  end.
Proof.
  unfold CheckAccess, question, ParsePattern, try.
  destruct (validPattern (cam_pattern msg)), (cam_requester msg) as [r|]; try done.
  cbn [negb]. by destruct (ac _ s) as [[[]|] ?].
Qed.
End service.

(** Access is granted only by the module: the handler answers ALLOW exactly
    when the message has a valid pattern and a requester and the module, asked
    once about that pattern, that process and the platform's reading of its
    signature, said yes without an error. A malformed message is refused as an
    invalid argument without asking, and an error of the module is an internal
    error that wraps it; neither carries a decision. What the requester claims about another
    platform's signature is dropped: on every platform such a requester looks
    like one without a signature, but for the [SignedByDocker] flag. *)
Theorem CheckAccess_fail_closed {St SigningInfo} (fromProto : Requester -> SigningInfo)
    (ac : CheckAccessRequest SigningInfo -> comp St goerror bool) msg s :
  (forall s', CheckAccess fromProto ac msg s = (Ok DECISION_ALLOW, s') <->
    exists req, question fromProto msg = Some req /\ ac req s = (Ok true, s')) /\
  (question fromProto msg = None ->
    exists err, CheckAccess fromProto ac msg s = (Err err, s) /\
      connect_CodeOf err = CodeInvalidArgument) /\
  (forall req err s', question fromProto msg = Some req -> ac req s = (Err err, s') ->
    exists err', CheckAccess fromProto ac msg s = (Err err', s') /\
      connect_CodeOf err' = CodeInternal /\ (forall target, errors_Is err' target = errors_Is err target)) /\
  (forall r, (forall d, r_signing_info r <> Requester_Darwin d) ->
     Darwin.signingInfoFromProto r =
       Darwin.signingInfoFromProto (Build_Requester 0 "" "" (r_signed_by_docker r) Requester_not_set)) /\
  (forall r, (forall w, r_signing_info r <> Requester_Windows w) ->
     Windows.signingInfoFromProto r =
       Windows.signingInfoFromProto (Build_Requester 0 "" "" (r_signed_by_docker r) Requester_not_set)) /\
  (forall r, (forall l, r_signing_info r <> Requester_Linux l) ->
     Linux.signingInfoFromProto r =
       Linux.signingInfoFromProto (Build_Requester 0 "" "" (r_signed_by_docker r) Requester_not_set)).
Proof.
  repeat split.
  - rewrite CheckAccess_question. destruct (question fromProto msg) as [req|]; [|done].
    destruct (ac req s) as [[[]|] s1] eqn:Hac; intros Heq; simplify_eq; eauto.
  - intros (req & Hq & Hac). by rewrite CheckAccess_question, Hq, Hac.
  - intros Hq. rewrite CheckAccess_question, Hq. by eexists.
  - intros req err s' Hq Hac. rewrite CheckAccess_question, Hq, Hac. eexists. split; [done|].
    split; [done|]. intros target. simpl. by rewrite orb_false_r.
  - intros [????[]] Hr; try done. by destruct (Hr d).
  - intros [????[]] Hr; try done. by destruct (Hr w).
  - intros [????[]] Hr; try done. by destruct (Hr signers).
Qed.

(** The integrity level of a message survives the translation. *)
Lemma integrityLevelFromProto_rid l :
  Windows.integrityLevelFromProto (Windows.integrity_rid l) = l.
Proof. by destruct l. Qed.

(** A signer without a time keeps the zero time, which no timestamp message of
    a later time can mean. *)
Lemma signer_of_time s :
  time_IsZero (Linux.IntegratedTime (Linux.signer_of s)) = true <->
  s_integrated_time s = None \/ AsTime (s_integrated_time s) = time_zero.
Proof.
  unfold Linux.signer_of, time_IsZero. simpl. rewrite Z.eqb_eq.
  destruct (s_integrated_time s); naive_solver.
Qed.
