(* ===== verification/Release.v ===== *)
(** Package x/release: the version arithmetic and the propagation of a release
    through the modules of the repository (helper/release.go), and the edit of
    a go.mod file (command.go). *)

From S2P Require Import Prelude GoErrors GoStrings Api.

(** ** Levels *)

Inductive Level : Type := Patch | Minor | Major.

Definition Level_String (e : Level) : string :=
  match e with Patch => "patch" | Minor => "minor" | Major => "major" end.

Definition Levels : list Level := [Patch; Minor; Major].

Definition Level_Set (v : string) : result goerror Level :=
  match List.find (fun l => String.eqb v (Level_String l)) Levels with
  | Some l => Ok l
  | None => Err (ErrorNew "must be one of %s")
  end.

(** ** Versions *)

Record Version : Type := { Current : string; KeepExtra : bool }.

Definition CutVersionExtra (cv : string) : string * string :=
  match IndexByte cv "-" with
  | Some i => (take_bytes i cv, drop_bytes i cv)
  | None =>
      match IndexByte cv "+" with
      | Some i => (take_bytes i cv, drop_bytes i cv)
      | None => (cv, "")
      end
  end.

(** The sums of the code wrap around in a 64-bit [int]. *)
Definition int_add (a b : Z) : Z :=
  ((a + b + 2 ^ 63) mod 2 ^ 64 - 2 ^ 63)%Z.

Definition GetNextVersion (s : Version) (level : Level) : result goerror string :=
  let '(v, extra) := CutVersionExtra (Current s) in
  let v := Canonical v in
  if String.eqb v "" then Err (ErrorNew "not a canonical version: %s")
  else
    match SplitN (TrimPrefix v "v") "." 3 with
    | [p0; p1; p2] =>
        match Atoi p0, Atoi p1, Atoi p2 with
        | Ok major, Ok minor, Ok patch =>
            let next :=
              match level with
              | Major => "v" +:+ Itoa (int_add major 1) +:+ ".0.0"
              | Minor => "v" +:+ Itoa major +:+ "." +:+ Itoa (int_add minor 1) +:+ ".0"
              | Patch => "v" +:+ Itoa major +:+ "." +:+ Itoa minor +:+ "." +:+ Itoa (int_add patch 1)
              end in
            let extra := if KeepExtra s then extra else "" in
            Ok (next +:+ extra)
        | _, _, _ => Err (ErrorNew "failed to parse semver numbers %q: %s")
        end
    | _ => Err (ErrorNew "unexpected semver parts: %q")
    end.

(** ** The modules of the repository *)

Record ModData : Type := {
  downstreams : gset string;
  dependencies : gset string;
  version : Version
}.

(** [getOrInit]; the zero [Version] is empty, a nil map has no element. *)
Definition getOrInit (d : gmap string ModData) (mod_ : string) : ModData :=
  default {| downstreams := ∅; dependencies := ∅; version := {| Current := ""; KeepExtra := false |} |}
    (d !! mod_).

Definition addVersionData (mod_ : string) (data : Version) (d : gmap string ModData)
  : gmap string ModData :=
  let before := getOrInit d mod_ in
  <[mod_ := {| downstreams := downstreams before; dependencies := dependencies before;
              version := data |}]> d.

Definition addDownstreamDep (mod_ dep : string) (d : gmap string ModData) : gmap string ModData :=
  let before := getOrInit d dep in
  <[dep := {| downstreams := {[mod_]} ∪ downstreams before; dependencies := dependencies before;
              version := version before |}]> d.

Definition addDeps (mod_ : string) (deps : list string) (d : gmap string ModData)
  : gmap string ModData :=
  let d := foldl (fun d dep => addDownstreamDep mod_ dep d) d deps in
  let before := getOrInit d mod_ in
  <[mod_ := {| downstreams := downstreams before; dependencies := list_to_set deps;
              version := version before |}]> d.

Definition AddMod (mod_ : string) (data : Version) (deps : list string) (d : gmap string ModData)
  : gmap string ModData :=
  addDeps mod_ deps (addVersionData mod_ data d).

Definition GetDependencyCount (d : gmap string ModData) (mod_ : string) : nat :=
  match d !! mod_ with
  | None => 0
  | Some data => size (dependencies data)
  end.

Definition forget_dependency (mod_ : string) (v : ModData) : ModData :=
  {| downstreams := downstreams v; dependencies := dependencies v ∖ {[mod_]}; version := version v |}.

Definition RemoveModule (mod_ : string) (d : gmap string ModData) : gmap string ModData :=
  forget_dependency mod_ <$> delete mod_ d.

(** ** Releasing modules *)

(** The interface [FS] over a state [W] of the repository on disk. *)
Class FS (W : Type) : Type := {
  GitTag : string -> comp W goerror unit;
  GitCommit : string -> comp W goerror unit;
  BumpModInFile : string -> string -> string -> comp W goerror bool
}.

Section bump.
Context {W : Type} `{FS W}.

(** [filepath.Join(dep, "go.mod")], and the orders in which [range] visits the
    maps of the modules. *)
Context (filepath_Join : string -> string -> string).
Context (ord : list string -> list string) (ordm : list (string * ModData) -> list (string * ModData)).

(** The loop of [BumpModule] over the downstream modules. *)
Fixpoint bump_downstreams (deps : list string) (mod_ release : string) (needsCommit : bool)
  : comp W goerror bool :=
  match deps with
  | [] => ret needsCommit
  | dep :: deps' =>
      modified <-! BumpModInFile (filepath_Join dep "go.mod") mod_ release ;;
      bump_downstreams deps' mod_ release (if modified : bool then true else needsCommit)
  end.

Definition BumpModule (mod_ : string) (level : Level) (data : ModData) : comp W goerror unit :=
  release <-! lift (GetNextVersion (version data) level) ;;
  let tag := mod_ +:+ "/" +:+ release in
  _ <-! GitTag tag ;;
  needsCommit <-! bump_downstreams (ord (elements (downstreams data))) mod_ release false ;;
  if negb needsCommit then ret tt
  else GitCommit ("chore: bump " +:+ tag).

(** Reduce the modules to the downstream ones: the first loop of
    [BumpIterative], over the map it removes from. *)
Definition reduce (queue : gset string) (repo : gmap string ModData) : gmap string ModData :=
  foldl (fun d kv => if decide (kv.1 ∈ queue) then d else RemoveModule kv.1 d)
    repo (range_map ordm repo).

(** The inner loop: the first module of the queue without dependencies left,
    "" when there is none. *)
Definition next_module (queue : gset string) (repo : gmap string ModData) : string :=
  default "" (List.find (fun item => (GetDependencyCount repo item =? 0)%nat) (ord (elements queue))).

(** The second loop; every round takes a module out of the queue. *)
Fixpoint bump_queue (fuel : nat) (queue : gset string) (repo : gmap string ModData)
  : comp W goerror unit :=
  if (size queue =? 0)%nat then ret tt
  else
    match fuel with
    | O => ret tt
    | S fuel' =>
        let nextMod := next_module queue repo in
        if String.eqb nextMod "" then throw (ErrorNew "could not determine next module")
        else
          match repo !! nextMod with
          | None => throw (ErrorNew "module %s not found")
          | Some data =>
              _ <-! BumpModule nextMod Patch data ;;
              bump_queue fuel' (queue ∖ {[nextMod]}) (RemoveModule nextMod repo)
          end
    end.

(** The caller's map, which the code empties on the way, is not used again. *)
Definition BumpIterative (mod_ : string) (level : Level) (repo : gmap string ModData)
  : comp W goerror unit :=
  match repo !! mod_ with
  | None => throw (ErrorNew "module %s not found")
  | Some data =>
      _ <-! BumpModule mod_ level data ;;
      let queue := downstreams data in
      bump_queue (size queue) queue (reduce queue repo)
  end.
End bump.

(** ** command.go: go.mod files *)

(** A [modfile.Require] and the part of a [modfile.File] the code uses. *)
Record Require_ : Type := {
  rq_Path : string;
  rq_Version : string;
  rq_Indirect : bool
}.

Record ModFile : Type := {
  mf_Module : string;
  mf_Require : list Require_
}.

Definition getModBase (modPath : string) : result goerror string :=
  let parts := SplitN modPath "/" 4 in
  if negb (length parts =? 4)%nat then Err (ErrorNew "unexpected module format: %s")
  else Ok (StringsJoin (take 3 parts) "/").

(** The loop over the requirements: the first direct one whose path has the
    prefix [mod_] gets the version. *)
Fixpoint bump_requires (mod_ version : string) (requires : list Require_) : list Require_ * bool :=
  match requires with
  | [] => ([], false)
  | require :: requires' =>
      if negb (rq_Indirect require) && HasPrefix (rq_Path require) mod_
      then ({| rq_Path := rq_Path require; rq_Version := version; rq_Indirect := false |} :: requires',
            true)
      else let '(l, needsAction) := bump_requires mod_ version requires' in (require :: l, needsAction)
  end.

(** The part of [projectFS.BumpModInFile] between the parser and the printer. *)
Definition bump_mod_file (f : ModFile) (mod_ version : string) : result goerror (ModFile * bool) :=
  base <-? getModBase (mf_Module f) ;;
  let mod_ := base +:+ "/" +:+ mod_ in
  let '(requires, needsAction) := bump_requires mod_ version (mf_Require f) in
  Ok ({| mf_Module := mf_Module f; mf_Require := requires |}, needsAction).

Definition getDirectProjectDependencies (f : ModFile) : result goerror (list string) :=
  base <-? getModBase (mf_Module f) ;;
  Ok (map (fun require => TrimPrefix (rq_Path require) (base +:+ "/"))
        (List.filter (fun require => HasPrefix (rq_Path require) base) (mf_Require f))).

(** The disk: the parsed go.mod of every path; a missing or malformed one is an
    error. *)
Definition projectFS_BumpModInFile (dryRun : bool) (filename mod_ version : string)
  : comp (gmap string ModFile) goerror bool := fun w =>
  match w !! filename with
  | None => (Err (ErrorNew "open go.mod"), w)
  | Some f =>
      match bump_mod_file f mod_ version with
      | Err err => (Err err, w)
      | Ok (f', needsAction) =>
          if negb needsAction then (Ok needsAction, w)
          else if dryRun then (Ok needsAction, w)
          else (Ok needsAction, <[filename := f']> w)
      end
  end.

(** ** Lemmas: the module graph *)

(** Every module a module names is itself in the map, and no module is "". *)
Definition well_formed (repo : gmap string ModData) : Prop :=
  repo !! "" = None /\
  forall m d, repo !! m = Some d ->
    dependencies d ⊆ dom repo /\ downstreams d ⊆ dom repo.

(** [v] with its dependencies cut down to [queue]. *)
Definition restrict (queue : gset string) (v : ModData) : ModData :=
  {| downstreams := downstreams v; dependencies := dependencies v ∩ queue; version := version v |}.

(** What is left of [repo0] when [queue] is. *)
Definition residual (repo0 : gmap string ModData) (queue : gset string) (repo : gmap string ModData)
  : Prop :=
  forall m, repo !! m = if decide (m ∈ queue) then restrict queue <$> repo0 !! m else None.

Lemma RemoveModule_lookup mod_ d m :
  RemoveModule mod_ d !! m = if decide (m = mod_) then None else forget_dependency mod_ <$> d !! m.
Proof.
  unfold RemoveModule. rewrite lookup_fmap. case_decide as Hm.
  - subst. by rewrite lookup_delete_eq.
  - by rewrite lookup_delete_ne.
Qed.

Lemma RemoveModule_residual repo0 queue repo mod_ :
  residual repo0 queue repo -> residual repo0 (queue ∖ {[mod_]}) (RemoveModule mod_ repo).
Proof.
  intros Hr m. rewrite RemoveModule_lookup, Hr.
  destruct (decide (m = mod_)) as [->|Hm].
  - rewrite decide_False by set_solver. done.
  - destruct (decide (m ∈ queue)) as [Hq|Hq].
    + rewrite decide_True by set_solver. destruct (repo0 !! m) as [v|]; [|done].
      simpl. f_equal. unfold forget_dependency, restrict. simpl. f_equal. set_solver.
    + rewrite decide_False by set_solver. done.
Qed.

(** The keys of [l] outside [queue]. *)
Definition removed (queue : gset string) (l : list (string * ModData)) : gset string :=
  list_to_set (l.*1) ∖ queue.

Lemma removed_cons queue k v l :
  removed queue ((k, v) :: l) =
  if decide (k ∈ queue) then removed queue l else {[k]} ∪ removed queue l.
Proof. unfold removed. rewrite fmap_cons. simpl. case_decide; set_solver. Qed.

Lemma reduce_fold_lookup queue l d m :
  foldl (fun d kv => if decide (kv.1 ∈ queue) then d else RemoveModule kv.1 d) d l !! m =
  if decide (m ∈ removed queue l) then None
  else (fun v => {| downstreams := downstreams v; dependencies := dependencies v ∖ removed queue l;
                    version := version v |}) <$> d !! m.
Proof.
  revert d. induction l as [|[k v] l IH]; intros d.
  - assert (removed queue [] = ∅) as -> by (unfold removed; set_solver).
    cbn [foldl]. rewrite decide_False by set_solver. destruct (d !! m) as [[??]|]; [|done].
    simpl. by rewrite difference_empty_L.
  - cbn [foldl fst]. rewrite IH, removed_cons.
    destruct (decide (k ∈ queue)) as [Hk|Hk]. { reflexivity. }
    rewrite RemoveModule_lookup. destruct (decide (m ∈ removed queue l)) as [Hm|Hm].
    + by rewrite decide_True by set_solver.
    + destruct (decide (m = k)) as [->|Hmk].
      { by rewrite decide_True by set_solver. }
      rewrite decide_False by set_solver. destruct (d !! m) as [u|]; [|done].
      simpl. f_equal. unfold forget_dependency. simpl. f_equal. set_solver.
Qed.

Lemma difference_restrict (deps keys queue : gset string) :
  deps ⊆ keys -> deps ∖ (keys ∖ queue) = deps ∩ queue.
Proof.
  intros Hd. apply set_eq. intros x. rewrite elem_of_difference, elem_of_difference, elem_of_intersection.
  destruct (decide (x ∈ queue)); naive_solver.
Qed.

Lemma reduce_residual `{!MapOrder ordm} queue repo :
  well_formed repo -> residual repo queue (reduce ordm queue repo).
Proof.
  intros [_ Hwf] m. unfold reduce. rewrite reduce_fold_lookup.
  assert (Hrem : removed queue (range_map ordm repo) = dom repo ∖ queue).
  { unfold removed. f_equal. apply set_eq. intros k.
    rewrite elem_of_list_to_set, elem_of_dom. rewrite list_elem_of_fmap. split.
    - intros ([k' v] & -> & Hin). apply (elem_of_range_map ordm) in Hin. eauto.
    - intros [v Hv]. exists (k, v). split; [done|]. by apply (elem_of_range_map ordm). }
  rewrite Hrem. destruct (repo !! m) as [v|] eqn:Hm.
  - destruct (decide (m ∈ queue)) as [Hq|Hq].
    + rewrite decide_False by set_solver. simpl. f_equal. unfold restrict. f_equal.
      pose proof (Hwf _ _ Hm) as [Hd _]. by apply difference_restrict.
    + rewrite decide_True; [done|]. apply elem_of_difference. split; [|done].
      apply elem_of_dom. eauto.
  - simpl. by do 2 case_decide.
Qed.

(** ** Lemmas: the order of the releases *)

Section order.
Context {W : Type} `{FS W}.
Context (filepath_Join : string -> string -> string).
Context (ord : list string -> list string) `{!MapOrder ord}.
Context (repo0 : gmap string ModData).

Local Abbreviation BumpModule := (BumpModule filepath_Join ord).
Local Abbreviation bump_queue := (bump_queue filepath_Join ord).

(** Release the modules of a list, one after the other, as patches. *)
Fixpoint bump_all (order : list string) : comp W goerror unit :=
  match order with
  | [] => ret tt
  | m :: order' => _ <-! BumpModule m Patch (getOrInit repo0 m) ;; bump_all order'
  end.

(** Every module of [order] comes after its dependencies within [queue]. *)
Definition dependencies_first (queue : gset string) (order : list string) : Prop :=
  forall i m, order !! i = Some m ->
    dependencies (getOrInit repo0 m) ∩ queue ⊆ list_to_set (take i order).

(** Every module of [rest] waits for another one of [rest]. *)
Definition stuck (rest : gset string) : Prop :=
  forall m, m ∈ rest -> exists dep, dep ∈ rest /\ dep ∈ dependencies (getOrInit repo0 m).

Lemma BumpModule_restrict m l queue d : BumpModule m l (restrict queue d) = BumpModule m l d.
Proof. done. Qed.

Lemma residual_count queue repo m : residual repo0 queue repo -> m ∈ queue -> queue ⊆ dom repo0 ->
  repo !! m = Some (restrict queue (getOrInit repo0 m)) /\
  ((GetDependencyCount repo m =? 0)%nat = true <-> dependencies (getOrInit repo0 m) ∩ queue = ∅).
Proof.
  intros Hr Hm Hq. assert (Hd : m ∈ dom repo0) by set_solver.
  apply elem_of_dom in Hd as [d Hd].
  assert (Hl : repo !! m = Some (restrict queue (getOrInit repo0 m))).
  { rewrite (Hr m), decide_True by done. unfold getOrInit. by rewrite Hd. }
  split; [done|]. unfold GetDependencyCount. rewrite Hl. simpl.
  rewrite Nat.eqb_eq. split; [|intros ->; apply size_empty].
  apply size_empty_inv_L || (intros Hs; by apply size_empty_inv, leibniz_equiv in Hs).
Qed.

(** The round picks a module whose dependencies are all done, if there is one. *)
Lemma next_module_spec queue repo : residual repo0 queue repo -> queue ⊆ dom repo0 -> "" ∉ queue ->
  (next_module ord queue repo = "" /\ stuck queue) \/
  (next_module ord queue repo ∈ queue /\
   dependencies (getOrInit repo0 (next_module ord queue repo)) ∩ queue = ∅).
Proof.
  intros Hr Hq Hne. unfold next_module.
  assert (Hin : forall x, x ∈ ord (elements queue) <-> x ∈ queue).
  { intros x. rewrite (map_order_perm (ord := ord)). apply elem_of_elements. }
  destruct (List.find _ _) as [x|] eqn:Hf; simpl.
  - right. apply List.find_some in Hf as [Hx Hc]. apply list_elem_of_In, Hin in Hx.
    split; [done|]. by eapply residual_count.
  - left. split; [done|]. intros m Hm.
    pose proof (List.find_none _ _ Hf m) as Hc.
    assert (Hm' : In m (ord (elements queue))) by by apply list_elem_of_In, Hin.
    specialize (Hc Hm'). destruct (set_choose_or_empty (dependencies (getOrInit repo0 m) ∩ queue))
      as [[dep Hdep]|He].
    + exists dep. set_solver.
    + apply leibniz_equiv in He.
      pose proof (proj2 (proj2 (residual_count queue repo m Hr Hm Hq)) He). congruence.
Qed.

(** What a run over [queue] does, [order] being the modules it releases. *)
Definition runs_in_order (queue : gset string) (order : list string) (run : comp W goerror unit) : Prop :=
  NoDup order /\ list_to_set order ⊆ queue /\ dependencies_first queue order /\
  (queue ⊆ list_to_set order \/
   queue ∖ list_to_set order <> ∅ /\ stuck (queue ∖ list_to_set order)) /\
  forall s, run s =
    bind (bump_all order) (fun _ =>
      if decide (queue ⊆ list_to_set order) then ret tt
      else throw (ErrorNew "could not determine next module")) s.

Lemma dependencies_first_cons queue m order :
  dependencies (getOrInit repo0 m) ∩ queue = ∅ ->
  dependencies_first (queue ∖ {[m]}) order -> dependencies_first queue (m :: order).
Proof.
  intros Hm Ho [|i] x Hx; simpl in Hx; simplify_eq; cbn [take list_to_set].
  - by rewrite Hm.
  - specialize (Ho _ _ Hx). intros y [Hy1 Hy2]%elem_of_intersection.
    destruct (decide (y = m)) as [->|Hne]; set_solver.
Qed.

Lemma cover_cons (queue X : gset string) m : queue ∖ {[m]} ⊆ X <-> queue ⊆ {[m]} ∪ X.
Proof. split; intros HX x Hx; destruct (decide (x = m)); set_solver. Qed.

Lemma size_remove (queue : gset string) m n :
  m ∈ queue -> size queue = S n -> size (queue ∖ {[m]}) = n.
Proof.
  intros Hm Hs. rewrite size_difference, size_singleton by (intros x; rewrite elem_of_singleton; by intros ->).
  lia.
Qed.

Lemma bump_queue_order n queue repo :
  size queue = n -> residual repo0 queue repo -> queue ⊆ dom repo0 -> "" ∉ queue ->
  exists order, runs_in_order queue order (bump_queue n queue repo).
Proof.
  revert queue repo. induction n as [|n IH]; intros queue repo Hn Hr Hq Hne.
  - apply size_empty_inv, leibniz_equiv in Hn as ->. exists []. split_and!; [constructor|set_solver| | |].
    + by intros [|i] x Hx.
    + left. set_solver.
    + intros s. simpl. by rewrite decide_True by set_solver.
  - destruct (next_module_spec queue repo Hr Hq Hne) as [[Hnext Hst]|[Hin Hdeps]].
    + exists []. assert (He : queue <> ∅) by (intros ->; by rewrite size_empty in Hn).
      split_and!; [constructor|set_solver| | |].
      * by intros [|i] x Hx.
      * right. simpl. by rewrite difference_empty_L.
      * intros s. cbn [Release.bump_queue]. rewrite Hn, Hnext. simpl.
        rewrite decide_False by set_solver. done.
    + remember (next_module ord queue repo) as m eqn:Hnext.
      destruct (IH (queue ∖ {[m]}) (RemoveModule m repo)) as (order & Hnd & Hsub & Hfirst & Hend & Hrun).
      { by apply size_remove. }
      { by apply RemoveModule_residual. }
      { set_solver. }
      { set_solver. }
      exists (m :: order). split_and!.
      * constructor; [|done]. set_solver.
      * set_solver.
      * by apply dependencies_first_cons.
      * destruct Hend as [Hend|[He Hst]]; [left; by apply cover_cons|right].
        simpl. by rewrite <- difference_difference_l_L.
      * intros s. cbn [Release.bump_queue]. rewrite Hn. cbn [Nat.eqb]. rewrite <- Hnext.
        assert (String.eqb m "" = false) as -> by (apply String.eqb_neq; by intros ->).
        destruct (residual_count queue repo m Hr Hin Hq) as [Hl _]. rewrite Hl.
        cbn [bump_all Nat.eqb]. rewrite BumpModule_restrict, bind_assoc.
        destruct (BumpModule m Patch (getOrInit repo0 m) s) as [[[]|e] s'] eqn:HB.
        2:{ by rewrite !(bind_Err _ _ _ _ _ HB). }
        rewrite !(bind_Ok _ _ _ _ _ HB), Hrun. unfold bind. destruct (bump_all order s') as [[[]|e] s'']; [|done].
        cbn [list_to_set]. pose proof (cover_cons queue (list_to_set order) m).
        destruct (decide (queue ∖ {[m]} ⊆ list_to_set order)) as [Hd|Hd].
        -- by rewrite decide_True by tauto.
        -- by rewrite decide_False by tauto.
Qed.

End order.

(** A graph without cycles leaves nothing stuck. *)
Lemma stuck_acyclic (repo0 : gmap string ModData) (rank : string -> nat) queue rest :
  (forall m dep, m ∈ queue -> dep ∈ queue -> dep ∈ dependencies (getOrInit repo0 m) -> rank dep < rank m) ->
  rest ⊆ queue -> stuck repo0 rest -> rest = ∅.
Proof.
  intros Hrank Hsub Hst. apply set_eq. intros x. split; [|set_solver].
  remember (rank x) as n eqn:Hn. revert x Hn.
  induction (lt_wf n) as [n _ IH]. intros x -> Hx.
  destruct (Hst x Hx) as (dep & Hdep & Hd). 
  exfalso. apply (not_elem_of_empty (C := gset string) dep).
  apply (IH (rank dep)); [|done..]. apply Hrank; set_solver.
Qed.

(** ** Lemmas: building the graph *)

Lemma getOrInit_downstreams repo m : well_formed repo -> downstreams (getOrInit repo m) ⊆ dom repo.
Proof.
  intros [_ Hwf]. unfold getOrInit. destruct (repo !! m) as [d|] eqn:Hm; simpl; [|set_solver].
  by apply (Hwf m).
Qed.

Lemma getOrInit_dependencies repo m : well_formed repo -> dependencies (getOrInit repo m) ⊆ dom repo.
Proof.
  intros [_ Hwf]. unfold getOrInit. destruct (repo !! m) as [d|] eqn:Hm; simpl; [|set_solver].
  by apply (Hwf m).
Qed.

Lemma insert_well_formed repo m d : well_formed repo -> m <> "" ->
  dependencies d ⊆ {[m]} ∪ dom repo -> downstreams d ⊆ {[m]} ∪ dom repo ->
  well_formed (<[m := d]> repo).
Proof.
  intros [He Hwf] Hm Hd1 Hd2. split; [by rewrite lookup_insert_ne|].
  intros k v Hk. rewrite dom_insert_L. destruct (decide (m = k)) as [->|Hmk].
  - rewrite lookup_insert_eq in Hk. simplify_eq. done.
  - rewrite lookup_insert_ne in Hk by done. pose proof (Hwf _ _ Hk) as [? ?].
    split; etransitivity; try done; apply union_subseteq_r.
Qed.

(** A module is added after the modules that depend on it or before; either way
    the map stays well formed. *)
Lemma AddMod_well_formed repo m data deps : well_formed repo -> m <> "" -> "" ∉ deps ->
  well_formed (AddMod m data deps repo).
Proof.
  intros Hwf Hm Hdeps. unfold AddMod, addDeps.
  assert (H1 : well_formed (addVersionData m data repo)).
  { apply insert_well_formed; [done|done| |]; simpl; etransitivity;
      [by apply getOrInit_dependencies|apply union_subseteq_r|
       by apply getOrInit_downstreams|apply union_subseteq_r]. }
  assert (Hin : m ∈ dom (addVersionData m data repo)).
  { unfold addVersionData. rewrite dom_insert_L. set_solver. }
  revert H1 Hin. generalize (addVersionData m data repo) as d. intros d H1 Hin.
  set (step := fun d dep => addDownstreamDep m dep d).
  assert (Hfold : forall l d, well_formed d -> m ∈ dom d -> "" ∉ l ->
    well_formed (foldl step d l) /\ m ∈ dom (foldl step d l) /\
    dom d ∪ list_to_set l ⊆ dom (foldl step d l)).
  { clear. induction l as [|dep l IH]; intros d Hd Hin Hl; simpl.
    - split_and!; [done|done|]. set_solver.
    - apply not_elem_of_cons in Hl as [Hne Hl].
      assert (Hdom : dom (step d dep) = {[dep]} ∪ dom d).
      { unfold step, addDownstreamDep. by rewrite dom_insert_L. }
      destruct (IH (step d dep)) as (? & ? & Hsub).
      + apply insert_well_formed; [done|done| |]; simpl.
        * etransitivity; [by apply getOrInit_dependencies|apply union_subseteq_r].
        * pose proof (getOrInit_downstreams d dep Hd). set_solver.
      + rewrite Hdom. set_solver.
      + done.
      + split_and!; [done..|]. etransitivity; [|exact Hsub]. rewrite Hdom. set_solver. }
  destruct (Hfold deps d H1 Hin Hdeps) as (Hwf' & Hin' & Hsub).
  apply insert_well_formed; [done|done| |]; simpl.
  - set_solver.
  - etransitivity; [by apply getOrInit_downstreams|apply union_subseteq_r].
Qed.

Lemma empty_well_formed : well_formed ∅.
Proof. split; [done|]. intros m d Hm. by rewrite lookup_empty in Hm. Qed.

(** ** Releasing a module and everything downstream *)

(** C26: A release propagates in dependency order: [BumpIterative] releases the
    module at the requested level and then, as patches, modules that depend on
    it, none twice and each after all of its dependencies that are released
    with it; whatever the disk and git do, and in whatever order Go ranges over
    its maps, the run is the sequence of those releases, cut short by the first
    one that fails. Without a cycle among them every dependent module is
    released; if some are left, each of them waits for another one and the run
    ends with an error after the others have been tagged. *)
Theorem BumpIterative_order {W} `{FS W} filepath_Join
    (ord : list string -> list string) `{!MapOrder ord}
    (ordm : list (string * ModData) -> list (string * ModData)) `{!MapOrder ordm}
    repo mod_ level data :
  well_formed repo -> repo !! mod_ = Some data ->
  exists order,
    NoDup order /\ list_to_set order ⊆ downstreams data /\
    dependencies_first repo (downstreams data) order /\
    (downstreams data ⊆ list_to_set order \/
     downstreams data ∖ list_to_set order <> ∅ /\
     stuck repo (downstreams data ∖ list_to_set order)) /\
    (forall rank : string -> nat,
       (forall m dep, m ∈ downstreams data -> dep ∈ downstreams data ->
          dep ∈ dependencies (getOrInit repo m) -> rank dep < rank m) ->
       list_to_set order = downstreams data) /\
    forall s, BumpIterative filepath_Join ord ordm mod_ level repo s =
      bind (BumpModule filepath_Join ord mod_ level data) (fun _ =>
        bind (bump_all filepath_Join ord repo order) (fun _ =>
          if decide (downstreams data ⊆ list_to_set order) then ret tt
          else throw (ErrorNew "could not determine next module"))) s.
Proof.
  intros Hwf Hd. pose proof Hwf as [He Hwf']. destruct (Hwf' _ _ Hd) as [_ Hdown].
  assert (Hne : "" ∉ downstreams data).
  { intros Hin. apply Hdown, elem_of_dom in Hin as [? Hin]. congruence. }
  destruct (bump_queue_order filepath_Join ord repo (size (downstreams data)) (downstreams data)
    (reduce ordm (downstreams data) repo)) as (order & Hnd & Hsub & Hfirst & Hend & Hrun); try done.
  { by apply reduce_residual. }
  exists order. split_and!; try done.
  - intros rank Hrank. apply set_eq. intros x. split; [apply Hsub|]. intros Hx.
    destruct Hend as [Hend|[Hrest Hst]]; [by apply Hend|]. exfalso. apply Hrest.
    eapply (stuck_acyclic repo rank (downstreams data)); [done| |done]. set_solver.
  - intros s. unfold BumpIterative. rewrite Hd. unfold bind at 1 2.
    destruct (BumpModule _ _ mod_ level data s) as [[[]|e] s']; [|done]. apply Hrun.
Qed.

(** A disk that records what is done to it. *)
Inductive event : Type :=
| Tagged (tag : string)
| Committed (msg : string)
| Bumped (path mod_ version : string).

#[export] Instance recorder : FS (list event) := {
  GitTag tag := fun w => (Ok tt, w ++ [Tagged tag]);
  GitCommit msg := fun w => (Ok tt, w ++ [Committed msg]);
  BumpModInFile path mod_ version := fun w => (Ok true, w ++ [Bumped path mod_ version])
}.

(** The modules of the release helper's own tests. *)
Definition sample_repo : gmap string ModData :=
  AddMod "runtime" {| Current := "v0.2.3"; KeepExtra := false |} ["client"; "plugin"; "x"]
    (AddMod "client" {| Current := "v1.0.2"; KeepExtra := false |} ["x"]
      (AddMod "plugin" {| Current := "v0.1.0"; KeepExtra := false |} ["x"]
        (AddMod "x" {| Current := "v0.0.3-do.not.use"; KeepExtra := true |} [] ∅))).

Definition sample_join (a b : string) : string := a +:+ "/" +:+ b.

Definition tags (w : list event) : list string :=
  omap (fun e => match e with Tagged t => Some t | _ => None end) w.

Example sample_release :
  (tags ∘ snd) (BumpIterative sample_join (fun l => l) (fun l => l) "x" Major sample_repo []) =
    ["x/v1.0.0-do.not.use"; "client/v1.0.3"; "plugin/v0.1.1"; "runtime/v0.2.4"] /\
  (tags ∘ snd) (BumpIterative sample_join (fun l => List.rev l) (fun l => List.rev l) "x" Major sample_repo []) =
    ["x/v1.0.0-do.not.use"; "plugin/v0.1.1"; "client/v1.0.3"; "runtime/v0.2.4"].
Proof. split; vm_compute; reflexivity. Qed.

Lemma sample_well_formed : well_formed sample_repo.
Proof.
  repeat apply AddMod_well_formed; try apply empty_well_formed; try done;
    apply (bool_decide_unpack _); by vm_compute.
Qed.

Lemma sample_rank m dep :
  m ∈ downstreams (getOrInit sample_repo "x") -> dep ∈ downstreams (getOrInit sample_repo "x") ->
  dep ∈ dependencies (getOrInit sample_repo m) -> String.length dep < String.length m.
Proof.
  assert (Hall : set_Forall (fun m => set_Forall (fun dep =>
    dep ∈ dependencies (getOrInit sample_repo m) -> String.length dep < String.length m)
    (downstreams (getOrInit sample_repo "x"))) (downstreams (getOrInit sample_repo "x"))).
  { apply (bool_decide_unpack _). vm_compute. exact I. }
  intros Hm Hdep. exact (Hall m Hm dep Hdep).
Qed.

Lemma BumpIterative_order_witness :
  exists order, NoDup order /\ list_to_set order = downstreams (getOrInit sample_repo "x") /\
    dependencies_first sample_repo (downstreams (getOrInit sample_repo "x")) order.
Proof.
  destruct (BumpIterative_order (W := list event) sample_join (fun l => l) (fun l => l)
    sample_repo "x" Major (getOrInit sample_repo "x") sample_well_formed) as
    (order & Hnd & _ & Hfirst & _ & Hall & _); [by vm_compute|].
  exists order. split; [exact Hnd|]. split; [exact (Hall String.length sample_rank)|exact Hfirst].
Defined.

(** ** Versions *)

(** What [CutVersionExtra] separates from a version's numbers: a pre-release
    part, or a build part that has no '-'. *)
Definition plain_extra (extra : string) : Prop :=
  match extra with
  | EmptyString => True
  | String c _ => c = "-"%char \/ (c = "+"%char /\ byte_free "-" extra = true)
  end.

(** The numbers of the next version. *)
Definition next_release (level : Level) (a b c : Z) : string :=
  match level with
  | Major => release_version (int_add a 1) 0 0
  | Minor => release_version a (int_add b 1) 0
  | Patch => release_version a b (int_add c 1)
  end.

Lemma release_version_free x a b c : is_digit x = false -> x <> "v"%char -> x <> "."%char ->
  (0 <= a)%Z -> (0 <= b)%Z -> (0 <= c)%Z -> byte_free x (release_version a b c) = true.
Proof.
  intros Hx Hv Hdot Ha Hb Hc. unfold release_version, byte_free.
  rewrite !string_forallb_append.
  pose proof (fun z Hz => digits_byte_free x _ Hx (Itoa_digits z Hz)) as Hd. unfold byte_free in Hd.
  rewrite !Hd by done. cbn [string_forallb].
  apply not_eq_sym, Ascii.eqb_neq in Hv. apply not_eq_sym, Ascii.eqb_neq in Hdot.
  by rewrite Hv, Hdot.
Qed.

Lemma CutVersionExtra_release a b c extra : plain_extra extra ->
  (0 <= a)%Z -> (0 <= b)%Z -> (0 <= c)%Z ->
  CutVersionExtra (release_version a b c +:+ extra) = (release_version a b c, extra).
Proof.
  intros He Ha Hb Hc.
  assert (Hm : byte_free "-" (release_version a b c) = true) by by apply release_version_free.
  assert (Hp : byte_free "+" (release_version a b c) = true) by by apply release_version_free.
  unfold CutVersionExtra. destruct extra as [|x extra]; simpl in He.
  - by rewrite append_nil_r, !IndexByte_None.
  - destruct He as [->|[-> Hf]].
    + by rewrite IndexByte_append, take_bytes_append, drop_bytes_append.
    + rewrite (IndexByte_None _ "-").
      * by rewrite IndexByte_append, take_bytes_append, drop_bytes_append.
      * unfold byte_free in *. by rewrite string_forallb_append, Hm, Hf.
Qed.

Lemma SplitN_release a b c : (0 <= a)%Z -> (0 <= b)%Z -> (0 <= c)%Z ->
  SplitN (TrimPrefix (release_version a b c) "v") "." 3 = [Itoa a; Itoa b; Itoa c].
Proof.
  intros Ha Hb Hc. unfold release_version.
  replace (TrimPrefix _ "v") with (Itoa a +:+ String "." (Itoa b +:+ String "." (Itoa c))).
  - cbn [SplitN]. pose proof (fun z Hz => digits_byte_free "." _ eq_refl (Itoa_digits z Hz)) as Hd.
    by rewrite !Cut_append by auto.
  - symmetry. apply (TrimPrefix_append "v").
Qed.

Lemma int_add_1 a : (0 <= a < int_max)%Z -> int_add a 1 = (a + 1)%Z.
Proof. unfold int_add, int_max. intros Ha. rewrite Z.mod_small; lia. Qed.

Lemma GetNextVersion_release a b c extra keep level : plain_extra extra ->
  (0 <= a <= int_max)%Z -> (0 <= b <= int_max)%Z -> (0 <= c <= int_max)%Z ->
  GetNextVersion {| Current := release_version a b c +:+ extra; KeepExtra := keep |} level =
  Ok (next_release level a b c +:+ (if keep then extra else "")).
Proof.
  intros He Ha Hb Hc. unfold GetNextVersion. cbn [Current KeepExtra].
  rewrite CutVersionExtra_release by (done || lia).
  assert (Canonical (release_version a b c) = release_version a b c) as Hv.
  { rewrite <- (append_nil_r (release_version a b c)) at 1. apply Canonical_release; auto; lia. }
  cbv beta iota zeta. rewrite Hv.
  assert (String.eqb (release_version a b c) "" = false) as -> by done.
  rewrite SplitN_release by lia. rewrite !Atoi_Itoa_nonneg by done. by destruct level.
Qed.

(** C36: The next version of va.b.c, with or without a pre-release part or a
    build part without '-', increments the component of the level and zeroes
    the ones after it; the extra part is kept exactly when the module asks for
    it. Below the largest 64-bit number the numbers written are the true ones
    and the version, without extra, is valid again; at that number the sum
    wraps and the result is not a version. A build part with a '-' is cut in
    the middle, and what is kept of it turns into a pre-release part. *)
Theorem GetNextVersion_spec :
  (forall a b c extra keep level, plain_extra extra ->
     (0 <= a < int_max)%Z -> (0 <= b < int_max)%Z -> (0 <= c < int_max)%Z ->
     exists a' b' c',
       (a', b', c') = match level with
                      | Major => (a + 1, 0, 0)
                      | Minor => (a, b + 1, 0)
                      | Patch => (a, b, c + 1)
                      end%Z /\
       GetNextVersion {| Current := release_version a b c +:+ extra; KeepExtra := keep |} level =
         Ok (release_version a' b' c' +:+ (if keep then extra else "")) /\
       IsValid (release_version a' b' c') = true) /\
  (exists v, GetNextVersion {| Current := release_version 0 0 int_max; KeepExtra := false |} Patch = Ok v /\
     IsValid v = false) /\
  GetNextVersion {| Current := "v0.1.0+build-7"; KeepExtra := true |} Patch = Ok "v0.1.1-7" /\
  (forall keep level, is_ok (GetNextVersion {| Current := ""; KeepExtra := keep |} level) = false).
Proof.
  split_and!.
  - intros a b c extra keep level He Ha Hb Hc.
    rewrite (GetNextVersion_release a b c extra keep level He) by lia. unfold next_release.
    assert (Hv : forall x y z, (0 <= x)%Z -> (0 <= y)%Z -> (0 <= z)%Z ->
      IsValid (release_version x y z) = true).
    { intros x y z Hx Hy Hz. unfold IsValid. rewrite <- (append_nil_r (release_version x y z)).
      by rewrite parse_release. }
    destruct level; eexists _, _, _; (split; [reflexivity|]); rewrite int_add_1 by done;
      (split; [done|apply Hv; lia]).
  - eexists. split; vm_compute; reflexivity.
  - by vm_compute.
  - intros [] []; reflexivity.
Qed.

(** ** go.mod files *)

(** The requirement [mod_path] would change: a direct one with that prefix. *)
Definition direct_prefix (mod_path : string) (r : Require_) : bool :=
  negb (rq_Indirect r) && HasPrefix (rq_Path r) mod_path.

Lemma bump_requires_skip mod_path version pre post :
  forallb (fun r => negb (direct_prefix mod_path r)) pre = true ->
  bump_requires mod_path version (pre ++ post) =
  (pre ++ (bump_requires mod_path version post).1, (bump_requires mod_path version post).2).
Proof.
  induction pre as [|r pre IH]; cbn [app forallb]; intros Hp; [by destruct (bump_requires _ _ post)|].
  apply andb_true_iff in Hp as [Hr%negb_true_iff Hp]. cbn [bump_requires].
  unfold direct_prefix in Hr. by rewrite Hr, (IH Hp).
Qed.

Lemma bump_requires_none mod_path version l :
  forallb (fun r => negb (direct_prefix mod_path r)) l = true ->
  bump_requires mod_path version l = (l, false).
Proof.
  intros Hl. rewrite <- (app_nil_r l). rewrite bump_requires_skip by done. simpl. by rewrite app_nil_r.
Qed.

Definition sample_go_mod : ModFile :=
  {| mf_Module := "github.com/docker/secrets-engine/runtime";
     mf_Require :=
       [{| rq_Path := "github.com/docker/secrets-engine/plugin"; rq_Version := "v0.2.0"; rq_Indirect := true |};
        {| rq_Path := "github.com/docker/secrets-engine/plugins/pass"; rq_Version := "v0.0.9"; rq_Indirect := false |}] |}.

(** Bumping a module in a go.mod file writes the version at the module's
    direct requirement, and nothing else, if no direct requirement before it
    has a path that starts with the module's; without any direct requirement
    whose path starts with it the file is left alone and reported as such.
    The comparison is by prefix: in a file that requires [plugins/pass]
    directly and [plugin] indirectly, a release of [plugin] counts the file as
    changed and writes [plugin]'s version at [plugins/pass]. *)
Theorem bump_mod_file_spec :
  (forall f base mod_ version pre r post,
     getModBase (mf_Module f) = Ok base -> mf_Require f = pre ++ r :: post ->
     rq_Path r = base +:+ "/" +:+ mod_ -> rq_Indirect r = false ->
     forallb (fun q => negb (direct_prefix (base +:+ "/" +:+ mod_) q)) pre = true ->
     bump_mod_file f mod_ version =
       Ok ({| mf_Module := mf_Module f;
              mf_Require := pre ++ {| rq_Path := rq_Path r; rq_Version := version;
                                      rq_Indirect := false |} :: post |}, true)) /\
  (forall f base mod_ version,
     getModBase (mf_Module f) = Ok base ->
     forallb (fun q => negb (direct_prefix (base +:+ "/" +:+ mod_) q)) (mf_Require f) = true ->
     bump_mod_file f mod_ version = Ok (f, false)) /\
  bump_mod_file sample_go_mod "plugin" "v0.2.1" =
    Ok ({| mf_Module := mf_Module sample_go_mod;
           mf_Require :=
             [{| rq_Path := "github.com/docker/secrets-engine/plugin"; rq_Version := "v0.2.0"; rq_Indirect := true |};
              {| rq_Path := "github.com/docker/secrets-engine/plugins/pass"; rq_Version := "v0.2.1"; rq_Indirect := false |}] |},
        true).
Proof.
  split_and!.
  - intros f base mod_ version pre r post Hb Hl Hr Hi Hp. unfold bump_mod_file. rewrite Hb, Hl.
    cbn [result_bind]. rewrite bump_requires_skip by done. cbn [bump_requires].
    rewrite Hi, Hr. cbn [negb andb].
    assert (HasPrefix (base +:+ "/" +:+ mod_) (base +:+ "/" +:+ mod_) = true) as ->; [|done].
    apply HasPrefix_spec. exists "". by rewrite append_nil_r.
  - intros f base mod_ version Hb Hp. unfold bump_mod_file. rewrite Hb. cbn [result_bind].
    rewrite bump_requires_none by done. by destruct f.
  - by vm_compute.
Qed.
