(* ===== verification/ReleaseGit.v ===== *)
(** Package x/release, the command (command.go, main.go): the git operations of
    a release, the guard that refuses to tag away from the remote default
    branch, and the assembly of the repository's modules. *)

From S2P Require Import Prelude GoErrors GoStrings Api Release.

(** ** The repository on disk and the git program *)

(** [git args] is a run of the git program: its combined output, with an error
    when it exits with a failure. [go_mod] is the parsed go.mod at a path,
    [write_mod] writes one, [exists_file] is [os.Stat]; [make_mod] is the run
    of [make mod]. *)
Class Repository (W : Type) : Type := {
  git : list string -> comp W string string;
  go_mod : W -> string -> option ModFile;
  exists_file : W -> string -> bool;
  write_mod : string -> ModFile -> comp W goerror unit;
  make_mod_run : comp W string unit
}.

(** An entry of [fs.WalkDir]. *)
Inductive FileType : Type := Dir | Symlink | Regular.

Definition IsDir (t : FileType) : bool := match t with Dir => true | _ => false end.
Definition isSymlink (t : FileType) : bool := match t with Symlink => true | _ => false end.

Record opts : Type := {
  dryRun : bool;
  skipGit : bool;
  level : Level;
  noPropagate : bool
}.

Section command.
Context {W : Type} `{Repository W}.

(** ** The git commands *)

Definition runGit (args : list string) : comp W string string := git args.

Definition gitTag (tag : string) : comp W goerror unit :=
  try (runGit ["tag"; tag; "-m"; tag]) (fun r =>
    match r with Ok _ => ret tt | Err _ => throw (ErrorNew "git tag (%s): %s") end).

Definition gitPushTags : comp W goerror unit :=
  try (runGit ["push"; "--tags"]) (fun r =>
    match r with Ok _ => ret tt | Err _ => throw (ErrorNew "git push --tags (%s): %s") end).

Definition gitCommit (commit : string) : comp W goerror unit :=
  try (runGit ["commit"; "-am"; commit]) (fun r =>
    match r with Ok _ => ret tt | Err _ => throw (ErrorNew "git commit (%s): %s") end).

Definition revParse (ref : string) : comp W goerror string :=
  try (runGit ["rev-parse"; ref]) (fun r =>
    match r with Ok out => ret (TrimSpace out) | Err _ => throw (ErrorNew "git rev-parse %s (%s): %s") end).

Definition remoteDefaultBranch : comp W goerror string :=
  try (runGit ["symbolic-ref"; "--short"; "refs/remotes/origin/HEAD"]) (fun r =>
    match r with Ok out => ret (TrimPrefix (TrimSpace out) "origin/") | Err _ => ret "main" end).

Definition verifyReleaseRef : comp W goerror unit :=
  branch <-! remoteDefaultBranch ;;
  _ <-! try (runGit ["fetch"; "origin"; branch]) (fun r =>
    match r with Ok _ => ret tt | Err _ => throw (ErrorNew "git fetch origin %s (%s): %s") end) ;;
  head <-! revParse "HEAD" ;;
  remote <-! revParse ("refs/remotes/origin/" +:+ branch) ;;
  if negb (String.eqb head remote) then
    throw (ErrorNew "refusing to tag: HEAD (%s) is not at the tip of origin/%s (%s)")
  else ret tt.

Definition makeMod : comp W goerror unit :=
  try make_mod_run (fun r =>
    match r with Ok _ => ret tt | Err _ => throw (ErrorNew "make mod (%s): %s") end).

(** ** projectFS *)

Section projectFS.
Context (o : opts) (beforeCommitHook : option (comp W goerror unit)).

(** The parse, the edit and the write of [projectFS.BumpModInFile]. *)
Definition project_BumpModInFile (filename mod_ version : string) : comp W goerror bool := fun w =>
  match go_mod w filename with
  | None => (Err (ErrorNew "open go.mod"), w)
  | Some f =>
      match bump_mod_file f mod_ version with
      | Err err => (Err err, w)
      | Ok (f', needsAction) =>
          if negb needsAction then (Ok needsAction, w)
          else if dryRun o then (Ok needsAction, w)
          else bind (write_mod filename f') (fun _ => ret needsAction) w
      end
  end.

Definition project_GitTag (tag : string) : comp W goerror unit :=
  if dryRun o || skipGit o then ret tt
  else
    _ <-! gitTag tag ;;
    if negb (noPropagate o) && negb (dryRun o) then gitPushTags else ret tt.

Definition project_GitCommit (commit : string) : comp W goerror unit :=
  _ <-! match beforeCommitHook with
        | Some hook => if negb (dryRun o) then hook else ret tt
        | None => ret tt
        end ;;
  if dryRun o || skipGit o then ret tt else gitCommit commit.

Definition projectFS : FS W := {|
  GitTag := project_GitTag;
  GitCommit := project_GitCommit;
  BumpModInFile := project_BumpModInFile
|}.
End projectFS.

(** ** The modules of the repository *)

Definition getLatestVersion (modName : string) : comp W goerror string :=
  try (runGit ["tag"; "-l"; modName +:+ "/v*"; "--sort=-v:refname"]) (fun r =>
    match r with
    | Err _ => throw (ErrorNew "exit status")
    | Ok out =>
        let latest := TrimSpace (hd "" (Split out "010"%char)) in
        let prefix := modName +:+ "/" in
        let latest := if String.eqb latest "" then prefix +:+ "v0.0.0" else latest in
        if negb (HasPrefix latest prefix)
        then throw (ErrorNew "unexptected format of latest release: %s")
        else ret (TrimPrefix latest prefix)
    end).

Context (filepath_Join : string -> string -> string).

Definition getDependencies (mod_ : string) : comp W goerror (list string) := fun w =>
  match go_mod w (filepath_Join mod_ "go.mod") with
  | None => (Err (ErrorNew "open go.mod"), w)
  | Some f => (getDirectProjectDependencies f, w)
  end.

(** The walk of [newRepoData] over the entries of the tree; the callback drops
    the error it is handed. A directory that is a symbolic link would be
    skipped with what is below it: [skip] is the last one. *)
Fixpoint walk_modules (versionExtraAllowList : list string) (skip : option string)
    (entries : list (string * FileType)) (modules : gmap string ModData)
  : comp W goerror (gmap string ModData) :=
  match entries with
  | [] => ret modules
  | (path, t) :: entries' =>
      if match skip with Some dir => HasPrefix path (dir +:+ "/") | None => false end
      then walk_modules versionExtraAllowList skip entries' modules
      else if IsDir t && isSymlink t then walk_modules versionExtraAllowList (Some path) entries' modules
      else if negb (IsDir t) then walk_modules versionExtraAllowList skip entries' modules
      else fun w =>
        if negb (exists_file w (filepath_Join path "go.mod"))
        then walk_modules versionExtraAllowList skip entries' modules w
        else
          (latest <-! getLatestVersion path ;;
           deps <-! getDependencies path ;;
           walk_modules versionExtraAllowList skip entries'
             (AddMod path {| Current := latest;
                             KeepExtra := existsb (String.eqb path) versionExtraAllowList |} deps modules)) w
  end.

Definition newRepoData (versionExtraAllowList : list string) (entries : list (string * FileType))
  : comp W goerror (gmap string ModData) :=
  walk_modules versionExtraAllowList None entries ∅.

(** ** The command *)

Context (ord : list string -> list string) (ordm : list (string * ModData) -> list (string * ModData)).

(** The [RunE] of [ReleaseCommand]; [entries] are what the walk visits. *)
Definition ReleaseCommand (o : opts) (EnableModulesWithPreReleaseVersion : list string)
    (beforeCommitHook : option (comp W goerror unit)) (entries : list (string * FileType)) (mod_ : string)
  : comp W goerror unit :=
  _ <-! (if negb (dryRun o) && negb (skipGit o) then verifyReleaseRef else ret tt) ;;
  data <-! newRepoData EnableModulesWithPreReleaseVersion entries ;;
  match data !! mod_ with
  | None => throw (ErrorNew "module %s not found")
  | Some modData =>
      if noPropagate o then
        BumpModule (H := projectFS o beforeCommitHook) filepath_Join ord mod_ (level o) modData
      else BumpIterative (H := projectFS o beforeCommitHook) filepath_Join ord ordm mod_ (level o) data
  end.
End command.

(** ** What the git program does *)

(** The parts of a repository a release touches, and what the manual of git
    says of the commands the tool runs: [head] is the local HEAD, [tip] the
    branch on the remote, [tracking] the local copy of it, [tags] the local
    local_tags with their commits and [pushed] those of the remote. *)
Class GitLaws (W : Type) `{Repository W} (head_of : W -> string) (tip_of tracking_of : string -> W -> string)
    (local_tags remote_tags : W -> gmap string string) : Prop := {
  (** Reading changes nothing. *)
  git_reads cmd args w : cmd = "rev-parse" \/ cmd = "symbolic-ref" -> (git (cmd :: args) w).2 = w;
  git_tag_list args w : (git ("tag" :: "-l" :: args) w).2 = w;
  git_head w out w' : git ["rev-parse"; "HEAD"] w = (Ok out, w') -> TrimSpace out = head_of w;
  git_tracking b w out w' : git ["rev-parse"; "refs/remotes/origin/" +:+ b] w = (Ok out, w') ->
    TrimSpace out = tracking_of b w;
  (** A fetch updates the copy of the branch and may bring tags of the remote. *)
  git_fetch b w :
    let '(r, w') := git ["fetch"; "origin"; b] w in
    head_of w' = head_of w /\ (forall b', tip_of b' w' = tip_of b' w) /\ remote_tags w' = remote_tags w /\
    (forall t c, local_tags w' !! t = Some c -> local_tags w !! t = Some c \/ remote_tags w !! t = Some c) /\
    (is_ok r = true -> tracking_of b w' = tip_of b w);
  (** An annotated tag is put on HEAD, or nothing happens. *)
  git_tag m v w :
    let t := m +:+ "/" +:+ v in
    let '(r, w') := git ["tag"; t; "-m"; t] w in
    remote_tags w' = remote_tags w /\
    local_tags w' = (if is_ok r then <[t := head_of w]> (local_tags w) else local_tags w);
  git_push w :
    let '(r, w') := git ["push"; "--tags"] w in
    local_tags w' = local_tags w /\
    (forall t c, remote_tags w' !! t = Some c -> remote_tags w !! t = Some c \/ local_tags w !! t = Some c);
  (** A commit, like the edits of files before it, touches no tag. *)
  git_commit m w :
    let '(r, w') := git ["commit"; "-am"; m] w in local_tags w' = local_tags w /\ remote_tags w' = remote_tags w;
  write_mod_tags p f w :
    let '(r, w') := write_mod p f w in local_tags w' = local_tags w /\ remote_tags w' = remote_tags w;
  make_mod_tags w :
    let '(r, w') := make_mod_run w in local_tags w' = local_tags w /\ remote_tags w' = remote_tags w
}.

(** ** Lemmas: what a release leaves alone *)

(** [m] takes every state to one [R] relates it to, whatever it returns. *)
Definition moves {W E A} (R : W -> W -> Prop) (m : comp W E A) : Prop := forall w, R w (m w).2.

Section moves.
Context {W : Type} (R : W -> W -> Prop) `{!PreOrder R}.

Lemma moves_ret {E A} (a : A) : moves R (ret (E := E) a).
Proof. intros w. done. Qed.

Lemma moves_throw {E A} (e : E) : moves R (throw (A := A) e).
Proof. intros w. done. Qed.

Lemma moves_lift {E A} (r : result E A) : moves R (lift r).
Proof. intros w. done. Qed.

Lemma moves_bind {E A B} (m : comp W E A) (f : A -> comp W E B) :
  moves R m -> (forall a, moves R (f a)) -> moves R (bind m f).
Proof.
  intros Hm Hf w. specialize (Hm w). unfold bind. destruct (m w) as [[a|e] w']; [|done].
  etrans; [exact Hm|apply Hf].
Qed.

Lemma moves_try {E F A B} (m : comp W E A) (f : result E A -> comp W F B) :
  moves R m -> (forall r, moves R (f r)) -> moves R (try m f).
Proof.
  intros Hm Hf w. specialize (Hm w). unfold try. destruct (m w) as [r w'].
  etrans; [exact Hm|apply Hf].
Qed.

Lemma moves_same {E A} (m : comp W E A) : (forall w, (m w).2 = w) -> moves R m.
Proof. intros Hm w. by rewrite Hm. Qed.
End moves.

Create HintDb moves.
#[export] Hint Resolve moves_ret moves_throw moves_lift moves_bind moves_try : moves.
#[export] Hint Extern 0 (PreOrder _) => apply _ : moves.
#[export] Hint Extern 1 (moves _ (match ?x with _ => _ end)) => destruct x : moves.

Section laws.
Context {W : Type} `{GitLaws W head_of tip_of tracking_of local_tags remote_tags}.

(** Nothing that a release guards has changed; tags of the remote may have
    been fetched. *)
Definition quiet (w w' : W) : Prop :=
  head_of w' = head_of w /\ (forall b, tip_of b w' = tip_of b w) /\ remote_tags w' = remote_tags w /\
  (forall t c, local_tags w' !! t = Some c -> local_tags w !! t = Some c \/ remote_tags w !! t = Some c).

#[export] Instance quiet_preorder : PreOrder quiet.
Proof.
  split; [by intros w; split_and!; auto|]. intros w1 w2 w3 (Hh1 & Ht1 & Hp1 & Hg1) (Hh2 & Ht2 & Hp2 & Hg2).
  split_and!; [congruence|intros b; by rewrite Ht2|congruence|].
  intros t c [Hl|Hl]%Hg2; [by apply Hg1|right; congruence].
Qed.

(** No tag has changed, here or on the remote. *)
Definition same_tags (w w' : W) : Prop := local_tags w' = local_tags w /\ remote_tags w' = remote_tags w.

#[export] Instance same_tags_preorder : PreOrder same_tags.
Proof.
  split; [by intros w|]. intros w1 w2 w3 [Ht1 Hp1] [Ht2 Hp2]. split; congruence.
Qed.

Lemma getLatestVersion_moves R `{!PreOrder R} m : moves R (getLatestVersion m).
Proof.
  unfold getLatestVersion. apply (moves_try R); [apply (moves_same R); intros w; apply git_tag_list|].
  intros [out|e]; auto with moves.
Qed.

Lemma newRepoData_moves R `{!PreOrder R} filepath_Join allow entries :
  moves R (newRepoData filepath_Join allow entries).
Proof.
  unfold newRepoData. generalize (@None string), (∅ : gmap string ModData).
  induction entries as [|[path t] entries IH]; intros skip modules; cbn [walk_modules]; [auto with moves|].
  destruct (match skip with Some dir => _ | None => false end); [done|].
  destruct (IsDir t && isSymlink t); [done|]. destruct (negb (IsDir t)); [done|].
  intros w. destruct (negb _); [by apply IH|]. revert w. change (moves R (
    latest <-! getLatestVersion path ;; deps <-! getDependencies filepath_Join path ;;
    walk_modules filepath_Join allow skip entries
      (AddMod path {| Current := latest; KeepExtra := existsb (String.eqb path) allow |} deps modules))).
  apply (moves_bind R); [apply (getLatestVersion_moves R)|]. intros latest.
  apply (moves_bind R); [|intros; apply IH]. apply (moves_same R). intros w.
  unfold getDependencies. by destruct (go_mod w _).
Qed.

Lemma remoteDefaultBranch_reads w : exists b, remoteDefaultBranch w = (Ok b, w).
Proof.
  unfold remoteDefaultBranch, runGit, try.
  pose proof (git_reads "symbolic-ref" ["--short"; "refs/remotes/origin/HEAD"] w ltac:(auto)) as Hs.
  destruct (git _ w) as [r w']. simpl in Hs. subst w'. destruct r; by eexists.
Qed.

Lemma revParse_reads ref w : exists r, revParse ref w = (r, w) /\
  forall v, r = Ok v -> exists out, git ["rev-parse"; ref] w = (Ok out, w) /\ v = TrimSpace out.
Proof.
  unfold revParse, runGit, try.
  pose proof (git_reads "rev-parse" [ref] w ltac:(auto)) as Hs.
  destruct (git _ w) as [r w'] eqn:Hg. simpl in Hs. subst w'. destruct r as [out|e]; eexists; (split; [done|]).
  - intros v [= <-]. eauto.
  - done.
Qed.

(** The guard: when it passes, HEAD is the tip of the remote's default branch. *)
Lemma verifyReleaseRef_spec w : let '(r, w') := verifyReleaseRef w in
  quiet w w' /\
  (is_ok r = true -> exists b, (remoteDefaultBranch w).1 = Ok b /\ head_of w' = tip_of b w').
Proof.
  unfold verifyReleaseRef. destruct (remoteDefaultBranch_reads w) as [b Hb].
  rewrite (bind_Ok _ _ _ _ _ Hb). unfold bind at 1, try, runGit.
  pose proof (git_fetch b w) as Hf. destruct (git ["fetch"; "origin"; b] w) as [[out|e] w1];
    destruct Hf as (Hh & Ht & Hp & Hg & Htr); unfold ret, throw; [|by split; [split_and!|by intros]].
  destruct (revParse_reads "HEAD" w1) as (r2 & Hr2 & H2).
  destruct (revParse_reads ("refs/remotes/origin/" +:+ b) w1) as (r3 & Hr3 & H3).
  unfold bind. rewrite Hr2. destruct r2 as [v2|]; [|by split; [split_and!|by intros]].
  rewrite Hr3. destruct r3 as [v3|]; [|by split; [split_and!|by intros]].
  destruct (String.eqb v2 v3) eqn:He; cbn [negb]; (split; [by split_and!|]); [|by intros].
  intros _. exists b. rewrite Hb. split; [done|]. breflect. subst v3.
  destruct (H2 v2 eq_refl) as (o2 & Ho2 & E2). destruct (H3 v2 eq_refl) as (o3 & Ho3 & E3).
  rewrite <- (git_head w1 o2 w1 Ho2), <- E2, E3, (git_tracking b w1 o3 w1 Ho3), Htr by done. by rewrite Ht.
Qed.

(** The edits of a release, and its commit, touch no tag. *)
Section project.
Context (o : opts) (hook : option (comp W goerror unit)).
Context (Hhook : match hook with Some h => moves same_tags h | None => True end).

Lemma write_mod_moves p f : moves same_tags (write_mod p f).
Proof. intros w. pose proof (write_mod_tags p f w) as Hw. by destruct (write_mod p f w). Qed.

Lemma project_BumpModInFile_moves f m v : moves same_tags (project_BumpModInFile o f m v).
Proof.
  intros w. unfold project_BumpModInFile. destruct (go_mod w f) as [g|]; [|done].
  destruct (bump_mod_file g m v) as [[g' needs]|e]; [|done].
  destruct (negb needs); [done|]. destruct (dryRun o); [done|]. revert w.
  apply (moves_bind same_tags); [apply write_mod_moves|]. auto with moves.
Qed.

Lemma gitCommit_moves m : moves same_tags (gitCommit m).
Proof.
  apply (moves_try same_tags); [|auto with moves]. intros w.
  pose proof (git_commit m w) as Hc. unfold runGit. by destruct (git _ w).
Qed.

Lemma project_GitCommit_moves m : moves same_tags (project_GitCommit o hook m).
Proof.
  apply (moves_bind same_tags).
  - destruct hook; [|auto with moves]. destruct (negb (dryRun o)); [done|auto with moves].
  - intros _. destruct (dryRun o || skipGit o); [auto with moves|apply gitCommit_moves].
Qed.

(** Everything a release of a module does after its tag. *)
Lemma BumpModule_rest filepath_Join (deps : list string) mod_ v needs :
  moves same_tags (bind (bump_downstreams (H := projectFS o hook) filepath_Join deps mod_ v needs)
    (fun needsCommit => if negb needsCommit then ret tt
       else GitCommit (FS := projectFS o hook) ("chore: bump " +:+ (mod_ +:+ "/" +:+ v)))).
Proof.
  apply (moves_bind same_tags).
  - revert needs. induction deps as [|dep deps IH]; intros needs; cbn [bump_downstreams]; [auto with moves|].
    apply (moves_bind same_tags); [apply project_BumpModInFile_moves|done].
  - intros needs'. destruct (negb needs'); [auto with moves|apply project_GitCommit_moves].
Qed.

Lemma project_GitTag_skip t : dryRun o || skipGit o = true -> moves same_tags (project_GitTag o t).
Proof. intros Hs. unfold project_GitTag. rewrite Hs. auto with moves. Qed.

(** Without propagation a tag is put on HEAD and not pushed. *)
Lemma project_GitTag_local m v w : noPropagate o = true ->
  let t := m +:+ "/" +:+ v in
  let '(r, w') := project_GitTag o t w in
  remote_tags w' = remote_tags w /\
  (local_tags w' = local_tags w \/
   dryRun o = false /\ skipGit o = false /\ local_tags w' = <[t := head_of w]> (local_tags w)).
Proof.
  intros Hn t. unfold project_GitTag. destruct (dryRun o) eqn:Hd; [by split; [|left]|].
  destruct (skipGit o) eqn:Hs; [by split; [|left]|]. cbn [orb]. rewrite Hn. cbn [negb andb].
  unfold gitTag, runGit, bind, try. pose proof (git_tag m v w) as Ht. cbv zeta in Ht. fold t in Ht.
  destruct (git ["tag"; t; "-m"; t] w) as [[out|e] w1]; destruct Ht as [Hp Hl]; cbn [is_ok] in Hl;
    unfold ret, throw; (split; [done|]); [right|left]; done.
Qed.

Lemma BumpModule_skip filepath_Join ord mod_ level data : dryRun o || skipGit o = true ->
  moves same_tags (BumpModule (H := projectFS o hook) filepath_Join ord mod_ level data).
Proof.
  intros Hs. apply (moves_bind same_tags); [auto with moves|]. intros v.
  apply (moves_bind same_tags); [by apply project_GitTag_skip|]. intros _. apply BumpModule_rest.
Qed.

Lemma bump_queue_skip filepath_Join ord n queue repo : dryRun o || skipGit o = true ->
  moves same_tags (bump_queue (H := projectFS o hook) filepath_Join ord n queue repo).
Proof.
  intros Hs. revert queue repo. induction n as [|n IH]; intros queue repo; cbn [bump_queue];
    (destruct (size queue =? 0)%nat; [auto with moves|]); [auto with moves|].
  cbv zeta. generalize (next_module ord queue repo) as next. intros next.
  destruct (String.eqb next ""); [auto with moves|]. destruct (repo !! next); [|auto with moves].
  apply (moves_bind same_tags); [by apply BumpModule_skip|]. intros _. apply IH.
Qed.

Lemma BumpIterative_skip filepath_Join ord ordm mod_ level repo : dryRun o || skipGit o = true ->
  moves same_tags (BumpIterative (H := projectFS o hook) filepath_Join ord ordm mod_ level repo).
Proof.
  intros Hs. unfold BumpIterative. destruct (repo !! mod_) as [data|]; [|auto with moves].
  apply (moves_bind same_tags); [by apply BumpModule_skip|]. intros _. by apply bump_queue_skip.
Qed.

Lemma BumpModule_local filepath_Join ord mod_ level data w : noPropagate o = true ->
  let '(r, w') := BumpModule (H := projectFS o hook) filepath_Join ord mod_ level data w in
  remote_tags w' = remote_tags w /\
  (local_tags w' = local_tags w \/
   dryRun o = false /\ skipGit o = false /\ exists v, GetNextVersion (version data) level = Ok v /\
     local_tags w' = <[mod_ +:+ "/" +:+ v := head_of w]> (local_tags w)).
Proof.
  intros Hn. unfold BumpModule, lift, bind at 1.
  destruct (GetNextVersion (version data) level) as [v|e]; [|by split; [|left]].
  pose proof (project_GitTag_local mod_ v w Hn) as Ht. cbv zeta in Ht. unfold bind at 1.
  change (GitTag (FS := projectFS o hook)) with (project_GitTag o).
  destruct (project_GitTag o (mod_ +:+ "/" +:+ v) w) as [[[]|e] w1]; destruct Ht as [Hp Hl].
  2: { split; [done|]. destruct Hl as [?|(? & ? & ?)]; [by left|right; eauto]. }
  pose proof (BumpModule_rest filepath_Join (ord (elements (downstreams data))) mod_ v false w1) as [Ht2 Hp2].
  destruct (bind _ _ w1) as [r w']. cbn [snd] in Ht2, Hp2. rewrite Ht2, Hp2.
  split; [done|]. destruct Hl as [?|(? & ? & ?)]; [by left|right; eauto].
Qed.
End project.

(** The runs of the command. *)
Section runs.
Context (filepath_Join : string -> string -> string).
Context (ord : list string -> list string) (ordm : list (string * ModData) -> list (string * ModData)).
Context (o : opts) (hook : option (comp W goerror unit)).
Context (Hhook : match hook with Some h => moves same_tags h | None => True end).

Lemma release_skip allow entries mod_ w r w' : dryRun o || skipGit o = true ->
  ReleaseCommand filepath_Join ord ordm o allow hook entries mod_ w = (r, w') -> same_tags w w'.
Proof.
  intros Hs Hrun. cut (moves same_tags (ReleaseCommand filepath_Join ord ordm o allow hook entries mod_)).
  { intros Hm. specialize (Hm w). by rewrite Hrun in Hm. }
  unfold ReleaseCommand. apply (moves_bind same_tags).
  { destruct (dryRun o), (skipGit o); cbn [negb andb]; auto with moves; done. }
  intros _. apply (moves_bind same_tags); [by apply newRepoData_moves; apply _|]. intros data.
  destruct (data !! mod_); [|auto with moves].
  destruct (noPropagate o); [by apply BumpModule_skip|by apply BumpIterative_skip].
Qed.

(** The guard of the command: it is passed on HEAD, or git is not used. *)
Lemma release_guard w r w1 :
  (if negb (dryRun o) && negb (skipGit o) then verifyReleaseRef else ret tt) w = (r, w1) ->
  quiet w w1 /\ (is_ok r = true -> dryRun o = false -> skipGit o = false ->
    exists b, (remoteDefaultBranch w).1 = Ok b /\ head_of w1 = tip_of b w1).
Proof.
  destruct (negb (dryRun o) && negb (skipGit o)) eqn:Hb; intros Hr.
  - pose proof (verifyReleaseRef_spec w) as Hv. rewrite Hr in Hv. destruct Hv as [Hq Hv]. auto.
  - injection Hr as <- <-. split; [done|]. intros _ Hd Hs. by rewrite Hd, Hs in Hb.
Qed.

Lemma release_local allow entries mod_ w r w' : noPropagate o = true ->
  ReleaseCommand filepath_Join ord ordm o allow hook entries mod_ w = (r, w') ->
  remote_tags w' = remote_tags w /\
  forall t c, local_tags w' !! t = Some c ->
    local_tags w !! t = Some c \/ remote_tags w !! t = Some c \/
    dryRun o = false /\ skipGit o = false /\ (exists v, t = mod_ +:+ "/" +:+ v) /\
    exists b, (remoteDefaultBranch w).1 = Ok b /\ c = head_of w /\ c = tip_of b w.
Proof.
  intros Hn Hrun. unfold ReleaseCommand in Hrun. unfold bind at 1 in Hrun.
  destruct ((if negb (dryRun o) && negb (skipGit o) then verifyReleaseRef else ret tt) w)
    as [r1 w1] eqn:Hg. apply release_guard in Hg as [(Hh & Ht & Hp & Hl) Hguard].
  assert (Hq : remote_tags w1 = remote_tags w /\ forall t c, local_tags w1 !! t = Some c ->
    local_tags w !! t = Some c \/ remote_tags w !! t = Some c) by done.
  destruct r1 as [[]|e]; [|injection Hrun as _ <-; naive_solver].
  unfold bind at 1 in Hrun.
  pose proof (newRepoData_moves eq filepath_Join allow entries w1) as Hsame.
  destruct (newRepoData filepath_Join allow entries w1) as [[data|e] w2]; cbn [snd] in Hsame; subst w2;
    [|injection Hrun as _ <-; naive_solver].
  destruct (data !! mod_) as [md|]; [|injection Hrun as _ <-; naive_solver].
  rewrite Hn in Hrun.
  pose proof (BumpModule_local o hook Hhook filepath_Join ord mod_ (level o) md w1 Hn) as Hb.
  rewrite Hrun in Hb. destruct Hb as [Hp' Hl']. split; [congruence|]. intros t c Htc.
  destruct Hl' as [He|(Hd & Hs & v & _ & He)]; rewrite He in Htc;
    [destruct Hq as [_ Hq]; apply Hq in Htc; tauto|].
  apply lookup_insert_Some in Htc as [[<- <-]|[_ Htc]]; [|destruct Hq as [_ Hq]; apply Hq in Htc; tauto].
  right; right. destruct (Hguard eq_refl Hd Hs) as (b & Hb & Hb').
  split; [done|]. split; [done|]. split; [eauto|]. exists b. rewrite <- Hh. split; [done|]. split; [done|]. by rewrite Hb', Ht.
Qed.
End runs.
End laws.

(** ** Properties *)

(** C28: A release only tags what is on the remote. With --no-propagate, from any
    repository, whatever git, the disk and the hook do and whether the command
    fails or not: the remote keeps its tags, and a local tag that was neither
    there nor fetched is the tag of the next version of the released module, is
    made in a run that is neither dry nor without git, and is on HEAD at a
    moment when HEAD is the tip of the remote's default branch. In a dry run or
    without git operations no run, propagating or not, changes any tag. *)
Theorem release_tags_tip {W} `{GitLaws W head_of tip_of tracking_of local_tags remote_tags}
    filepath_Join ord ordm o allow hook entries mod_ w :
  match hook with Some h => moves (same_tags (local_tags := local_tags) (remote_tags := remote_tags)) h
                | None => True end ->
  let '(r, w') := ReleaseCommand filepath_Join ord ordm o allow hook entries mod_ w in
  (noPropagate o = true ->
     remote_tags w' = remote_tags w /\
     forall t c, local_tags w' !! t = Some c ->
       local_tags w !! t = Some c \/ remote_tags w !! t = Some c \/
       dryRun o = false /\ skipGit o = false /\ (exists v, t = mod_ +:+ "/" +:+ v) /\
       exists b, (remoteDefaultBranch w).1 = Ok b /\ c = head_of w /\ c = tip_of b w) /\
  (dryRun o || skipGit o = true -> local_tags w' = local_tags w /\ remote_tags w' = remote_tags w).
Proof.
  intros Hhook. destruct (ReleaseCommand _ _ _ _ _ _ _ _ w) as [r w'] eqn:Hrun. split.
  - intros Hn. eapply release_local; [exact Hhook|exact Hn|exact Hrun].
  - intros Hs. eapply release_skip; [exact Hhook|exact Hs|exact Hrun].
Qed.

(** ** A repository in memory *)

(** Commits are numbered by [gs_next]; [gs_dirty] tells that files were
    edited since the last commit. *)
Record git_state : Type := {
  gs_head : string;
  gs_tip : string;
  gs_tracking : string;
  gs_local : gmap string string;
  gs_remote : gmap string string;
  gs_next : Z;
  gs_dirty : bool;
  gs_mods : gmap string ModFile
}.

(** The subcommands the release helper runs. *)
Definition memory_git (args : list string) : comp git_state string string := fun w =>
  match args with
  | cmd :: rest =>
      if String.eqb cmd "symbolic-ref" then (Ok "origin/main", w)
      else if String.eqb cmd "rev-parse" then
        (Ok (if String.eqb (hd "" rest) "HEAD" then gs_head w else gs_tracking w), w)
      else if String.eqb cmd "fetch" then
        (Ok "", {| gs_head := gs_head w; gs_tip := gs_tip w; gs_tracking := gs_tip w;
                   gs_local := gs_local w; gs_remote := gs_remote w; gs_next := gs_next w;
                   gs_dirty := gs_dirty w; gs_mods := gs_mods w |})
      else if String.eqb cmd "push" then
        (Ok "", {| gs_head := gs_head w; gs_tip := gs_tip w; gs_tracking := gs_tracking w;
                   gs_local := gs_local w; gs_remote := gs_remote w ∪ gs_local w; gs_next := gs_next w;
                   gs_dirty := gs_dirty w; gs_mods := gs_mods w |})
      else if String.eqb cmd "commit" then
        if gs_dirty w then
          (Ok "", {| gs_head := "c" +:+ Itoa (gs_next w); gs_tip := gs_tip w; gs_tracking := gs_tracking w;
                     gs_local := gs_local w; gs_remote := gs_remote w; gs_next := gs_next w + 1;
                     gs_dirty := false; gs_mods := gs_mods w |})
        else (Err "nothing to commit", w)
      else if String.eqb cmd "tag" then
        match rest with
        | t :: _ =>
            if String.eqb t "-l" then
              (Ok (StringsJoin (List.filter (fun t => HasPrefix t (TrimSuffix (hd "" (tl rest)) "*"))
                     (map fst (map_to_list (gs_local w)))) (String "010"%char "")), w)
            else match gs_local w !! t with
                 | Some _ => (Err "tag already exists", w)
                 | None => (Ok "", {| gs_head := gs_head w; gs_tip := gs_tip w; gs_tracking := gs_tracking w;
                      gs_local := <[t := TrimSpace (gs_head w)]> (gs_local w); gs_remote := gs_remote w;
                      gs_next := gs_next w; gs_dirty := gs_dirty w; gs_mods := gs_mods w |})
                 end
        | [] => (Err "usage", w)
        end
      else (Err "usage", w)
  | [] => (Err "usage", w)
  end.

#[export] Instance memory_repository : Repository git_state := {
  git := memory_git;
  go_mod w f := gs_mods w !! f;
  exists_file w f := bool_decide (is_Some (gs_mods w !! f));
  write_mod f m := fun w =>
    (Ok tt, {| gs_head := gs_head w; gs_tip := gs_tip w; gs_tracking := gs_tracking w;
               gs_local := gs_local w; gs_remote := gs_remote w; gs_next := gs_next w;
               gs_dirty := true; gs_mods := <[f := m]> (gs_mods w) |});
  make_mod_run := ret tt
}.

#[export] Instance memory_git_laws :
  GitLaws git_state (fun w => TrimSpace (gs_head w)) (fun _ w => TrimSpace (gs_tip w))
    (fun _ w => TrimSpace (gs_tracking w)) gs_local gs_remote.
Proof.
  split.
  - intros cmd args w [->| ->]; reflexivity.
  - intros args w. reflexivity.
  - intros w out w' [= <- _]. reflexivity.
  - intros b w out w' [= <- _]. reflexivity.
  - intros b w. cbn. split_and!; auto.
  - intros m v w t. assert (Ht : String.eqb t "-l" = false).
    { apply String.eqb_neq. subst t. destruct m as [|c [|d [|e m]]]; cbn; congruence. }
    clearbody t. cbn -[String.eqb]. cbn [String.eqb Ascii.eqb Bool.eqb]. rewrite Ht.
    by destruct (gs_local w !! _).
  - intros w. cbn. split; [done|]. intros t c Ht. apply lookup_union_Some_raw in Ht. tauto.
  - intros m w. cbn. by destruct (gs_dirty w).
  - done.
  - done.
Qed.

(** A repository whose client requires its x module. *)
Definition sample_base : string := "github.com/docker/secrets-engine/".
Definition sample_checkout : git_state :=
  {| gs_head := "c0"; gs_tip := "c0"; gs_tracking := "c0"; gs_local := ∅; gs_remote := ∅; gs_next := 1;
     gs_dirty := false;
     gs_mods := {[
       "x/go.mod" := {| mf_Module := sample_base +:+ "x"; mf_Require := [] |};
       "client/go.mod" := {| mf_Module := sample_base +:+ "client";
         mf_Require := [{| rq_Path := sample_base +:+ "x"; rq_Version := "v0.0.0"; rq_Indirect := false |}] |}]} |}.

Definition sample_entries : list (string * FileType) :=
  [(".", Dir); ("README.md", Regular); ("client", Dir); ("client/go.mod", Regular); ("x", Dir)].

Definition run_release (o : opts) : result goerror unit * git_state :=
  ReleaseCommand sample_join (fun l => l) (fun l => l) o [] (Some makeMod) sample_entries "x" sample_checkout.

Definition propagate : opts := {| dryRun := false; skipGit := false; level := Patch; noPropagate := false |}.
Definition no_propagate : opts := {| dryRun := false; skipGit := false; level := Patch; noPropagate := true |}.

Lemma release_tags_tip_witness :
  let '(r, w') := run_release no_propagate in
  gs_remote w' = ∅ /\
  forall t c, gs_local w' !! t = Some c ->
    (∅ : gmap string string) !! t = Some c \/ (∅ : gmap string string) !! t = Some c \/
    false = false /\ false = false /\ (exists v, t = "x" +:+ "/" +:+ v) /\
    exists b, @Ok goerror string "main" = Ok b /\ c = "c0" /\ c = "c0".
Proof.
  pose proof (release_tags_tip sample_join (fun l => l) (fun l => l) no_propagate [] (Some makeMod)
    sample_entries "x" sample_checkout) as Hr.
  change (ReleaseCommand _ _ _ no_propagate _ _ _ _ _) with (run_release no_propagate) in Hr.
  destruct (run_release no_propagate) as [r w']. apply Hr; [|reflexivity].
  intros w. by split.
Defined.

(** The guard covers the first tag only. A run that propagates tags the
    downstream modules on the "chore: bump" commits it makes on the way, which
    exist only locally, and pushes these tags: releasing x in a checkout that is
    at the tip of main pushes x/v0.0.1 on that tip and client/v0.0.1 on a commit
    the remote branch does not have, while the guard is there so that no tag
    lands on such a commit. And --no-propagate, documented not to bump
    downstreams and to push the tag, edits and commits the go.mod of the client
    and pushes nothing. *)
Theorem release_off_tip :
  let '(r, w) := run_release propagate in
  let '(r', w') := run_release no_propagate in
  gs_head sample_checkout = gs_tip sample_checkout /\
  r = Ok tt /\ gs_tip w = gs_tip sample_checkout /\
  gs_remote w !! "x/v0.0.1" = Some (gs_tip w) /\
  gs_remote w !! "client/v0.0.1" = Some (gs_head w) /\ gs_head w <> gs_tip w /\
  r' = Ok tt /\ gs_remote w' = ∅ /\ gs_head w' <> gs_tip w' /\
  gs_mods w' !! "client/go.mod" <> gs_mods sample_checkout !! "client/go.mod".
Proof. vm_compute. split_and!; congruence. Qed.
