(* ===== verification/ReleaseGraph.v ===== *)
(** Package x/release/helper, the graph of modules that [newRepoData] builds
    with [AddMod] one module at a time: what it comes to, and that the order in
    which the modules are found does not matter. *)

From S2P Require Import Prelude GoErrors GoStrings Release ReleaseGit.

(** A module as the walk finds it: its path, its version and what its go.mod
    requires of the repository. *)
Abbreviation found_module := (string * Version * list string)%type (only parsing).

(** The modules of a walk, added in turn. *)
Definition add_modules (mods : list found_module) (d : gmap string ModData) : gmap string ModData :=
  foldl (fun d '(m, v, deps) => AddMod m v deps d) d mods.

Definition module_names (mods : list found_module) : list string := map (fun '(m, _, _) => m) mods.

(** ** The graph, module by module *)

(** The modules that require [m]. *)
Definition dependents (mods : list found_module) (m : string) : gset string :=
  list_to_set (omap (fun '(n, _, deps) => if decide (m ∈ deps) then Some n else None) mods).

Fixpoint found (m : string) (mods : list found_module) : option (Version * list string) :=
  match mods with
  | [] => None
  | (n, v, deps) :: mods' => if decide (n = m) then Some (v, deps) else found m mods'
  end.

(** What is known of [m]: a module that was only required has no version. *)
Definition module_data (mods : list found_module) (m : string) : ModData :=
  {| downstreams := dependents mods m;
     dependencies := match found m mods with Some (_, deps) => list_to_set deps | None => ∅ end;
     version := match found m mods with Some (v, _) => v | None => {| Current := ""; KeepExtra := false |} end |}.

Definition known (mods : list found_module) (m : string) : bool :=
  match found m mods with Some _ => true | None => negb (bool_decide (dependents mods m = ∅)) end.

(** ** Lemmas: one module *)

Definition with_downstream (n : string) (d : ModData) : ModData :=
  {| downstreams := {[n]} ∪ downstreams d; dependencies := dependencies d; version := version d |}.

Lemma with_downstream_twice n d : with_downstream n (with_downstream n d) = with_downstream n d.
Proof. unfold with_downstream. f_equal. cbn. set_solver. Qed.

Lemma getOrInit_Some d k x : d !! k = Some x -> getOrInit d k = x.
Proof. unfold getOrInit. by intros ->. Qed.

Lemma getOrInit_None d k : d !! k = None ->
  getOrInit d k = {| downstreams := ∅; dependencies := ∅; version := {| Current := ""; KeepExtra := false |} |}.
Proof. unfold getOrInit. by intros ->. Qed.

Lemma addDownstreamDep_lookup n dep d k :
  addDownstreamDep n dep d !! k = if decide (k = dep) then Some (with_downstream n (getOrInit d k)) else d !! k.
Proof.
  unfold addDownstreamDep. destruct (decide (k = dep)) as [->|Hk]; [apply lookup_insert_eq|by apply lookup_insert_ne].
Qed.

Lemma downstream_fold n deps d k :
  foldl (fun d dep => addDownstreamDep n dep d) d deps !! k =
    if decide (k ∈ deps) then Some (with_downstream n (getOrInit d k)) else d !! k.
Proof.
  revert d. induction deps as [|dep deps IH]; intros d; [done|]. cbn [foldl]. rewrite IH.
  pose proof (addDownstreamDep_lookup n dep d k) as Hl. destruct (decide (k = dep)) as [->|Hk].
  - rewrite (decide_True (P := dep ∈ dep :: deps)) by left. rewrite (getOrInit_Some _ _ _ Hl), Hl.
    destruct (decide (dep ∈ deps)); [|done]. by rewrite with_downstream_twice.
  - assert (Hi : getOrInit (addDownstreamDep n dep d) k = getOrInit d k) by (unfold getOrInit; by rewrite Hl).
    rewrite Hi, Hl. destruct (decide (k ∈ deps)) as [Hin|Hin].
    + by rewrite decide_True by by right.
    + by rewrite decide_False by (rewrite elem_of_cons; tauto).
Qed.

Lemma addVersionData_init n v d k : getOrInit (addVersionData n v d) k =
  if decide (k = n) then {| downstreams := downstreams (getOrInit d n); dependencies := dependencies (getOrInit d n); version := v |}
  else getOrInit d k.
Proof.
  unfold addVersionData. destruct (decide (k = n)) as [->|Hk]; [apply getOrInit_Some, lookup_insert_eq|].
  unfold getOrInit at 1. by rewrite lookup_insert_ne.
Qed.

(** A module added: itself, what it requires, and the others. *)
Lemma AddMod_lookup n v deps d k :
  AddMod n v deps d !! k =
    if decide (k = n) then
      Some {| downstreams := (if decide (n ∈ deps) then {[n]} else ∅) ∪ downstreams (getOrInit d n);
              dependencies := list_to_set deps; version := v |}
    else if decide (k ∈ deps) then Some (with_downstream n (getOrInit d k)) else d !! k.
Proof.
  unfold AddMod, addDeps. destruct (decide (k = n)) as [->|Hk].
  - rewrite lookup_insert_eq. pose proof (downstream_fold n deps (addVersionData n v d) n) as Hl.
    pose proof (addVersionData_init n v d n) as Hi. rewrite decide_True in Hi by done. rewrite Hi in Hl.
    destruct (decide (n ∈ deps)).
    + by rewrite (getOrInit_Some _ _ _ Hl).
    + assert (He : getOrInit (foldl (fun d dep => addDownstreamDep n dep d) (addVersionData n v d) deps) n =
        getOrInit (addVersionData n v d) n) by (unfold getOrInit; by rewrite Hl).
      rewrite He, Hi. cbn [downstreams version]. by rewrite (left_id_L ∅ (∪)).
  - rewrite lookup_insert_ne by done. rewrite downstream_fold, addVersionData_init, (decide_False (P := k = n)) by done.
    unfold addVersionData. by rewrite lookup_insert_ne.
Qed.

(** ** Lemmas: all modules *)

Lemma dependents_snoc mods n v deps m :
  dependents (mods ++ [(n, v, deps)]) m = (if decide (m ∈ deps) then {[n]} else ∅) ∪ dependents mods m.
Proof.
  unfold dependents. rewrite omap_app, list_to_set_app_L. cbn. destruct (decide (m ∈ deps)); cbn; set_solver.
Qed.

Lemma found_None mods m : m ∉ module_names mods -> found m mods = None.
Proof.
  induction mods as [|[[n v] deps] mods IH]; [done|]. cbn [module_names map found]. rewrite not_elem_of_cons.
  intros [Hn Hm]. rewrite decide_False by congruence. by apply IH.
Qed.

Lemma found_snoc mods n v deps m : n ∉ module_names mods ->
  found m (mods ++ [(n, v, deps)]) = if decide (m = n) then Some (v, deps) else found m mods.
Proof.
  intros Hn. induction mods as [|[[n' v'] deps'] mods IH].
  - cbn. destruct (decide (m = n)) as [->|Hm]; [by rewrite decide_True|by rewrite decide_False].
  - cbn [app found]. cbn [module_names map] in Hn. apply not_elem_of_cons in Hn as [Hne Hn]. rewrite IH by done.
    destruct (decide (n' = m)) as [->|]; [by rewrite decide_False by congruence|done].
Qed.

Lemma module_data_unknown mods m : known mods m = false ->
  module_data mods m = {| downstreams := ∅; dependencies := ∅; version := {| Current := ""; KeepExtra := false |} |}.
Proof.
  unfold known, module_data. destruct (found m mods) as [[v deps]|]; [done|].
  rewrite negb_false_iff, bool_decide_eq_true. by intros ->.
Qed.

Lemma add_modules_lookup mods m : NoDup (module_names mods) ->
  add_modules mods ∅ !! m = if known mods m then Some (module_data mods m) else None.
Proof.
  revert m. induction mods as [|[[n v] deps] mods IH] using rev_ind; intros m Hnd; [done|].
  unfold module_names in Hnd. rewrite map_app in Hnd. apply list.NoDup_app in Hnd as (Hnd & Hn & _). fold (module_names mods) in Hnd, Hn.
  assert (Hnot : n ∉ module_names mods) by (intros Hin; apply (Hn n Hin); by left).
  assert (Hinit : forall k, getOrInit (add_modules mods ∅) k = module_data mods k).
  { intros k. destruct (known mods k) eqn:Hk; [by apply getOrInit_Some; rewrite IH, Hk|].
    rewrite module_data_unknown by done. apply getOrInit_None. by rewrite IH, Hk. }
  unfold add_modules. rewrite foldl_app. cbn [foldl]. fold (add_modules mods ∅). rewrite AddMod_lookup, !Hinit.
  unfold known at 1. unfold module_data at 3. rewrite found_snoc, dependents_snoc by done.
  destruct (decide (m = n)) as [->|Hm]; [done|].
  destruct (decide (m ∈ deps)) as [Hin|Hin].
  - assert (Hk : (match found m mods with Some _ => true | None =>
      negb (bool_decide ({[n]} ∪ dependents mods m = ∅)) end) = true).
    { destruct (found m mods); [done|]. apply negb_true_iff, bool_decide_eq_false. set_solver. }
    rewrite Hk. unfold with_downstream, module_data. cbn [downstreams dependencies version]. done.
  - rewrite IH by done. rewrite (left_id_L ∅ (∪)). done.
Qed.

Lemma found_perm mods mods' m : NoDup (module_names mods) -> mods ≡ₚ mods' -> found m mods = found m mods'.
Proof.
  intros Hnd Hp. revert Hnd. induction Hp as [|[[n v] deps] l l' Hp IH|[[n v] deps] [[n' v'] deps'] l|l l2 l3 H1 IH1 H2 IH2]; intros Hnd.
  - done.
  - cbn [module_names map] in Hnd. apply list.NoDup_cons in Hnd as [_ Hnd]. cbn [found]. by rewrite IH.
  - cbn [module_names map] in Hnd. apply list.NoDup_cons in Hnd as [Hn _]. apply not_elem_of_cons in Hn as [Hn _].
    cbn [found]. destruct (decide (n' = m)) as [->|], (decide (n = m)) as [->|]; done.
  - rewrite IH1 by done. apply IH2. unfold module_names. by rewrite <- H1.
Qed.

Lemma dependents_perm mods mods' m : mods ≡ₚ mods' -> dependents mods m = dependents mods' m.
Proof. intros Hp. unfold dependents. apply list_to_set_perm_L. by rewrite Hp. Qed.

(** ** Lemmas: the walk *)

(** The modules of a walk are directories it visits, each once. *)
Lemma walk_modules_graph {W} `{Repository W} filepath_Join allow skip entries d w repo w' :
  walk_modules filepath_Join allow skip entries d w = (Ok repo, w') ->
  exists mods, repo = add_modules mods d /\ module_names mods `sublist_of` entries.*1.
Proof.
  revert skip d w. induction entries as [|[path t] entries IH]; intros skip d w Hw; cbn [walk_modules] in Hw.
  { injection Hw as -> _. by exists []. }
  assert (Hskip : forall skip d w, walk_modules filepath_Join allow skip entries d w = (Ok repo, w') ->
    exists mods, repo = add_modules mods d /\ module_names mods `sublist_of` ((path, t) :: entries).*1).
  { intros skip' d' w1 Hw1. destruct (IH _ _ _ Hw1) as (mods & -> & Hs). exists mods. split; [done|].
    cbn [fmap list_fmap fst]. by apply sublist_cons. }
  destruct (match skip with Some dir => _ | None => false end); [by eapply Hskip|].
  destruct (IsDir t && isSymlink t); [by eapply Hskip|]. destruct (negb (IsDir t)); [by eapply Hskip|].
  destruct (negb _); [by eapply Hskip|].
  apply bind_Ok_inv in Hw as (latest & w1 & _ & Hw). apply bind_Ok_inv in Hw as (deps & w2 & _ & Hw).
  destruct (IH _ _ _ Hw) as (mods & -> & Hs). eexists ((path, _, deps) :: mods). split; [reflexivity|].
  cbn [module_names map fmap list_fmap fst]. by apply sublist_skip.
Qed.

(** ** Property *)


