(* ===== verification/Realms.v ===== *)
(** Packages x/realms (docker.go) and client/realms (docker.go), which
    re-exports it: the patterns of the known Docker realms. *)

From S2P Require Import Prelude GoErrors GoStrings Secrets.

(** The package variables; a panic of [MustParsePattern] would end the process
    when the package is initialised. *)
Definition DockerHubAuthentication := MustParsePattern "docker/auth/hub/**".
Definition DockerHubStagingAuthentication := MustParsePattern "docker/auth/hub-staging/**".
Definition DockerRegistryAuthentication := MustParsePattern "docker/auth/registry/docker/**".
Definition DockerRegistryStagingAuthentication :=
  MustParsePattern "docker/auth/registry/docker-staging/**".

Definition DockerHubAuthenticationMetadata := MustParsePattern "docker/auth/metadata/hub/**".
Definition DockerHubStagingAuthenticationMetadata :=
  MustParsePattern "docker/auth/metadata/hub-staging/**".

Definition DockerMCPDefault := MustParsePattern "docker/mcp/**".
Definition DockerMCPOAuth := MustParsePattern "docker/mcp/oauth/**".
Definition DockerMCPOAuthDCR := MustParsePattern "docker/mcp/oauth-dcr/**".

Definition DockerSandbox := MustParsePattern "docker/sandbox/**".
Definition DockerSandboxOAuth := MustParsePattern "docker/sandbox/oauth/**".

Definition SecretsEngine := MustParsePattern "docker/secrets-engine/**".
Definition SecretsEnginePlugins := MustParsePattern "docker/secrets-engine/plugins/**".

(** Every variable, in the order of its initialisation. *)
Definition realms : list (outcome goerror Pattern) :=
  [DockerHubAuthentication; DockerHubStagingAuthentication; DockerRegistryAuthentication;
   DockerRegistryStagingAuthentication; DockerHubAuthenticationMetadata;
   DockerHubStagingAuthenticationMetadata; DockerMCPDefault; DockerMCPOAuth; DockerMCPOAuthDCR;
   DockerSandbox; DockerSandboxOAuth; SecretsEngine; SecretsEnginePlugins].

(** The pattern of a realm. *)
Definition realm (r : outcome goerror Pattern) : Pattern :=
  match r with Returns p => p | Panics _ => "" end.

(** A realm: a literal prefix followed by "**". *)
Definition realm_shaped (p : Pattern) : bool :=
  match List.rev (Split p "/") with
  | g :: lits =>
      String.eqb g "**" &&
      forallb (fun c => negb (String.eqb c "") && string_forallb id_byte c) lits
  | [] => false
  end.

Lemma realm_shaped_prefix p : realm_shaped p = true -> prefix_pattern p.
Proof.
  unfold realm_shaped. destruct (List.rev (Split p "/")) as [|g lits] eqn:Hr; [done|].
  intros [Hg Hl]%andb_true_iff. apply String.eqb_eq in Hg as ->.
  exists (List.rev lits). split; [by rewrite <- (List.rev_involutive (Split p "/")), Hr|].
  rewrite forallb_elem in Hl. apply list.Forall_forall. intros c Hc.
  assert (Hc' : c ∈ lits) by by apply list_elem_of_In, in_rev, list_elem_of_In.
  apply Hl, andb_true_iff in Hc' as [Hn Hb]. split; [|done].
  by apply negb_true_iff, String.eqb_neq in Hn.
Qed.

(** No initialiser panics, and every realm has the shape for which inclusion
    between patterns is sound. *)
Lemma realms_init r : r ∈ realms -> exists p, r = Returns p /\ prefix_pattern p.
Proof.
  assert (Hall : forallb (fun r => match r with Returns p => realm_shaped p | Panics _ => false end)
    realms = true) by by vm_compute.
  intros Hr. rewrite forallb_elem in Hall. specialize (Hall r Hr).
  destruct r as [p|]; [|done]. eauto using realm_shaped_prefix.
Qed.

(** The realms that contain another one. *)
Lemma realms_nested :
  Includes (realm DockerMCPDefault) (realm DockerMCPOAuth) = true /\
  Includes (realm DockerMCPDefault) (realm DockerMCPOAuthDCR) = true /\
  Includes (realm DockerSandbox) (realm DockerSandboxOAuth) = true /\
  Includes (realm SecretsEngine) (realm SecretsEnginePlugins) = true /\
  Includes (realm DockerHubAuthentication) (realm DockerHubStagingAuthentication) = false.
Proof. by vm_compute. Qed.
