(* ===== verification/Pass.v ===== *)
(** The pass plugin: its resolver over a store (plugins/pass/plugin.go) and the
    commands that manage the store and run a program with resolved references
    (plugins/pass/commands: set.go, get.go, list.go, rm.go, run.go). *)

From S2P Require Import Prelude GoErrors GoStrings Secrets Store Resolver Realms.
From S2P Require Client.

(** ** plugin.go *)

Definition errUnknownSecretType : goerror := Sentinel "unknown secret type".

Definition envelopeSchemaVersion : string := "0.0.1".

Section plugin.
Context {St T : Type} `{Store St T}.

(** The type assertion [secret.( *pass.PassValue)], and the orders in which
    [range] visits the maps of the store. *)
Context (as_PassValue : T -> option PassValue).
Context (ord : list (ID * T) -> list (ID * T)).

Definition unpackValue (id : ID) (secret : T) : result goerror Envelope :=
  match as_PassValue secret with
  | None => Err errUnknownSecretType
  | Some impl =>
      value <-? PassValue_Marshal impl ;;
      Ok {| env_ID := id; env_Value := value; env_Metadata := ∅; env_Provider := "";
            env_Version := envelopeSchemaVersion; env_CreatedAt := time_zero;
            env_ResolvedAt := time_zero; env_ExpiresAt := time_zero |}
  end.

(** The loop of [GetSecrets]: internal secrets and secrets that cannot be
    unpacked are skipped. *)
Fixpoint unpack_all (l : list (ID * T)) : list Envelope :=
  match l with
  | [] => []
  | (id, value) :: l' =>
      if id_Match id (realm SecretsEngine) then unpack_all l'
      else match unpackValue id value with
           | Err _ => unpack_all l'
           | Ok s => s :: unpack_all l'
           end
  end.

Definition passPlugin_GetSecrets : Resolver St := fun pattern =>
  list <-! store_Filter pattern ;;
  let result := unpack_all (range_map ord list) in
  if (length result =? 0)%nat then throw ErrNotFound else ret result.
End plugin.

(** ** commands *)

Definition ErrNoStoreInContext : goerror := Sentinel "docker-pass: store not attached to context".

(** [StoreFrom]: whether the context carries a store. *)
Definition StoreFrom (attached : bool) : result goerror unit :=
  if attached then Ok tt else Err ErrNoStoreInContext.

Record secret : Type := {
  se_id : string;
  se_val : string;
  se_metadata : gmap string string
}.

Definition parseArg (arg : string) : result goerror secret :=
  let '(key, value, found) := Cut arg "=" in
  if negb found then Err (ErrorNew "no key=value pair: %s")
  else Ok {| se_id := key; se_val := value; se_metadata := ∅ |}.

Definition isNotImplicitReadFromStdinSyntax (args : list string) : bool :=
  ContainsByte (hd "" args) "=" || (1 <? length args)%nat.

Fixpoint parse_metadata (raw : list string) (m : gmap string string)
  : result goerror (gmap string string) :=
  match raw with
  | [] => Ok m
  | kv :: raw' =>
      let '(k, v, ok) := Cut kv "=" in
      if negb ok then Err (ErrorNew "invalid metadata pair (expected key=value): %s")
      else parse_metadata raw' (<[k := v]> m)
  end.

Definition parseMetadataFlags (raw : list string) : result goerror (gmap string string) :=
  parse_metadata raw ∅.

(** [readAllWithContext]: the goroutine's [io.ReadAll], if it returns, and the
    error of the context, if it ends; when both have happened the select takes
    either. [None]: it waits for ever. *)
Definition readAllWithContext (read_all : option (result goerror bytes)) (ctx_Err : option goerror) (ctx_first : bool)
  : option (result goerror bytes) :=
  match read_all, ctx_Err with
  | None, None => None
  | None, Some err => Some (Err err)
  | Some r, None => Some r
  | Some r, Some err => Some (if ctx_first then Err err else r)
  end.

(** [json.Unmarshal] into a [stdinPayload]: its secret and its metadata. *)
Definition secretMappingFromSTDIN (json : bytes -> option (string * gmap string string))
    (stdin : result goerror bytes) (id : string) : result goerror secret :=
  data <-? stdin ;;
  match json data with
  | Some (sec, md) =>
      if negb (String.eqb sec "") then Ok {| se_id := id; se_val := sec; se_metadata := md |}
      else Ok {| se_id := id; se_val := string_of data; se_metadata := ∅ |}
  | None => Ok {| se_id := id; se_val := string_of data; se_metadata := ∅ |}
  end.

(** What is read is all of the input or an error, never a part of it; it only
    waits while neither the input nor the context ends. *)
Lemma readAllWithContext_whole read_all ctx_Err ctx_first :
  (readAllWithContext read_all ctx_Err ctx_first = None <-> read_all = None /\ ctx_Err = None) /\
  (forall data, readAllWithContext read_all ctx_Err ctx_first = Some (Ok data) -> read_all = Some (Ok data)) /\
  (forall err, readAllWithContext read_all ctx_Err ctx_first = Some (Err err) ->
     read_all = Some (Err err) \/ ctx_Err = Some err).
Proof.
  destruct read_all as [[data|err]|], ctx_Err as [err'|], ctx_first; cbn; split_and!; naive_solver.
Qed.

Record setOpts : Type := { opt_metadata : list string; opt_force : bool }.

(** The secret the command stores: flag metadata overrides the one of STDIN. *)
Definition set_value (s : secret) (flagMeta : gmap string string) : result goerror PassValue :=
  let merged := flagMeta ∪ se_metadata s in
  pv <-? PassValue_Unmarshal {| pv_value := []; pv_metadata := ∅ |} (bytes_of (se_val s)) ;;
  if decide (merged = ∅) then Ok pv else PassValue_SetMetadata pv merged.

(** [slices.Sort] and [sort.Strings], in the order of [strings.Compare]. *)
Definition string_le (a b : string) : Prop := string_leb a b = true.

#[export] Instance string_le_dec : RelDecision string_le.
Proof. intros a b. unfold string_le. apply _. Defined.

Definition sort_ids (l : list string) : list string := merge_sort string_le l.

Section commands.
Context {St : Type} `{Store St PassValue}.

Definition SetCommand (json : bytes -> option (string * gmap string string)) (attached : bool)
    (opts : setOpts) (args : list string) (stdin : result goerror bytes) : comp St goerror unit :=
  _ <-! lift (StoreFrom attached) ;;
  s <-! lift (if isNotImplicitReadFromStdinSyntax args then parseArg (hd "" args)
              else secretMappingFromSTDIN json stdin (hd "" args)) ;;
  id <-! lift (ParseID (se_id s)) ;;
  flagMeta <-! lift (parseMetadataFlags (opt_metadata opts)) ;;
  pv <-! lift (set_value s flagMeta) ;;
  if opt_force opts then store_Upsert id pv else store_Save id pv.

(** The lines the command prints. *)
Definition GetCommand (attached : bool) (args : list string) : comp St goerror (list string) :=
  id <-! lift (ParseID (hd "" args)) ;;
  _ <-! lift (StoreFrom attached) ;;
  s <-! store_Get id ;;
  ret ["ID: " +:+ id; "Value: **********"].

Context (ord : list (ID * PassValue) -> list (ID * PassValue)).

Definition ListCommand (attached : bool) : comp St goerror (list string) :=
  _ <-! lift (StoreFrom attached) ;;
  l <-! store_GetAllMetadata ;;
  ret (sort_ids (map fst (range_map ord l))).

Record rmOpts : Type := { opt_All : bool }.

Fixpoint parse_ids (args : list string) : result goerror (list ID) :=
  match args with
  | [] => Ok []
  | arg :: args' =>
      id <-? ParseID arg ;;
      ids <-? parse_ids args' ;;
      Ok (id :: ids)
  end.

Definition validateArgs (args : list string) (opts : rmOpts) : result goerror (list ID) :=
  if ((length args =? 0)%nat && negb (opt_All opts)) || ((0 <? length args)%nat && opt_All opts)
  then Err (ErrorNew "either provide a secret name or use --all to remove all secrets")
  else parse_ids args.

(** The loop of [runRm]: an identifier that cannot be deleted is reported and
    the next one is tried. Returns the lines and the errors. *)
Fixpoint rm_all (idList : list ID) : comp St goerror (list string * list goerror) :=
  match idList with
  | [] => ret ([], [])
  | id :: idList' =>
      try (store_Delete id) (fun r =>
        match r with
        | Err err => '(out, errs) <-! rm_all idList' ;; ret (("ERR: " +:+ id) :: out, err :: errs)
        | Ok _ => '(out, errs) <-! rm_all idList' ;; ret (("RM: " +:+ id) :: out, errs)
        end)
  end.

(** The printed lines and the error returned, [None] for nil. *)
Definition runRm (idList : list ID) (opts : rmOpts) : comp St goerror (list string * option goerror) :=
  idList <-! (if opt_All opts && (length idList =? 0)%nat
              then l <-! store_GetAllMetadata ;; ret (map fst (range_map ord l))
              else ret idList) ;;
  '(out, errs) <-! rm_all (sort_ids idList) ;;
  ret (out, errors_Join (map Some errs)).

Definition RmCommand (attached : bool) (opts : rmOpts) (args : list string)
  : comp St goerror (list string * option goerror) :=
  idList <-! lift (validateArgs args opts) ;;
  _ <-! lift (StoreFrom attached) ;;
  runRm idList opts.
End commands.

(** ** run.go *)

Definition sePrefix : string := "se://".

(** The loop of [mergeEnv] over the process environment. *)
Definition env_map (processEnv : list string) : gmap string string :=
  foldl (fun merged kv => let '(k, v, ok) := Cut kv "=" in if ok : bool then <[k := v]> merged else merged)
    ∅ processEnv.

Fixpoint merge_files (godotenv_Read : string -> result goerror (gmap string string))
    (files : list string) (merged : gmap string string) : result goerror (gmap string string) :=
  match files with
  | [] => Ok merged
  | f :: files' =>
      match godotenv_Read f with
      | Err err => Err (Wrap "reading env-file %s: %w" [err])
      | Ok parsed => merge_files godotenv_Read files' (parsed ∪ merged)
      end
  end.

Definition mergeEnv (godotenv_Read : string -> result goerror (gmap string string))
    (ord : list (string * string) -> list (string * string)) (processEnv files : list string)
  : result goerror (list string) :=
  merged <-? merge_files godotenv_Read files (env_map processEnv) ;;
  Ok (sort_ids (map (fun kv => kv.1 +:+ "=" +:+ kv.2) (range_map ord merged))).

(** ** version.go *)

Record VersionInfo : Type := { vi_Version : string; vi_Commit : string }.

(** What the command prints. *)
Definition VersionCommand (info : VersionInfo) : string :=
  "Version: " +:+ vi_Version info +:+ String "010" ("Commit: " +:+ vi_Commit info +:+ String "010" "").

Section run.
Context {St : Type} (r : Resolver St).

Definition resolveRef (key value : string) : comp St goerror string :=
  let name := TrimPrefix value sePrefix in
  match ParseID name with
  | Err err => throw (Wrap "resolving %s: %w" [err])
  | Ok _ =>
      match ParsePattern name with
      | Err err => throw (Wrap "resolving %s: %w" [err])
      | Ok pattern =>
          try (r pattern) (fun res =>
            match res with
            | Err err => throw (Wrap "resolving %s: %w" [err])
            | Ok envs =>
                match envs with
                | [] => throw (Wrap "resolving %s: %w" [ErrNotFound])
                | [e] => ret (string_of (env_Value e))
                | _ => throw (ErrorNew "resolving %s: %d secrets matched %s")
                end
            end)
      end
  end.

Fixpoint resolveEnv (env : list string) : comp St goerror (list string) :=
  match env with
  | [] => ret []
  | kv :: env' =>
      let '(key, value, _) := Cut kv "=" in
      if negb (HasPrefix value sePrefix) then
        out <-! resolveEnv env' ;;
        ret (kv :: out)
      else
        resolved <-! resolveRef key value ;;
        out <-! resolveEnv env' ;;
        ret ((key +:+ "=" +:+ resolved) :: out)
  end.
End run.

(** ** run_unix.go *)

(** What the code reads of an [os.ProcessState]; -1 is the code of a process
    that did not exit. *)
Inductive ProcessState : Type :=
| Exited (code : Z)
| Signaled (sig : Z)
| Other.

Definition childExitCode (state : ProcessState) : Z :=
  match state with
  | Exited code => code
  | Signaled sig => 128 + sig
  | Other => -1
  end.

(** ** Lemmas: an identifier as a pattern *)

(** An identifier used as a pattern matches itself only. *)
Lemma id_Match_exact i j : validIdentifier i = true -> validIdentifier j = true ->
  id_Match j i = true <-> j = i.
Proof.
  intros Hi Hj. rewrite id_Match_Matches by (done || by apply valid_id_pattern).
  pose proof (proj1 (validIdentifier_components i) Hi) as HF.
  rewrite <- (app_nil_r (Split i "/")).
  rewrite Matches_literals; [|done|by apply id_path_star_free]. split.
  - intros (rest & Hs & Hm). inversion Hm; subst rest. rewrite app_nil_r in Hs.
    by rewrite <- (Join_Split j "/"), Hs, Join_Split.
  - intros ->. exists []. split; [by rewrite app_nil_r|constructor].
Qed.

Lemma valid_id_no_equals i : validIdentifier i = true -> byte_free "=" i = true.
Proof.
  rewrite validIdentifier_components. intros HF. apply (string_forallb_Split _ _ "/"); [done|].
  eapply Forall_impl; [|exact HF]. intros c [_ Hc]. eapply string_forallb_impl; [|exact Hc].
  intros a Ha. destruct (Ascii.eqb_spec a "=") as [->|]; [by vm_compute in Ha|done].
Qed.

Lemma Cut_key_value k v : byte_free "=" k = true -> Cut (k +:+ "=" +:+ v) "=" = (k, v, true).
Proof. apply Cut_append. Qed.

(** ** The plugin over a store *)

Section plugin_store.
Context {St : Type} `{StoreLaws St PassValue wf ok view}.
Context (ord : list (ID * PassValue) -> list (ID * PassValue)) `{!MapOrder ord}.

Definition pass_envelope (id : ID) (v : PassValue) : Envelope :=
  {| env_ID := id; env_Value := pv_value v; env_Metadata := ∅; env_Provider := "";
     env_Version := envelopeSchemaVersion; env_CreatedAt := time_zero;
     env_ResolvedAt := time_zero; env_ExpiresAt := time_zero |}.

Lemma unpack_all_pass l :
  unpack_all Some l =
  map (fun kv => pass_envelope kv.1 kv.2)
    (List.filter (fun kv => negb (id_Match kv.1 (realm SecretsEngine))) l).
Proof.
  induction l as [|[id v] l IH]; [done|]. cbn [unpack_all List.filter fst].
  destruct (id_Match id _); cbn [negb]; [done|]. simpl. by rewrite IH.
Qed.

(** What the plugin answers for a single identifier. *)
Lemma passPlugin_exact id v s m s' : wf s -> validIdentifier id = true ->
  map_Forall (fun k _ => validIdentifier k = true) (view s) -> view s !! id = Some v ->
  store_Filter id s = (Ok m, s') ->
  passPlugin_GetSecrets Some ord id s =
  (if id_Match id (realm SecretsEngine) then Err ErrNotFound else Ok [pass_envelope id v], s').
Proof.
  intros Hwf Hid Hkeys Hv Hf. unfold passPlugin_GetSecrets, bind. rewrite Hf.
  apply law_Filter in Hf as (_ & _ & ->); [|done].
  assert (Hm : matching id (view s) = {[id := v]}).
  { apply map_eq. intros k. apply option_eq. intros u. unfold matching.
    rewrite map_lookup_filter_Some, lookup_singleton_Some. simpl. split.
    - intros [Hu Hk]. pose proof (Hkeys _ _ Hu) as Hvk. simpl in Hvk.
      apply (id_Match_exact id k) in Hk; [|done..]. subst. split; [done|congruence].
    - intros [<- <-]. split; [done|]. by apply (id_Match_exact id id). }
  rewrite Hm. unfold range_map. rewrite map_to_list_singleton.
  assert (Ho : ord [(id, v)] = [(id, v)]).
  { apply Permutation_length_1_inv. symmetry. apply (map_order_perm (ord := ord)). }
  rewrite Ho, unpack_all_pass. cbn [List.filter fst].
  by destruct (id_Match id (realm SecretsEngine)).
Qed.
End plugin_store.

Lemma pass_envelope_sendable utf8 `{!Utf8 utf8} id v : validIdentifier id = true ->
  encodable_item utf8 (envelope_to_proto (pass_envelope id v)) = true.
Proof.
  intros Hid. unfold encodable_item, utf8_field. simpl.
  rewrite !utf8_ascii; [done|done|done|]. by apply validPattern_ascii, valid_id_pattern.
Qed.

(** ** Setting and running *)

(** An argument [id=value] stores the value with the metadata of the flags. *)
Lemma set_value_arg id value flagMeta v :
  set_value {| se_id := id; se_val := value; se_metadata := ∅ |} flagMeta = Ok v ->
  v = {| pv_value := bytes_of value; pv_metadata := flagMeta |}.
Proof.
  unfold set_value, PassValue_Unmarshal, PassValue_SetMetadata. cbn [result_bind se_metadata se_val].
  rewrite (right_id_L ∅ (∪)). by destruct (decide (flagMeta = ∅)) as [->|]; intros [= <-].
Qed.

Section set_run.
Context {St : Type} `{StoreLaws St PassValue wf ok view}.

Lemma SetCommand_view json opts stdin id value s s1 : wf s -> validIdentifier id = true ->
  (forall md, parseMetadataFlags (opt_metadata opts) = Ok md ->
     ok id {| pv_value := bytes_of value; pv_metadata := md |}) ->
  SetCommand json true opts [id +:+ "=" +:+ value] stdin s = (Ok tt, s1) ->
  wf s1 /\
  exists md, view s1 = <[id := {| pv_value := bytes_of value; pv_metadata := md |}]> (view s).
Proof.
  intros Hwf Hid Hok Hset. unfold SetCommand in Hset.
  assert (Harg : isNotImplicitReadFromStdinSyntax [id +:+ "=" +:+ value] = true).
  { unfold isNotImplicitReadFromStdinSyntax, ContainsByte. simpl.
    rewrite (IndexByte_append id "=" value) by by apply valid_id_no_equals. done. }
  rewrite Harg in Hset. unfold parseArg in Hset. cbn [hd] in Hset.
  rewrite Cut_key_value in Hset by by apply valid_id_no_equals.
  cbn [negb] in Hset. run_inv. simplify_eq/=.
  repeat match goal with H : lift _ _ = (Ok _, _) |- _ => unfold lift in H; simplify_eq/= end.
  unfold ParseID, valid in *. rewrite Hid in *. simplify_eq/=.
  match goal with Hv : set_value _ _ = Ok _ |- _ => apply set_value_arg in Hv as -> end.
  match goal with Hm : parseMetadataFlags _ = Ok ?md |- _ => specialize (Hok md Hm); rename md into md' end.
  destruct (opt_force opts);
    [apply (law_Upsert (wf := wf) (ok := ok) (view := view)) in Hset as [Hwf1 Hset]
    |apply (law_Save (wf := wf) (ok := ok) (view := view)) in Hset as [Hwf1 Hset]];
    try done; (split; [done|]); eexists; exact Hset.
Qed.
End set_run.

(** The engine's client on the pass plugin, across the transport. *)
Definition pass_client {St} `{Store St PassValue} transport ord : Resolver St :=
  Client.GetSecrets (resolverClient_GetSecrets
    (transport (resolverService_GetSecrets (passPlugin_GetSecrets Some ord)))).

(** Setting, then running, over any store. *)
Lemma set_then_run {St} `{StoreLaws St PassValue wf ok view} utf8 `{!Utf8 utf8}
    transport `{!Transport (St := St) utf8 transport} ord `{!MapOrder ord}
    json opts stdin key id value s s1 m s2 :
  wf s -> validIdentifier id = true ->
  map_Forall (fun k _ => validIdentifier k = true) (view s) ->
  (forall md, parseMetadataFlags (opt_metadata opts) = Ok md ->
     ok id {| pv_value := bytes_of value; pv_metadata := md |}) ->
  SetCommand json true opts [id +:+ "=" +:+ value] stdin s = (Ok tt, s1) ->
  store_Filter id s1 = (Ok m, s2) ->
  if id_Match id (realm SecretsEngine)
  then exists err, resolveRef (pass_client transport ord) key (sePrefix +:+ id) s1 = (Err err, s2) /\
         errors_Is err ErrNotFound = true
  else resolveRef (pass_client transport ord) key (sePrefix +:+ id) s1 = (Ok value, s2).
Proof.
  intros Hwf Hid Hkeys Hok Hset Hf.
  destruct (SetCommand_view _ _ _ _ _ _ _ Hwf Hid Hok Hset) as (Hwf1 & md & Hv).
  assert (Hkeys' : map_Forall (fun k _ => validIdentifier k = true) (view s1)).
  { rewrite Hv. by apply map_Forall_insert_2. }
  assert (Hl : view s1 !! id = Some {| pv_value := bytes_of value; pv_metadata := md |}).
  { by rewrite Hv, lookup_insert_eq. }
  pose proof (passPlugin_exact ord id _ s1 m s2 Hwf1 Hid Hkeys' Hl Hf) as Hp.
  assert (Hpat : validPattern id = true) by by apply valid_id_pattern.
  assert (Hsend : sendable utf8 (if id_Match id (realm SecretsEngine) then Err ErrNotFound
    else Ok [pass_envelope id {| pv_value := bytes_of value; pv_metadata := md |}])).
  { destruct (id_Match id (realm SecretsEngine)); [done|]. cbn [sendable forallb].
    by rewrite pass_envelope_sendable. }
  destruct (resolverClient_remote utf8 _ transport id s1 _ s2 Hpat Hp Hsend) as (out & Hout & Ho).
  pose proof (Client.GetSecrets_remote _ _ _ _ _ _ Hout Ho) as Hc.
  unfold resolveRef. rewrite TrimPrefix_append. unfold ParseID, valid, ParsePattern.
  rewrite Hid, Hpat. cbn [negb]. unfold try, pass_client. rewrite Hc.
  destruct (id_Match id (realm SecretsEngine)); simpl in Ho; subst out.
  - eexists. split; [reflexivity|]. by vm_compute.
  - unfold base.filter, list_filter. simpl. rewrite decide_True by done.
    unfold ret. simpl. by rewrite string_of_bytes_of.
Qed.

(** C9: What is set can be run with: after [pass set id=value] has succeeded,
    over any store that honours its contract, in a state it keeps and with
    valid identifiers, a reference [se://id] in the environment of [pass run],
    asked through the client, the connect transport, the handler, the plugin
    and the store, gives exactly [value], whatever else is stored. Only a name
    in the engine's own realm is stored and then never given out: its reference
    fails as not found. *)
Theorem pass_set_then_run {St} `{StoreLaws St PassValue wf ok view} utf8 `{!Utf8 utf8}
    transport `{!Transport (St := St) utf8 transport} ord `{!MapOrder ord}
    json opts stdin key id value s s1 m s2 :
  wf s -> validIdentifier id = true ->
  map_Forall (fun k _ => validIdentifier k = true) (view s) ->
  (forall md, parseMetadataFlags (opt_metadata opts) = Ok md ->
     ok id {| pv_value := bytes_of value; pv_metadata := md |}) ->
  SetCommand json true opts [id +:+ "=" +:+ value] stdin s = (Ok tt, s1) ->
  store_Filter id s1 = (Ok m, s2) ->
  if id_Match id (realm SecretsEngine)
  then exists err, resolveRef (pass_client transport ord) key (sePrefix +:+ id) s1 = (Err err, s2) /\
         errors_Is err ErrNotFound = true
  else resolveRef (pass_client transport ord) key (sePrefix +:+ id) s1 = (Ok value, s2).
Proof. by eapply set_then_run. Qed.

Definition sample_json : bytes -> option (string * gmap string string) := fun _ => None.

Lemma pass_set_then_run_witness :
  let store := WithStore {[ "other/key" := NewPassValue [Byte.x00] ]} TestStore_empty in
  let '(r, store1) := SetCommand (H := TestStore_Store id) sample_json true
      {| opt_metadata := ["team=a"]; opt_force := false |} ["db/password=s3=cret"] (Ok []) store in
  r = Ok tt /\
  exists s2, resolveRef (pass_client (H := TestStore_Store id)
      (plain_transport (string_forallb ascii_byte)) id) "DB" "se://db/password" store1
    = (Ok "s3=cret", s2).
Proof.
  intros store. destruct (SetCommand (H := TestStore_Store id) _ _ _ _ _ store) as [r store1] eqn:Hset.
  assert (Hset' := Hset). vm_compute in Hset'. injection Hset' as <- <-.
  split; [reflexivity|]. eexists.
  eapply (pass_set_then_run (view := ts_store) (H := TestStore_Store id) (string_forallb ascii_byte)
    (plain_transport (string_forallb ascii_byte)) id sample_json
    {| opt_metadata := ["team=a"]; opt_force := false |} (Ok []) "DB" "db/password" "s3=cret"
    (WithStore {[ "other/key" := NewPassValue [Byte.x00] ]} TestStore_empty)).
  - exact I.
  - reflexivity.
  - by apply map_Forall_singleton.
  - done.
  - exact Hset.
  - vm_compute. reflexivity.
Defined.

(** ** The environment of a run *)

(** What [pass run] makes of one entry of the environment. *)
Definition resolved_entry {St} (r : Resolver St) (kv kv' : string) : Prop :=
  let '(key, value, _) := Cut kv "=" in
  if HasPrefix value sePrefix
  then let name := TrimPrefix value sePrefix in
       validIdentifier name = true /\
       exists e s s', r name s = (Ok [e], s') /\ kv' = key +:+ "=" +:+ string_of (env_Value e)
  else kv' = kv.

Lemma resolveRef_Ok {St} (r : Resolver St) key value v s s' :
  resolveRef r key value s = (Ok v, s') ->
  validIdentifier (TrimPrefix value sePrefix) = true /\
  exists e, r (TrimPrefix value sePrefix) s = (Ok [e], s') /\ v = string_of (env_Value e).
Proof.
  unfold resolveRef, ParseID, valid, ParsePattern.
  destruct (validIdentifier (TrimPrefix value sePrefix)) eqn:Hv; [|by intros].
  rewrite (valid_id_pattern _ Hv). cbn [negb]. unfold try.
  destruct (r _ s) as [[[|e [|]]|] s1]; unfold ret, throw; intros Heq; simplify_eq. eauto.
Qed.

(** A resolved environment is the given one, entry by entry and in order:
    an entry that is no reference is untouched, and the value of a reference is
    the value of the only envelope its own name resolved to, under the same
    key. Every reference resolved is a valid identifier: one with a wildcard,
    or any other invalid name, fails without asking the resolver. An
    environment without references asks nothing and is returned as it is. *)
Theorem resolveEnv_spec {St} (r : Resolver St) :
  (forall env out s s', resolveEnv r env s = (Ok out, s') -> Forall2 (resolved_entry r) env out) /\
  (forall key value s, validIdentifier (TrimPrefix value sePrefix) = false ->
     exists err, resolveRef r key value s = (Err err, s) /\
       errors_Is err (ErrInvalidID (TrimPrefix value sePrefix)) = true) /\
  (forall env s,
     Forall (fun kv => HasPrefix (Cut kv "=").1.2 sePrefix = false) env ->
     resolveEnv r env s = (Ok env, s)).
Proof.
  split_and!.
  - intros env. induction env as [|kv env IH]; intros out s s' Hr; cbn [resolveEnv] in Hr.
    { run_inv. constructor. }
    destruct (Cut kv "=") as [[key value] found] eqn:Hcut.
    destruct (HasPrefix value sePrefix) eqn:Hp; cbn [negb] in Hr; run_inv;
      (constructor; [unfold resolved_entry; rewrite Hcut, Hp|by eapply IH]); [|done].
    match goal with Hx : resolveRef _ _ _ _ = _ |- _ => apply resolveRef_Ok in Hx as (Hv & e & He & ->) end.
    split; [done|]. eauto.
  - intros key value s Hv. unfold resolveRef, ParseID, valid. rewrite Hv. cbn [negb].
    eexists. split; [reflexivity|]. simpl. by rewrite String.eqb_refl.
  - intros env s HF. induction HF as [|kv env Hkv HF IH]; [done|]. cbn [resolveEnv].
    destruct (Cut kv "=") as [[key value] found]. simpl in Hkv. rewrite Hkv. cbn [negb].
    unfold bind. by rewrite IH.
Qed.

(** Every entry of the environment whose name is empty, as the per-drive
    directories of Windows ("=C:=C:\dir"), has the same key: one is kept. *)
Lemma mergeEnv_drives :
  mergeEnv (fun _ => Ok ∅) id ["=C:=C:\a"; "=D:=D:\b"; "PATH=C:\bin"] [] = Ok ["=D:=D:\b"; "PATH=C:\bin"].
Proof. by vm_compute. Qed.
