(* ===== verification/PassRun.v ===== *)
(** The command [pass run] (plugins/pass/commands: run.go, run_unix.go,
    run_windows.go): the preparation of the environment, the child process, its
    exit code, and the forwarding of signals as a transition system. *)

From S2P Require Import Prelude GoErrors GoStrings Secrets Store Resolver Realms Pass.
From S2P Require Client.

(** ** The command *)

(** The outcome of [exec.Cmd.Wait]. *)
Inductive WaitResult : Type :=
| Success
| ExitError (state : ProcessState)
| WaitError (err : goerror).

(** [exec.Cmd.Start], with the program, its arguments and its environment, and
    [exec.Cmd.Wait]. *)
Class Exec (W : Type) : Type := {
  child_Start : string -> list string -> list string -> comp W goerror unit;
  child_Wait : W -> WaitResult * W
}.

(** [ExitCode] of a process state. *)
Definition ProcessState_ExitCode (state : ProcessState) : Z :=
  match state with Exited code => code | _ => -1 end.

Definition childExitCode_windows (state : ProcessState) : Z := ProcessState_ExitCode state.

(** The [RunE] of [RunCommand]: [exit_code] is the [childExitCode] of the
    platform, [New] the client on the default socket. *)
Definition RunCommand {W} `{Exec W} (exit_code : ProcessState -> Z)
    (godotenv_Read : string -> result goerror (gmap string string))
    (ord : list (string * string) -> list (string * string))
    (New : result goerror (Resolver W)) (environ envFiles args : list string) : comp W goerror unit :=
  merged <-! lift (mergeEnv godotenv_Read ord environ envFiles) ;;
  c <-! lift New ;;
  env <-! resolveEnv c merged ;;
  _ <-! try (child_Start (hd "" args) (tl args) env) (fun r =>
    match r with Ok _ => ret tt | Err err => throw (Wrap "starting child: %w" [err]) end) ;;
  fun w =>
    let '(waitErr, w) := child_Wait w in
    match waitErr with
    | Success => (Ok tt, w)
    | ExitError state => (Err (ExitCode (exit_code state)), w)
    | WaitError err => (Err err, w)
    end.

(** ** Signals *)

Definition SIGHUP : Z := 1.
Definition SIGINT : Z := 2.
Definition SIGTERM : Z := 15.

Definition forwardableSignals_unix : list Z := [SIGINT; SIGTERM; SIGHUP].
Definition forwardableSignals_windows : list Z := [SIGINT].

(** How far [RunE] has come from its [signal.Notify] on. *)
Inductive phase : Type :=
| Preparing   (** no handler yet *)
| Notified    (** the handler is installed, the child not started *)
| Running     (** the child was started, [Wait] has not returned *)
| Reaped      (** [Wait] has returned *)
| Closed      (** [done] is closed *)
| Returned    (** the handler is removed *)
| Killed.     (** a signal without handler has ended the process *)

#[export] Instance phase_eq_dec : EqDecision phase.
Proof. solve_decision. Defined.

(** A signal that was sent on, and whether the child had been reaped before. *)
Record sent : Type := { st_signal : Z; st_reaped : bool }.

Record forwarding : Type := {
  fw_phase : phase;
  fw_chan : option Z;        (** the channel, of capacity 1 *)
  fw_forwarder : bool;       (** the goroutine runs *)
  fw_alive : bool;           (** the child runs *)
  fw_accepted : list Z;      (** the signals the channel took, in order *)
  fw_sent : list sent        (** those sent to the child's group, in order *)
}.

Definition forwarding_init : forwarding :=
  {| fw_phase := Preparing; fw_chan := None; fw_forwarder := false; fw_alive := false;
     fw_accepted := []; fw_sent := [] |}.

Definition set_phase (p : phase) (s : forwarding) : forwarding :=
  {| fw_phase := p; fw_chan := fw_chan s; fw_forwarder := fw_forwarder s; fw_alive := fw_alive s;
     fw_accepted := fw_accepted s; fw_sent := fw_sent s |}.

(** Whether the handler is installed. *)
Definition handled (p : phase) : bool :=
  match p with Notified | Running | Reaped | Closed => true | _ => false end.

(** The child has been reaped, so its process id may be used again. *)
Definition reaped (p : phase) : bool :=
  match p with Reaped | Closed | Returned => true | _ => false end.

Inductive fw_action : Type :=
| Signal (sig : Z)       (** the process receives a signal *)
| Notify                 (** [signal.Notify] *)
| Start (ok : bool)      (** [child.Start], and the goroutine *)
| Forward                (** the goroutine takes a signal from the channel *)
| ChildExit              (** the child ends *)
| Wait                   (** [child.Wait] returns *)
| CloseDone              (** [close(done)] *)
| Quit                   (** the goroutine sees [done] *)
| Return.                (** [RunE] returns; the deferred [signal.Stop] *)

(** A signal arrives; [forwardable] are those [Notify] is given. One that comes
    while the channel is full is dropped, as [signal.Notify] does. *)
Definition signal_step (forwardable : list Z) (sig : Z) (s : forwarding) : forwarding :=
  if handled (fw_phase s) && bool_decide (sig ∈ forwardable) then
    match fw_chan s with
    | Some _ => s
    | None => {| fw_phase := fw_phase s; fw_chan := Some sig; fw_forwarder := fw_forwarder s;
                 fw_alive := fw_alive s; fw_accepted := fw_accepted s ++ [sig]; fw_sent := fw_sent s |}
    end
  else set_phase Killed s.

(** [signalChild] by the goroutine. *)
Definition forward_step (sig : Z) (s : forwarding) : forwarding :=
  {| fw_phase := fw_phase s; fw_chan := None; fw_forwarder := fw_forwarder s; fw_alive := fw_alive s;
     fw_accepted := fw_accepted s;
     fw_sent := fw_sent s ++ [{| st_signal := sig; st_reaped := reaped (fw_phase s) |}] |}.

Definition set_child (forwarder alive : bool) (s : forwarding) : forwarding :=
  {| fw_phase := fw_phase s; fw_chan := fw_chan s; fw_forwarder := forwarder; fw_alive := alive;
     fw_accepted := fw_accepted s; fw_sent := fw_sent s |}.

(** One action of the process, its child or its environment. *)
Definition fw_step (forwardable : list Z) (a : fw_action) (s : forwarding) : option forwarding :=
  if bool_decide (fw_phase s = Killed) then
    match a with
    | ChildExit => if fw_alive s then Some (set_child (fw_forwarder s) false s) else None
    | _ => None
    end
  else
    match a with
    | Signal sig => Some (signal_step forwardable sig s)
    | Notify => if bool_decide (fw_phase s = Preparing) then Some (set_phase Notified s) else None
    | Start ok =>
        if bool_decide (fw_phase s = Notified)
        then Some (if ok : bool then set_child true true (set_phase Running s) else set_phase Returned s)
        else None
    | Forward => if fw_forwarder s then (fun sig => forward_step sig s) <$> fw_chan s else None
    | ChildExit => if fw_alive s then Some (set_child (fw_forwarder s) false s) else None
    | Wait => if bool_decide (fw_phase s = Running) && negb (fw_alive s)
              then Some (set_phase Reaped s) else None
    | CloseDone => if bool_decide (fw_phase s = Reaped) then Some (set_phase Closed s) else None
    | Quit => if bool_decide (fw_phase s = Closed \/ fw_phase s = Returned) && fw_forwarder s
              then Some (set_child false (fw_alive s) s) else None
    | Return => if bool_decide (fw_phase s = Closed) then Some (set_phase Returned s) else None
    end.

(** The states reached while only forwardable signals arrive. *)
Inductive fw_reachable (forwardable : list Z) : forwarding -> Prop :=
| fw_reach_init : fw_reachable forwardable forwarding_init
| fw_reach_step s a s' : fw_reachable forwardable s ->
    (forall sig, a = Signal sig -> sig ∈ forwardable) ->
    fw_step forwardable a s = Some s' -> fw_reachable forwardable s'.

Fixpoint fw_run (forwardable : list Z) (actions : list fw_action) (s : forwarding) : option forwarding :=
  match actions with
  | [] => Some s
  | a :: actions' => s' ← fw_step forwardable a s; fw_run forwardable actions' s'
  end.

(** ** Lemmas: the forwarding of signals *)

(** The signals taken are those sent, in order, and the one in the channel. *)
Definition accounted (forwardable : list Z) (s : forwarding) : Prop :=
  fw_accepted s = map st_signal (fw_sent s) ++ option_list (fw_chan s) /\
  Forall (fun sig => sig ∈ forwardable) (fw_accepted s).

(** The child runs only under a running wrapper with its handler and its
    forwarder, and nothing is sent before the child was started. *)
Definition supervised (s : forwarding) : Prop :=
  (fw_alive s = true -> fw_phase s = Running) /\
  match fw_phase s with
  | Preparing => fw_chan s = None /\ fw_forwarder s = false /\ fw_sent s = []
  | Notified => fw_forwarder s = false /\ fw_sent s = []
  | Running => fw_forwarder s = true /\ Forall (fun x => st_reaped x = false) (fw_sent s)
  | Reaped => fw_forwarder s = true
  | Closed | Returned | Killed => True
  end.

Lemma accounted_step forwardable a s s' : accounted forwardable s ->
  fw_step forwardable a s = Some s' -> accounted forwardable s'.
Proof.
  intros [Ha Hf] Hs.
  assert (Hsame : forall t, fw_accepted t = fw_accepted s -> fw_sent t = fw_sent s -> fw_chan t = fw_chan s ->
    accounted forwardable t) by (intros t E1 E2 E3; unfold accounted; by rewrite E1, E2, E3).
  unfold fw_step in Hs. destruct a; repeat case_match; simplify_eq/=; try (by apply Hsame).
  - unfold signal_step. destruct (handled _ && _) eqn:Hh; [|by apply Hsame].
    destruct (fw_chan s) eqn:Hc; [by apply Hsame|]. breflect. split; cbn.
    + rewrite Ha. cbn. by rewrite app_nil_r.
    + apply Forall_app. split; [done|]. by constructor.
  - destruct (fw_chan s) as [sig|] eqn:Hc; simplify_eq/=. split; cbn; [|done].
    by rewrite Ha, map_app, app_nil_r.
Qed.

Lemma supervised_signal forwardable sig s : supervised s -> fw_phase s <> Killed -> sig ∈ forwardable ->
  supervised (signal_step forwardable sig s).
Proof.
  intros [Hal Hph] Hk Hsig. unfold signal_step, supervised in *. rewrite bool_decide_true by done.
  destruct s as [ph ch fwd al acc snt]; cbn in *.
  destruct ph; cbn; try done; try (destruct ch; cbn; done).
  all: split; [|done]; intros Hl; by specialize (Hal Hl).
Qed.

Lemma supervised_step forwardable a s s' : supervised s ->
  (forall sig, a = Signal sig -> sig ∈ forwardable) -> fw_step forwardable a s = Some s' -> supervised s'.
Proof.
  intros Hsup Hsig Hs. unfold fw_step in Hs. pose proof Hsup as [Hal Hph].
  destruct (decide (fw_phase s = Killed)) as [Hk|Hk].
  - rewrite bool_decide_true in Hs by done. destruct a; try done. destruct (fw_alive s); [|done].
    injection Hs as <-. unfold supervised. cbn. by rewrite Hk.
  - rewrite bool_decide_false in Hs by done. unfold supervised in Hph |- *. destruct a.
    1: { injection Hs as <-. by apply supervised_signal; auto. }
    all: destruct s as [ph ch fwd al acc snt]; cbn in *.
    + case_bool_decide; [|done]. injection Hs as <-. subst ph. cbn.
      split; [|by destruct Hph as (_ & ? & ?)]. intros Hl. by specialize (Hal Hl).
    + case_bool_decide; [|done]. injection Hs as <-. subst ph. destruct ok; cbn.
      * split; [done|]. by destruct Hph as [_ ->].
      * split; [|done]. intros Hl. by specialize (Hal Hl).
    + destruct fwd; [|done]. destruct ch as [sig|]; [|done]. injection Hs as <-. cbn.
      split; [done|]. destruct ph; cbn; try done; try (by destruct Hph as (_ & ? & _)); try (by destruct Hph).
      split; [done|]. apply Forall_app. split; [by destruct Hph|]. by repeat constructor.
    + destruct al; [|done]. injection Hs as <-. by cbn.
    + case_bool_decide; [|done]. subst ph. destruct al; [done|]. injection Hs as <-. cbn.
      split; [done|]. by destruct Hph.
    + case_bool_decide; [|done]. subst ph. injection Hs as <-. cbn. split; [|done].
      intros Hl. by specialize (Hal Hl).
    + case_bool_decide as Hc; [|done]. destruct fwd; [|done]. injection Hs as <-. cbn.
      by destruct Hc as [-> | ->].
    + case_bool_decide; [|done]. subst ph. injection Hs as <-. cbn. split; [|done].
      intros Hl. by specialize (Hal Hl).
Qed.

Lemma fw_reachable_invariant forwardable s : fw_reachable forwardable s ->
  accounted forwardable s /\ supervised s.
Proof.
  induction 1 as [|s a s' Hr [IHa IHs] Hsig Hs]; [split; [split; [done|cbn; constructor]|by repeat split]|].
  split; [by eapply accounted_step|by eapply supervised_step].
Qed.

(** What is left to do for [RunE] once no more signals come and the child ends. *)
Definition wind_down (s : forwarding) : list fw_action :=
  (if fw_alive s then [ChildExit] else []) ++
  match fw_phase s with
  | Preparing => [Notify; Start true; ChildExit; Wait; CloseDone; Quit; Return]
  | Notified => [Start true; ChildExit; Wait; CloseDone; Quit; Return]
  | Running => [Wait; CloseDone; Quit; Return]
  | Reaped => [CloseDone; Quit; Return]
  | Closed => if fw_forwarder s then [Quit; Return] else [Return]
  | Returned => if fw_forwarder s then [Quit] else []
  | Killed => []
  end.

(** ** Properties *)

(** C30: While a program runs under [pass run] and only forwardable signals
    arrive, in every interleaving of the wrapper, its forwarding goroutine, the
    child and the signals: the signals sent to the child's process group are
    those the channel took, in order and each once, and at most one is pending;
    as long as the child runs the wrapper has not been killed by a signal and
    its forwarder runs, so a pending signal can be sent to the live child at
    once; and from every state the wrapper has not died in, once the child
    ends, a bounded number of its own steps stops the forwarder and returns. *)
Theorem run_signals forwardable s : fw_reachable forwardable s ->
  fw_accepted s = map st_signal (fw_sent s) ++ option_list (fw_chan s) /\
  Forall (fun sig => sig ∈ forwardable) (fw_accepted s) /\
  (fw_alive s = true -> fw_phase s = Running /\ Forall (fun x => st_reaped x = false) (fw_sent s) /\
     forall sig, fw_chan s = Some sig -> exists s', fw_step forwardable Forward s = Some s' /\
       fw_sent s' = fw_sent s ++ [{| st_signal := sig; st_reaped := false |}]) /\
  (fw_phase s <> Killed ->
     exists s', fw_run forwardable (wind_down s) s = Some s' /\ fw_phase s' = Returned /\
       fw_forwarder s' = false /\ fw_alive s' = false /\ (length (wind_down s) <= 7)%nat).
Proof.
  intros Hr. destruct (fw_reachable_invariant _ _ Hr) as [[Ha Hf] [Hal Hph]].
  destruct s as [ph ch fwd al acc snt]. cbn in *. split_and!; [done|done| |].
  - intros Hl. specialize (Hal Hl). subst ph. destruct Hph as [-> Hsn]. split; [done|]. split; [done|].
    intros sig ->. by eexists.
  - intros Hk. destruct al; [specialize (Hal eq_refl); subst ph; destruct Hph as [-> _]|].
    { eexists. split_and!; [reflexivity..|]. cbn. lia. }
    destruct ph, fwd; try done; try (by destruct Hph as (_ & ? & _)); try (by destruct Hph);
      (eexists; split_and!; [reflexivity..|]; cbn; lia).
Qed.

Lemma run_signals_witness :
  let actions := [Notify; Signal SIGTERM; Start true; Signal SIGINT; Forward; Signal SIGINT] in
  exists s, fw_run forwardableSignals_unix actions forwarding_init = Some s /\
    fw_alive s = true /\ fw_phase s = Running /\ fw_accepted s = [SIGTERM; SIGINT].
Proof.
  intros actions. eexists. split; [reflexivity|]. split; [reflexivity|].
  assert (Hreach : forall l s s', fw_reachable forwardableSignals_unix s ->
    Forall (fun a => match a with Signal g => g ∈ forwardableSignals_unix | _ => True end) l ->
    fw_run forwardableSignals_unix l s = Some s' -> fw_reachable forwardableSignals_unix s').
  { induction l as [|a l IH]; intros s s' Hs Hl Hrun; [by injection Hrun as <-|].
    apply list.Forall_cons in Hl as [Ha Hl]. cbn [fw_run] in Hrun.
    destruct (fw_step forwardableSignals_unix a s) as [s1|] eqn:Hst; [|done]. cbn in Hrun.
    apply (IH s1 s'); [|done|done]. eapply fw_reach_step; [exact Hs| |exact Hst]. by intros sig ->. }
  edestruct (run_signals forwardableSignals_unix) as (_ & _ & Hal & _).
  { apply (Hreach actions forwarding_init); [constructor| |reflexivity].
    repeat constructor; set_solver. }
  split; [by apply Hal|reflexivity].
Defined.

(** Between the end of [Wait] and the sight of [done] the goroutine may still
    take a signal: it is sent to a process group whose id is free again. *)
Example signal_after_reap :
  fw_sent <$> fw_run forwardableSignals_unix
    [Notify; Start true; ChildExit; Wait; Signal SIGTERM; Forward] forwarding_init =
  Some [{| st_signal := SIGTERM; st_reaped := true |}].
Proof. reflexivity. Qed.
