(* ===== verification/Backends.v ===== *)
(** The backends side by side: the keychains of Linux, Windows and macOS and the
    file store answer every client alike. *)

From S2P Require Import Prelude GoErrors GoStrings Secrets Store StoreSpec Keychain SecretService.
From S2P Require Import SecretFile Posixage PosixStore KeychainLinux LinuxStore.
From S2P Require KeychainWindows WindowsStore KeychainDarwin DarwinStore.
Import KeychainWindows(WinCred, WinCredSpec, Credential).
Import KeychainDarwin(SecurityFramework, GrantedKeychain, OSStatus, ItemValue, Password).

(** A store with what makes it a machine over a map. *)
Record backend (T : Type) : Type := {
  b_state : Type;
  b_Store : Store b_state T;
  b_wf : b_state -> Prop;
  b_named : ID -> Prop;
  b_ok : ID -> T -> Prop;
  b_view : b_state -> gmap ID T;
  b_conventions : conventions;
  b_machine : StoreMachine b_state T b_wf b_named b_ok b_view b_conventions
}.
Arguments b_state {T} _.
Arguments b_Store {T} _.
Arguments b_wf {T} _ _.
Arguments b_named {T} _ _.
Arguments b_ok {T} _ _ _.
Arguments b_view {T} _ _.
Arguments b_conventions {T} _.
Arguments b_machine {T} _.

(** The platforms the engine has a store for. *)
Inductive platform : Type :=
| LinuxKeychain
| WindowsKeychain
| MacOSKeychain
| Files.

Section platforms.
Context {T : Type} `{Store.Secret T}.
Context (ord : list (string * string) -> list (string * string)) `{!MapOrder ord} (k : keychainStore T).
(** Linux: a granted Secret Service. *)
Context {W1 : Type} `{GrantedService W1 items plain extra} (IsValid : ObjectPath -> bool).
Context (Hforeign : foreign (extra := extra)).
(** Windows: a granted credential manager and a UTF-16 codec. *)
Context {W2 : Type} `{WinCredSpec W2 creds}.
Context (utf16_encode utf16_decode : bytes -> result goerror bytes) (fold : Z -> Z -> bool).
(** macOS: a granted keychain and the gob codec. *)
Context {W3 : Type} `{GrantedKeychain W3 passwords}.
Context (status_code : OSStatus -> Z) (gob_encode : gmap string string -> result goerror bytes).
Context (gob_decode : bytes -> result goerror (gmap string ItemValue)) (ValidString : string -> bool).
Context (ord_item : list (string * ItemValue) -> list (string * ItemValue)) `{!MapOrder ord_item}.
Context (Husable : DarwinStore.usable gob_encode ValidString k).
(** Files: a lock that is granted, age and the JSON codec. *)
Context {Recipient Identity : Type} `{Age Recipient Identity}.
Context (json_Marshal : gmap string string -> result goerror bytes).
Context (json_Unmarshal : bytes -> result goerror (gmap string string)).
Context (flock : bool -> option goerror) (Hflock : forall exclusive, flock exclusive = None).
Context (entropy : Z) (ord_key : list (KeyType * list string) -> list (KeyType * list string)) `{!MapOrder ord_key}.
Context (c : config).

(** The store of a platform. *)
Definition backend_of (p : platform) : backend T :=
  match p with
  | LinuxKeychain => {| b_machine := linux_machine IsValid ord k Hforeign |}
  | WindowsKeychain => {| b_machine := WindowsStore.windows_machine utf16_encode utf16_decode fold ord k |}
  | MacOSKeychain =>
      {| b_machine := DarwinStore.darwin_machine status_code gob_encode gob_decode ValidString ord_item ord k Husable |}
  | Files =>
      {| b_machine := posix_machine json_Marshal json_Unmarshal flock entropy ord_key (factory k) c Hflock |}
  end.
End platforms.

(** A session of calls on a backend. *)
Definition session {T} (b : backend T) (calls : list (store_call T)) (s : b_state b) : list (store_reply T) * b_state b :=
  perform_all (H := b_Store b) calls s.


#[local] Existing Instance KeychainWindows.granted_WinCredSpec.
#[local] Existing Instance KeychainDarwin.memory_keychain.
#[local] Existing Instance KeychainDarwin.memory_keychain_granted.

(** The four stores in memory. *)
Definition sample_on : platform -> backend PassValue :=
  backend_of (W1 := gmap ObjectPath Item) (items := fun m => m) (extra := ∅)
    (H2 := KeychainWindows.granted_WinCred) (creds := fun m => m)
    (W3 := gmap (string * string * string) Password) (passwords := fun m => m)
    (fun l => l) DarwinStore.sample_darwin (fun _ => true) foreign_empty
    KeychainWindows.latin_encode KeychainWindows.latin_decode (fun _ _ => false)
    (fun _ => 7%Z) DarwinStore.sample_gob_encode DarwinStore.sample_gob_decode (fun _ => true) (fun l => l)
    DarwinStore.sample_usable sample_json_Marshal sample_json_Unmarshal (fun _ => None) (fun _ => eq_refl) 0
    (@List.rev _) sample_config.

Definition sample_calls : list (store_call PassValue) :=
  [CallGet "my/id"; CallUpsert "my/id" DarwinStore.sample_value; CallFilter "my/*"; CallGet "my/id";
   CallDelete "my/id"; CallFilter "my/*"].

Lemma sample_linux_acceptable : acceptable (extra := ∅) DarwinStore.sample_darwin "my/id" DarwinStore.sample_value.
Proof.
  split; [reflexivity|]. split; [split|].
  - intros j v Hj. cbn in Hj. apply lookup_singleton_Some in Hj as [<- _]. reflexivity.
  - intros j [v Hj]. by rewrite lookup_empty in Hj.
  - exists [Byte.x41]. by split.
Qed.

