(* ===== verification/Memory.v ===== *)
(** The memory of secrets: byte slices that are shared between a secret and the
    store that saves it. Every store zeroes the slice [Marshal] gave it and the
    buffer it handed to [Unmarshal] (keychain_linux.go, keychain_darwin.go,
    keychain_windows.go, posixage/store.go); plugins/pass/store/store.go decides
    which of them a secret keeps. *)

From S2P Require Import Prelude GoErrors GoStrings Secrets Store StoreSpec Keychain.
From S2P Require Import KeychainDarwin DarwinStore.

(** ** The heap *)

Abbreviation loc := positive (only parsing).

(** The arrays behind the slices; every slice of the model spans its array. *)
Abbreviation heap := (gmap positive bytes) (only parsing).

Definition read (h : heap) (l : option loc) : bytes :=
  match l with Some l => default [] (h !! l) | None => [] end.

(** A fresh array; Go represents an empty result of [append] to nil as nil. *)
Definition alloc (b : bytes) (h : heap) : loc * heap :=
  let l := fresh (dom h) in (l, <[l := b]> h).

Definition append_nil (b : bytes) (h : heap) : option loc * heap :=
  match b with
  | [] => (None, h)
  | _ => let '(l, h) := alloc b h in (Some l, h)
  end.

Definition zeroed (b : bytes) : bytes := map (fun _ => Byte.x00) b.

(** The builtin [clear] on a slice. *)
Definition clear_slice (l : option loc) (h : heap) : heap :=
  match l with Some l => alter zeroed l h | None => h end.

(** ** PassValue *)

Record PassValue_object : Type := { o_value : option loc; o_metadata : gmap string string }.

Definition object_Marshal (m : PassValue_object) : option loc := o_value m.

Definition object_Unmarshal (m : PassValue_object) (data : option loc) (h : heap) : PassValue_object * heap :=
  let '(l, h) := append_nil (read h data) h in ({| o_value := l; o_metadata := o_metadata m |}, h).

(** What the object is at the moment. *)
Definition deref (h : heap) (m : PassValue_object) : PassValue :=
  {| pv_value := read h (object_Marshal m); pv_metadata := o_metadata m |}.

(** ** The stores *)

Section stores.
Context {S : Type} `{Store S PassValue}.

(** A call that saves: it reads the slice [Marshal] returns and clears it with
    [defer], also when it fails after that; [reached] says whether a call that
    failed had got to [Marshal]. *)
Definition saving (reached : bool) (save : ID -> PassValue -> comp S goerror unit) (id : ID)
    (m : PassValue_object) : heap * S -> result goerror unit * (heap * S) := fun '(h, s) =>
  let '(r, s') := save id (deref h m) s in
  (r, (if is_ok r || reached then clear_slice (object_Marshal m) h else h, s')).

Definition heap_Save (reached : bool) : ID -> PassValue_object -> heap * S -> result goerror unit * (heap * S) :=
  saving reached store_Save.
Definition heap_Upsert (reached : bool) : ID -> PassValue_object -> heap * S -> result goerror unit * (heap * S) :=
  saving reached store_Upsert.

(** A call that loads: the plaintext lies in a buffer, the factory's secret
    unmarshals it, and the buffer is cleared. *)
Definition heap_Get (id : ID) : heap * S -> result goerror PassValue_object * (heap * S) := fun '(h, s) =>
  match store_Get id s with
  | (Err err, s') => (Err err, (h, s'))
  | (Ok v, s') =>
      let '(buffer, h) := append_nil (pv_value v) h in
      let '(m, h) := object_Unmarshal {| o_value := None; o_metadata := pv_metadata v |} buffer h in
      (Ok m, (clear_slice buffer h, s'))
  end.
End stores.

(** ** Lemmas *)

Lemma read_clear l h : read (clear_slice l h) l = zeroed (read h l).
Proof.
  destruct l as [l|]; [|done]. unfold read, clear_slice. rewrite lookup_alter_eq. by destruct (h !! l).
Qed.

Lemma read_clear_ne l l' h : l <> l' -> read (clear_slice (Some l) h) (Some l') = read h (Some l').
Proof. intros Hne. unfold read, clear_slice. by rewrite lookup_alter_ne. Qed.

Lemma alloc_fresh b h l h' : alloc b h = (l, h') ->
  h !! l = None /\ h' = <[l := b]> h.
Proof.
  intros [= <- <-]. split; [|done]. apply not_elem_of_dom. apply is_fresh.
Qed.

(** What [append] leaves: a slice of its own with these bytes, and the others
    as they were. *)
Lemma append_nil_spec b h l h' : append_nil b h = (l, h') ->
  read h' l = b /\ h ⊆ h' /\ (forall p, l = Some p -> h !! p = None /\ h' !! p = Some b).
Proof.
  unfold append_nil. destruct b as [|x b]; [by intros [= <- <-]|].
  destruct (alloc (x :: b) h) as [p h1] eqn:Ha. apply alloc_fresh in Ha as [Hp ->]. intros [= <- <-].
  unfold read. rewrite lookup_insert_eq. split; [done|]. split; [by apply insert_subseteq|].
  intros q [= <-]. split; [done|apply lookup_insert_eq].
Qed.

Lemma read_mono h h' l b : h ⊆ h' -> (forall p, l = Some p -> is_Some (h !! p)) -> read h l = b -> read h' l = b.
Proof.
  intros Hs Hl <-. destruct l as [p|]; [|done]. destruct (Hl p eq_refl) as [x Hx]. cbn.
  by rewrite Hx, (lookup_weaken _ _ _ _ Hx Hs).
Qed.

(** An object whose slice exists. *)
Definition allocated (h : heap) (m : PassValue_object) : Prop := forall p, o_value m = Some p -> is_Some (h !! p).

(** The object [Get] returns has the bytes, in a slice of its own. *)
Lemma loaded_spec v h m buffer h1 h2 : append_nil (pv_value v) h = (buffer, h1) ->
  object_Unmarshal {| o_value := None; o_metadata := pv_metadata v |} buffer h1 = (m, h2) ->
  deref (clear_slice buffer h2) m = v /\
  (forall m', allocated h m' -> deref (clear_slice buffer h2) m' = deref h m' /\
     (forall p, o_value m = Some p -> o_value m' <> Some p)).
Proof.
  intros Hb Hu. apply append_nil_spec in Hb as (Hrb & Hsb & Hfb).
  unfold object_Unmarshal in Hu. destruct (append_nil (read h1 buffer) h1) as [l h3] eqn:Hl.
  apply append_nil_spec in Hl as (Hrl & Hsl & Hfl). injection Hu as <- <-.
  assert (Hkeep : forall l' : option loc, l' <> buffer \/ buffer = None ->
    read (clear_slice buffer h3) l' = read h3 l').
  { intros l' Hl'. destruct buffer as [pb|]; [|done]. destruct l' as [p|]; [|done].
    apply read_clear_ne. intros ->. by destruct Hl'. }
  split.
  - unfold deref. cbn [object_Marshal o_value o_metadata]. rewrite Hkeep.
    + rewrite Hrl, Hrb. by destruct v.
    + destruct buffer as [pb|]; [left|by right]. intros ->.
      destruct (Hfl pb eq_refl) as [Hno _], (Hfb pb eq_refl) as [_ Hyes]. congruence.
  - intros m' Hm'. split.
    + unfold deref. f_equal. rewrite Hkeep.
      * apply (read_mono h); [by etrans|exact Hm'|done].
      * destruct buffer as [pb|]; [left|by right]. unfold object_Marshal. intros He.
        destruct (Hfb pb eq_refl) as [Hno _], (Hm' pb He) as [x Hx]. congruence.
    + cbn [o_value]. intros p -> He. destruct (Hm' p He) as [x Hx], (Hfl p eq_refl) as [Hno _].
      pose proof (lookup_weaken _ _ _ _ Hx Hsb). congruence.
Qed.

(** ** Saving and loading objects *)

Section machine.
Context {S : Type} `{StoreMachine S PassValue wf named ok view cv}.

(** [Upsert] of an object. *)
Lemma heap_Upsert_spec reached id m h s : wf s -> ok id (deref h m) ->
  let '(r, (h', s')) := heap_Upsert reached id m (h, s) in
  r = Ok tt /\ wf s' /\ view s' = <[id := deref h m]> (view s) /\ h' = clear_slice (o_value m) h.
Proof.
  intros Hw Hok. pose proof (machine_step (CallUpsert id (deref h m)) s Hw Hok) as Hs. cbn in Hs.
  unfold heap_Upsert, saving. destruct (store_Upsert id (deref h m) s) as [[[]|e] s'] eqn:Hu; cbn in Hs.
  - destruct Hs as [Hw' Hs]. injection Hs as Hv. by split_and!.
  - by destruct Hs as [_ [=]].
Qed.

(** [Get] of an identifier that has a secret. *)
Lemma heap_Get_spec id h s v : wf s -> named id -> view s !! id = Some v ->
  exists m h' s', heap_Get id (h, s) = (Ok m, (h', s')) /\ wf s' /\ view s' = view s /\ deref h' m = v /\
    forall m', allocated h m' -> deref h' m' = deref h m' /\ (forall p, o_value m = Some p -> o_value m' <> Some p).
Proof.
  intros Hw Hn Hv. pose proof (machine_step (CallGet id) s Hw Hn) as Hs. cbn in Hs. unfold heap_Get.
  destruct (store_Get id s) as [[v'|e] s'] eqn:Hg; cbn in Hs; rewrite Hv in Hs; destruct Hs as [Hw' Hs].
  - injection Hs as -> Hvs. destruct (append_nil (pv_value v) h) as [buffer h1] eqn:Hb.
    destruct (object_Unmarshal _ buffer h1) as [m h2] eqn:Hu.
    destruct (loaded_spec v h m buffer h1 h2 Hb Hu) as [Hd Ho].
    exists m, (clear_slice buffer h2), s'. split_and!; [done..|]. exact Ho.
  - by injection Hs.
Qed.

Lemma deref_clear h m : deref (clear_slice (o_value m) h) m =
  {| pv_value := zeroed (pv_value (deref h m)); pv_metadata := o_metadata m |}.
Proof. unfold deref. f_equal. apply read_clear. Qed.

Lemma deref_clear_other h m m' : (forall p, o_value m = Some p -> o_value m' <> Some p) ->
  deref (clear_slice (o_value m) h) m' = deref h m'.
Proof.
  intros Hne. unfold deref, object_Marshal. f_equal.
  destruct (o_value m) as [p|], (o_value m') as [q|] eqn:Hq; try done.
  apply read_clear_ne. intros ->. by apply (Hne q).
Qed.
End machine.

(** ** Properties *)

(** C14: Saving consumes a [PassValue]. After an [Upsert] in a store the store
    holds the secret, and the object of the caller holds as many zero bytes,
    because [Marshal] returned its own slice and the store cleared it: saved
    again, under any identifier, it stores the zeros, over the secret when the
    identifier is the same. The same zeros are left by every call of every store
    that got past [Marshal], also one that failed, so that a retry after an error
    stores them. What the stores return is not shared: an object [Get] returns
    has the secret in a slice of its own, which a later save of the first object
    leaves alone, and whose own save leaves the first alone. *)
Theorem Save_clears_value {S} `{StoreMachine S PassValue wf named ok view cv} id id' m h s reached :
  wf s -> named id -> allocated h m ->
  let v := deref h m in
  let zeros := {| pv_value := zeroed (pv_value v); pv_metadata := pv_metadata v |} in
  ok id v -> ok id' zeros ->
  (let '(r1, (h1, s1)) := heap_Upsert reached id m (h, s) in
   r1 = Ok tt /\ view s1 = <[id := v]> (view s) /\ deref h1 m = zeros /\
   (let '(r2, (h2, s2)) := heap_Upsert reached id' m (h1, s1) in
    r2 = Ok tt /\ view s2 = <[id' := zeros]> (<[id := v]> (view s))) /\
   exists m' h2 s2, heap_Get id (h1, s1) = (Ok m', (h2, s2)) /\ deref h2 m' = v /\
     deref (clear_slice (o_value m) h2) m' = v /\ deref (clear_slice (o_value m') h2) m = deref h1 m) /\
  (forall U (save : ID -> PassValue -> comp U goerror unit) u,
     let '(_, (h1, _)) := saving true save id m (h, u) in deref h1 m = zeros).
Proof.
  intros Hw Hn Ha v zeros Hok Hok'. pose proof (heap_Upsert_spec reached id m h s Hw Hok) as H1.
  assert (Hz : deref (clear_slice (o_value m) h) m = zeros) by apply deref_clear.
  split.
  2:{ intros U save u. unfold saving. destruct (save id (deref h m) u) as [r u']. by rewrite orb_true_r. }
  destruct (heap_Upsert reached id m (h, s)) as [r1 [h1 s1]]. destruct H1 as (-> & Hw1 & Hv1 & ->).
  split; [done|]. split; [done|]. split; [done|]. split.
  - pose proof (heap_Upsert_spec reached id' m (clear_slice (o_value m) h) s1 Hw1) as H2. rewrite Hz in H2.
    specialize (H2 Hok'). destruct (heap_Upsert reached id' m _) as [r2 [h2 s2]].
    destruct H2 as (-> & _ & Hv2 & _). by rewrite Hv2, Hv1.
  - destruct (heap_Get_spec id (clear_slice (o_value m) h) s1 v Hw1 Hn) as (m' & h2 & s2 & Hg & _ & _ & Hd & Ho).
    { rewrite Hv1. apply lookup_insert_eq. }
    assert (Ha1 : allocated (clear_slice (o_value m) h) m).
    { intros p Hp. rewrite Hp. unfold clear_slice. rewrite lookup_alter_eq.
      destruct (Ha p Hp) as [b ->]. by eexists. }
    destruct (Ho m Ha1) as [Hm Hsep]. exists m', h2, s2. split; [done|]. split; [done|]. split.
    + rewrite deref_clear_other; [done|]. intros p Hp He. by apply (Hsep p).
    + rewrite deref_clear_other; [done|exact Hsep].
Qed.

(** A secret of one byte whose slice is the first of the heap, saved twice. *)
Definition sample_object : PassValue_object := {| o_value := Some 1%positive; o_metadata := {["a" := "b"]} |}.
Definition sample_heap : heap := {[1%positive := [Byte.x41]]}.

Lemma sample_bytes_acceptable b :
  darwin_acceptable sample_gob_encode sample_gob_decode (fun _ => true) (fun l => l) sample_darwin "my/id"
    {| pv_value := [b]; pv_metadata := {["a" := "b"]} |}.
Proof.
  split; [apply sample_nameable|]. split.
  - intros j v Hj. cbn in Hj. apply lookup_singleton_Some in Hj as [<- _]. reflexivity.
  - exists [b], [Byte.x01]. split_and!; [reflexivity..|].
    apply convertible_compute. vm_compute. reflexivity.
Qed.

Lemma Save_clears_value_witness :
  let _ := darwin_Store (fun _ => 7%Z) sample_gob_encode sample_gob_decode (fun _ => true) (@rev _) (fun l => l)
    sample_darwin in
  let '(r1, (h1, s1)) := heap_Upsert false "my/id" sample_object
    (sample_heap, (∅ : gmap (string * string * string) Password)) in
  r1 = Ok tt /\ deref h1 sample_object = {| pv_value := [Byte.x00]; pv_metadata := {["a" := "b"]} |}.
Proof.
  pose proof (Save_clears_value
    (H0 := darwin_machine (passwords := fun m => m) (fun _ => 7%Z) sample_gob_encode
      sample_gob_decode (fun _ => true) (@rev _) (fun l => l) sample_darwin sample_usable)
    "my/id" "my/id" sample_object sample_heap ∅ false (darwin_kept_empty _ _ _ _ _) sample_nameable) as Hs.
  destruct Hs as [Hs _].
  - intros p [= <-]. by eexists.
  - apply sample_bytes_acceptable.
  - apply sample_bytes_acceptable.
  - intros st. destruct (heap_Upsert _ _ _ _) as [r1 [h1 s1]]. by destruct Hs as (-> & _ & -> & _).
Defined.
