(* ===== verification/Identifiers.v ===== *)
(** The identifiers the stores hand out: whatever a platform holds, and whatever
    its calls answer, what [GetAllMetadata] and [Filter] return is keyed by
    valid identifiers. *)

From S2P Require Import Prelude GoErrors GoStrings Secrets Store Keychain SecretService.
From S2P Require Import KeychainWindows KeychainLinux KeychainDarwin SecretFile Posixage.

(** A map from identifiers of which each satisfies [P]. *)
Definition keyed {T} (P : ID -> Prop) (m : gmap ID T) : Prop := map_Forall (fun id _ => P id) m.

Definition valid_id (id : ID) : Prop := validIdentifier id = true.
Definition selected (pattern : Pattern) (id : ID) : Prop :=
  validIdentifier id = true /\ pattern_Match pattern id = true.

Lemma keyed_empty {T} (P : ID -> Prop) : keyed P (∅ : gmap ID T).
Proof. apply map_Forall_empty. Qed.

Lemma keyed_insert {T} (P : ID -> Prop) id (v : T) m : P id -> keyed P m -> keyed P (<[id := v]> m).
Proof. intros Hid Hm. by apply map_Forall_insert_2. Qed.

Create HintDb typed discriminated.
#[export] Hint Resolve keyed_empty keyed_insert : typed.
#[export] Hint Resolve ensures_ret ensures_throw : typed.

Section linux.
Context {T W : Type} `{Store.Secret T} `{secretService W}.
Context (IsValid : ObjectPath -> bool) (ord : list (string * string) -> list (string * string)).
Context (k : keychainStore T).

Lemma ensures_with_session {A} (body : Session -> comp W goerror A) P :
  (forall session, ensures (body session) P) -> ensures (KeychainLinux.with_session body) P.
Proof.
  intros Hb. unfold KeychainLinux.with_session. apply ensures_bind. intros _. apply ensures_deferring.
  apply ensures_bind. intros session. apply ensures_deferring. apply Hb.
Qed.

Lemma linux_collectMetadata_typed paths m : keyed valid_id m ->
  ensures (KeychainLinux.collectMetadata ord k paths m) (keyed valid_id).
Proof.
  revert m. induction paths as [|p paths IH]; intros m Hm; simpl; [auto with typed|].
  apply ensures_bind. intros attributes. destruct (attributes !! "id"); [|auto with typed].
  eapply ensures_bind_post; [apply ensures_lift; intros a Ha; exact (ParseID_valid _ _ Ha)|].
  intros id Hid. apply ensures_bind. intros v. apply IH. auto with typed.
Qed.

Lemma linux_collectSecrets_typed pattern coll session paths m : keyed (selected pattern) m ->
  ensures (KeychainLinux.collectSecrets ord k pattern coll session paths m) (keyed (selected pattern)).
Proof.
  revert m. induction paths as [|p paths IH]; intros m Hm; simpl; [auto with typed|].
  apply ensures_bind. intros attributes. destruct (attributes !! "id") as [a|]; [|auto].
  destruct (ParseID a) as [id|] eqn:Hid; [|auto].
  destruct (pattern_Match pattern id) eqn:Hp; simpl; [|auto].
  apply ensures_bind. intros v. apply IH. apply keyed_insert; [split; eauto using ParseID_valid|done].
Qed.

Lemma linux_typed : ensures (KeychainLinux.GetAllMetadata IsValid ord k) (keyed valid_id) /\
  forall pattern, ensures (KeychainLinux.Filter IsValid ord k pattern) (keyed (selected pattern)).
Proof.
  split; [|intros pattern]; apply ensures_with_session; intros session;
    (apply ensures_bind; intros path); (apply ensures_bind; intros paths).
  - apply linux_collectMetadata_typed. auto with typed.
  - destruct paths; [auto with typed|].
    eapply ensures_bind_post; [apply linux_collectSecrets_typed; auto with typed|].
    intros m Hm. destruct (decide _); auto with typed.
Qed.
End linux.

Section windows.
Context {T W : Type} `{Store.Secret T} `{WinCred W}.
Context (utf16_decode : bytes -> result goerror bytes) (fold : Z -> Z -> bool).
Context (ord : list (string * string) -> list (string * string)) (k : keychainStore T).

Lemma windows_mapped_typed {A} (m : comp W goerror A) P :
  ensures m P -> ensures (KeychainWindows.mapped m) P.
Proof. intros Hm w. specialize (Hm w). unfold KeychainWindows.mapped. by destruct (m w) as [[a|e] w']. Qed.

Lemma windows_collectMetadata_typed creds m m' : keyed valid_id m ->
  KeychainWindows.collectMetadata ord k creds m = Ok m' -> keyed valid_id m'.
Proof.
  revert m. induction creds as [|c creds IH]; intros m Hm Hr; simpl in Hr; [by simplify_eq|].
  apply result_bind_Ok_inv in Hr as (id & Hid & Hr). apply result_bind_Ok_inv in Hr as (v & _ & Hr).
  apply (IH _ (keyed_insert _ _ _ _ (ParseID_valid _ _ Hid) Hm) Hr).
Qed.

Lemma windows_collectSecrets_typed creds m : keyed valid_id m ->
  ensures (KeychainWindows.collectSecrets utf16_decode ord k creds m) (keyed valid_id).
Proof.
  revert m. induction creds as [|c creds IH]; intros m Hm; simpl; [auto with typed|].
  destruct (ParseID _) as [id|] eqn:Hid; [|auto].
  apply ensures_bind. intros gc. apply ensures_bind. intros v. apply IH.
  apply keyed_insert; [exact (ParseID_valid _ _ Hid)|done].
Qed.

Lemma windows_typed : ensures (KeychainWindows.GetAllMetadata fold ord k) (keyed valid_id) /\
  forall pattern, ensures (KeychainWindows.Filter utf16_decode fold ord k pattern) (keyed valid_id).
Proof.
  split; [|intros pattern]; (apply ensures_bind; intros creds).
  - apply ensures_lift. intros m. apply windows_collectMetadata_typed, keyed_empty.
  - apply windows_collectSecrets_typed, keyed_empty.
Qed.
End windows.

Section darwin.
Context {T W : Type} `{Store.Secret T} `{SecurityFramework W}.
Context (status_code : OSStatus -> Z) (gob_encode : gmap string string -> result goerror bytes).
Context (gob_decode : bytes -> result goerror (gmap string ItemValue)) (ValidString : string -> bool).
Context (ord_item : list (string * ItemValue) -> list (string * ItemValue)).
Context (ord : list (string * string) -> list (string * string)) (k : keychainStore T).

Lemma darwin_collectMetadata_typed results m m' : keyed valid_id m ->
  KeychainDarwin.collectMetadata ord_item ord k results m = Ok m' -> keyed valid_id m'.
Proof.
  revert m. induction results as [|c results IH]; intros m Hm Hr; simpl in Hr; [by simplify_eq|].
  apply result_bind_Ok_inv in Hr as (id & Hid & Hr). apply result_bind_Ok_inv in Hr as (a & _ & Hr).
  apply result_bind_Ok_inv in Hr as (v & _ & Hr).
  apply (IH _ (keyed_insert _ _ _ _ (ParseID_valid _ _ Hid) Hm) Hr).
Qed.

Lemma darwin_collectSecrets_typed pattern results m : keyed (selected pattern) m ->
  ensures (KeychainDarwin.collectSecrets status_code gob_encode gob_decode ValidString ord_item ord k
             pattern results m) (keyed (selected pattern)).
Proof.
  revert m. induction results as [|c results IH]; intros m Hm; simpl; [auto with typed|].
  destruct (ParseID _) as [id|] eqn:Hid; [|auto].
  destruct (pattern_Match pattern id) eqn:Hp; simpl; [|auto].
  apply ensures_bind. intros a. apply ensures_bind. intros v. apply IH.
  apply keyed_insert; [split; eauto using ParseID_valid|done].
Qed.

Lemma darwin_typed :
  ensures (KeychainDarwin.GetAllMetadata status_code gob_encode gob_decode ValidString ord_item ord k)
    (keyed valid_id) /\
  forall pattern, ensures (KeychainDarwin.Filter status_code gob_encode gob_decode ValidString ord_item
                             ord k pattern) (keyed (selected pattern)).
Proof.
  split; [|intros pattern]; (apply ensures_bind; intros results).
  - apply ensures_lift. intros m. apply darwin_collectMetadata_typed, keyed_empty.
  - apply darwin_collectSecrets_typed, keyed_empty.
Qed.
End darwin.

Section posixage.
Context {T Recipient Identity : Type} `{Store.Secret T} `{Age Recipient Identity}.
Context (json_Unmarshal : bytes -> result goerror (gmap string string)).
Context (flock : bool -> option goerror) (factory : Factory T) (c : config).

Lemma ensures_walk {A} (P : A -> Prop) fn acc :
  (forall name a, P a -> ensures (fn name a) P) -> P acc -> ensures (WalkDir fn acc) P.
Proof.
  intros Hfn Hacc. unfold WalkDir. apply ensures_try. intros [|]; [|auto with typed].
  apply ensures_try. intros [entries|]; [|auto with typed].
  revert acc Hacc. induction entries as [|[name dir] entries IH]; intros acc Hacc; simpl; [auto with typed|].
  destruct dir; simpl; [|auto]. eapply ensures_bind_post; [by apply Hfn|auto].
Qed.

Lemma DirNameToID_valid name id : DirNameToID name = Ok id -> validIdentifier id = true.
Proof. intros Hr. apply result_bind_Ok_inv in Hr as (s & _ & Hr). exact (ParseID_valid _ _ Hr). Qed.

(** The walk and the test for an empty answer that both operations end in. *)
Lemma ensures_walked (P : ID -> Prop) fn :
  (forall name m, keyed P m -> ensures (fn name m) (keyed P)) ->
  ensures (locked flock false (secrets <-! WalkDir fn (∅ : gmap ID T) ;;
    if decide (secrets = ∅) then throw ErrCredentialNotFound else ret secrets)) (keyed P).
Proof.
  intros Hfn. unfold locked. destruct (flock false); [auto with typed|].
  eapply ensures_bind_post; [apply ensures_walk; [exact Hfn|apply keyed_empty]|].
  intros m Hm. destruct (decide _); auto with typed.
Qed.

Lemma posix_typed : ensures (Posixage.GetAllMetadata json_Unmarshal flock factory) (keyed valid_id) /\
  forall pattern, ensures (Posixage.Filter json_Unmarshal flock factory c pattern)
                    (keyed (selected pattern)).
Proof.
  split; [|intros pattern]; apply ensures_walked; intros name m Hm.
  - unfold metadata_dir. destruct (DirNameToID name) as [id|] eqn:Hid; [|auto with typed].
    apply ensures_bind. intros dir. apply ensures_bind. intros md. apply ensures_bind. intros v.
    apply ensures_ret, keyed_insert; [exact (DirNameToID_valid _ _ Hid)|done].
  - unfold filter_dir. destruct (DirNameToID name) as [id|] eqn:Hid; [|auto with typed].
    destruct (pattern_Match pattern id) eqn:Hp; simpl; [|auto with typed].
    apply ensures_try. intros [[secrets md]|]; [|auto with typed].
    apply ensures_bind. intros d. apply ensures_bind. intros v.
    apply ensures_ret, keyed_insert; [split; eauto using DirNameToID_valid|done].
Qed.
End posixage.

(** C20: What the stores hand out is typed. Whatever the platform holds - items
    and files of other programs with any names and attributes - and whatever its
    calls answer or fail with, a map that [GetAllMetadata] or [Filter] returns
    is keyed by valid identifiers, and the identifiers [Filter] returns match
    its pattern: on Linux, on macOS and in the file store. On Windows they are
    valid too, but [Filter] tests the user name of a credential and answers
    under what is left of its target name when every occurrence of the label is
    cut out of it: a store with the one secret "xg:n:y" of a service g, n
    answers the pattern "xg:n:y" with a secret named "xy", which the pattern
    does not match. *)
Theorem stores_typed {T} `{Store.Secret T} (k : keychainStore T)
    (ord : list (string * string) -> list (string * string)) :
  (forall {W} `{secretService W} IsValid,
     ensures (KeychainLinux.GetAllMetadata IsValid ord k) (keyed valid_id) /\
     forall pattern, ensures (KeychainLinux.Filter IsValid ord k pattern) (keyed (selected pattern))) /\
  (forall {W} `{SecurityFramework W} status_code gob_encode gob_decode ValidString ord_item,
     ensures (KeychainDarwin.GetAllMetadata status_code gob_encode gob_decode ValidString ord_item ord k)
       (keyed valid_id) /\
     forall pattern, ensures (KeychainDarwin.Filter status_code gob_encode gob_decode ValidString ord_item
                                ord k pattern) (keyed (selected pattern))) /\
  (forall {Recipient Identity} `{Age Recipient Identity} json_Unmarshal flock factory c,
     ensures (Posixage.GetAllMetadata json_Unmarshal flock factory) (keyed (T := T) valid_id) /\
     forall pattern, ensures (Posixage.Filter json_Unmarshal flock factory c pattern)
                       (keyed (T := T) (selected pattern))) /\
  (forall {W} `{WinCred W} utf16_decode fold,
     ensures (KeychainWindows.GetAllMetadata fold ord k) (keyed valid_id) /\
     forall pattern, ensures (KeychainWindows.Filter utf16_decode fold ord k pattern) (keyed valid_id)) /\
  (let secret := sample_secret Byte.x41 3 in
   let w := (run_Save "xg:n:y" secret {| sw_creds := ∅; sw_faults := [] |}).2 in
   (KeychainWindows.Filter latin_decode (fun _ _ => false) (fun l => l) sample_store "xg:n:y" w).1
     = Ok {["xy" := secret]} /\ pattern_Match "xg:n:y" "xy" = false).
Proof.
  split_and!.
  - intros. apply linux_typed.
  - intros. apply darwin_typed.
  - intros. apply posix_typed.
  - intros. apply windows_typed.
  - split; vm_compute; reflexivity.
Qed.
