(* ===== verification/Cli.v ===== *)
(** The example programs of the stores: store/keychain/cmd/main.go, a command
    line over the keychain, and the secret of store/examples/secret.go. The
    command line turns its arguments into identifiers with Go's [path.Join],
    which is modelled here. *)

From S2P Require Import Prelude GoErrors GoStrings Secrets Store Keychain SecretService.
From S2P Require Import KeychainLinux LinuxStore.

(** ** Go's package path *)

(** The components [path.Clean] keeps, [acc] being those kept so far, the last
    one first. *)
Fixpoint clean_components (rooted : bool) (l acc : list string) : list string :=
  match l with
  | [] => List.rev acc
  | c :: l' =>
      if String.eqb c "" || String.eqb c "." then clean_components rooted l' acc
      else if String.eqb c ".." then
        match acc with
        | top :: acc' =>
            if String.eqb top ".." then clean_components rooted l' (".." :: acc)
            else clean_components rooted l' acc'
        | [] => clean_components rooted l' (if rooted then [] else [".."])
        end
      else clean_components rooted l' (c :: acc)
  end.

Definition path_Clean (p : string) : string :=
  if String.eqb p "" then "."
  else
    let rooted := HasPrefix p "/" in
    let body := StringsJoin (clean_components rooted (Split p "/") []) "/" in
    if rooted then "/" +:+ body
    else if String.eqb body "" then "." else body.

(** Empty elements in front are skipped, the rest is joined and cleaned. *)
Fixpoint path_Join (elem : list string) : string :=
  match elem with
  | [] => ""
  | e :: elem' => if String.eqb e "" then path_Join elem' else path_Clean (StringsJoin elem "/")
  end.

(** ** cmd/main.go *)

Definition newline : string := String "010" "".

(** [newCommand]: what it returns for the outcome of [keychain.New]; the
    command it builds has the subcommands below. *)
Definition newCommand (kc : result goerror unit) : result goerror unit :=
  match kc with
  | Ok _ => Ok tt
  | Err err =>
      if errors_Is err ErrKeychainUnavailable
      then Err (Wrap "keychain backend unavailable, no fallback configured: %w" [err])
      else Err err
  end.

(** What [list] prints. *)
Inductive listing : Type :=
| NoSecretsFound
| Listed (entries : list (ID * gmap string string)).

(** The identifier of an argument. *)
Definition cli_id (arg : string) : result goerror ID := ParseID (path_Join ["keystore-cli"; arg]).

Section commands.
Context {St : Type} `{Store.Store St MockCredential}.
(** The order in which Go visits a map. *)
Context (ord : list (ID * MockCredential) -> list (ID * MockCredential)).

Definition list_cmd : comp St goerror listing :=
  try store_GetAllMetadata (fun r =>
    match r with
    | Err err => if errors_Is err ErrCredentialNotFound then ret NoSecretsFound else throw err
    | Ok secrets => ret (Listed (map (fun '(id, v) => (id, Metadata v)) (range_map ord secrets)))
    end).

Definition save_cmd (username password : string) : comp St goerror unit :=
  id <-! lift (cli_id username) ;;
  let creds := {| mc_Username := username; mc_Password := password; mc_Attributes := ∅ |} in
  store_Save id creds.

Definition get_cmd (arg : string) : comp St goerror string :=
  id <-! lift (cli_id arg) ;;
  secret <-! store_Get id ;;
  val <-! lift (Marshal secret) ;;
  ret ("Secret:" +:+ newline +:+ "ID:" +:+ id +:+ newline +:+ "Value:" +:+ string_of val +:+ newline).

Definition erase_cmd (arg : string) : comp St goerror unit :=
  id <-! lift (cli_id arg) ;;
  store_Delete id.
End commands.

(** The factory of the command line. *)
Definition cli_factory : Factory MockCredential := fun _ =>
  {| mc_Username := ""; mc_Password := ""; mc_Attributes := ∅ |}.

(** ** examples/secret.go *)

Record example_secret : Type := {
  AccessToken : string;
  RefreshToken : string;
  ex_Attributes : gmap string string
}.

Definition example_Marshal (s : example_secret) : result goerror bytes :=
  Ok (bytes_of (AccessToken s +:+ ":" +:+ RefreshToken s)).

Definition example_Unmarshal (s : example_secret) (data : bytes) : result goerror example_secret :=
  match Split (string_of data) ":" with
  | [a; r] => Ok {| AccessToken := a; RefreshToken := r; ex_Attributes := ex_Attributes s |}
  | _ => Err (ErrorNew "invalid secret format")
  end.

Definition example_SetMetadata (s : example_secret) (attributes : gmap string string)
  : result goerror example_secret :=
  Ok {| AccessToken := AccessToken s; RefreshToken := RefreshToken s; ex_Attributes := attributes |}.

#[export] Instance example_Secret : Store.Secret example_secret := {
  Marshal := example_Marshal;
  Unmarshal := example_Unmarshal;
  Metadata := ex_Attributes;
  SetMetadata := example_SetMetadata
}.

(** ** Lemmas: paths *)

(** A component that [path.Clean] keeps as it is. *)
Definition plain_component (c : string) : Prop := c <> "" /\ c <> "." /\ c <> "..".

Lemma clean_plain rooted c l acc : plain_component c ->
  clean_components rooted (c :: l) acc = clean_components rooted l (c :: acc).
Proof. intros (H1 & H2 & H3). simpl. by rewrite (proj2 (String.eqb_neq c ""%string)), (proj2 (String.eqb_neq c "."%string)), (proj2 (String.eqb_neq c ".."%string)). Qed.

Lemma clean_all_plain rooted l acc : Forall plain_component l ->
  clean_components rooted l acc = List.rev acc ++ l.
Proof.
  intros HF. revert acc. induction HF as [|c l Hc HF IH]; intros acc; [by rewrite app_nil_r|].
  rewrite clean_plain by done. rewrite IH. simpl. by rewrite <- app_assoc.
Qed.

(** Without ".." the components so far stay in front, and the rest is what is
    neither empty nor ".". *)
Lemma clean_no_dotdot rooted l acc : Forall (fun c => c <> "..") l ->
  clean_components rooted l acc =
  List.rev acc ++ List.filter (fun c => negb (String.eqb c "" || String.eqb c ".")) l.
Proof.
  intros HF. revert acc. induction HF as [|c l Hc HF IH]; intros acc; [by rewrite app_nil_r|].
  simpl. destruct (String.eqb c "" || String.eqb c "."); simpl; [apply IH|].
  rewrite (proj2 (String.eqb_neq c ".."%string)) by done. rewrite IH. simpl. by rewrite <- app_assoc.
Qed.

Lemma cli_path arg : path_Join ["keystore-cli"; arg] =
  let body := StringsJoin (clean_components false (Split arg "/") ["keystore-cli"]) "/" in
  if String.eqb body "" then "." else body.
Proof.
  change (path_Join ["keystore-cli"; arg]) with (path_Clean ("keystore-cli" +:+ String "/" arg)).
  unfold path_Clean. rewrite Split_append by reflexivity. by rewrite (clean_plain false "keystore-cli").
Qed.

(** An argument without "..": the identifier is below "keystore-cli". *)
Lemma cli_id_inside arg id : Forall (fun c => c <> "..") (Split arg "/") -> cli_id arg = Ok id ->
  id = "keystore-cli" \/ HasPrefix id "keystore-cli/" = true.
Proof.
  intros HF. unfold cli_id. rewrite cli_path, clean_no_dotdot by done. cbn [List.rev app].
  generalize (List.filter (fun c => negb (String.eqb c "" || String.eqb c ".")) (Split arg "/")).
  intros l. unfold ParseID. cbv zeta.
  assert (Hs : exists r, StringsJoin ("keystore-cli" :: l) "/" = "keystore-cli" +:+ r /\
    (r = "" \/ exists r', r = "/" +:+ r')).
  { destruct l as [|x l]; [by exists ""; auto|]. rewrite StringsJoin_cons. eexists. split; [done|]. eauto. }
  destruct Hs as (r & -> & Hr). change (String.eqb ("keystore-cli" +:+ r) "") with false. cbv iota.
  destruct (valid _); [done|]. intros [= <-]. destruct Hr as [->|[r' ->]]; [by left|right].
  exact (HasPrefix_append "keystore-cli/" r').
Qed.

(** With "..", every identifier is within reach. *)
Lemma cli_id_outside id : validIdentifier id = true -> Forall plain_component (Split id "/") ->
  cli_id ("../" +:+ id) = Ok id.
Proof.
  intros Hv HF. unfold cli_id. rewrite cli_path.
  change ("../" +:+ id) with (".." +:+ String "/" id). rewrite Split_append by reflexivity.
  change (clean_components false (".." :: Split id "/") ["keystore-cli"])
    with (clean_components false (Split id "/") []).
  rewrite clean_all_plain by done. cbn [List.rev app]. rewrite Join_Split. cbv zeta.
  unfold ParseID, valid. destruct (String.eqb_spec id "") as [->|Hne]; [done|]. by rewrite Hv.
Qed.

(** ** The commands over the Linux keychain *)

Section linux.
Context {W : Type} `{GrantedService W items plain extra}.
Context (IsValid : ObjectPath -> bool).
Context (ord : list (string * string) -> list (string * string)) `{!MapOrder ord}.
Context (k : keychainStore MockCredential).

Lemma cli_acceptable id username password : validIdentifier id = true ->
  byte_free ":" username = true -> byte_free ":" password = true ->
  acceptable (extra := extra) k id
    {| mc_Username := username; mc_Password := password; mc_Attributes := ∅ |}.
Proof.
  intros Hid Hu Hp. split; [done|]. split.
  { split; intros j.
    - intros v Hj. change ((∅ : gmap string string) !! j = Some v) in Hj. by rewrite lookup_empty in Hj.
    - intros _. change ((∅ : gmap string string) !! j = None). apply lookup_empty. }
  destruct (MockCredential_storable (factory k)
    {| mc_Username := username; mc_Password := password; mc_Attributes := ∅ |} Hu Hp)
    as (data & Hm & Hr). exists data. split; [exact Hm|apply Hr].
Qed.

Abbreviation linux := (linux_Store IsValid ord k) (only parsing).
Abbreviation kept := (kept (extra := extra) ord k) (only parsing).
Abbreviation content := (content ord k) (only parsing).

Lemma yields_get_cmd arg id w : foreign (extra := extra) -> kept (items w) -> cli_id arg = Ok id ->
  yields (get_cmd (H := linux) arg) w (fun r w' => items w' = items w /\
    r = match content (items w) !! id with
        | Some s => Ok ("Secret:" +:+ newline +:+ "ID:" +:+ id +:+ newline +:+ "Value:" +:+
                        (mc_Username s +:+ ":" +:+ mc_Password s) +:+ newline)
        | None => Err ErrCredentialNotFound
        end).
Proof.
  intros Hf Hk Hid. unfold get_cmd. rewrite Hid.
  pose proof (yields_Get IsValid ord k id w Hk Hf) as Hg. unfold yields in *.
  unfold bind, lift. cbn [store_Get linux_Store].
  destruct (Get IsValid ord k id w) as [r w']. cbn [fst snd] in Hg. destruct Hg as [Hi ->].
  destruct (content (items w) !! id) as [s|]; [|by cbn].
  cbn [Marshal MockCredential_Secret]. unfold MockCredential_Marshal, ret. cbn [fst snd].
  by rewrite string_of_bytes_of.
Qed.
End linux.

(** The example command line over the Linux keychain. An argument that has
    no ".." component names an identifier below "keystore-cli"; with ".." it
    reaches every identifier of the keychain, also those of other programs.
    Whatever identifier a username names, when neither the username nor the
    password contains ':' then [store] succeeds, [get] prints the username and
    the password that were stored, [delete] succeeds and [get] then reports
    that there is no such credential. *)
Theorem cli_session {W} `{GrantedService W items plain extra} IsValid ord `{!MapOrder ord}
    (k : keychainStore MockCredential) w :
  foreign (extra := extra) -> kept (extra := extra) ord k (items w) ->
  (forall arg id, cli_id arg = Ok id -> Forall (fun c => c <> "..") (Split arg "/") ->
     id = "keystore-cli" \/ HasPrefix id "keystore-cli/" = true) /\
  (forall id, validIdentifier id = true -> Forall plain_component (Split id "/") ->
     cli_id ("../" +:+ id) = Ok id) /\
  forall username password id, cli_id username = Ok id ->
    byte_free ":" username = true -> byte_free ":" password = true ->
    let store := linux_Store IsValid ord k in
    runs (save_cmd (H := store) username password) w (fun _ w1 =>
      yields (get_cmd (H := store) username) w1 (fun r w2 => items w2 = items w1 /\
        r = Ok ("Secret:" +:+ newline +:+ "ID:" +:+ id +:+ newline +:+ "Value:" +:+
                (username +:+ ":" +:+ password) +:+ newline)) /\
      runs (erase_cmd (H := store) username) w1 (fun _ w2 =>
        yields (get_cmd (H := store) username) w2 (fun r _ => r = Err ErrCredentialNotFound))).
Proof.
  intros Hf Hk. split; [|split].
  - intros arg id Hid HF. by eapply cli_id_inside.
  - apply cli_id_outside.
  - intros u p id Hid Hu Hp store.
    assert (Hv : validIdentifier id = true) by exact (ParseID_valid _ _ Hid).
    unfold save_cmd. rewrite Hid. apply runs_bind. eapply runs_lift; [done|].
    eapply runs_mono; [apply (runs_Save_content IsValid ord k); [exact Hk|by apply cli_acceptable]|].
    intros [] w1 [Hk1 Hc1]. split.
    + eapply yields_mono; [by apply yields_get_cmd|]. cbv beta. intros r w2 [Hi ->].
      rewrite Hc1, lookup_insert_eq. done.
    + unfold erase_cmd. rewrite Hid. apply runs_bind. eapply runs_lift; [done|].
      eapply runs_mono; [by apply (runs_Delete IsValid ord k)|]. intros [] w2 [Hk2 Hc2].
      eapply yields_mono; [by apply yields_get_cmd|]. cbv beta. intros r w3 [_ ->].
      by rewrite Hc2, lookup_delete_eq.
Qed.

Definition sample_cli : keychainStore MockCredential :=
  {| serviceGroup := "io.docker.Secrets"; serviceName := "docker-example-cli"; factory := cli_factory;
     useDataProtectionKeychain := false |}.

Definition sample_linux : Store.Store (gmap ObjectPath Item) MockCredential :=
  linux_Store (fun _ => true) (fun l => l) sample_cli.

Lemma cli_session_witness :
  runs (save_cmd (H := sample_linux) "alice" "s3cret") ∅ (fun _ w1 =>
    yields (get_cmd (H := sample_linux) "alice") w1 (fun r w2 => w2 = w1 /\
      r = Ok ("Secret:" +:+ newline +:+ "ID:keystore-cli/alice" +:+ newline +:+ "Value:alice:s3cret" +:+ newline)) /\
    runs (erase_cmd (H := sample_linux) "alice") w1 (fun _ w2 =>
      yields (get_cmd (H := sample_linux) "alice") w2 (fun r _ => r = Err ErrCredentialNotFound))).
Proof.
  destruct (cli_session (items := fun m => m) (extra := ∅) (fun _ => true) (fun l => l) sample_cli ∅
    foreign_empty (kept_empty (fun l => l) sample_cli)) as (_ & _ & Hs).
  apply (Hs "alice" "s3cret" "keystore-cli/alice"); reflexivity.
Defined.

(** A password with a ':' is stored and can never be read again. *)
Example cli_colon :
  let w1 := (save_cmd (H := sample_linux) "alice" "a:b" ∅).2 in
  (save_cmd (H := sample_linux) "alice" "a:b" ∅).1 = Ok tt /\
  (get_cmd (H := sample_linux) "alice" w1).1
    = Err (ErrorNew "failed to unmarshal data into mock credential type").
Proof. split; vm_compute; reflexivity. Qed.
