(* ===== verification/System.v ===== *)
(** The components together: what the commands of the pass plugin promise when
    they run over the store of a real platform. *)

From S2P Require Import Prelude GoErrors GoStrings Secrets Store Keychain SecretService.
From S2P Require Import KeychainLinux LinuxStore Api Resolver Client Realms Pass.

Section linux.
Context {W : Type} `{GrantedService W items plain extra}.
Context (IsValid : ObjectPath -> bool).
Context (ord : list (string * string) -> list (string * string)) `{!MapOrder ord}.
Context (k : keychainStore PassValue).

Lemma PassValue_acceptable id s : validIdentifier id = true ->
  plain_metadata (extra := extra) (Metadata s) -> acceptable (extra := extra) k id s.
Proof. intros Hid Hmd. split; [done|]. split; [done|]. exists (pv_value s). split; [done|]. by destruct s. Qed.

Lemma kept_valid m : kept (extra := extra) ord k m ->
  map_Forall (fun id _ => validIdentifier id = true) (content ord k m).
Proof.
  intros Hk id s Hs. apply (content_lookup (extra := extra) ord k _ _ _ Hk) in Hs as (p & it & _ & Hid & _).
  exact Hid.
Qed.

Lemma runs_SetCommand json opts stdin id value md w :
  kept (extra := extra) ord k (items w) -> validIdentifier id = true ->
  parseMetadataFlags (opt_metadata opts) = Ok md -> plain_metadata (extra := extra) md ->
  let v := {| pv_value := bytes_of value; pv_metadata := md |} in
  runs (SetCommand (H := linux_Store IsValid ord k) json true opts [id +:+ "=" +:+ value] stdin) w
    (fun _ w' => kept (extra := extra) ord k (items w') /\
       content ord k (items w') = <[id := v]> (content ord k (items w))).
Proof.
  intros Hk Hid Hmd Hp v. unfold SetCommand.
  assert (Harg : isNotImplicitReadFromStdinSyntax [id +:+ "=" +:+ value] = true).
  { unfold isNotImplicitReadFromStdinSyntax, ContainsByte. simpl.
    by rewrite (IndexByte_append id "=" value) by by apply valid_id_no_equals. }
  rewrite Harg. unfold parseArg. cbn [hd].
  rewrite Cut_key_value by by apply valid_id_no_equals. cbn [negb].
  apply runs_bind; eapply runs_lift; [reflexivity|].
  apply runs_bind; eapply runs_lift; [reflexivity|]. cbv beta. cbn [se_id].
  apply runs_bind; eapply runs_lift; [unfold ParseID, valid; by rewrite Hid|].
  apply runs_bind; eapply runs_lift; [exact Hmd|].
  apply runs_bind; eapply (runs_lift _ v).
  { unfold set_value, PassValue_Unmarshal, PassValue_SetMetadata. cbn [result_bind se_metadata se_val].
    rewrite (right_id_L ∅ (∪)). by destruct (decide (md = ∅)) as [->|]. }
  cbv beta. assert (Hok : acceptable (extra := extra) k id v) by by apply PassValue_acceptable.
  destruct (opt_force opts); simpl; by apply runs_Save_content.
Qed.
End linux.

(** [pass set] with arguments and options over the Linux keychain, and what a
    reference of [pass run] resolves to over it. *)
Definition linux_pass_set {W} `{secretService W} IsValid ord (k : keychainStore PassValue)
    json opts args stdin : comp W goerror unit :=
  SetCommand (H := linux_Store IsValid ord k) json true opts args stdin.

Definition linux_pass_reference {W} `{secretService W} IsValid ord (k : keychainStore PassValue)
    transport ord' key reference : comp W goerror string :=
  resolveRef (pass_client (H := linux_Store IsValid ord k) transport ord') key reference.

(** C8: On Linux, [pass set] and then [pass run] give the value back: over a
    Secret Service that grants its calls and a keyring whose items of this
    service are secrets it saved, [pass set id=value] succeeds, with --force or
    without, and then a reference [se://id] resolves, through the client, the
    connect transport, the handler, the plugin, the keychain store and the
    Secret Service client, to exactly [value], whatever else the keyring holds.
    The identifier is outside the engine's own realm and the metadata flags
    have no key the keychain keeps for itself. *)
Theorem linux_set_then_run {W} `{GrantedService W items plain extra} utf8 `{!Utf8 utf8}
    transport `{!Transport (St := W) utf8 transport} IsValid
    ord `{!MapOrder ord} ord' `{!MapOrder ord'} (k : keychainStore PassValue)
    json opts stdin key id value md w :
  foreign (extra := extra) -> kept (extra := extra) ord k (items w) ->
  validIdentifier id = true -> id_Match id (realm SecretsEngine) = false ->
  parseMetadataFlags (opt_metadata opts) = Ok md -> plain_metadata (extra := extra) md ->
  runs (linux_pass_set IsValid ord k json opts [id +:+ "=" +:+ value] stdin) w (fun _ w1 =>
    runs (linux_pass_reference IsValid ord k transport ord' key (sePrefix +:+ id)) w1
      (fun r _ => r = value)).
Proof.
  intros Hf Hk Hid Hrealm Hmd Hp.
  set (v := {| pv_value := bytes_of value; pv_metadata := md |}).
  destruct (runs_SetCommand IsValid ord k json opts stdin id value md w Hk Hid Hmd Hp)
    as ([] & w1 & Hset & Hk1 & Hc1).
  exists tt, w1. split; [done|].
  pose proof (yields_Filter IsValid ord k id w1 Hk1 Hf) as Hy. unfold yields in Hy.
  destruct (Filter IsValid ord k id w1) as [r w2] eqn:Hfil. simpl in Hy. destruct Hy as [_ Hr].
  rewrite decide_False in Hr.
  2: { intros He. apply (lookup_empty_Some (M := gmap ID) id v). rewrite <- He. unfold matching.
       apply map_lookup_filter_Some. split; [rewrite Hc1; apply lookup_insert_eq|].
       by apply (id_Match_exact id id). }
  subst r.
  pose proof (set_then_run (H := linux_Store IsValid ord k)
    (H0 := linux_laws IsValid ord k Hf) (wf := fun w => kept (extra := extra) ord k (items w))
    (ok := acceptable (extra := extra) k) (view := fun w => content ord k (items w))
    utf8 transport ord' json opts stdin key id value w w1 (matching id (content ord k (items w1))) w2 Hk Hid (kept_valid ord k _ Hk)) as Hrun.
  rewrite Hrealm in Hrun. exists value, w2. split; [|done]. apply Hrun; [|exact Hset|exact Hfil].
  intros md' Hmd'. assert (md' = md) as -> by congruence. by apply PassValue_acceptable.
Qed.

Lemma linux_set_then_run_witness :
  runs (linux_pass_set (fun _ => true) (fun l => l) sample_keychain sample_json
      {| opt_metadata := ["team=a"]; opt_force := true |} ["db/password=s3=cret"] (Ok []))
    sample_items
    (fun _ w1 => runs (linux_pass_reference (fun _ => true) (fun l => l) sample_keychain
       (plain_transport (string_forallb ascii_byte)) (fun l => l) "DB" "se://db/password") w1
       (fun r _ => r = "s3=cret")).
Proof.
  apply (linux_set_then_run (items := fun m => m) (extra := ∅) (string_forallb ascii_byte)
    (plain_transport (string_forallb ascii_byte)) (fun _ => true) (fun l => l) (fun l => l)
    sample_keychain sample_json {| opt_metadata := ["team=a"]; opt_force := true |} (Ok []) "DB"
    "db/password" "s3=cret" {["team" := "a"]} sample_items).
  - apply foreign_empty.
  - apply sample_kept.
  - reflexivity.
  - reflexivity.
  - reflexivity.
  - split; intros j.
    + intros v Hj. apply lookup_singleton_Some in Hj as [<- _]. reflexivity.
    + intros [v Hv]. by rewrite lookup_empty in Hv.
Defined.
