(* ===== verification/CredentialHelper.v ===== *)
(** The credential-helper plugin (plugins/credentialhelper/store.go): the
    rewriting of server URLs to identifiers, the resolver over a credential
    helper, and the choice of the helper from the CLI's configuration. *)

From S2P Require Import Prelude GoErrors GoStrings Secrets Resolver.

Definition envelopeSchemaVersion : string := "0.0.1".

(** ** Package net: SplitHostPort *)

(** [bytealg.LastIndexByteString]. *)
Fixpoint LastIndexByte (s : string) (c : ascii) : option nat :=
  match s with
  | EmptyString => None
  | String a s' =>
      match LastIndexByte s' c with
      | Some i => Some (S i)
      | None => if Ascii.eqb a c then Some 0 else None
      end
  end.

(** Whether [net.SplitHostPort] splits its argument; the parts are not used. *)
Definition SplitHostPort_ok (hostport : string) : bool :=
  match LastIndexByte hostport ":" with
  | None => false
  | Some i =>
      let brackets j k :=
        negb (ContainsByte (drop_bytes j hostport) "[") &&
        negb (ContainsByte (drop_bytes k hostport) "]") in
      if HasPrefix hostport "[" then
        match IndexByte hostport "]" with
        | None => false
        | Some end_ => if (end_ + 1 =? i)%nat then brackets 1 (end_ + 1) else false
        end
      else negb (ContainsByte (take_bytes i hostport) ":") && brackets 0 0
  end.

(** ** Keys *)

(** [strings.NewReplacer("https://", "", "http://", "").Replace]: at every
    position the first prefix of the two is dropped. The fuel is the length. *)
Fixpoint drop_schemes_fuel (fuel : nat) (s : string) : string :=
  match fuel with
  | O => s
  | S fuel' =>
      match s with
      | EmptyString => ""
      | String a s' =>
          if HasPrefix s "https://" then drop_schemes_fuel fuel' (drop_bytes 8 s)
          else if HasPrefix s "http://" then drop_schemes_fuel fuel' (drop_bytes 7 s)
          else String a (drop_schemes_fuel fuel' s')
      end
  end.

Definition drop_schemes (s : string) : string := drop_schemes_fuel (String.length s) s.

Definition DefaultKeyRewriter (serverURL : string) : string :=
  let o := TrimSuffix (drop_schemes serverURL) "/" in
  let parts := Split o "/" in
  if SplitHostPort_ok (hd "" parts) then ReplaceAll o ":" "-port-" else o.

(** ** The resolver *)

Record Credentials : Type := {
  cred_ServerURL : string;
  cred_Username : string;
  cred_Secret : string
}.

(** A credential helper, as the vendored client runs it: its [list] and [get]. *)
Class Helper (St : Type) : Type := {
  client_List : comp St goerror (gmap string string);
  client_Get : string -> comp St goerror Credentials
}.

Definition KeyRewriter : Type := string -> string -> result goerror ID.

Section store.
Context {St : Type} `{Helper St}.
Context (rewriter : option KeyRewriter) (ord : list (string * string) -> list (string * string)).

(** The key of a credential. *)
Definition rewrite_key (serverURL username : string) : result goerror ID :=
  match rewriter with
  | Some rewriter => rewriter serverURL username
  | None => ParseID (DefaultKeyRewriter serverURL)
  end.

Definition cred_envelope (resolvedAt : time) (p : ID) (cred : Credentials) : Envelope :=
  {| env_ID := p;
     env_Value := list_byte_of_string (cred_Secret cred);
     env_Metadata := <["ServerURL" := cred_ServerURL cred]> {[ "Username" := cred_Username cred ]};
     env_Provider := "docker-credential-helper";
     env_Version := envelopeSchemaVersion;
     env_CreatedAt := time_zero;
     env_ResolvedAt := resolvedAt;
     env_ExpiresAt := time_zero |}.

(** The loop over the listed credentials. *)
Fixpoint get_matching (resolvedAt : time) (pattern : Pattern) (credentials : list (string * string))
  : comp St goerror (list Envelope) :=
  match credentials with
  | [] => ret []
  | (serverURL, username) :: credentials' =>
      match rewrite_key serverURL username with
      | Err _ => get_matching resolvedAt pattern credentials'
      | Ok p =>
          if pattern_Match pattern p then
            try (client_Get serverURL) (fun r =>
              match r with
              | Err _ => get_matching resolvedAt pattern credentials'
              | Ok cred =>
                  result <-! get_matching resolvedAt pattern credentials' ;;
                  ret (cred_envelope resolvedAt p cred :: result)
              end)
          else get_matching resolvedAt pattern credentials'
      end
  end.

Definition credentialHelperStore_GetSecrets (now : time) : Resolver St := fun pattern =>
  credentials <-! client_List ;;
  let resolvedAt := now in
  result <-! get_matching resolvedAt pattern (range_map ord credentials) ;;
  if (length result =? 0)%nat then throw ErrNotFound else ret result.
End store.

(** ** The choice of the helper *)

Definition envOverrideConfigDir : string := "DOCKER_CONFIG".

(** What the code reads of the host: the environment, the home directory ("" when
    it is not known), the home of the current user's entry, and the files:
    a regular file with its bytes, or a directory. *)
Inductive File : Type :=
| Regular (content : bytes)
| Directory.

Record Host : Type := {
  Getenv : string -> string;
  UserHomeDir : string;
  windows : bool;
  user_Current : option string;
  files : gmap string File
}.

Section new.
Context (path_Join : list string -> string).
(** [v["credsStore"].(string)] of the decoded JSON object; the outer option is
    the decoding, the inner one the assertion. *)
Context (json_credsStore : bytes -> option (option string)).

Definition getConfigPath (h : Host) : string :=
  let configDir := Getenv h envOverrideConfigDir in
  if negb (String.eqb configDir "") then configDir
  else
    let home := UserHomeDir h in
    let home :=
      if String.eqb home "" && negb (windows h)
      then match user_Current h with Some u => u | None => home end
      else home in
    path_Join [home; ".docker"; "config.json"].

(** The program of the helper [New] settles on: the one an option gave, or
    [docker-credential-] and the suffix of the configuration. *)
Inductive ProgramFunc : Type :=
| CustomProgram (n : nat)
| ShellProgram (name : string).

Record chs : Type := { chs_ProgramFunc : option ProgramFunc; chs_rewriter : option KeyRewriter }.

Definition Options : Type := chs -> chs.

Definition WithKeyRewriter (rewriter : option KeyRewriter) : Options := fun c =>
  {| chs_ProgramFunc := chs_ProgramFunc c; chs_rewriter := rewriter |}.

Definition WithShellProgramFunc (f : option ProgramFunc) : Options := fun c =>
  {| chs_ProgramFunc := f; chs_rewriter := chs_rewriter c |}.

Definition New (h : Host) (opts : list Options) : result goerror chs :=
  let c := foldl (fun c opt => opt c) {| chs_ProgramFunc := None; chs_rewriter := None |} opts in
  match chs_ProgramFunc c with
  | Some _ => Ok c
  | None =>
      let configPath := getConfigPath h in
      match files h !! configPath with
      | None => Err (ErrorNew "open: no such file or directory")
      | Some Directory => Err (ErrorNew "read: is a directory")
      | Some (Regular content) =>
          let config := take (Z.to_nat (1024 * 1024)) content in
          match json_credsStore config with
          | None => Err (ErrorNew "invalid JSON")
          | Some None => Err (ErrorNew "credential-helper not specified in '%s'")
          | Some (Some suffix) =>
              if String.eqb suffix "" then Err (ErrorNew "credential-helper not specified in '%s'")
              else Ok {| chs_ProgramFunc := Some (ShellProgram ("docker-credential-" +:+ suffix));
                         chs_rewriter := chs_rewriter c |}
          end
      end
  end.

(** The CLI's own reading of DOCKER_CONFIG, a directory that holds config.json,
    never works here: whatever the directory holds, [New] fails. *)
Lemma New_config_directory h dir : Getenv h envOverrideConfigDir = dir -> dir <> "" ->
  files h !! dir = Some Directory -> is_ok (New h []) = false.
Proof.
  intros He Hd Hf. unfold New. cbn [foldl chs_ProgramFunc].
  assert (Hp : getConfigPath h = dir).
  { unfold getConfigPath. rewrite He. by apply String.eqb_neq in Hd as ->. }
  by rewrite Hp, Hf.
Qed.
End new.

Example DefaultKeyRewriter_samples :
  map DefaultKeyRewriter
    ["http://127.0.0.1/something"; "http://192.162.233.123:8313/key/another";
     "https://docker.com/credential/key"; "https://example.com/credential/key/";
     "https://index.docker.io/v1/"; "http://index.docker.io/v1"; "registry:5000/a:b"] =
    ["127.0.0.1/something"; "192.162.233.123-port-8313/key/another"; "docker.com/credential/key";
     "example.com/credential/key"; "index.docker.io/v1"; "index.docker.io/v1";
     "registry-port-5000/a-port-b"].
Proof. by vm_compute. Qed.

(** ** The resolver over a helper that only reads *)

Section read_only.
Context {St : Type} `{Helper St} (get : string -> result goerror Credentials).
Context (Hget : forall url s, client_Get url s = (get url, s)).

(** What one listed credential contributes. *)
Definition contribution (rewriter : option KeyRewriter) (now : time) (pattern : Pattern)
    (kv : string * string) : option Envelope :=
  match rewrite_key rewriter kv.1 kv.2, get kv.1 with
  | Ok p, Ok cred => if pattern_Match pattern p then Some (cred_envelope now p cred) else None
  | _, _ => None
  end.

Lemma get_matching_spec rewriter now pattern l s :
  get_matching rewriter now pattern l s = (Ok (omap (contribution rewriter now pattern) l), s).
Proof.
  induction l as [|[url user] l IH]; [done|]. cbn [get_matching].
  change (omap ?f (?x :: l)) with (match f x with Some y => y :: omap f l | None => omap f l end).
  unfold contribution at 1. cbn [fst snd].
  destruct (rewrite_key rewriter url user) as [p|]; [|done].
  destruct (pattern_Match pattern p).
  - unfold try, bind. rewrite Hget. destruct (get url); [|done]. by rewrite IH.
  - rewrite IH. by destruct (get url).
Qed.
End read_only.

(** C37: The plugin returns the credentials whose key the pattern matches: over a
    helper whose [get] only reads, a successful answer has an envelope for
    exactly the listed credentials whose rewritten key is accepted, matches the
    pattern and can be fetched, with the secret as its value; there is at least
    one; otherwise the answer is [ErrNotFound], and a failed listing is passed
    on. With the default rewriter every identifier returned is valid. *)
Theorem credentialHelper_GetSecrets {St} `{Helper St} (get : string -> result goerror Credentials)
    rewriter ord `{!MapOrder ord} now pattern s r s1 :
  (forall url s', client_Get url s' = (get url, s')) ->
  client_List s = (r, s1) ->
  match r with
  | Err err => credentialHelperStore_GetSecrets rewriter ord now pattern s = (Err err, s1)
  | Ok creds =>
      match credentialHelperStore_GetSecrets rewriter ord now pattern s with
      | (Ok out, s') =>
          s' = s1 /\ out <> [] /\
          (forall e, e ∈ out <-> exists url user, creds !! url = Some user /\
             contribution get rewriter now pattern (url, user) = Some e) /\
          (rewriter = None -> forall e, e ∈ out ->
             validIdentifier (env_ID e) = true /\ pattern_Match pattern (env_ID e) = true)
      | (Err err, s') =>
          s' = s1 /\ err = ErrNotFound /\
          forall url user, creds !! url = Some user ->
            contribution get rewriter now pattern (url, user) = None
      end
  end.
Proof.
  intros Hget Hlist. unfold credentialHelperStore_GetSecrets, bind. rewrite Hlist.
  destruct r as [creds|]; [|done]. rewrite (get_matching_spec get Hget).
  set (out := omap _ _).
  assert (Hin : forall e, e ∈ out <-> exists url user, creds !! url = Some user /\
    contribution get rewriter now pattern (url, user) = Some e).
  { intros e. subst out. rewrite list_elem_of_omap. split.
    - intros ([url user] & Hin & He). apply (elem_of_range_map ord) in Hin. eauto.
    - intros (url & user & Hin & He). exists (url, user). split; [|done].
      by apply (elem_of_range_map ord). }
  clearbody out. destruct (length out =? 0)%nat eqn:Hl.
  - apply Nat.eqb_eq, length_zero_iff_nil in Hl as ->. unfold throw. split_and!; [done..|].
    intros url user Hu. destruct (contribution _ _ _ _ _) as [e|] eqn:He; [|done].
    exfalso. apply (not_elem_of_nil e), Hin. eauto.
  - unfold ret. split_and!; [done|by intros ->|done|].
    intros -> e He. apply Hin in He as (url & user & _ & He). unfold contribution in He.
    cbn [fst snd rewrite_key] in He. unfold ParseID, valid in He.
    destruct (validIdentifier (DefaultKeyRewriter url)) eqn:Hv; cbn [negb] in He; [|discriminate].
    destruct (get url); [|discriminate].
    destruct (pattern_Match pattern (DefaultKeyRewriter url)) eqn:Hm; [|discriminate].
    injection He as <-. done.
Qed.

Definition sample_credentials : gmap string Credentials :=
  let cred url := {| cred_ServerURL := url; cred_Username := "bob"; cred_Secret := "pw" |} in
  <["https://index.docker.io/v1/" := cred "https://index.docker.io/v1/"]>
    {[ "http://index.docker.io/v1" := cred "http://index.docker.io/v1" ]}.

(** A helper that answers from a fixed map, whatever its state. *)
Definition sample_get (url : string) : result goerror Credentials :=
  match sample_credentials !! url with Some c => Ok c | None => Err (ErrorNew "credentials not found") end.

Definition sample_helper : Helper unit :=
  {| client_List := fun s => (Ok (cred_Username <$> sample_credentials), s);
     client_Get url := fun s => (sample_get url, s) |}.

(** The keys are not injective: the http and https URLs of one server are two
    envelopes with one identifier. *)
Lemma credentialHelper_GetSecrets_witness :
  match credentialHelperStore_GetSecrets (H := sample_helper) None id 0%Z "index.docker.io/v1" tt with
  | (Ok out, s') => out <> [] /\ map env_ID out = ["index.docker.io/v1"; "index.docker.io/v1"]
  | _ => False
  end.
Proof.
  pose proof (credentialHelper_GetSecrets (H := sample_helper) sample_get None id 0%Z
    "index.docker.io/v1" tt (Ok (cred_Username <$> sample_credentials)) tt
    (fun _ _ => eq_refl) eq_refl) as Hspec.
  destruct (credentialHelperStore_GetSecrets _ _ _ _ _) as [[out|err] s'] eqn:Hrun.
  - split; [exact (proj1 (proj2 Hspec))|]. vm_compute in Hrun. by injection Hrun as <- _.
  - vm_compute in Hrun. discriminate Hrun.
Defined.
