(* ===== verification/Ipc.v ===== *)
(** Package x/ipc: the launch configuration an engine hands to a plugin (env.go,
    env_unix.go, env_windows.go), the handshake that turns an HTTP connection
    into a stream (hijack.go, client side), and the end of a connection
    (ipc.go). *)

From S2P Require Import Prelude GoErrors GoStrings Api.

(** ** env_unix.go, env_windows.go *)

Record CustomUnix : Type := { Fd : Z }.

Definition CustomUnix_isValid (c : CustomUnix) : option goerror :=
  if (Fd c <=? 2)%Z then Some (ErrorNew "invalid file descriptor for plugin connection") else None.

(** [FdWrapper.ToCustomCfg]: the first descriptor after the standard ones. *)
Definition ToCustomCfg_unix : CustomUnix := {| Fd := 3 |}.

Record CustomWindows : Type := { R : Z; W : Z }.

Definition CustomWindows_isValid (c : CustomWindows) : option goerror :=
  if (R c =? 0)%Z || (W c =? 0)%Z then Some (ErrorNew "invalid pipe handlers") else None.

Definition ToCustomCfg_windows (r w : Z) : CustomWindows := {| R := r; W := w |}.

(** [os.NewFile] gives nil for a negative descriptor; [FileConn] is
    [net.FileConn] on the rest. *)
Definition FromCustomCfg {Conn} (FileConn : Z -> result goerror Conn) (cfg : CustomUnix)
  : result goerror Conn :=
  if (Fd cfg <? 0)%Z then Err (ErrorNew "failed to open FD %d")
  else match FileConn (Fd cfg) with
       | Err err => Err (Wrap "failed to create net.Conn for fd #%d: %w" [err])
       | Ok conn => Ok conn
       end.

(** ** env.go *)

(** The platform's [Custom] is embedded. *)
Record PluginConfigFromEngine (Custom : Type) : Type := {
  Name : string;
  RegistrationTimeout : Z;
  custom : Custom
}.
Arguments Build_PluginConfigFromEngine {Custom}.
Arguments Name {Custom}.
Arguments RegistrationTimeout {Custom}.
Arguments custom {Custom}.

Section env.
Context {Custom : Type} (isValid : Custom -> option goerror).

(** [encoding/json] on the configuration. *)
Context (json_Marshal : PluginConfigFromEngine Custom -> result goerror string).
Context (json_Unmarshal : string -> result goerror (PluginConfigFromEngine Custom)).

Definition ToString (c : PluginConfigFromEngine Custom) : result goerror string := json_Marshal c.

Definition NewPluginConfigFromEngineEnv (input : string)
  : result goerror (PluginConfigFromEngine Custom) :=
  match json_Unmarshal input with
  | Err err => Err (Wrap "failed to decode plugin config from runtime %q: %w" [err])
  | Ok result =>
      if String.eqb (Name result) "" then Err (ErrorNew "plugin name is required")
      else if (RegistrationTimeout result =? 0)%Z
      then Err (ErrorNew "plugin registration timeout is required")
      else match isValid (custom result) with
           | Some err => Err err
           | None => Ok result
           end
  end.

(** The configurations a plugin accepts. *)
Definition launchable (c : PluginConfigFromEngine Custom) : Prop :=
  Name c <> "" /\ RegistrationTimeout c <> 0%Z /\ isValid (custom c) = None.

Lemma NewPluginConfigFromEngineEnv_Ok input c :
  NewPluginConfigFromEngineEnv input = Ok c <-> json_Unmarshal input = Ok c /\ launchable c.
Proof.
  unfold NewPluginConfigFromEngineEnv, launchable. destruct (json_Unmarshal input) as [r|e].
  - destruct (String.eqb_spec (Name r) ""), (Z.eqb_spec (RegistrationTimeout r) 0),
      (isValid (custom r)) eqn:Hv; split; intros Hx; simplify_eq;
      destruct Hx as ([= <-] & ? & ? & ?) || idtac; try done; congruence.
  - split; [discriminate|by intros [? _]].
Qed.

(** What an engine writes into the environment, a plugin reads back. *)
Lemma config_round_trip c s :
  (forall c s, json_Marshal c = Ok s -> json_Unmarshal s = Ok c) ->
  launchable c -> ToString c = Ok s -> NewPluginConfigFromEngineEnv s = Ok c.
Proof. intros Hjson Hc Hs. apply NewPluginConfigFromEngineEnv_Ok. split; [by apply Hjson|done]. Qed.
End env.

(** ** hijack.go *)

Definition StatusSwitchingProtocols : Z := 101.

(** What happens on the connection during the handshake: an error of the write
    of the request, of the deadline, or of the reading of the response; or the
    status of the response. *)
Record Handshake : Type := {
  write_err : option goerror;
  deadline_err : option goerror;
  response : result goerror Z
}.

Definition Hijackify (h : Handshake) : result goerror unit :=
  match write_err h with
  | Some _ => Err (ErrorNew "making hijack request: %s")
  | None =>
      match deadline_err h with
      | Some err => Err (Wrap "clearing deadline: %w" [err])
      | None =>
          match response h with
          | Err err => Err err
          | Ok status =>
              if negb (status =? StatusSwitchingProtocols)%Z
              then Err (ErrorNew "unexpected status %d: %s")
              else Ok tt
          end
      end
  end.

(** ** ipc.go *)

Definition EOF : goerror := Sentinel "EOF".
Definition ErrServerClosed : goerror := Sentinel "http: Server closed".
Definition EPIPE : goerror := Sentinel "broken pipe".

Definition filterEOF (err : option goerror) : option goerror :=
  match err with
  | Some e => if errors_Is e EOF then None else err
  | None => None
  end.

Definition filterBrokenPipe (err : option goerror) : option goerror :=
  match err with
  | Some e => if errors_Is e EPIPE then None else err
  | None => None
  end.

(** The goroutine of [newIpcServer]: [err] is the outcome of [Serve],
    [afterClose] the callback; the value is the server's [err]. *)
Definition ipcServer_err (serve : option goerror) (afterClose : option goerror -> option goerror)
  : option goerror :=
  let err := match serve with
             | Some e => if errors_Is e ErrServerClosed then None else serve
             | None => None
             end in
  errors_Join [filterBrokenPipe (filterEOF err); afterClose err].

(** [ipcImpl.teardown], once: the server is closed, its goroutine awaited. *)
Definition teardown (server_Close : option goerror) (server_err : option goerror) : option goerror :=
  errors_Join [server_Close; server_err].

(** A peer that goes away, or a server closed from this side, is no error. *)
Lemma teardown_clean serve afterClose :
  match serve with
  | None => True
  | Some e => errors_Is e ErrServerClosed = true \/ errors_Is e EOF = true \/ errors_Is e EPIPE = true
  end ->
  (forall err, afterClose err = None) ->
  teardown None (ipcServer_err serve afterClose) = None.
Proof.
  intros Hs Ha. unfold teardown, ipcServer_err, filterBrokenPipe, filterEOF.
  apply errors_Join_None. constructor; [done|]. constructor; [|constructor].
  apply errors_Join_None. rewrite Ha. constructor; [|by constructor].
  destruct serve as [e|]; [|done].
  destruct (errors_Is e ErrServerClosed) eqn:H1; [done|].
  destruct (errors_Is e EOF) eqn:H2; [done|].
  destruct (errors_Is e EPIPE) eqn:H3; [done|]. by destruct Hs as [|[|]].
Qed.
