(* ===== verification/IpcConn.v ===== *)
(** Package x/ipc, the connections (env_unix.go, env_windows.go, socket_linux.go,
    socket_unix.go): the pair of ends an engine shares with a plugin and the
    descriptors it holds; the server side of the handshake (hijack.go) and the
    wait for the streams of a session to end (ipc.go). *)

From S2P Require Import Prelude GoErrors GoStrings Ipc.

(** ** Descriptors and handles *)

(** The descriptors or handles of the process: [os_open] maps each to whether
    a child inherits it. [os_faults] tells of each further system call whether
    it fails; without an entry it does not. *)
Record os_state : Type := {
  os_open : gmap Z bool;
  os_next : Z;
  os_faults : list bool
}.

Definition syscall_error : goerror := Sentinel "errno".

(** A system call that does [f], or fails without effect. *)
Definition system_call {A} (f : os_state -> A * os_state) : comp os_state goerror A := fun w =>
  let w' := {| os_open := os_open w; os_next := os_next w; os_faults := tl (os_faults w) |} in
  match os_faults w with
  | true :: _ => (Err syscall_error, w')
  | _ => let '(a, w'') := f w' in (Ok a, w'')
  end.

Definition set_open (o : gmap Z bool) (w : os_state) : os_state :=
  {| os_open := o; os_next := os_next w; os_faults := os_faults w |}.

(** Two new descriptors, both inherited by children or neither. *)
Definition new_pair (inherit : bool) (w : os_state) : (Z * Z) * os_state :=
  let a := os_next w in let b := (a + 1)%Z in
  ((a, b), {| os_open := <[b := inherit]> (<[a := inherit]> (os_open w)); os_next := (b + 1)%Z;
              os_faults := os_faults w |}).

Definition close_fd (fd : Z) : comp os_state goerror unit :=
  system_call (fun w => (tt, set_open (delete fd (os_open w)) w)).

(** A call whose error is dropped. *)
Definition ignore {A} (m : comp os_state goerror A) : comp os_state goerror unit := try m (fun _ => ret tt).

(** ** socket_linux.go, socket_unix.go *)

(** [unix.Socketpair] with SOCK_CLOEXEC. *)
Definition newSocketFD_linux : comp os_state goerror (Z * Z) := system_call (new_pair false).

Definition CloseOnExec (fd : Z) : comp os_state goerror unit := fun w =>
  (Ok tt, set_open (alter (fun _ => false) fd (os_open w)) w).

(** [unix.Socketpair] and then [CloseOnExec], under the fork lock. *)
Definition newSocketFD_unix : comp os_state goerror (Z * Z) :=
  fds <-! system_call (new_pair true) ;;
  _ <-! CloseOnExec fds.1 ;;
  _ <-! CloseOnExec fds.2 ;;
  ret fds.

(** ** env_unix.go *)

(** [net.FileConn] duplicates the descriptor. *)
Definition net_FileConn (fd : Z) : comp os_state goerror Z :=
  system_call (fun w =>
    (os_next w, {| os_open := <[os_next w := false]> (os_open w); os_next := (os_next w + 1)%Z;
                   os_faults := os_faults w |})).

(** The connection, the peer, which is also the child's extra file. *)
Definition NewConnectionPair_unix (newSocketFD : comp os_state goerror (Z * Z))
  : comp os_state goerror (Z * Z) :=
  fds <-! newSocketFD ;;
  let local := fds.1 in
  let peer := fds.2 in
  deferring
    (try (net_FileConn local) (fun r =>
      match r with
      | Err err => _ <-! ignore (close_fd peer) ;; throw (Wrap "failed to create net.Conn for %s: %w" [err])
      | Ok localConn => ret (localConn, peer)
      end)) (fun _ => ignore (close_fd local)).

(** ** env_windows.go *)

Definition CreatePipe : comp os_state goerror (Z * Z) := system_call (new_pair true).

(** [SetHandleInformation] with HANDLE_FLAG_INHERIT and 0. *)
Definition SetHandleInformation (h : Z) : comp os_state goerror unit :=
  system_call (fun w => (tt, set_open (alter (fun _ => false) h (os_open w)) w)).

Record pipe_pair : Type := {
  conn_R : Z;   (** the end the parent reads *)
  conn_W : Z;   (** the end the parent writes *)
  peer_r : Z;   (** the end the child reads *)
  peer_w : Z    (** the end the child writes *)
}.

Definition closeAll (p2cW p2cR c2pW c2pR : Z) : comp os_state goerror (list (option goerror)) :=
  let close h : comp os_state goerror (option goerror) :=
    try (close_fd h) (fun r => ret (match r with Ok _ => None | Err e => Some e end)) in
  e1 <-! close p2cW ;; e2 <-! close p2cR ;; e3 <-! close c2pW ;; e4 <-! close c2pR ;;
  ret [e1; e2; e3; e4].

Definition NewConnectionPair_windows : comp os_state goerror pipe_pair :=
  p2c <-! CreatePipe ;;
  c2p <-! CreatePipe ;;
  let p2cR := p2c.1 in let p2cW := p2c.2 in
  let c2pR := c2p.1 in let c2pW := c2p.2 in
  let disable h (next : comp os_state goerror pipe_pair) : comp os_state goerror pipe_pair :=
    try (SetHandleInformation h) (fun r =>
      match r with
      | Ok _ => next
      | Err err => errs <-! closeAll p2cW p2cR c2pW c2pR ;; throw (Join (err :: omap id errs))
      end) in
  disable p2cW (disable c2pR
    (ret {| conn_R := c2pR; conn_W := p2cW; peer_r := p2cR; peer_w := c2pW |})).

(** ** hijack.go, the server *)

(** What [ServeHTTP] meets: whether the writer can be hijacked, the errors of
    the hijack, of the response and of its flush. *)
Record serve_case : Type := {
  sc_hijacker : bool;
  sc_hijack : option goerror;
  sc_write : option goerror;
  sc_flush : option goerror
}.

Inductive serve_event : Type :=
| HTTPError (code : Z)
| Hijacked
| WriteResponse (status : Z)
| FlushResponse
| Callback
| CloseConn
| ReturnHandler.

(** The goroutine of [ServeHTTP]. *)
Definition serve_goroutine (c : serve_case) : list serve_event :=
  WriteResponse StatusSwitchingProtocols ::
  match sc_write c with
  | Some _ => []
  | None => FlushResponse :: match sc_flush c with Some _ => [] | None => [Callback] end
  end.

(** [ServeHTTP]: [k] steps of the goroutine happen before the request's context
    ends and the handler returns, the others after it; with [None] the handler
    waits for the goroutine. *)
Definition ServeHTTP (c : serve_case) (cancelled : option nat) : list serve_event :=
  if negb (sc_hijacker c) then [HTTPError 500; ReturnHandler]
  else
    match sc_hijack c with
    | Some _ => [ReturnHandler]
    | None =>
        let steps := serve_goroutine c in
        let k := default (length steps) cancelled in
        Hijacked :: take k steps ++ [CloseConn; ReturnHandler] ++ drop k steps
    end.

(** ** ipc.go: the wait for the streams *)

(** Milliseconds. *)
Definition defaultShutdownTimeout : Z := 2000.
Definition disconnect_poll : Z := 50.

(** The loop of [waitForClientToDisconnect] with the timeout [t]: [streams n]
    is [NumStreams] after the [n]-th tick, at [elapsed] milliseconds; when a
    tick and the timeout are due at once, [tick_first] decides. The result
    tells whether the streams ended in time, with the number of ticks. *)
Fixpoint wait_loop (streams : nat -> Z) (tick_first : nat -> bool) (t : Z) (fuel n : nat) (elapsed : Z)
  : option (bool * nat) :=
  match fuel with
  | O => None
  | Datatypes.S fuel' =>
      let elapsed := (elapsed + disconnect_poll)%Z in
      if (t <? elapsed)%Z || (t =? elapsed)%Z && negb (tick_first n) then Some (false, n)
      else if (streams n <=? 0)%Z then Some (true, Datatypes.S n)
      else wait_loop streams tick_first t fuel' (Datatypes.S n) elapsed
  end.

Definition waitForClientToDisconnect (streams : nat -> Z) (tick_first : nat -> bool) (t : Z)
  : option (bool * nat) :=
  wait_loop streams tick_first t (Z.to_nat (t / disconnect_poll) + 1) 0 0.

(** ** Lemmas *)

(** Run the system calls of a connection pair. *)
Ltac run_calls :=
  unfold NewConnectionPair_unix, NewConnectionPair_windows, newSocketFD_linux, newSocketFD_unix,
    CreatePipe, SetHandleInformation, closeAll, net_FileConn, close_fd, CloseOnExec, ignore, bind,
    deferring, try, system_call, new_pair, set_open, ret, throw;
  cbn [os_open os_next os_faults tl fst snd replicate app]; reflexivity.

(** Descriptors are numbered from [os_next] on. *)
Definition numbered (w : os_state) : Prop := forall h, (os_next w <= h)%Z -> os_open w !! h = None.

(** Only the [n]-th of the further system calls fails. *)
Definition fails_at (n : nat) (w : os_state) : Prop := os_faults w = replicate n false ++ [true].

Lemma alter_insert_eq (m : gmap Z bool) h b : alter (fun _ => false) h (<[h := b]> m) = <[h := false]> m.
Proof.
  apply map_eq. intros j. destruct (decide (j = h)) as [->|Hne].
  - by rewrite lookup_alter_eq, !lookup_insert_eq.
  - by rewrite lookup_alter_ne, !lookup_insert_ne.
Qed.

Lemma alter_insert_ne (m : gmap Z bool) h k b : h <> k ->
  alter (fun _ => false) h (<[k := b]> m) = <[k := b]> (alter (fun _ => false) h m).
Proof.
  intros Hne. apply map_eq. intros j. destruct (decide (j = h)) as [->|Hj].
  - by rewrite lookup_alter_eq, !lookup_insert_ne, lookup_alter_eq.
  - rewrite lookup_alter_ne by done. destruct (decide (j = k)) as [->|Hk].
    + by rewrite !lookup_insert_eq.
    + by rewrite !lookup_insert_ne, lookup_alter_ne.
Qed.

Lemma numbered_fresh w : numbered w -> os_open w !! os_next w = None /\
  os_open w !! (os_next w + 1)%Z = None /\ os_open w !! (os_next w + 1 + 1)%Z = None /\
  os_open w !! (os_next w + 1 + 1 + 1)%Z = None.
Proof. intros Hn. split_and!; apply Hn; lia. Qed.

Lemma closed_pairs (m : gmap Z bool) a b c d x y z t :
  m !! a = None -> m !! b = None -> m !! c = None -> m !! d = None ->
  delete c (delete d (delete a (delete b (<[d := t]> (<[c := z]> (<[b := y]> (<[a := x]> m))))))) = m.
Proof.
  intros Ha Hb Hc Hd. apply map_eq. intros j. rewrite !lookup_delete, !lookup_insert.
  repeat case_decide; subst; congruence.
Qed.

Lemma closed_pairs_unix (m : gmap Z bool) a b x y : m !! a = None -> m !! b = None ->
  delete a (delete b (<[b := y]> (<[a := x]> m))) = m.
Proof.
  intros Ha Hb. apply map_eq. intros j. rewrite !lookup_delete, !lookup_insert.
  repeat case_decide; subst; congruence.
Qed.

Lemma kept_pairs_unix (m : gmap Z bool) a b c x y z : m !! a = None -> a <> b -> a <> c ->
  delete a (<[c := z]> (<[b := y]> (<[a := x]> m))) = <[c := z]> (<[b := y]> m).
Proof.
  intros Ha Hab Hac. apply map_eq. intros j. rewrite !lookup_delete, !lookup_insert.
  repeat case_decide; subst; congruence.
Qed.

Lemma wait_loop_spec streams tick_first t fuel n elapsed :
  elapsed = (disconnect_poll * Z.of_nat n)%Z -> (t / disconnect_poll < Z.of_nat fuel + Z.of_nat n)%Z ->
  (0 < fuel)%nat ->
  exists b k, wait_loop streams tick_first t fuel n elapsed = Some (b, k) /\
    (n <= k)%nat /\ (Z.of_nat k <= Z.max (Z.of_nat n) (t / disconnect_poll))%Z /\
    (forall i, (n <= i < (if b then k - 1 else k))%nat -> (0 < streams i)%Z) /\
    (b = true -> (n < k)%nat /\ (streams (k - 1)%nat <= 0)%Z).
Proof.
  revert n elapsed. induction fuel as [|fuel IH]; intros n elapsed He Hf H0; [lia|]. cbn [wait_loop].
  set (e := (elapsed + disconnect_poll)%Z). assert (Hen : e = (disconnect_poll * (Z.of_nat n + 1))%Z) by lia.
  assert (Hdiv : (e <= t -> Z.of_nat n + 1 <= t / disconnect_poll)%Z).
  { intros Hle. apply Z.div_le_lower_bound; [done|]. lia. }
  destruct (_ || _) eqn:Ht.
  { exists false, n. split_and!; [done|lia|lia|intros; lia|done]. }
  apply orb_false_iff in Ht as [Hlt _]. breflect. specialize (Hdiv Hlt).
  destruct (streams n <=? 0)%Z eqn:Hs; breflect.
  - exists true, (Datatypes.S n). split_and!; [done|lia|lia|intros; lia|]. intros _.
    split; [lia|]. by replace (Datatypes.S n - 1)%nat with n by lia.
  - destruct (IH (Datatypes.S n) e) as (b & k & Hw & Hk & Hm & Hi & Hb); [lia|lia| |].
    { destruct fuel; [lia|lia]. }
    exists b, k. split_and!; [done|lia|lia| |].
    + intros i Hr. destruct (decide (i = n)) as [->|]; [done|]. apply Hi. lia.
    + intros Hbt. destruct (Hb Hbt). split; [lia|done].
Qed.

(** The handlers a request can meet write nothing before the hijack and hand
    the connection out only after the response is out; the connection is closed
    before the handler returns. *)
Lemma ServeHTTP_order c cancelled :
  (Callback ∈ ServeHTTP c cancelled ->
     sc_hijacker c = true /\ sc_hijack c = None /\ sc_write c = None /\ sc_flush c = None /\
     exists l1 l2 l3, ServeHTTP c cancelled =
       Hijacked :: l1 ++ WriteResponse StatusSwitchingProtocols :: l2 ++ FlushResponse :: l3) /\
  (sc_hijacker c = true -> sc_hijack c = None ->
     exists l1 l2, ServeHTTP c cancelled = Hijacked :: l1 ++ CloseConn :: ReturnHandler :: l2).
Proof.
  destruct c as [h hj wr fl]. unfold ServeHTTP, serve_goroutine. cbn. split.
  - intros Hin. destruct h; cbn in Hin; [|set_solver]. destruct hj; [set_solver|].
    destruct wr; [|destruct fl]; destruct cancelled as [[|[|[|k]]]|]; cbn in Hin |- *;
      try (exfalso; set_solver); (do 4 (split; [done|])).
    + by exists [CloseConn; ReturnHandler], [], [Callback].
    + by exists [], [CloseConn; ReturnHandler], [Callback].
    + by exists [], [], [CloseConn; ReturnHandler; Callback].
    + rewrite take_nil, drop_nil. by exists [], [], [Callback; CloseConn; ReturnHandler].
    + by exists [], [], [Callback; CloseConn; ReturnHandler].
  - intros -> ->. cbn. eexists _, _. reflexivity.
Qed.

(** ** Properties *)

(** C39: What a connection pair leaves open. On Unix, whether the sockets are
    made with SOCK_CLOEXEC or marked afterwards, [NewConnectionPair] leaves
    exactly the connection and the peer open, neither of them inherited by
    other children, and a failure of either of its steps leaves nothing. On
    Windows a success leaves the four pipe ends, and children inherit exactly
    the peer's two; a failure of the first pipe or of either
    [SetHandleInformation] leaves nothing, but when the second [CreatePipe]
    fails the two handles of the first pipe stay open, and inheritable. *)
Theorem NewConnectionPair_resources w : numbered w ->
  let o := os_open w in let a := os_next w in let b := (a + 1)%Z in let c := (b + 1)%Z in
  let d := (c + 1)%Z in
  (forall newSocketFD, newSocketFD = newSocketFD_linux \/ newSocketFD = newSocketFD_unix ->
     (os_faults w = [] -> exists w', NewConnectionPair_unix newSocketFD w = (Ok (c, b), w') /\
        os_open w' = <[c := false]> (<[b := false]> o)) /\
     (forall n, (n < 2)%nat -> fails_at n w -> exists err w',
        NewConnectionPair_unix newSocketFD w = (Err err, w') /\ os_open w' = o)) /\
  (os_faults w = [] -> exists w',
     NewConnectionPair_windows w =
       (Ok {| conn_R := c; conn_W := b; peer_r := a; peer_w := d |}, w') /\
     os_open w' = <[d := true]> (<[c := false]> (<[b := false]> (<[a := true]> o)))) /\
  (forall n, n ∈ [0; 2; 3]%nat -> fails_at n w -> exists err w',
     NewConnectionPair_windows w = (Err err, w') /\ os_open w' = o) /\
  (fails_at 1 w -> exists err w',
     NewConnectionPair_windows w = (Err err, w') /\ os_open w' = <[b := true]> (<[a := true]> o)).
Proof.
  intros Hn o a b c d. destruct (numbered_fresh w Hn) as (Ha & Hb & Hc & Hd).
  destruct w as [op next faults]. unfold fails_at. cbn in *. subst o a b c d. split_and!.
  - intros f Hf. split.
    + intros ->. destruct Hf as [-> | ->]; eexists; (split; [run_calls|]); cbn.
      * by rewrite kept_pairs_unix by (done || lia).
      * rewrite alter_insert_ne, alter_insert_eq, alter_insert_eq by lia.
        by rewrite kept_pairs_unix by (done || lia).
    + intros n Hlt ->. destruct n as [|[|n]]; [| |lia];
        destruct Hf as [-> | ->]; eexists _, _; (split; [run_calls|]); cbn; try done.
      * by rewrite closed_pairs_unix.
      * rewrite alter_insert_ne, alter_insert_eq, alter_insert_eq by lia.
        by rewrite closed_pairs_unix.
  - intros ->. eexists. split; [run_calls|]. cbn.
    rewrite (alter_insert_ne _ (next + 1)%Z), (alter_insert_ne _ (next + 1)%Z), alter_insert_eq by lia.
    by rewrite alter_insert_ne, alter_insert_eq by lia.
  - intros n Hin ->.
    assert (Hcases : n = 0%nat \/ n = 2%nat \/ n = 3%nat) by (revert Hin; set_solver).
    destruct Hcases as [->|[->| ->]]; eexists _, _; (split; [run_calls|]); cbn; try done.
    + by rewrite closed_pairs.
    + rewrite (alter_insert_ne _ (next + 1)%Z), (alter_insert_ne _ (next + 1)%Z), alter_insert_eq by lia.
      by rewrite closed_pairs.
  - intros ->. eexists _, _. split; [run_calls|done].
Qed.

Lemma NewConnectionPair_resources_witness :
  let w := {| os_open := {[0%Z := true; 1%Z := true; 2%Z := true]}; os_next := 3; os_faults := [false; true] |} in
  exists err w', NewConnectionPair_windows w = (Err err, w') /\
    os_open w' = <[4%Z := true]> (<[3%Z := true]> (os_open w)).
Proof.
  intros w. apply (NewConnectionPair_resources w).
  - intros h Hh. unfold w in Hh |- *. cbn in *. rewrite !lookup_insert_ne by lia.
    by rewrite lookup_singleton_ne by lia.
  - reflexivity.
Defined.

(** A shutdown waits a bounded time: whatever the number of open streams
    does and whichever of two simultaneous timers fires first,
    [waitForClientToDisconnect] ends within timeout/50ms ticks; it reports the
    streams gone exactly at the first tick that finds none, and times out only
    if every tick found some. *)
Theorem waitForClientToDisconnect_ends streams tick_first t :
  exists b k, waitForClientToDisconnect streams tick_first t = Some (b, k) /\
    (Z.of_nat k <= Z.max 0 (t / disconnect_poll))%Z /\
    (forall i, (i < (if b then k - 1 else k))%nat -> (0 < streams i)%Z) /\
    (b = true -> (0 < k)%nat /\ (streams (k - 1)%nat <= 0)%Z).
Proof.
  destruct (wait_loop_spec streams tick_first t (Z.to_nat (t / disconnect_poll) + 1) 0 0)
    as (b & k & Hw & _ & Hk & Hi & Hb); [done|lia|lia|].
  exists b, k. split_and!; [exact Hw|lia|intros i Hlt; apply Hi; lia|exact Hb].
Qed.
