(* ===== verification/HijackStream.v ===== *)
(** Package x/ipc, hijack.go once more: the bytes. A connection that [Hijackify]
    turns into a duplex stream carries an HTTP request and its answer first,
    which both ends read through buffers that may hold more than that; the
    client goes on to read through its buffer ([hijackedConn]), the server reads
    from the connection and drops its own. *)

From S2P Require Import Prelude GoErrors GoStrings Secrets Store Ipc.

(** ** Messages *)

Definition CR : Byte.byte := Byte.x0d.
Definition LF : Byte.byte := Byte.x0a.
Definition line (s : string) : bytes := bytes_of s ++ [CR; LF].

Definition hijackPath : string := "/hijack".

(** What [req.Write] sends. *)
Definition request_bytes : bytes :=
  line ("GET " +:+ hijackPath +:+ " HTTP/1.1") ++ line "Host: secrets-engine.localhost" ++
  line "User-Agent: Go-http-client/1.1" ++ line "Connection: upgrade" ++ line "Upgrade: tcp" ++ line "".

(** What [resp.Write] sends: the version numbers of the response are not set. *)
Definition response_bytes : bytes :=
  line "HTTP/0.0 101 Switching Protocols" ++ line "Connection: upgrade" ++ line "Upgrade: tcp" ++ line "".

(** What follows the first empty line. *)
Fixpoint after_head (b : bytes) : option bytes :=
  match b with
  | [] => None
  | x :: b' =>
      if bool_decide (x = LF) then
        match b' with
        | y :: b'' =>
            if bool_decide (y = LF) then Some b''
            else if bool_decide (y = CR) then
              match b'' with
              | z :: b''' => if bool_decide (z = LF) then Some b''' else after_head b'
              | [] => None
              end
            else after_head b'
        | [] => None
        end
      else after_head b'
  end.

(** The status of a response is 101. *)
Definition switching (head : bytes) : bool := bool_decide (take 3 (drop 9 head) = bytes_of "101").

(** ** bufio.Reader *)

Definition bufio_size : nat := 4096.

(** One [Read] into a slice of [n] bytes: it empties the buffer first; when
    there is nothing in it the connection is read once, [k] bytes of [conn], past
    the buffer if the slice is large. [None]: the read blocks. *)
Definition bufio_Read (n k : nat) (buf conn : bytes) : option (bytes * bytes * bytes) :=
  if (n =? 0)%nat then Some ([], buf, conn)
  else match buf with
  | [] =>
      if ((k =? 0) || (length conn <? k))%nat then None
      else if (bufio_size <=? n)%nat then
        if (n <? k)%nat then None else Some (take k conn, [], drop k conn)
      else if (bufio_size <? k)%nat then None
      else Some (take n (take k conn), drop n (take k conn), drop k conn)
  | _ => Some (take n buf, drop n buf, conn)
  end.

(** A read from the connection itself that gets [k] bytes. *)
Definition conn_Read (k : nat) (conn : bytes) : option (bytes * bytes) :=
  if ((k =? 0) || (length conn <? k))%nat then None else Some (take k conn, drop k conn).

(** One fill of a buffer while a head is read. *)
Definition bufio_fill (k : nat) (conn : bytes) : option (bytes * bytes) :=
  if (bufio_size <? k)%nat then None else conn_Read k conn.

(** ** The two ends *)

(** [Hijackify]: before the request, reading the response with what has been
    read, done with what is left in the reader of [hijackedConn], failed. *)
Inductive client_state : Type :=
| CIdle
| CAwait (br : bytes)
| COpen (r : bytes)
| CFailed.

(** The HTTP server and [ServeHTTP]: reading the request, in the handler,
    hijacked (both with what is left in the buffer), the callback running on the
    connection, the handler without a hijack, an error after it, and the callback
    done. *)
Inductive server_state : Type :=
| SRequest (buf : bytes)
| SHandler (buf : bytes)
| SHijacked (brw : bytes)
| SOpen (brw : bytes)
| SRefused
| SFailed
| SClosed (brw : bytes).

(** [c2s] and [s2c] are the bytes under way. What was written and read after
    the handshake is kept beside them. *)
Record hijack_state : Type := {
  h_client : client_state; h_server : server_state;
  c2s : bytes; s2c : bytes;
  c_sent : bytes; s_sent : bytes;
  c_got : bytes; s_got : bytes
}.

Definition hijack_init : hijack_state :=
  {| h_client := CIdle; h_server := SRequest []; c2s := []; s2c := []; c_sent := []; s_sent := [];
     c_got := []; s_got := [] |}.

Inductive hijack_action : Type :=
| ClientRequest                 (** [req.Write] *)
| ClientFill (k : nat)          (** [http.ReadResponse] reads *)
| ClientWrite (d : bytes)
| ClientRead (n k : nat)        (** [hijackedConn.Read] *)
| ServerFill (k : nat)          (** the server reads the request *)
| ServerByte                    (** its background read of one byte *)
| ServerHijack                  (** [hj.Hijack] *)
| ServerRefuse (resp : bytes)   (** not a Hijacker, or no route: another answer *)
| ServerRespond                 (** [resp.Write] and [brw.Flush] *)
| ServerFail (k : nat)          (** they fail after [k] bytes, or the hijack fails *)
| ServerRead (k : nat)          (** the callback reads from the connection *)
| ServerWrite (d : bytes)
| ServerClose.                  (** the callback is done; [conn.Close] *)

(** The client after its part of the step. *)
Definition client_step (cl : client_state) (c2s' s2c' csent cgot : bytes) (s : hijack_state) : hijack_state :=
  {| h_client := cl; h_server := h_server s; c2s := c2s'; s2c := s2c'; c_sent := csent; s_sent := s_sent s;
     c_got := cgot; s_got := s_got s |}.

Definition server_step (sv : server_state) (c2s' s2c' ssent sgot : bytes) (s : hijack_state) : hijack_state :=
  {| h_client := h_client s; h_server := sv; c2s := c2s'; s2c := s2c'; c_sent := c_sent s; s_sent := ssent;
     c_got := c_got s; s_got := sgot |}.

Definition hijack_client (a : hijack_action) (s : hijack_state) : option hijack_state :=
  match a, h_client s with
  | ClientRequest, CIdle =>
      Some (client_step (CAwait []) (c2s s ++ request_bytes) (s2c s) (c_sent s) (c_got s) s)
  | ClientFill k, CAwait br =>
      '(b, rest) ← bufio_fill k (s2c s);
      Some (client_step
        match after_head (br ++ b) with
        | None => CAwait (br ++ b)
        | Some r => if switching (br ++ b) then COpen r else CFailed
        end (c2s s) rest (c_sent s) (c_got s) s)
  | ClientWrite d, COpen r =>
      Some (client_step (COpen r) (c2s s ++ d) (s2c s) (c_sent s ++ d) (c_got s) s)
  | ClientRead n k, COpen r =>
      '(p, r, rest) ← bufio_Read n k r (s2c s);
      Some (client_step (COpen r) (c2s s) rest (c_sent s) (c_got s ++ p) s)
  | _, _ => None
  end.

Definition hijack_server (a : hijack_action) (s : hijack_state) : option hijack_state :=
  match a, h_server s with
  | ServerFill k, SRequest buf =>
      '(b, rest) ← bufio_fill k (c2s s);
      Some (server_step
        match after_head (buf ++ b) with None => SRequest (buf ++ b) | Some r => SHandler r end
        rest (s2c s) (s_sent s) (s_got s) s)
  | ServerByte, SHandler buf =>
      match c2s s with
      | [] => None
      | x :: rest => Some (server_step (SHandler (buf ++ [x])) rest (s2c s) (s_sent s) (s_got s) s)
      end
  | ServerHijack, SHandler buf => Some (server_step (SHijacked buf) (c2s s) (s2c s) (s_sent s) (s_got s) s)
  | ServerRefuse resp, SHandler _ =>
      if switching resp then None
      else Some (server_step SRefused (c2s s) (s2c s ++ resp) (s_sent s) (s_got s) s)
  | ServerRespond, SHijacked brw =>
      Some (server_step (SOpen brw) (c2s s) (s2c s ++ response_bytes) (s_sent s) (s_got s) s)
  | ServerFail k, SHijacked _ =>
      if (k <? length response_bytes)%nat
      then Some (server_step SFailed (c2s s) (s2c s ++ take k response_bytes) (s_sent s) (s_got s) s)
      else None
  | ServerRead k, SOpen brw =>
      '(p, rest) ← conn_Read k (c2s s);
      Some (server_step (SOpen brw) rest (s2c s) (s_sent s) (s_got s ++ p) s)
  | ServerWrite d, SOpen brw =>
      Some (server_step (SOpen brw) (c2s s) (s2c s ++ d) (s_sent s ++ d) (s_got s) s)
  | ServerClose, SOpen brw => Some (server_step (SClosed brw) (c2s s) (s2c s) (s_sent s) (s_got s) s)
  | _, _ => None
  end.

Definition hijack_step (a : hijack_action) (s : hijack_state) : option hijack_state :=
  match hijack_client a s with Some s' => Some s' | None => hijack_server a s end.

Fixpoint hijack_run (l : list hijack_action) (s : hijack_state) : option hijack_state :=
  match l with
  | [] => Some s
  | a :: l' => s' ← hijack_step a s; hijack_run l' s'
  end.

(** [hijackedConn.CloseWrite]: forwarded if the connection has it. *)
Definition hijackedConn_CloseWrite {S} (CloseWrite : option (comp S goerror unit)) : comp S goerror unit :=
  match CloseWrite with Some close => close | None => ret tt end.

(** ** Lemmas: heads *)

Lemma after_head_app b q r : after_head b = Some r -> after_head (b ++ q) = Some (r ++ q).
Proof.
  induction b as [|x b IH]; intros Hb; [done|]. cbn [after_head app] in *.
  destruct (bool_decide (x = LF)); [|by apply IH].
  destruct b as [|y b2]; [done|]. cbn [app].
  destruct (bool_decide (y = LF)); [by simplify_eq|].
  destruct (bool_decide (y = CR)); [|by apply IH].
  destruct b2 as [|z b3]; [done|]. cbn [app].
  destruct (bool_decide (z = LF)); [by simplify_eq|]. by apply IH.
Qed.

Lemma after_head_request : after_head request_bytes = Some [].
Proof. vm_compute. reflexivity. Qed.

Lemma after_head_response : after_head response_bytes = Some [].
Proof. vm_compute. reflexivity. Qed.

Lemma switching_app p q : switching p = true -> switching (p ++ q) = true.
Proof.
  unfold switching. rewrite !bool_decide_eq_true. intros Hp.
  assert (Hl : (3 <= length (drop 9 p))%nat).
  { assert (H3 : length (take 3 (drop 9 p)) = 3%nat) by (by rewrite Hp). rewrite length_take in H3. lia. }
  rewrite length_drop in Hl. rewrite drop_app_le by lia. rewrite take_app_le; [exact Hp|].
  rewrite length_drop. lia.
Qed.

(** A prefix of the message [m], whose head is all of it, followed by other
    bytes: the head ends with [m], or has not ended. *)
Lemma after_head_split m p q r t : after_head m = Some [] -> p ++ q = m ++ t -> after_head p = Some r ->
  r ++ q = t /\ p = m ++ r.
Proof.
  intros Hm Heq Hp. apply (after_head_app _ q) in Hp as Hpq. apply (after_head_app _ t) in Hm as Hmt.
  rewrite Heq, Hmt in Hpq. injection Hpq as Hrt. cbn in Hrt. split; [by symmetry|].
  subst t. rewrite app_assoc in Heq. by apply (app_inv_tail q) in Heq.
Qed.

(** A part of the message has no end. *)
Lemma after_head_part m p q k : after_head m = Some [] -> p ++ q = take k m -> (k < length m)%nat -> after_head p = None.
Proof.
  intros Hm Heq Hk. destruct (after_head p) as [r|] eqn:Hp; [|done].
  apply (after_head_app _ (q ++ drop k m)) in Hp. rewrite app_assoc, Heq, take_drop, Hm in Hp.
  injection Hp as Hnil. symmetry in Hnil. apply app_eq_nil in Hnil as [_ Hnil]. apply app_eq_nil in Hnil as [_ Hnil].
  apply (f_equal length) in Hnil. rewrite length_drop in Hnil. cbn in Hnil. lia.
Qed.

Lemma conn_Read_Some k conn b rest : conn_Read k conn = Some (b, rest) -> b ++ rest = conn /\ b <> [].
Proof.
  unfold conn_Read. destruct (_ || _) eqn:Hc; [done|]. intros [= <- <-]. split; [apply take_drop|].
  rewrite !orb_false_iff, Nat.eqb_neq, !Nat.ltb_ge in Hc. destruct conn, k; cbn in *; try done; lia.
Qed.

Lemma conn_Read_total k conn : (0 < k <= length conn)%nat -> conn_Read k conn = Some (take k conn, drop k conn).
Proof.
  intros [H0 Hk]. unfold conn_Read. by rewrite (proj2 (Nat.eqb_neq _ _)), (proj2 (Nat.ltb_ge _ _)) by lia.
Qed.

Lemma bufio_fill_Some k conn b rest : bufio_fill k conn = Some (b, rest) -> b ++ rest = conn /\ b <> [].
Proof. unfold bufio_fill. destruct (bufio_size <? k)%nat; [done|]. apply conn_Read_Some. Qed.

Lemma conn_Read_nil k : conn_Read k [] = None.
Proof. by destruct k. Qed.

Lemma bufio_fill_nil k : bufio_fill k [] = None.
Proof. unfold bufio_fill. rewrite conn_Read_nil. by destruct (_ <? _)%nat. Qed.

Lemma bufio_fill_total k conn : (0 < k <= length conn)%nat -> (k <= bufio_size)%nat ->
  bufio_fill k conn = Some (take k conn, drop k conn).
Proof. intros Hk Hb. unfold bufio_fill. rewrite (proj2 (Nat.ltb_ge _ _)) by lia. by apply conn_Read_total. Qed.

Lemma bufio_Read_Some n k buf conn p buf' conn' : bufio_Read n k buf conn = Some (p, buf', conn') ->
  p ++ buf' ++ conn' = buf ++ conn.
Proof.
  unfold bufio_Read. destruct (n =? 0)%nat; [by intros [= <- <- <-]|]. destruct buf as [|x buf].
  - destruct (_ || _); [done|]. destruct (bufio_size <=? n)%nat.
    + destruct (n <? k)%nat; [done|]. intros [= <- <- <-]. cbn. apply take_drop.
    + destruct (bufio_size <? k)%nat; [done|]. intros [= <- <- <-]. rewrite app_assoc, take_drop. apply take_drop.
  - intros [= <- <- <-]. by rewrite app_assoc, take_drop.
Qed.

(** ** The invariant *)

(** Before the client is through its handshake. *)
Definition awaiting (br : bytes) (sv : server_state) (s : hijack_state) : Prop :=
  c_sent s = [] /\ c_got s = [] /\ s_got s = [] /\
  match sv with
  | SRequest buf => after_head buf = None /\ buf ++ c2s s = request_bytes /\ br = [] /\ s2c s = [] /\ s_sent s = []
  | SHandler buf | SHijacked buf => buf = [] /\ c2s s = [] /\ br = [] /\ s2c s = [] /\ s_sent s = []
  | SOpen brw | SClosed brw =>
      brw = [] /\ c2s s = [] /\ after_head br = None /\ br ++ s2c s = response_bytes ++ s_sent s
  | SRefused => switching (br ++ s2c s) = false
  | SFailed => exists k, (k < length response_bytes)%nat /\ br ++ s2c s = take k response_bytes
  end.

Definition flowing (r brw : bytes) (s : hijack_state) : Prop :=
  brw = [] /\ c_got s ++ r ++ s2c s = s_sent s /\ s_got s ++ c2s s = c_sent s.

Definition hijack_inv (s : hijack_state) : Prop :=
  match h_client s, h_server s with
  | CIdle, _ => s = hijack_init
  | CAwait br, sv => awaiting br sv s
  | COpen r, SOpen brw | COpen r, SClosed brw => flowing r brw s
  | CFailed, SRefused => c_sent s = [] /\ c_got s = [] /\ s_got s = []
  | _, _ => False
  end.

Lemma client_inv a s s' : hijack_inv s -> hijack_client a s = Some s' -> hijack_inv s'.
Proof.
  intros Hi Hs. destruct s as [cl sv cs sc csent ssent cgot sgot]. unfold hijack_inv in Hi. cbn [h_client h_server] in Hi.
  destruct a, cl; try discriminate Hs; unfold hijack_client in Hs; cbn [h_client s2c c2s c_sent c_got] in Hs.
  - injection Hi as -> -> -> -> -> -> ->. injection Hs as <-. by unfold hijack_inv, awaiting.
  - destruct (bufio_fill k sc) as [[b rest]|] eqn:Hb; [|done]. apply bufio_fill_Some in Hb as [<- Hb].
    injection Hs as <-. unfold awaiting in Hi. cbn [c_sent c_got s_got s2c c2s s_sent] in Hi.
    destruct Hi as (-> & -> & -> & Hi). unfold hijack_inv, client_step. cbn [h_client h_server].
    destruct sv as [buf|buf|buf|brw| | |brw].
    + destruct Hi as (_ & _ & _ & Hn & _). apply app_eq_nil in Hn as [-> _]. done.
    + destruct Hi as (_ & _ & _ & Hn & _). apply app_eq_nil in Hn as [-> _]. done.
    + destruct Hi as (_ & _ & _ & Hn & _). apply app_eq_nil in Hn as [-> _]. done.
    + destruct Hi as (-> & -> & Hbr & Heq). rewrite app_assoc in Heq.
      destruct (after_head (br ++ b)) as [r|] eqn:Ha; [|done].
      destruct (after_head_split _ _ _ _ _ after_head_response Heq Ha) as [Hr ->].
      by rewrite switching_app by (vm_compute; reflexivity).
    + rewrite app_assoc in Hi. destruct (after_head (br ++ b)) as [r|] eqn:Ha; [|done].
      destruct (switching (br ++ b)) eqn:Hsw; [|done]. by rewrite (switching_app _ rest Hsw) in Hi.
    + destruct Hi as (j & Hj & Heq). rewrite app_assoc in Heq.
      rewrite (after_head_part _ _ _ _ after_head_response Heq Hj). split_and!; try done. by exists j.
    + destruct Hi as (-> & -> & Hbr & Heq). rewrite app_assoc in Heq.
      destruct (after_head (br ++ b)) as [r|] eqn:Ha; [|done].
      destruct (after_head_split _ _ _ _ _ after_head_response Heq Ha) as [Hr ->].
      by rewrite switching_app by (vm_compute; reflexivity).
  - injection Hs as <-. unfold hijack_inv, client_step. cbn [h_client h_server].
    destruct sv; try done; destruct Hi as (-> & H1 & H2); split_and!; try done; cbn in *; by rewrite app_assoc, H2.
  - destruct (bufio_Read n k r sc) as [[[p r'] rest]|] eqn:Hr; [|done]. apply bufio_Read_Some in Hr.
    injection Hs as <-. unfold hijack_inv, client_step. cbn [h_client h_server].
    destruct sv; try done; destruct Hi as (-> & H1 & H2); split_and!; try done; cbn in *; by rewrite <- app_assoc, Hr.
Qed.

Lemma server_inv a s s' : hijack_inv s -> hijack_server a s = Some s' -> hijack_inv s'.
Proof.
  intros Hi Hs. destruct s as [cl sv cs sc csent ssent cgot sgot]. unfold hijack_inv in Hi. cbn [h_client h_server] in Hi.
  destruct cl as [|br|r|].
  { injection Hi as -> -> -> -> -> -> ->. destruct a; try done. unfold hijack_server in Hs.
    cbn [h_server c2s hijack_init] in Hs. by rewrite bufio_fill_nil in Hs. }
  - unfold awaiting in Hi. cbn [c_sent c_got s_got s2c c2s s_sent] in Hi. destruct Hi as (-> & -> & -> & Hi).
    destruct a, sv; try discriminate Hs; unfold hijack_server in Hs; cbn [h_server s2c c2s s_sent s_got] in Hs.
    + destruct (bufio_fill k cs) as [[b rest]|] eqn:Hb; [|done]. apply bufio_fill_Some in Hb as [<- Hb].
      injection Hs as <-. destruct Hi as (Hn & Heq & -> & -> & ->). rewrite app_assoc in Heq.
      unfold hijack_inv, server_step, awaiting. cbn. split_and!; try done.
      destruct (after_head (buf ++ b)) as [r|] eqn:Ha; [|done].
      assert (Heq' : (buf ++ b) ++ rest = request_bytes ++ []) by (by rewrite app_nil_r).
      destruct (after_head_split _ _ _ _ _ after_head_request Heq' Ha) as [Hr _].
      apply app_eq_nil in Hr as [-> ->]. done.
    + destruct Hi as (-> & -> & _). done.
    + injection Hs as <-. by unfold hijack_inv, server_step, awaiting.
    + destruct (switching resp) eqn:Hr; [done|]. injection Hs as <-. destruct Hi as (-> & -> & -> & -> & ->).
      by unfold hijack_inv, server_step, awaiting.
    + injection Hs as <-. destruct Hi as (-> & -> & -> & -> & ->).
      unfold hijack_inv, server_step, awaiting. cbn. split_and!; try done.
    + destruct (k <? length response_bytes)%nat eqn:Hk; [|done]. injection Hs as <-.
      destruct Hi as (-> & -> & -> & -> & ->). unfold hijack_inv, server_step, awaiting. cbn [h_client h_server].
      split_and!; try done. exists k. split; [by apply Nat.ltb_lt|done].
    + destruct Hi as (-> & -> & _). by rewrite conn_Read_nil in Hs.
    + injection Hs as <-. destruct Hi as (-> & -> & Hbr & Heq). unfold hijack_inv, server_step, awaiting. cbn [h_client h_server].
      split_and!; try done. cbn [s2c s_sent]. by rewrite app_assoc, Heq, app_assoc.
    + injection Hs as <-. done.
  - destruct a, sv; try discriminate Hs; try done; unfold hijack_server in Hs; cbn [h_server s2c c2s s_sent s_got] in Hs;
      destruct Hi as (-> & H1 & H2); cbn in H1, H2.
    + destruct (conn_Read k cs) as [[b rest]|] eqn:Hb; [|done]. apply conn_Read_Some in Hb as [<- Hb].
      injection Hs as <-. split_and!; try done. cbn. by rewrite <- app_assoc.
    + injection Hs as <-. split_and!; try done. cbn. by rewrite <- H1, !app_assoc.
    + injection Hs as <-. split_and!; done.
  - destruct a, sv; try discriminate Hs; done.
Qed.

Lemma hijack_run_inv l s s' : hijack_inv s -> hijack_run l s = Some s' -> hijack_inv s'.
Proof.
  revert s. induction l as [|a l IH]; intros s Hi Hl; [by injection Hl as <-|]. cbn [hijack_run] in Hl.
  destruct (hijack_step a s) as [s1|] eqn:Hs; [|done]. apply (IH s1); [|exact Hl]. unfold hijack_step in Hs.
  destruct (hijack_client a s) as [s2|] eqn:Hc; [|by eapply server_inv].
  injection Hs as <-. by eapply client_inv.
Qed.

(** ** Lemmas: progress *)

Definition opened (s : hijack_state) : bool :=
  match h_client s, h_server s with COpen _, SOpen _ => true | _, _ => false end.

(** The server has not given up. *)
Definition willing (s : hijack_state) : bool :=
  match h_server s with SRefused | SFailed | SClosed _ => false | _ => true end.

Lemma hijack_run_app l1 l2 s s1 : hijack_run l1 s = Some s1 -> hijack_run (l1 ++ l2) s = hijack_run l2 s1.
Proof.
  revert s. induction l1 as [|a l1 IH]; intros s Hl; [by injection Hl as ->|]. cbn [hijack_run app] in *.
  destruct (hijack_step a s) as [s2|]; [|done]. by apply IH.
Qed.

(** A step that leads to a state from which an end is in reach. *)
Lemma reach_step (P : hijack_state -> Prop) a s s1 : hijack_step a s = Some s1 ->
  (exists l s', hijack_run l s1 = Some s' /\ P s') -> exists l s', hijack_run l s = Some s' /\ P s'.
Proof. intros Hs (l & s' & Hl & Hp). exists (a :: l), s'. split; [|exact Hp]. cbn [hijack_run]. by rewrite Hs. Qed.

Lemma can_open_responded s br brw : hijack_inv s -> h_client s = CAwait br -> h_server s = SOpen brw ->
  exists l s', hijack_run l s = Some s' /\ opened s' = true.
Proof.
  intros Hi Hcl Hsv. unfold hijack_inv in Hi. rewrite Hcl, Hsv in Hi.
  destruct Hi as (Hc1 & Hc2 & Hc3 & -> & Hc4 & Hbr & Heq).
  assert (Hno : forall t, br <> response_bytes ++ t).
  { intros t ->. by rewrite (after_head_app _ t _ after_head_response) in Hbr. }
  apply app_eq_inv in Heq as [(k & Hk & _)|(k & Hk & Hs2c)]; [by apply Hno in Hk|].
  assert (Hlen : (0 < length k <= bufio_size)%nat).
  { split; [destruct k; [|cbn; lia]; rewrite app_nil_r in Hk; exfalso; apply (Hno []); by rewrite app_nil_r|].
    assert (Hr : length response_bytes = 71%nat) by (vm_compute; reflexivity).
    rewrite Hk, length_app in Hr. unfold bufio_size. lia. }
  exists [ClientFill (length k)]. eexists. split.
  - cbn [hijack_run]. unfold hijack_step, hijack_client. rewrite Hcl, Hs2c.
    rewrite bufio_fill_total by (rewrite ?length_app; lia). cbn [mbind option_bind].
    rewrite take_app_length, <- Hk, after_head_response. reflexivity.
  - unfold opened, client_step. cbn [h_client h_server]. by rewrite Hsv.
Qed.

(** The server answers what it has parsed; it parses what has arrived. *)
Lemma can_open_awaiting s br : hijack_inv s -> h_client s = CAwait br -> willing s = true ->
  exists l s', hijack_run l s = Some s' /\ opened s' = true.
Proof.
  assert (Hhij : forall s br brw, hijack_inv s -> h_client s = CAwait br -> h_server s = SHijacked brw ->
    exists l s', hijack_run l s = Some s' /\ opened s' = true).
  { intros s0 br0 brw Hi Hcl Hsv.
    assert (Hst : exists s1, hijack_server ServerRespond s0 = Some s1 /\ h_client s1 = CAwait br0 /\ h_server s1 = SOpen brw).
    { unfold hijack_server. rewrite Hsv. eexists. split; [reflexivity|]. by split. }
    destruct Hst as (s1 & Hst & Hcl1 & Hsv1). apply (reach_step _ ServerRespond _ s1).
    - unfold hijack_step. by destruct (h_client s0); unfold hijack_client; rewrite ?Hcl; rewrite Hst.
    - eapply can_open_responded; [by eapply server_inv|exact Hcl1|exact Hsv1]. }
  assert (Hhan : forall s br buf, hijack_inv s -> h_client s = CAwait br -> h_server s = SHandler buf ->
    exists l s', hijack_run l s = Some s' /\ opened s' = true).
  { intros s0 br0 buf Hi Hcl Hsv.
    assert (Hst : exists s1, hijack_server ServerHijack s0 = Some s1 /\ h_client s1 = CAwait br0 /\ h_server s1 = SHijacked buf).
    { unfold hijack_server. rewrite Hsv. eexists. split; [reflexivity|]. by split. }
    destruct Hst as (s1 & Hst & Hcl1 & Hsv1). apply (reach_step _ ServerHijack _ s1).
    - unfold hijack_step, hijack_client. by rewrite Hst.
    - eapply Hhij; [by eapply server_inv|exact Hcl1|exact Hsv1]. }
  intros Hi Hcl Hw. destruct (h_server s) as [buf|buf|brw|brw| | |brw] eqn:Hsv;
    unfold willing in Hw; rewrite Hsv in Hw; try discriminate Hw;
    [|by eapply Hhan|by eapply Hhij|by eapply can_open_responded].
  assert (Hi' := Hi). unfold hijack_inv in Hi'. rewrite Hcl, Hsv in Hi'.
  destruct Hi' as (_ & _ & _ & Hbuf & Heq & _).
  assert (Hlen : (0 < length (c2s s) <= bufio_size)%nat).
  { split.
    - destruct (c2s s); [|cbn; lia]. rewrite app_nil_r in Heq. by rewrite Heq, after_head_request in Hbuf.
    - assert (Hr : length request_bytes = 123%nat) by (vm_compute; reflexivity).
      rewrite <- Heq, length_app in Hr. unfold bufio_size. lia. }
  assert (Hst : exists s1 r, hijack_server (ServerFill (length (c2s s))) s = Some s1 /\ h_client s1 = CAwait br /\
    h_server s1 = SHandler r).
  { unfold hijack_server. rewrite Hsv, bufio_fill_total by lia. cbn [mbind option_bind].
    rewrite firstn_all, Heq, after_head_request. eexists _, _. split; [reflexivity|]. by split. }
  destruct Hst as (s1 & r & Hst & Hcl1 & Hsv1). apply (reach_step _ (ServerFill (length (c2s s))) _ s1).
  - unfold hijack_step, hijack_client. by rewrite Hst.
  - eapply Hhan; [by eapply server_inv|exact Hcl1|exact Hsv1].
Qed.

Lemma can_open s : hijack_inv s -> willing s = true -> h_client s <> CFailed ->
  exists l s', hijack_run l s = Some s' /\ (opened s' = true).
Proof.
  intros Hi Hw Hf. destruct (h_client s) as [|br|r|] eqn:Hcl; [| |..].
  - assert (Hi' := Hi). unfold hijack_inv in Hi'. rewrite Hcl in Hi'. subst s.
    destruct (hijack_client ClientRequest hijack_init) as [s1|] eqn:Hs; [|done].
    assert (Hi1 : hijack_inv s1) by (by eapply client_inv).
    apply (reach_step _ ClientRequest _ s1); [by unfold hijack_step; rewrite Hs|].
    cbn in Hs. injection Hs as <-. by eapply can_open_awaiting.
  - by eapply can_open_awaiting.
  - exists [], s. split; [done|]. unfold opened. rewrite Hcl. unfold hijack_inv in Hi. rewrite Hcl in Hi.
    unfold willing in Hw. by destruct (h_server s).
  - done.
Qed.

Definition is_read (a : hijack_action) : bool :=
  match a with ClientRead _ _ | ServerRead _ => true | _ => false end.

(** What has arrived can be read, in at most three reads. *)
Lemma can_drain s : hijack_inv s -> opened s = true ->
  exists l s', Forall (fun a => is_read a = true) l /\ hijack_run l s = Some s' /\ opened s' = true /\
    c_got s' = s_sent s /\ s_got s' = c_sent s.
Proof.
  intros Hi Ho. destruct s as [cl sv cs sc csent ssent cgot sgot]. unfold opened in Ho. cbn [h_client h_server] in Ho.
  destruct cl as [| |r|]; try done. destruct sv as [| | |brw| | |]; try done.
  destruct Hi as (-> & H1 & H2). cbn in H1, H2. subst ssent csent.
  set (st := fun r cs sc cgot sgot => {| h_client := COpen r; h_server := SOpen []; c2s := cs; s2c := sc;
    c_sent := sgot ++ cs; s_sent := cgot ++ r ++ sc; c_got := cgot; s_got := sgot |}).
  assert (Hserver : forall cgot csent ssent, exists l s',
    Forall (fun a => is_read a = true) l /\ hijack_run l {| h_client := COpen []; h_server := SOpen []; c2s := cs; s2c := [];
      c_sent := csent; s_sent := ssent; c_got := cgot; s_got := sgot |} = Some s' /\ opened s' = true /\
    c_got s' = cgot /\ s_got s' = sgot ++ cs).
  { intros cg cse sse. destruct cs as [|x cs0].
    { exists [], {| h_client := COpen []; h_server := SOpen []; c2s := []; s2c := []; c_sent := cse; s_sent := sse; c_got := cg; s_got := sgot |}. by rewrite app_nil_r. }
    exists [ServerRead (length (x :: cs0))]. eexists. split; [by repeat constructor|]. split.
    - unfold hijack_run, hijack_step, hijack_client, hijack_server. cbn [h_client h_server c2s].
      rewrite conn_Read_total by (cbn; lia). cbn [mbind option_bind]. reflexivity.
    - unfold server_step. cbn [opened h_client h_server c_got s_got]. by rewrite firstn_all. }
  assert (Hconn : forall cgot csent ssent, exists l s',
    Forall (fun a => is_read a = true) l /\ hijack_run l {| h_client := COpen []; h_server := SOpen []; c2s := cs; s2c := sc;
      c_sent := csent; s_sent := ssent; c_got := cgot; s_got := sgot |} = Some s' /\ opened s' = true /\
    c_got s' = cgot ++ sc /\ s_got s' = sgot ++ cs).
  { intros cg cse sse. destruct sc as [|x sc0]; [rewrite app_nil_r; apply Hserver|].
    destruct (Hserver (cg ++ x :: sc0) cse sse) as (l & s' & Hl & Hr & Hrest).
    exists (ClientRead (bufio_size + length (x :: sc0)) (length (x :: sc0)) :: l), s'.
    split; [by constructor|]. split; [|exact Hrest]. cbn [hijack_run]. unfold hijack_step at 1, hijack_client.
    cbn [h_client s2c]. unfold bufio_Read.
    rewrite (proj2 (Nat.eqb_neq _ 0)) by (cbn; lia). rewrite (proj2 (Nat.eqb_neq _ 0)) by (cbn; lia).
    rewrite Nat.ltb_irrefl. cbn [orb]. rewrite (proj2 (Nat.leb_le _ _)) by lia.
    rewrite (proj2 (Nat.ltb_ge _ _)) by lia. cbn [mbind option_bind]. rewrite firstn_all, skipn_all. exact Hr. }
  destruct r as [|x r0]; [by apply (Hconn cgot)|].
  destruct (Hconn (cgot ++ x :: r0) (sgot ++ cs) (cgot ++ (x :: r0) ++ sc)) as (l & s' & Hl & Hr & Hop & Hg & Hsg).
  exists (ClientRead (length (x :: r0)) 0 :: l), s'. split; [by constructor|]. split.
  - cbn [hijack_run]. unfold hijack_step at 1, hijack_client. cbn [h_client s2c]. unfold bufio_Read.
    rewrite (proj2 (Nat.eqb_neq _ 0)) by (cbn; lia). cbn [mbind option_bind]. rewrite firstn_all, skipn_all. exact Hr.
  - split_and!; [exact Hop| |exact Hsg]. by rewrite Hg, <- app_assoc.
Qed.

Lemma inv_got s : hijack_inv s -> (exists t, s_sent s = c_got s ++ t) /\ (exists t, c_sent s = s_got s ++ t).
Proof.
  unfold hijack_inv, awaiting, flowing. destruct (h_client s) as [|br|r|]; [intros ->; split; by exists []| | |].
  - intros (-> & -> & -> & _). split; [by eexists|by exists []].
  - destruct (h_server s); try done; intros (_ & <- & <-); split; by eexists.
  - destruct (h_server s); try done; intros (-> & -> & ->). split; [by eexists|by exists []].
Qed.

Lemma inv_server s : hijack_inv s ->
  (forall brw, h_server s = SHijacked brw \/ h_server s = SOpen brw \/ h_server s = SClosed brw -> brw = []) /\
  (forall r, h_client s = COpen r -> h_server s = SOpen [] \/ h_server s = SClosed []).
Proof.
  unfold hijack_inv, awaiting, flowing. destruct (h_client s) as [|br|r|];
    [intros ->; split; [intros brw [H|[H|H]]; discriminate H|done]|..]; destruct (h_server s) eqn:Hsv; try done;
    intros Hi; (split; [|intros r' Hr; try discriminate Hr]); try (intros brw' [H|[H|H]]; try discriminate H; injection H as <-);
    naive_solver.
Qed.

(** ** Property: the streams *)

(** C16: In every interleaving of the two ends, however the reads cut the bytes:
    what either end has read since the handshake is, in order and without a gap,
    a beginning of what the other end wrote; the buffer that the server drops
    when it hands the connection to the callback is empty; a client is through
    [Hijackify] only when the callback has the connection, and never when the
    server refused or failed. Neither end is stuck: until the server gives up
    both can get through the handshake, and then all that was written can be
    read. *)
Theorem hijack_streams l s : hijack_run l hijack_init = Some s ->
  (exists t, s_sent s = c_got s ++ t) /\ (exists t, c_sent s = s_got s ++ t) /\
  (forall brw, h_server s = SHijacked brw \/ h_server s = SOpen brw \/ h_server s = SClosed brw -> brw = []) /\
  (forall r, h_client s = COpen r -> h_server s = SOpen [] \/ h_server s = SClosed []) /\
  (willing s = true -> exists l' s', hijack_run l' s = Some s' /\ opened s' = true) /\
  (opened s = true -> exists l' s', Forall (fun a => is_read a = true) l' /\ hijack_run l' s = Some s' /\
     opened s' = true /\ c_got s' = s_sent s /\ s_got s' = c_sent s).
Proof.
  intros Hl. assert (Hi : hijack_inv s) by (by eapply hijack_run_inv; [|exact Hl]).
  assert (Hw : willing s = true -> exists l' s', hijack_run l' s = Some s' /\ opened s' = true).
  { intros Hw. apply can_open; [done..|]. intros Hf. unfold hijack_inv in Hi. rewrite Hf in Hi.
    unfold willing in Hw. by destruct (h_server s). }
  pose proof (can_drain s Hi) as Hd. split_and!; [..|exact Hw|exact Hd]; clear Hw Hd; clear Hl.
  - by apply inv_got.
  - by apply inv_got.
  - by apply inv_server.
  - by apply inv_server.
Qed.

Lemma hijack_streams_witness : exists s s',
  hijack_run [ClientRequest; ServerFill 100; ServerFill 23; ServerHijack; ServerRespond; ServerWrite (bytes_of "hello");
    ClientFill 10; ClientFill 64; ClientRead 2 0; ClientWrite (bytes_of "ping"); ServerRead 3] hijack_init = Some s /\
  c_got s = bytes_of "he" /\ s_got s = bytes_of "pin" /\ opened s = true /\
  exists l', hijack_run l' s = Some s' /\ c_got s' = bytes_of "hello" /\ s_got s' = bytes_of "ping".
Proof.
  destruct (hijack_run [ClientRequest; ServerFill 100; ServerFill 23; ServerHijack; ServerRespond; ServerWrite (bytes_of "hello");
    ClientFill 10; ClientFill 64; ClientRead 2 0; ClientWrite (bytes_of "ping"); ServerRead 3] hijack_init) as [s|] eqn:Hs;
    [|vm_compute in Hs; discriminate].
  destruct (hijack_streams _ _ Hs) as (_ & _ & _ & _ & _ & Hd).
  assert (Hf : opened s = true /\ c_got s = bytes_of "he" /\ s_got s = bytes_of "pin" /\
    s_sent s = bytes_of "hello" /\ c_sent s = bytes_of "ping").
  { assert (H : option_map (fun s => (opened s, c_got s, s_got s, s_sent s, c_sent s)) (Some s) =
      Some (true, bytes_of "he", bytes_of "pin", bytes_of "hello", bytes_of "ping"))
      by (rewrite <- Hs; vm_compute; reflexivity).
    injection H as H1 H2 H3 H4 H5. by split_and!. }
  destruct Hf as (Ho & H1 & H2 & H3 & H4). destruct (Hd Ho) as (l' & s' & _ & Hl & _ & Hc & Hsv).
  exists s, s'. split; [reflexivity|]. split; [exact H1|]. split; [exact H2|]. split; [exact Ho|].
  exists l'. rewrite Hc, Hsv. split; [exact Hl|]. by split.
Defined.

(** A client that does not wait for the answer loses what it has sent with the
    request: the callback reads from the connection, past the buffer. *)
Example pipelined_lost :
  let s0 := {| h_client := CAwait []; h_server := SRequest []; c2s := request_bytes ++ bytes_of "early"; s2c := [];
    c_sent := bytes_of "early"; s_sent := []; c_got := []; s_got := [] |} in
  option_map (fun s => (h_server s, c2s s, s_got s)) (hijack_run [ServerFill 128; ServerHijack; ServerRespond] s0) =
    Some (SOpen (bytes_of "early"), [], []).
Proof. vm_compute. reflexivity. Qed.
