(* ===== verification/IpcSession.v ===== *)
(** Package x/ipc, a session (ipc.go): the server over a multiplexed connection,
    its options and the order of its shutdown. *)

From S2P Require Import Prelude GoErrors GoStrings Ipc IpcConn.

(** ** Options *)

Record ipc_cfg : Type := { shutdownTimeout : Z }.

Definition IpcOption : Type := ipc_cfg -> ipc_cfg.
Definition WithShutdownTimeout (d : Z) : IpcOption := fun _ => {| shutdownTimeout := d |}.

Definition ipc_options (option_ : list IpcOption) : ipc_cfg :=
  foldl (fun cfg o => o cfg) {| shutdownTimeout := defaultShutdownTimeout |} option_.

(** [NewClientIPC] and [NewServerIPC]: what they return for the outcome of the
    yamux constructor. *)
Definition NewClientIPC (session : result goerror unit) (option_ : list IpcOption)
  : result goerror ipc_cfg :=
  match session with
  | Err err => Err (Wrap "creating yamux client: %w" [err])
  | Ok _ => Ok (ipc_options option_)
  end.

Definition NewServerIPC (session : result goerror unit) (option_ : list IpcOption)
  : result goerror ipc_cfg :=
  match session with
  | Err err => Err (Wrap "creating yamux server: %w" [err])
  | Ok _ => Ok (ipc_options option_)
  end.

(** ** The shutdown *)

Inductive session_event : Type :=
| GoAway
| CloseIdleConnections
| Waited (drained : bool) (ticks : nat)
| ServerClose
| OnClose (err : option goerror)
| SessionClose
| ServeDone
| Returned (err : option goerror).

(** What a session meets: whether there is an [onClose] callback, the errors of
    the two closes, and, when the peer ends the session itself, the outcome of
    [Serve] and how many of the four steps of the shutdown come before it. *)
Record session_case : Type := {
  se_onClose : bool;
  se_peer : option (nat * option goerror);
  se_server_close : option goerror;
  se_session_close : option goerror
}.

(** The error [newIpcServer] hands to [afterClose]. *)
Definition served (serve : option goerror) : option goerror :=
  match serve with
  | Some e => if errors_Is e ErrServerClosed then None else serve
  | None => None
  end.

(** The end of the goroutine of [newIpcServer], with the [afterClose] of
    [newMuxedIPC]. *)
Definition serve_end (c : session_case) (serve : option goerror) : list session_event :=
  (if se_onClose c then [OnClose (served serve)] else []) ++ [SessionClose; ServeDone].

(** The [teardown] of [newMuxedIPC]: [Serve] ends between two of its steps, or
    with [ErrServerClosed] once the server is closed. *)
Definition teardown_events (c : session_case) (cfg : ipc_cfg) (streams : nat -> Z) (tick_first : nat -> bool)
  : option (list session_event) :=
  wait ← waitForClientToDisconnect streams tick_first (shutdownTimeout cfg);
  let server_err serve := ipcServer_err serve (fun _ => se_session_close c) in
  let closing := [GoAway; CloseIdleConnections; Waited wait.1 wait.2; ServerClose] in
  let return_ serve := [Returned (teardown (se_server_close c) (server_err serve))] in
  Some (match se_peer c with
        | Some (k, serve) => take k closing ++ serve_end c serve ++ drop k closing ++ return_ serve
        | None =>
            let serve := Some ErrServerClosed in
            closing ++ serve_end c serve ++ return_ serve
        end).

(** [ipcImpl.Close]: [sync.OnceValue] runs the teardown in the first call only;
    [n] calls, their events and results. *)
Definition Close_all (c : session_case) (cfg : ipc_cfg) (streams : nat -> Z) (tick_first : nat -> bool)
    (n : nat) : option (list session_event * list (option goerror)) :=
  match n with
  | O => Some ([], [])
  | Datatypes.S _ =>
      events ← teardown_events c cfg streams tick_first;
      match list.last events with
      | Some (Returned err) => Some (events, replicate n err)
      | _ => None
      end
  end.

(** ** The shutdown ends, in order *)

(** The kinds of events that are counted. *)
Definition is_SessionClose (e : session_event) : bool := match e with SessionClose => true | _ => false end.
Definition is_OnClose (e : session_event) : bool := match e with OnClose _ => true | _ => false end.

(** The order of events when [Serve] ends at the [m]-th step of the shutdown. *)
Lemma session_events_ended (cb : bool) m b k serve err :
  let closing := [GoAway; CloseIdleConnections; Waited b k; ServerClose] in
  let events := take m closing ++ ((if cb then [OnClose (served serve)] else []) ++ [SessionClose; ServeDone])
                ++ drop m closing ++ [Returned err] in
  list.last events = Some (Returned err) /\
  length (List.filter is_SessionClose events) = 1%nat /\
  length (List.filter is_OnClose events) = (if cb then 1 else 0)%nat /\
  exists before mid, events = before ++ SessionClose :: ServeDone :: mid /\
    Forall (fun e => is_OnClose e = false) mid.
Proof.
  intros closing events.
  assert (He : events = (take m closing ++ (if cb then [OnClose (served serve)] else []))
                        ++ SessionClose :: ServeDone :: (drop m closing ++ [Returned err])).
  { subst events. by rewrite <- !app_assoc. }
  split; [subst events; by rewrite !app_assoc, last_snoc|].
  assert (Hm : Forall (fun e => is_OnClose e = false) (drop m closing ++ [Returned err])).
  { apply Forall_app. split; [apply Forall_drop|]; by repeat constructor. }
  split; [|split; [|by eexists _, _]];
    (clear He Hm; subst events closing; destruct m as [|[|[|[|[|m]]]]]; by destruct cb).
Qed.


