(* ===== verification/Plugin.v ===== *)
(** Package plugin, the plugin SDK: the configuration of a plugin (types.go),
    how it finds its engine (config.go), its registration (register.go,
    setup.go), the run of its stub (stub.go), and the interceptor that holds
    requests back until the registration is complete (lifecycle.go). *)

From S2P Require Import Prelude GoErrors GoStrings Secrets Api Ipc.

(** ** types.go *)

(** A nil [Version] or [Pattern] interface is [None]; the embedded pointers are
    options. The logger is left out. *)
Record Config : Type := {
  cfg_Version : option string;
  SecretsProviderConfig : option (option Pattern);
  AccessControlConfig : option unit
}.

Definition is_some {A} (o : option A) : bool := match o with Some _ => true | None => false end.

Definition Config_Valid (c : Config) : option goerror :=
  if negb (is_some (cfg_Version c)) then Some (ErrorNew "version is required")
  else if Bool.eqb (is_some (SecretsProviderConfig c)) (is_some (AccessControlConfig c))
  then Some (ErrorNew "exactly one of SecretsProviderConfig and AccessControlConfig must be set")
  else match SecretsProviderConfig c with
       | Some None => Some (ErrorNew "pattern is required")
       | _ => None
       end.

(** ** config.go *)

(** The handlers a stub can be built with. *)
Inductive Handler : Type :=
| secretsProviderPlugin
| accessControlModule.

Record cfg (Conn : Type) : Type := {
  name : string;
  conn : option Conn;
  registrationTimeout : Z
}.
Arguments Build_cfg {Conn}.
Arguments name {Conn}.
Arguments conn {Conn}.
Arguments registrationTimeout {Conn}.

Definition errPluginNotLaunchedByEngine : goerror := Sentinel "plugin not launched by secrets engine".

Section config.
Context {W Conn : Type}.

(** [ipc.Hijackify] and [net.Dial] act on the world [W]. *)
Context (hijackify : Conn -> comp W goerror Conn) (net_Dial : string -> comp W goerror Conn).
Context (daemonSocketPath : string) (filepath_Base : string -> string).

Definition ManualLaunchOption : Type := cfg Conn -> comp W goerror (cfg Conn).

Definition WithPluginName (n : string) : ManualLaunchOption := fun s =>
  if String.eqb n "" then throw (ErrorNew "plugin name cannot be empty")
  else ret {| name := n; conn := conn s; registrationTimeout := registrationTimeout s |}.

Definition WithRegistrationTimeout (timeout : Z) : ManualLaunchOption := fun s =>
  ret {| name := name s; conn := conn s; registrationTimeout := timeout |}.

Definition WithConnection (c : Conn) : ManualLaunchOption := fun s =>
  match conn s with
  | Some _ => throw (ErrorNew "connection already set")
  | None =>
      try (hijackify c) (fun r =>
        match r with
        | Err err => throw (Wrap "external plugin rejected: %w" [err])
        | Ok hijackedConn =>
            ret {| name := name s; conn := Some hijackedConn; registrationTimeout := registrationTimeout s |}
        end)
  end.

Fixpoint apply_options (opts : list ManualLaunchOption) (c : cfg Conn) : comp W goerror (cfg Conn) :=
  match opts with
  | [] => ret c
  | o :: opts' => c <-! o c ;; apply_options opts' c
  end.

Definition newCfgForManualLaunch (osArgs : list string) (opts : list ManualLaunchOption)
  : comp W goerror (cfg Conn) :=
  c <-! apply_options opts
          {| name := ""; conn := None; registrationTimeout := DefaultPluginRegistrationTimeout |} ;;
  c <-! match conn c with
        | Some _ => ret c
        | None =>
            try (net_Dial daemonSocketPath) (fun r =>
              match r with
              | Err err => throw (Wrap "failed to connect to default socket %q: %w" [err])
              | Ok dialed =>
                  try (hijackify dialed) (fun r =>
                    match r with
                    | Err err => throw (Wrap "external plugin rejected: %w" [err])
                    | Ok hijackedConn =>
                        ret {| name := name c; conn := Some hijackedConn;
                               registrationTimeout := registrationTimeout c |}
                    end)
              end)
        end ;;
  if String.eqb (name c) "" then
    match osArgs with
    | [] => throw (ErrorNew "plugin name must be specified (could not derive from os.Args)")
    | arg0 :: _ =>
        ret {| name := filepath_Base arg0; conn := conn c; registrationTimeout := registrationTimeout c |}
    end
  else ret c.

(** The value of the launch variable, and what [x/ipc] makes of it. *)
Context {Custom : Type} (isValid : Custom -> option goerror)
  (json_Unmarshal : string -> result goerror (PluginConfigFromEngine Custom))
  (fromCustomCfg : Custom -> result goerror Conn).

Definition restoreConfig (cfgString : string) : result goerror (cfg Conn) :=
  if String.eqb cfgString "" then Err errPluginNotLaunchedByEngine
  else
    c <-? NewPluginConfigFromEngineEnv isValid json_Unmarshal cfgString ;;
    cn <-? fromCustomCfg (custom c) ;;
    Ok {| name := Name c; conn := Some cn; registrationTimeout := RegistrationTimeout c |}.

Definition newCfg (cfgString : string) (osArgs : list string) (opts : list ManualLaunchOption)
  : comp W goerror (cfg Conn) :=
  match restoreConfig cfgString with
  | Ok c => ret c
  | Err err =>
      if errors_Is err errPluginNotLaunchedByEngine then newCfgForManualLaunch osArgs opts
      else throw err
  end.

(** ** stub.go: the constructors *)

(** [stub_handler] is [None] when the plugin handed in is nil. *)
Record stub : Type := { stub_cfg : cfg Conn; stub_Config : Config; stub_handler : option Handler }.

Definition newStub (config : Config) (handler : option Handler) (cfgString : string) (osArgs : list string)
    (opts : list ManualLaunchOption) : comp W goerror stub :=
  match Config_Valid config with
  | Some err => throw err
  | None =>
      c <-! newCfg cfgString osArgs opts ;;
      ret {| stub_cfg := c; stub_Config := config; stub_handler := handler |}
  end.

(** [p] tells whether the plugin is not nil. *)
Definition NewSecretsProvider (p : bool) (config : Config) (cfgString : string) (osArgs : list string)
    (opts : list ManualLaunchOption) : comp W goerror stub :=
  if negb (is_some (SecretsProviderConfig config))
  then throw (ErrorNew "secrets provider config is required")
  else newStub config (if p then Some secretsProviderPlugin else None) cfgString osArgs opts.

Definition NewAccessControlModule (p : bool) (config : Config) (cfgString : string) (osArgs : list string)
    (opts : list ManualLaunchOption) : comp W goerror stub :=
  if negb (is_some (AccessControlConfig config))
  then throw (ErrorNew "access control config is required")
  else newStub config (if p then Some accessControlModule else None) cfgString osArgs opts.
End config.

(** ** register.go *)

Inductive RegisterMetadata : Type :=
| Register_SecretsProvider (pattern : string)
| Register_AccessControlModule
| Register_not_set.

Record RegisterPluginRequest : Type := {
  rr_Name : string;
  rr_Version : string;
  rr_metadata : RegisterMetadata
}.

Record runtimeConfig : Type := { rc_Engine : string; rc_Version : string }.

(** The request of [register], for a configuration [Config_Valid] accepts; a nil
    version or pattern, which it refuses, would panic here. *)
Definition register_request (pluginName : string) (config : Config) : RegisterPluginRequest :=
  {| rr_Name := pluginName;
     rr_Version := default "" (cfg_Version config);
     rr_metadata :=
       match SecretsProviderConfig config, AccessControlConfig config with
       | Some pattern, _ => Register_SecretsProvider (default "" pattern)
       | None, Some _ => Register_AccessControlModule
       | None, None => Register_not_set
       end |}.

Section run.
Context {W : Type}.

(** The engine's end: [RegisterPlugin] over the connection, and the closing of
    the connection, with the error its teardown gives. *)
Context (engine_RegisterPlugin : RegisterPluginRequest -> comp W goerror runtimeConfig).
Context (ipc_Close : comp W goerror unit).

Definition register (pluginName : string) (config : Config) : comp W goerror runtimeConfig :=
  try (engine_RegisterPlugin (register_request pluginName config)) (fun r =>
    match r with
    | Err err => throw (Wrap "failed to register with secrets engine: %w" [err])
    | Ok rc => ret rc
    end).

Definition doRegister (pluginName : string) (config : Config) : comp W goerror runtimeConfig :=
  try (register pluginName config) (fun r =>
    match r with
    | Err err => throw (Wrap "failed to register plugin %s: %w" [err])
    | Ok rc => ret rc
    end).

(** ** setup.go *)

(** [setup]: the handler is put in place, the connection multiplexed, which can
    fail, the plugin registered, and on failure the connection closed. *)
Definition setup {Conn} (yamux_Client : option goerror) (s : @stub Conn) : comp W goerror unit :=
  match stub_handler s, yamux_Client with
  | None, _ => throw (ErrorNew "no service handler configured for plugin")
  | _, Some err => throw (Wrap "creating yamux client: %w" [err])
  | _, None =>
      try (doRegister (name (stub_cfg s)) (stub_Config s)) (fun r =>
        match r with
        | Err err => try ipc_Close (fun _ => throw err)
        | Ok _ => ret tt
        end)
  end.

(** [setup]'s callback: the engine going away is not an error of the plugin. *)
Definition onClose (err : option goerror) : option goerror := filterEOF err.

(** ** stub.go: Run *)

(** What ends a run: the context, or the connection with an error. *)
Inductive Stop : Type :=
| CtxDone
| ServerClosed (err : option goerror).

(** [running]: the mutex is held by another [Run]. The value is the error
    [Run] returns, nil as [None]. *)
Definition Run {Conn} (running : bool) (yamux_Client : option goerror) (stop : Stop) (s : @stub Conn)
  : comp W goerror (option goerror) :=
  if running then throw (ErrorNew "already running")
  else
    _ <-! setup yamux_Client s ;;
    let err := match stop with CtxDone => None | ServerClosed e => onClose e end in
    try ipc_Close (fun r =>
      let close_err := match r with Ok _ => None | Err e => Some e end in
      ret (errors_Join [close_err; err])).
End run.

(** ** Lemmas *)

(** A plugin launched by the engine takes nothing from its options. *)
Lemma newCfg_engine {W Conn Custom} (hijackify : Conn -> comp W goerror Conn) net_Dial path base
    (isValid : Custom -> option goerror) json fromCustomCfg cfgString c opts opts' args args' s :
  restoreConfig isValid json fromCustomCfg cfgString = Ok c ->
  newCfg hijackify net_Dial path base isValid json fromCustomCfg cfgString args opts s =
  newCfg hijackify net_Dial path base isValid json fromCustomCfg cfgString args' opts' s /\
  newCfg hijackify net_Dial path base isValid json fromCustomCfg cfgString args opts s = (Ok c, s).
Proof. intros H. unfold newCfg. by rewrite H. Qed.

(** The request of a valid configuration says what kind of plugin it is. *)
Lemma register_request_valid n c : Config_Valid c = None ->
  (exists v, cfg_Version c = Some v /\ rr_Version (register_request n c) = v) /\
  rr_metadata (register_request n c) =
    match SecretsProviderConfig c with
    | Some (Some p) => Register_SecretsProvider p
    | _ => Register_AccessControlModule
    end.
Proof.
  unfold Config_Valid, register_request. destruct c as [[v|] [[p|]|] [[]|]]; simpl; try discriminate;
    intros _; eauto.
Qed.

(** ** A stub runs once *)

Section once.
Context {W Conn : Type} (engine_RegisterPlugin : RegisterPluginRequest -> comp W goerror runtimeConfig)
  (ipc_Close : comp W goerror unit).

(** What the engine's end does with a connection: closing it leaves it closed,
    and nothing can be registered over a closed one, which stays closed. *)
Class Connection (conn_open : W -> bool) : Prop := {
  close_closes w : conn_open (ipc_Close w).2 = false;
  closed_refuses req w : conn_open w = false ->
    exists err w', engine_RegisterPlugin req w = (Err err, w') /\ conn_open w' = false
}.

End once.

(** An engine that accepts one connection. *)
Definition sample_register : RegisterPluginRequest -> comp bool goerror runtimeConfig := fun _ w =>
  if w then (Ok {| rc_Engine := "engine"; rc_Version := "v1.0.0" |}, w)
  else (Err (ErrorNew "session shutdown"), w).

Definition sample_close : comp bool goerror unit := fun _ => (Ok tt, false).

Lemma sample_connection : Connection sample_register sample_close (fun w => w).
Proof. split; [done|]. intros req w Hw. simpl in Hw. subst w. by eexists _, _. Qed.

Definition sample_stub : @stub unit :=
  {| stub_cfg := {| name := "sample"; conn := Some tt; registrationTimeout := 5 |};
     stub_Config := {| cfg_Version := Some "v1.0.0"; SecretsProviderConfig := Some (Some "**");
                       AccessControlConfig := None |};
     stub_handler := Some secretsProviderPlugin |}.


(** ** lifecycle.go: the gate before the handlers *)

(** The state of a request that went through [setupInterceptor]: waiting for
    the registration, handed to the handler, or answered with an error. *)
Inductive request : Type :=
| Waiting
| Served
| Refused (code : ConnectCode).

(** [setupCompleted] tells whether the channel is closed; [registering] whether
    [setup] may still close it. *)
Record gate : Type := {
  setupCompleted : bool;
  registering : bool;
  requests : gmap nat request
}.

Definition gate_init : gate := {| setupCompleted := false; registering := true; requests := ∅ |}.

Inductive gate_event : Type :=
| Arrive (n : nat)
| Wake (n : nat)
| Cancelled (n : nat)
| Expired (n : nat)
| Registered
| RegistrationFailed.

Definition set_request (g : gate) (n : nat) (r : request) : gate :=
  {| setupCompleted := setupCompleted g; registering := registering g;
     requests := <[n := r]> (requests g) |}.

(** One step; [None] when the event cannot happen. A request takes the fast path
    when the channel is closed; a waiting one takes any branch of the second
    [select] that is ready, which the timer and the context may be although
    the channel is closed too. *)
Definition gate_step (g : gate) (e : gate_event) : option gate :=
  match e with
  | Arrive n =>
      match requests g !! n with
      | Some _ => None
      | None => Some (set_request g n (if setupCompleted g then Served else Waiting))
      end
  | Wake n =>
      match requests g !! n with
      | Some Waiting => if setupCompleted g then Some (set_request g n Served) else None
      | _ => None
      end
  | Cancelled n =>
      match requests g !! n with
      | Some Waiting => Some (set_request g n (Refused CodeInternal))
      | _ => None
      end
  | Expired n =>
      match requests g !! n with
      | Some Waiting => Some (set_request g n (Refused CodeDeadlineExceeded))
      | _ => None
      end
  | Registered =>
      if registering g
      then Some {| setupCompleted := true; registering := false; requests := requests g |}
      else None
  | RegistrationFailed =>
      if registering g
      then Some {| setupCompleted := false; registering := false; requests := requests g |}
      else None
  end.

Fixpoint gate_run (g : gate) (l : list gate_event) : option gate :=
  match l with
  | [] => Some g
  | e :: l' => g' ← gate_step g e; gate_run g' l'
  end.

(** What holds of every reachable gate. *)
Definition gate_inv (g : gate) (l : list gate_event) : Prop :=
  (setupCompleted g = true <-> Registered ∈ l) /\
  (registering g = true <-> Registered ∉ l /\ RegistrationFailed ∉ l) /\
  ~ (Registered ∈ l /\ RegistrationFailed ∈ l) /\
  (forall n, requests g !! n = Some Served -> setupCompleted g = true) /\
  (forall n c, requests g !! n = Some (Refused c) -> c = CodeInternal \/ c = CodeDeadlineExceeded).

Lemma gate_run_app g l1 l2 : gate_run g (l1 ++ l2) = (g' ← gate_run g l1; gate_run g' l2).
Proof.
  revert g. induction l1 as [|e l1 IH]; intros g; simpl; [done|].
  destruct (gate_step g e); simpl; [apply IH|done].
Qed.

Lemma gate_inv_request g l e n r : gate_inv g l -> e <> Registered -> e <> RegistrationFailed ->
  (r = Served -> setupCompleted g = true) ->
  (forall c, r = Refused c -> c = CodeInternal \/ c = CodeDeadlineExceeded) ->
  gate_inv (set_request g n r) (l ++ [e]).
Proof.
  intros (H1 & H2 & H0 & H3 & H4) He1 He2 Hs Hr. unfold gate_inv. simpl.
  assert (Hin : forall x, x <> e -> x ∈ l ++ [e] <-> x ∈ l).
  { intros x Hx. rewrite elem_of_app, list_elem_of_singleton. tauto. }
  rewrite !Hin by congruence. split_and!; [done..| |].
  - intros m. rewrite lookup_insert. case_decide; [|by apply H3]. intros [= ->]. auto.
  - intros m c. rewrite lookup_insert. case_decide; [|by apply H4]. intros [= ->]. auto.
Qed.

Lemma gate_step_inv g l e g' : gate_inv g l -> gate_step g e = Some g' -> gate_inv g' (l ++ [e]).
Proof.
  intros Hi Hs. destruct e as [n|n|n|n| |]; simpl in Hs.
  - destruct (requests g !! n); simplify_eq.
    apply gate_inv_request; try done; destruct (setupCompleted g); naive_solver.
  - destruct (requests g !! n) as [[]|]; simplify_eq. destruct (setupCompleted g) eqn:Hc; simplify_eq.
    by apply gate_inv_request.
  - destruct (requests g !! n) as [[]|]; simplify_eq. apply gate_inv_request; naive_solver.
  - destruct (requests g !! n) as [[]|]; simplify_eq. apply gate_inv_request; naive_solver.
  - destruct Hi as (H1 & H2 & H0 & H3 & H4). destruct (registering g) eqn:Hr; simplify_eq.
    destruct (proj1 H2 eq_refl) as [Ha Hb].
    unfold gate_inv. simpl. rewrite !elem_of_app, !list_elem_of_singleton.
    split_and!; [tauto|split; [discriminate|tauto]|intros [_ [?|[=]]]; tauto|done..].
  - destruct Hi as (H1 & H2 & H0 & H3 & H4). destruct (registering g) eqn:Hr; simplify_eq.
    destruct (proj1 H2 eq_refl) as [Ha Hb].
    assert (Hc : setupCompleted g <> true) by tauto.
    unfold gate_inv. simpl. rewrite !elem_of_app, !list_elem_of_singleton.
    split_and!; [split; [discriminate|intros [?|[=]]; tauto]|split; [discriminate|tauto]|
      intros [[?|[=]] _]; tauto|intros n Hn; by destruct (Hc (H3 n Hn))|done].
Qed.

Lemma gate_run_inv l g : gate_run gate_init l = Some g -> gate_inv g l.
Proof.
  revert g. induction l as [|e l IH] using rev_ind; intros g Hg.
  - simpl in Hg. simplify_eq. split_and!; try done; simpl.
    + split; [done|by intros ?%elem_of_nil].
    + split; [intros _; split; apply not_elem_of_nil|done].
    + intros [?%elem_of_nil _]. done.
  - rewrite gate_run_app in Hg. destruct (gate_run gate_init l) as [g1|] eqn:H1; [|done].
    simpl in Hg. destruct (gate_step g1 e) as [g2|] eqn:H2; simplify_eq/=.
    eapply gate_step_inv; [by apply IH|done].
Qed.

(** The answer to a request does not change. *)
Lemma gate_run_settled l g g' n r : r <> Waiting -> requests g !! n = Some r ->
  gate_run g l = Some g' -> requests g' !! n = Some r.
Proof.
  intros Hr. revert g. induction l as [|e l IH]; intros g Hn Hg; simpl in Hg; [by simplify_eq|].
  destruct (gate_step g e) as [g1|] eqn:Hs; [|done]. simpl in Hg. apply (IH g1); [|done].
  destruct e as [m|m|m|m| |]; simpl in Hs; repeat case_match; simplify_eq; simpl; try done;
    rewrite lookup_insert_ne; try done; intros ->; simplify_eq.
Qed.

(** C29: No request reaches a plugin's handler before the plugin is registered:
    in every execution of the gate, from the start of [setup], a request that
    was served finds the registration completed, and a registration that failed
    is followed by no service at all. A request that is refused is refused as
    cancelled (an internal error) or as a deadline, and an answer is final. A
    request that waits can always be ended by its timer, and by the completed
    registration; once that is there, no new request waits. *)
Theorem gate_safety l g :
  gate_run gate_init l = Some g ->
  (forall n, requests g !! n = Some Served -> Registered ∈ l /\ RegistrationFailed ∉ l) /\
  (forall n c, requests g !! n = Some (Refused c) -> c = CodeInternal \/ c = CodeDeadlineExceeded) /\
  (forall n r l' g', r <> Waiting -> requests g !! n = Some r -> gate_run g l' = Some g' ->
     requests g' !! n = Some r) /\
  (forall n, requests g !! n = Some Waiting ->
     gate_step g (Expired n) = Some (set_request g n (Refused CodeDeadlineExceeded)) /\
     (Registered ∈ l -> gate_step g (Wake n) = Some (set_request g n Served))) /\
  (forall n, requests g !! n = None -> Registered ∈ l ->
     gate_step g (Arrive n) = Some (set_request g n Served)).
Proof.
  intros Hg. destruct (gate_run_inv _ _ Hg) as (H1 & H2 & H0 & H3 & H4). split_and!.
  - intros n Hn. apply H3, H1 in Hn. tauto.
  - done.
  - intros n r l' g'. apply gate_run_settled.
  - intros n Hn. simpl. rewrite Hn. split; [done|]. intros Hr. by rewrite (proj2 H1 Hr).
  - intros n Hn Hr. simpl. by rewrite Hn, (proj2 H1 Hr).
Qed.

Lemma gate_safety_witness :
  match gate_run gate_init [Arrive 1; Arrive 2; Expired 2; Registered; Wake 1; Arrive 3] with
  | Some g => requests g !! 1 = Some Served /\ requests g !! 2 = Some (Refused CodeDeadlineExceeded) /\
      (Registered ∈ [Arrive 1; Arrive 2; Expired 2; Registered; Wake 1; Arrive 3])
  | None => False
  end.
Proof.
  destruct (gate_run gate_init [Arrive 1; Arrive 2; Expired 2; Registered; Wake 1; Arrive 3])
    as [g|] eqn:Hg; [|vm_compute in Hg; discriminate Hg].
  assert (H1 : requests g !! 1 = Some Served).
  { pose proof Hg as Hg'. vm_compute in Hg'. injection Hg' as <-. reflexivity. }
  assert (H2 : requests g !! 2 = Some (Refused CodeDeadlineExceeded)).
  { pose proof Hg as Hg'. vm_compute in Hg'. injection Hg' as <-. reflexivity. }
  split; [exact H1|]. split; [exact H2|].
  exact (proj1 (proj1 (gate_safety _ g Hg) 1 H1)).
Defined.
