(* ===== verification/Rpc.v ===== *)
(** The services of x/api/*/v1 as connect generates them (api.connect.go of
    resolver, accesscontrol, plugins and health): the clients that post a
    message to the URL of a procedure, the handlers that switch on the path of a
    request, and the mux of a plugin (plugin/setup.go) that joins them, behind
    the interceptor of plugin/lifecycle.go. *)

From S2P Require Import Prelude GoErrors GoStrings Secrets Api Ipc Resolver.
From S2P Require Client AccessControl Plugin.

(** ** Messages *)

Inductive ShutdownRequest : Type := Build_ShutdownRequest.
Inductive ShutdownResponse : Type := Build_ShutdownResponse.
Inductive ListPluginsRequest : Type := Build_ListPluginsRequest.
Record ListPluginsResponse : Type := { lp_Plugins : list Client.PluginMessage }.
Record EnablePluginRequest : Type := { en_Name : string }.
Inductive EnablePluginResponse : Type := Build_EnablePluginResponse.
Record DisablePluginRequest : Type := { dis_Name : string }.
Inductive DisablePluginResponse : Type := Build_DisablePluginResponse.
Inductive GetVersionRequest : Type := Build_GetVersionRequest.

(** The messages of the four packages, as a body carries them. *)
Inductive wire : Type :=
| W_GetSecretsRequest (m : GetSecretsRequest)
| W_GetSecretsResponse (m : GetSecretsResponse)
| W_CheckAccessRequest (m : AccessControl.CheckAccessMessage)
| W_CheckAccessResponse (m : AccessControl.Decision)
| W_RegisterPluginRequest (m : Plugin.RegisterPluginRequest)
| W_RegisterPluginResponse (m : Plugin.runtimeConfig)
| W_ShutdownRequest (m : ShutdownRequest)
| W_ShutdownResponse (m : ShutdownResponse)
| W_ListPluginsRequest (m : ListPluginsRequest)
| W_ListPluginsResponse (m : ListPluginsResponse)
| W_EnablePluginRequest (m : EnablePluginRequest)
| W_EnablePluginResponse (m : EnablePluginResponse)
| W_DisablePluginRequest (m : DisablePluginRequest)
| W_DisablePluginResponse (m : DisablePluginResponse)
| W_GetVersionRequest (m : GetVersionRequest)
| W_GetVersionResponse (m : Client.GetVersionResponse).

(** A message: how it is one of them, and whether it can be sent, since Protobuf
    refuses strings that are not UTF-8. *)
Class Message (M : Type) : Type := {
  to_wire : M -> wire;
  of_wire : wire -> option M;
  of_to_wire m : of_wire (to_wire m) = Some m;
  encodable : M -> bool
}.

(** ** connectrpc.com/connect and net/http *)

Definition CodeUnimplemented : ConnectCode := CodeOther 12.

(** The path of a URL of the form http://host/path, without escapes. *)
Definition URL_Path (url : string) : string :=
  match CutPrefix url "http://" with
  | (rest, true) => let '(_, p, found) := Cut rest "/" in if found : bool then "/" +:+ p else ""
  | (_, false) => url
  end.

(** What the program uses of the two packages, over the state [St] behind the
    connection: requests and responses, the unary handler made of a method, and
    the unary call of a client, which posts through an [http.Client]. *)
Class Connect (St Request Response : Type) : Type := {
  r_Path : Request -> string;
  http_NotFound : Response;
  http_Redirect : Response;
  http_OK : string -> Response;
  serve {Req Res} `{Message Req} `{Message Res} :
    (Req -> comp St goerror Res) -> Request -> St -> Response * St;
  CallUnary {Req Res} `{Message Req} `{Message Res} :
    (Request -> comp St goerror Response) -> string -> Req -> comp St goerror Res
}.

Section http.
Context {St Request Response : Type} `{Connect St Request Response}.

Definition Handler : Type := Request -> St -> Response * St.
Definition HTTPClient : Type := Request -> comp St goerror Response.

(** A client whose requests reach a server. *)
Definition over (h : Handler) : HTTPClient := fun r s => let '(resp, s') := h r s in (Ok resp, s').

(** The options of a handler: the interceptors around its methods. *)
Definition HandlerOption : Type := forall Req Res : Type, (Req -> comp St goerror Res) -> Req -> comp St goerror Res.
Definition no_option : HandlerOption := fun _ _ next => next.

Definition NewUnaryHandler {Req Res} `{Message Req} `{Message Res} (svc : Req -> comp St goerror Res)
    (opts : HandlerOption) : Handler := serve (opts Req Res svc).

(** The switch of a service's handler over its procedures. *)
Fixpoint switch (cases : list (string * Handler)) : Handler := fun r s =>
  match cases with
  | [] => (http_NotFound, s)
  | (procedure, h) :: cases' => if String.eqb (r_Path r) procedure then h r s else switch cases' r s
  end.

Definition not_implemented {Req Res} (method : string) (_ : Req) : comp St goerror Res :=
  throw (ConnectError CodeUnimplemented (ErrorNew (method +:+ " is not implemented"))).

Definition trim_base (baseURL : string) : string := TrimRightByte baseURL "/".

(** ** http.ServeMux *)

Definition ServeMux : Type := list (string * Handler).

(** A pattern that ends in a slash matches the paths below it. *)
Definition mux_matches (pattern path : string) : bool :=
  if HasSuffix pattern "/" then HasPrefix path pattern else String.eqb path pattern.

(** [Handle] panics on a pattern that is there already, the [None] of it. *)
Definition Handle (ph : string * Handler) (mux : ServeMux) : option ServeMux :=
  if existsb (fun q => String.eqb q.1 ph.1) mux then None else Some (ph :: mux).

(** The longest pattern that matches a clean path. *)
Fixpoint mux_find (path : string) (mux : ServeMux) : option (string * Handler) :=
  match mux with
  | [] => None
  | ph :: mux' =>
      if mux_matches ph.1 path then
        match mux_find path mux' with
        | Some qh => if (String.length ph.1 <? String.length qh.1)%nat then Some qh else Some ph
        | None => Some ph
        end
      else mux_find path mux'
  end.

(** Without a match, the path of a subtree without its slash is redirected. *)
Definition mux_ServeHTTP (mux : ServeMux) : Handler := fun r s =>
  match mux_find (r_Path r) mux with
  | Some (_, h) => h r s
  | None =>
      if existsb (fun q => String.eqb q.1 (r_Path r +:+ "/")) mux then (http_Redirect, s)
      else (http_NotFound, s)
  end.
End http.

(** ** What the packages promise *)

(** Requests for the path of the URL end in the method [f]. *)
Definition reaches {St Request Response} `{Connect St Request Response} {Req Res} `{Message Req} `{Message Res}
    (cl : Request -> comp St goerror Response) (url : string) (f : Req -> comp St goerror Res) : Prop :=
  forall r s, r_Path r = URL_Path url -> cl r s = over (serve f) r s.

(** A unary call: messages that can be sent arrive as they were sent; of an
    error of the method, its code and its text arrive; a path that is not found
    is an unimplemented procedure; an error of the HTTP client is wrapped as
    unavailable. *)
Class ConnectSpec {St Request Response} `{Connect St Request Response} : Prop := {
  call_ok {Req Res} `{Message Req} `{Message Res} cl url (f : Req -> comp St goerror Res) msg s resp s' :
    reaches cl url f -> encodable msg = true -> f msg s = (Ok resp, s') -> encodable resp = true ->
    CallUnary cl url msg s = (Ok resp, s');
  call_err {Req Res} `{Message Req} `{Message Res} cl url (f : Req -> comp St goerror Res) msg s err s' :
    reaches cl url f -> encodable msg = true -> f msg s = (Err err, s') ->
    exists text, CallUnary (Res := Res) cl url msg s =
      (Err (ConnectError (connect_CodeOf err) (ErrorNew text)), s');
  call_not_found {Req Res} `{Message Req} `{Message Res} cl url (msg : Req) s :
    (forall r, r_Path r = URL_Path url -> cl r s = (Ok http_NotFound, s)) -> encodable msg = true ->
    exists text, CallUnary (Res := Res) cl url msg s =
      (Err (ConnectError CodeUnimplemented (ErrorNew text)), s);
  call_fails {Req Res} `{Message Req} `{Message Res} cl url (msg : Req) s err s' :
    (forall r, r_Path r = URL_Path url -> cl r s = (Err err, s')) -> errors_As_Connect err = None ->
    encodable msg = true ->
    exists err', CallUnary (Res := Res) cl url msg s = (Err err', s') /\
      errors_As_OpError err' = errors_As_OpError err /\ connect_CodeOf err' = CodeUnavailable
}.

(** Packages that keep it: a request is a path and a message. *)
Inductive wire_response : Type :=
| WireOk (w : wire)
| WireText (s : string)
| WireError (code : ConnectCode)
| WireNotFound
| WireRedirect.

#[export] Instance wire_connect {St} : Connect St (string * wire) wire_response := {
  r_Path := fst;
  http_NotFound := WireNotFound;
  http_Redirect := WireRedirect;
  http_OK := WireText;
  serve Req Res _ _ f r s :=
    match of_wire r.2 with
    | None => (WireError CodeInvalidArgument, s)
    | Some msg =>
        match f msg s with
        | (Ok resp, s') => (if encodable resp then WireOk (to_wire resp) else WireError CodeInternal, s')
        | (Err err, s') => (WireError (connect_CodeOf err), s')
        end
    end;
  CallUnary Req Res _ _ cl url msg s :=
    if encodable msg then
      match cl (URL_Path url, to_wire msg) s with
      | (Err err, s') => (Err (ConnectError CodeUnavailable err), s')
      | (Ok (WireOk w), s') =>
          match of_wire w with
          | Some resp => (Ok resp, s')
          | None => (Err (ConnectError CodeInvalidArgument (ErrorNew "unmarshal message")), s')
          end
      | (Ok (WireError code), s') => (Err (ConnectError code (ErrorNew "remote error")), s')
      | (Ok WireNotFound, s') => (Err (ConnectError CodeUnimplemented (ErrorNew "404 Not Found")), s')
      | (Ok _, s') => (Err (ConnectError CodeUnknown (ErrorNew "unexpected response")), s')
      end
    else (Err (ConnectError CodeInternal (ErrorNew "marshal message")), s)
}.

#[export] Instance wire_connect_spec {St} : ConnectSpec (St := St) (H := wire_connect).
Proof.
  split.
  - intros Req Res ? ? cl url f msg s resp s' Hr Hm Hf He. cbn. rewrite Hm.
    rewrite (Hr (URL_Path url, to_wire msg) s eq_refl). unfold over. cbn.
    by rewrite of_to_wire, Hf, He, of_to_wire.
  - intros Req Res ? ? cl url f msg s err s' Hr Hm Hf. cbn. rewrite Hm.
    rewrite (Hr (URL_Path url, to_wire msg) s eq_refl). unfold over. cbn.
    rewrite of_to_wire, Hf. by eexists.
  - intros Req Res ? ? cl url msg s Hr Hm. cbn. rewrite Hm, Hr by done. by eexists.
  - intros Req Res ? ? cl url msg s err s' Hr _ Hm. cbn. rewrite Hm, Hr by done. by eexists.
Qed.

(** ** Lemmas: routes *)

(** The base of a server's URLs, with any number of slashes at its end. *)
Definition server_base (base : string) : Prop :=
  exists host, byte_free "/" host = true /\ trim_base base = "http://" +:+ host.

Lemma server_base_unix : server_base "http://unix".
Proof. by exists "unix". Qed.

Lemma URL_Path_base base procedure : server_base base ->
  URL_Path (trim_base base +:+ String "/" procedure) = String "/" procedure.
Proof.
  intros (host & Hh & ->). unfold URL_Path.
  rewrite append_assoc, CutPrefix_append, Cut_append; done.
Qed.

Section routes.
Context {St Request Response : Type} `{Connect St Request Response}.

Lemma mux_find_only path (mux : @ServeMux St Request Response) ph : ph ∈ mux -> NoDup mux.*1 -> mux_matches ph.1 path = true ->
  (forall q, q ∈ mux -> mux_matches q.1 path = true -> q.1 = ph.1) ->
  mux_find path mux = Some ph.
Proof.
  intros Hin Hnd Hm Honly. induction mux as [|q mux IH]; [by apply elem_of_nil in Hin|].
  cbn in Hnd. apply list.NoDup_cons in Hnd as [Hq Hnd]. cbn [mux_find].
  assert (Hnone : q = ph -> mux_find path mux = None).
  { intros ->. clear IH Hin. assert (Hno : forall q, q ∈ mux -> mux_matches q.1 path = false).
    { intros q Hq'. apply not_true_iff_false. intros Hq2. apply Hq, list_elem_of_fmap.
      exists q. split; [|done]. symmetry. apply Honly; [by right|done]. }
    clear -Hno. induction mux as [|q mux IH]; [done|]. cbn. rewrite (Hno q) by by left.
    apply IH. intros ? ?. apply Hno. by right. }
  destruct (mux_matches q.1 path) eqn:Hq1.
  - assert (Heq : q = ph).
    { apply elem_of_cons in Hin as [->|Hin]; [done|]. destruct Hq. apply list_elem_of_fmap.
      exists ph. split; [|done]. apply Honly; [by left|done]. }
    rewrite (Hnone Heq). by rewrite Heq.
  - apply elem_of_cons in Hin as [->|Hin]; [by rewrite Hm in Hq1|]. apply IH; try done.
    intros q' Hq'. apply Honly. by right.
Qed.

Lemma mux_find_none path (mux : @ServeMux St Request Response) : (forall q, q ∈ mux -> mux_matches q.1 path = false) ->
  mux_find path mux = None.
Proof.
  induction mux as [|q mux IH]; intros Hno; [done|]. cbn. rewrite (Hno q) by by left.
  apply IH. intros ? ?. apply Hno. by right.
Qed.
End routes.

(** The patterns of the program's muxes. *)
Definition patterns : list string :=
  ["/health"; "/resolver.v1.ResolverService/"; "/accesscontrol.v1.AccessControlService/";
   "/health.v1.VersionService/"; "/plugins.v1.RegisterService/"; "/plugins.v1.PluginService/";
   "/plugins.v1.PluginManagementService/"].

(** A procedure below one of them and no other, and not the root of one. *)
Definition routed (pat procedure : string) : bool :=
  forallb (fun q => Bool.eqb (mux_matches q procedure) (String.eqb q pat)) patterns &&
  mux_matches pat procedure && negb (existsb (fun q => String.eqb q (procedure +:+ "/")) patterns) &&
  HasPrefix procedure "/".

(** A client's method [g] that does what the handler's [f] does. *)
Definition relays {St Req Res} `{Message Req} `{Message Res} (f g : Req -> comp St goerror Res) : Prop :=
  forall msg s, encodable msg = true ->
    match f msg s with
    | (Ok resp, s') => encodable resp = true -> g msg s = (Ok resp, s')
    | (Err err, s') => exists text, g msg s = (Err (ConnectError (connect_CodeOf err) (ErrorNew text)), s')
    end.

(** One that the server does not have. *)
Definition refused {St Req Res} `{Message Req} (g : Req -> comp St goerror Res) : Prop :=
  forall msg s, encodable msg = true ->
    exists text, g msg s = (Err (ConnectError CodeUnimplemented (ErrorNew text)), s).

Section calls.
Context {St Request Response : Type} `{ConnectSpec St Request Response}.

(** A mux of distinct patterns of the program. *)
Definition well_mounted (mux : @ServeMux St Request Response) : Prop :=
  NoDup mux.*1 /\ forall q, q ∈ mux.*1 -> q ∈ patterns.

Lemma routed_inv pat procedure : routed pat procedure = true ->
  (forall q, q ∈ patterns -> mux_matches q procedure = String.eqb q pat) /\
  mux_matches pat procedure = true /\ (forall q, q ∈ patterns -> q <> procedure +:+ "/") /\
  exists p, procedure = String "/" p.
Proof.
  unfold routed. intros [[[H1 H2]%andb_true_iff H3]%andb_true_iff H4]%andb_true_iff. split_and!.
  - intros q Hq. rewrite forallb_elem in H1. by apply Bool.eqb_prop, H1.
  - done.
  - intros q Hq ->. apply negb_true_iff, not_true_iff_false in H3. apply H3, existsb_elem.
    eexists. split; [exact Hq|]. apply String.eqb_refl.
  - apply HasPrefix_spec in H4 as [p ->]. by exists p.
Qed.

Lemma routed_spec pat procedure q : routed pat procedure = true -> q ∈ patterns ->
  (mux_matches q procedure = true -> q = pat) /\ q <> procedure +:+ "/".
Proof.
  intros (H1 & _ & H3 & _)%routed_inv Hq. split; [|by apply H3]. rewrite H1 by done. apply String.eqb_eq.
Qed.

Lemma routed_slash pat procedure : routed pat procedure = true -> exists p, procedure = String "/" p.
Proof. by intros (_ & _ & _ & Hp)%routed_inv. Qed.

(** A request for a procedure of a mounted service gets to its switch. *)
Lemma mounted_serves mux pat procedure h r s : well_mounted mux -> (pat, h) ∈ mux ->
  routed pat procedure = true -> r_Path r = procedure -> mux_ServeHTTP mux r s = h r s.
Proof.
  intros [Hnd Hk] Hin Hr Hp. unfold mux_ServeHTTP. rewrite Hp.
  assert (Hm : mux_matches pat procedure = true) by (by apply routed_inv in Hr as (_ & ? & _)).
  rewrite (mux_find_only procedure mux (pat, h)); try done.
  intros q Hq Hqm. apply (routed_spec pat procedure q.1 Hr); [|done].
  apply Hk, list_elem_of_fmap. by exists q.
Qed.

Lemma unmounted_serves mux pat procedure r s : well_mounted mux -> pat ∉ mux.*1 ->
  routed pat procedure = true -> r_Path r = procedure -> mux_ServeHTTP mux r s = (http_NotFound, s).
Proof.
  intros [Hnd Hk] Hin Hr Hp. unfold mux_ServeHTTP. rewrite Hp, mux_find_none.
  - rewrite (proj1 (not_true_iff_false _)); [done|]. intros (q & Hq & He)%existsb_elem.
    apply String.eqb_eq in He. destruct (routed_spec pat procedure q.1 Hr); [|done].
    apply Hk, list_elem_of_fmap. by exists q.
  - intros q Hq. apply not_true_iff_false. intros Hm.
    assert (Hq1 : q.1 ∈ mux.*1) by (apply list_elem_of_fmap; by exists q).
    apply (routed_spec pat procedure q.1 Hr) in Hm; [|by apply Hk]. by subst pat.
Qed.

(** Calls of a mounted procedure are relayed, the others refused. *)
Lemma call_relays {Req Res} `{Message Req} `{Message Res} mux base pat procedure h (f : Req -> comp St goerror Res) :
  well_mounted mux -> server_base base -> (pat, h) ∈ mux -> routed pat procedure = true ->
  (forall r s, r_Path r = procedure -> h r s = serve f r s) ->
  relays f (CallUnary (over (mux_ServeHTTP mux)) (trim_base base +:+ procedure)).
Proof.
  intros Hm Hb Hin Hr Hh. destruct (routed_slash _ _ Hr) as [p Hp].
  assert (Hreach : reaches (over (mux_ServeHTTP mux)) (trim_base base +:+ procedure) f).
  { intros r s Hpath. rewrite Hp, URL_Path_base in Hpath by done. rewrite <- Hp in Hpath. unfold over.
    rewrite (mounted_serves mux pat procedure h) by done. by rewrite Hh. }
  intros msg s He. destruct (f msg s) as [[resp|err] s'] eqn:Hf.
  - intros Her. by apply (call_ok _ _ f).
  - by apply (call_err _ _ f).
Qed.

Lemma call_refused {Req Res} `{Message Req} `{Message Res} mux base pat procedure :
  well_mounted mux -> server_base base -> pat ∉ mux.*1 -> routed pat procedure = true ->
  refused (Req := Req) (Res := Res) (CallUnary (over (mux_ServeHTTP mux)) (trim_base base +:+ procedure)).
Proof.
  intros Hm Hb Hin Hr msg s He. destruct (routed_slash _ _ Hr) as [p Hp].
  apply call_not_found; [|done]. intros r Hpath. rewrite Hp, URL_Path_base in Hpath by done.
  rewrite <- Hp in Hpath. unfold over. by rewrite (unmounted_serves mux pat procedure).
Qed.
End calls.

(** ** The services *)

Section services.
Context {St Request Response : Type} `{Connect St Request Response} (utf8 : string -> bool).

(** The strings of each message. *)
Definition encodable_signer (s : AccessControl.SignerMessage) : bool :=
  forallb utf8 [AccessControl.s_cert_issuer s; AccessControl.s_cert_identity s; AccessControl.s_source_repo s;
    AccessControl.s_source_ref s; AccessControl.s_source_commit s; AccessControl.s_runner_environment s;
    AccessControl.s_build_trigger s; AccessControl.s_run_invocation_uri s].

Definition encodable_signing (i : AccessControl.signing_info) : bool :=
  match i with
  | AccessControl.Requester_Darwin d =>
      forallb utf8 [AccessControl.d_team_id d; AccessControl.d_identifier d; AccessControl.d_organization d;
        AccessControl.d_common_name d; AccessControl.d_cd_hash d]
  | AccessControl.Requester_Windows w =>
      forallb utf8 [AccessControl.w_subject_org w; AccessControl.w_subject_common_name w; AccessControl.w_issuer w;
        AccessControl.w_thumbprint_sha256 w; AccessControl.w_company_name w; AccessControl.w_product_name w;
        AccessControl.w_file_version w]
  | AccessControl.Requester_Linux signers => forallb encodable_signer signers
  | AccessControl.Requester_not_set => true
  end.

Definition encodable_CheckAccess (m : AccessControl.CheckAccessMessage) : bool :=
  utf8 (AccessControl.cam_pattern m) &&
  match AccessControl.cam_requester m with
  | Some r => utf8 (AccessControl.r_name r) && utf8 (AccessControl.r_absolute_binary_path r) &&
      encodable_signing (AccessControl.r_signing_info r)
  | None => true
  end.

Definition encodable_RegisterPlugin (m : Plugin.RegisterPluginRequest) : bool :=
  utf8 (Plugin.rr_Name m) && utf8 (Plugin.rr_Version m) &&
  match Plugin.rr_metadata m with Plugin.Register_SecretsProvider p => utf8 p | _ => true end.

Definition encodable_plugin (p : Client.PluginMessage) : bool :=
  utf8 (Client.pm_name p) && utf8 (Client.pm_version p) && utf8 (Client.pm_statusMessage p) &&
  match Client.pm_metadata p with Client.Plugin_SecretsProvider pat => utf8 pat | _ => true end.

#[local] Instance GetSecretsRequest_Message : Message GetSecretsRequest :=
  {| to_wire := W_GetSecretsRequest; of_wire w := match w with W_GetSecretsRequest m => Some m | _ => None end; of_to_wire _ := eq_refl;
     encodable := encodable_request utf8 |}.
#[local] Instance GetSecretsResponse_Message : Message GetSecretsResponse :=
  {| to_wire := W_GetSecretsResponse; of_wire w := match w with W_GetSecretsResponse m => Some m | _ => None end; of_to_wire _ := eq_refl;
     encodable := encodable_response utf8 |}.
#[local] Instance CheckAccessRequest_Message : Message AccessControl.CheckAccessMessage :=
  {| to_wire := W_CheckAccessRequest; of_wire w := match w with W_CheckAccessRequest m => Some m | _ => None end; of_to_wire _ := eq_refl;
     encodable := encodable_CheckAccess |}.
#[local] Instance CheckAccessResponse_Message : Message AccessControl.Decision :=
  {| to_wire := W_CheckAccessResponse; of_wire w := match w with W_CheckAccessResponse m => Some m | _ => None end; of_to_wire _ := eq_refl;
     encodable := fun _ => true |}.
#[local] Instance RegisterPluginRequest_Message : Message Plugin.RegisterPluginRequest :=
  {| to_wire := W_RegisterPluginRequest; of_wire w := match w with W_RegisterPluginRequest m => Some m | _ => None end; of_to_wire _ := eq_refl;
     encodable := encodable_RegisterPlugin |}.
#[local] Instance RegisterPluginResponse_Message : Message Plugin.runtimeConfig :=
  {| to_wire := W_RegisterPluginResponse; of_wire w := match w with W_RegisterPluginResponse m => Some m | _ => None end; of_to_wire _ := eq_refl;
     encodable := fun m => utf8 (Plugin.rc_Engine m) && utf8 (Plugin.rc_Version m) |}.
#[local] Instance ShutdownRequest_Message : Message ShutdownRequest :=
  {| to_wire := W_ShutdownRequest; of_wire w := match w with W_ShutdownRequest m => Some m | _ => None end; of_to_wire _ := eq_refl;
     encodable := fun _ => true |}.
#[local] Instance ShutdownResponse_Message : Message ShutdownResponse :=
  {| to_wire := W_ShutdownResponse; of_wire w := match w with W_ShutdownResponse m => Some m | _ => None end; of_to_wire _ := eq_refl;
     encodable := fun _ => true |}.
#[local] Instance ListPluginsRequest_Message : Message ListPluginsRequest :=
  {| to_wire := W_ListPluginsRequest; of_wire w := match w with W_ListPluginsRequest m => Some m | _ => None end; of_to_wire _ := eq_refl;
     encodable := fun _ => true |}.
#[local] Instance ListPluginsResponse_Message : Message ListPluginsResponse :=
  {| to_wire := W_ListPluginsResponse; of_wire w := match w with W_ListPluginsResponse m => Some m | _ => None end; of_to_wire _ := eq_refl;
     encodable := fun m => forallb encodable_plugin (lp_Plugins m) |}.
#[local] Instance EnablePluginRequest_Message : Message EnablePluginRequest :=
  {| to_wire := W_EnablePluginRequest; of_wire w := match w with W_EnablePluginRequest m => Some m | _ => None end; of_to_wire _ := eq_refl;
     encodable := fun m => utf8 (en_Name m) |}.
#[local] Instance EnablePluginResponse_Message : Message EnablePluginResponse :=
  {| to_wire := W_EnablePluginResponse; of_wire w := match w with W_EnablePluginResponse m => Some m | _ => None end; of_to_wire _ := eq_refl;
     encodable := fun _ => true |}.
#[local] Instance DisablePluginRequest_Message : Message DisablePluginRequest :=
  {| to_wire := W_DisablePluginRequest; of_wire w := match w with W_DisablePluginRequest m => Some m | _ => None end; of_to_wire _ := eq_refl;
     encodable := fun m => utf8 (dis_Name m) |}.
#[local] Instance DisablePluginResponse_Message : Message DisablePluginResponse :=
  {| to_wire := W_DisablePluginResponse; of_wire w := match w with W_DisablePluginResponse m => Some m | _ => None end; of_to_wire _ := eq_refl;
     encodable := fun _ => true |}.
#[local] Instance GetVersionRequest_Message : Message GetVersionRequest :=
  {| to_wire := W_GetVersionRequest; of_wire w := match w with W_GetVersionRequest m => Some m | _ => None end; of_to_wire _ := eq_refl;
     encodable := fun _ => true |}.
#[local] Instance GetVersionResponse_Message : Message Client.GetVersionResponse :=
  {| to_wire := W_GetVersionResponse; of_wire w := match w with W_GetVersionResponse m => Some m | _ => None end; of_to_wire _ := eq_refl;
     encodable := fun m => forallb utf8 [Client.gv_version m; Client.gv_date m; Client.gv_commitHash m] |}.

(** ** resolver.v1 *)

Definition ResolverServiceGetSecretsProcedure : string := "/resolver.v1.ResolverService/GetSecrets".

(** The methods of the service: the client's interface and the handler's. *)
Record ResolverService : Type := {
  rs_GetSecrets : GetSecretsRequest -> comp St goerror GetSecretsResponse
}.

Definition NewResolverServiceClient (httpClient : HTTPClient) (baseURL : string) : ResolverService :=
  let baseURL := trim_base baseURL in
  {| rs_GetSecrets := CallUnary httpClient (baseURL +:+ ResolverServiceGetSecretsProcedure) |}.

Definition NewResolverServiceHandler (svc : ResolverService) (opts : HandlerOption) : string * Handler :=
  let getSecretsHandler := NewUnaryHandler (rs_GetSecrets svc) opts in
  ("/resolver.v1.ResolverService/", switch [(ResolverServiceGetSecretsProcedure, getSecretsHandler)]).

Definition UnimplementedResolverServiceHandler : ResolverService :=
  {| rs_GetSecrets := not_implemented "resolver.v1.ResolverService.GetSecrets" |}.

(** ** accesscontrol.v1 *)

Definition AccessControlServiceCheckAccessProcedure : string := "/accesscontrol.v1.AccessControlService/CheckAccess".

Record AccessControlService : Type := {
  ac_CheckAccess : AccessControl.CheckAccessMessage -> comp St goerror AccessControl.Decision
}.

Definition NewAccessControlServiceClient (httpClient : HTTPClient) (baseURL : string) : AccessControlService :=
  let baseURL := trim_base baseURL in
  {| ac_CheckAccess := CallUnary httpClient (baseURL +:+ AccessControlServiceCheckAccessProcedure) |}.

Definition NewAccessControlServiceHandler (svc : AccessControlService) (opts : HandlerOption) : string * Handler :=
  let checkAccessHandler := NewUnaryHandler (ac_CheckAccess svc) opts in
  ("/accesscontrol.v1.AccessControlService/",
   switch [(AccessControlServiceCheckAccessProcedure, checkAccessHandler)]).

Definition UnimplementedAccessControlServiceHandler : AccessControlService :=
  {| ac_CheckAccess := not_implemented "accesscontrol.v1.AccessControlService.CheckAccess" |}.

(** ** health.v1 *)

Definition VersionServiceGetVersionProcedure : string := "/health.v1.VersionService/GetVersion".

Record VersionService : Type := {
  vs_GetVersion : GetVersionRequest -> comp St goerror Client.GetVersionResponse
}.

Definition NewVersionServiceClient (httpClient : HTTPClient) (baseURL : string) : VersionService :=
  let baseURL := trim_base baseURL in
  {| vs_GetVersion := CallUnary httpClient (baseURL +:+ VersionServiceGetVersionProcedure) |}.

Definition NewVersionServiceHandler (svc : VersionService) (opts : HandlerOption) : string * Handler :=
  let getVersionHandler := NewUnaryHandler (vs_GetVersion svc) opts in
  ("/health.v1.VersionService/", switch [(VersionServiceGetVersionProcedure, getVersionHandler)]).

Definition UnimplementedVersionServiceHandler : VersionService :=
  {| vs_GetVersion := not_implemented "health.v1.VersionService.GetVersion" |}.

(** ** plugins.v1 *)

Definition RegisterServiceRegisterPluginProcedure : string := "/plugins.v1.RegisterService/RegisterPlugin".
Definition PluginServiceShutdownProcedure : string := "/plugins.v1.PluginService/Shutdown".
Definition PluginManagementServiceListPluginsProcedure : string := "/plugins.v1.PluginManagementService/ListPlugins".
Definition PluginManagementServiceEnablePluginProcedure : string := "/plugins.v1.PluginManagementService/EnablePlugin".
Definition PluginManagementServiceDisablePluginProcedure : string :=
  "/plugins.v1.PluginManagementService/DisablePlugin".

Record RegisterService : Type := {
  reg_RegisterPlugin : Plugin.RegisterPluginRequest -> comp St goerror Plugin.runtimeConfig
}.

Definition NewRegisterServiceClient (httpClient : HTTPClient) (baseURL : string) : RegisterService :=
  let baseURL := trim_base baseURL in
  {| reg_RegisterPlugin := CallUnary httpClient (baseURL +:+ RegisterServiceRegisterPluginProcedure) |}.

Definition NewRegisterServiceHandler (svc : RegisterService) (opts : HandlerOption) : string * Handler :=
  let registerPluginHandler := NewUnaryHandler (reg_RegisterPlugin svc) opts in
  ("/plugins.v1.RegisterService/", switch [(RegisterServiceRegisterPluginProcedure, registerPluginHandler)]).

Definition UnimplementedRegisterServiceHandler : RegisterService :=
  {| reg_RegisterPlugin := not_implemented "plugins.v1.RegisterService.RegisterPlugin" |}.

Record PluginService : Type := {
  ps_Shutdown : ShutdownRequest -> comp St goerror ShutdownResponse
}.

Definition NewPluginServiceClient (httpClient : HTTPClient) (baseURL : string) : PluginService :=
  let baseURL := trim_base baseURL in
  {| ps_Shutdown := CallUnary httpClient (baseURL +:+ PluginServiceShutdownProcedure) |}.

Definition NewPluginServiceHandler (svc : PluginService) (opts : HandlerOption) : string * Handler :=
  let shutdownHandler := NewUnaryHandler (ps_Shutdown svc) opts in
  ("/plugins.v1.PluginService/", switch [(PluginServiceShutdownProcedure, shutdownHandler)]).

Definition UnimplementedPluginServiceHandler : PluginService :=
  {| ps_Shutdown := not_implemented "plugins.v1.PluginService.Shutdown" |}.

Record PluginManagementService : Type := {
  pms_ListPlugins : ListPluginsRequest -> comp St goerror ListPluginsResponse;
  pms_EnablePlugin : EnablePluginRequest -> comp St goerror EnablePluginResponse;
  pms_DisablePlugin : DisablePluginRequest -> comp St goerror DisablePluginResponse
}.

Definition NewPluginManagementServiceClient (httpClient : HTTPClient) (baseURL : string)
  : PluginManagementService :=
  let baseURL := trim_base baseURL in
  {| pms_ListPlugins := CallUnary httpClient (baseURL +:+ PluginManagementServiceListPluginsProcedure);
     pms_EnablePlugin := CallUnary httpClient (baseURL +:+ PluginManagementServiceEnablePluginProcedure);
     pms_DisablePlugin := CallUnary httpClient (baseURL +:+ PluginManagementServiceDisablePluginProcedure) |}.

Definition NewPluginManagementServiceHandler (svc : PluginManagementService) (opts : HandlerOption)
  : string * Handler :=
  let listPluginsHandler := NewUnaryHandler (pms_ListPlugins svc) opts in
  let enablePluginHandler := NewUnaryHandler (pms_EnablePlugin svc) opts in
  let disablePluginHandler := NewUnaryHandler (pms_DisablePlugin svc) opts in
  ("/plugins.v1.PluginManagementService/",
   switch [(PluginManagementServiceListPluginsProcedure, listPluginsHandler);
           (PluginManagementServiceEnablePluginProcedure, enablePluginHandler);
           (PluginManagementServiceDisablePluginProcedure, disablePluginHandler)]).

Definition UnimplementedPluginManagementServiceHandler : PluginManagementService :=
  {| pms_ListPlugins := not_implemented "plugins.v1.PluginManagementService.ListPlugins";
     pms_EnablePlugin := not_implemented "plugins.v1.PluginManagementService.EnablePlugin";
     pms_DisablePlugin := not_implemented "plugins.v1.PluginManagementService.DisablePlugin" |}.

(** ** plugin/lifecycle.go and plugin/setup.go *)

Definition pluginService_Shutdown (shutdown : comp St goerror unit) (_ : ShutdownRequest)
  : comp St goerror ShutdownResponse :=
  _ <-! shutdown ;;
  ret Build_ShutdownResponse.

(** [wait] is what the selects on the registration come to: nil, or the error
    of a cancelled or an expired request. *)
Definition setupInterceptor (wait : comp St goerror unit) : HandlerOption := fun _ _ next req =>
  _ <-! wait ;;
  next req.

(** The plugin a stub was built with. *)
Inductive plugin_handler {SigningInfo : Type} : Type :=
| SecretsProviderPlugin (p : Resolver St)
| AccessControlPlugin (fromProto : AccessControl.Requester -> SigningInfo)
    (m : AccessControl.CheckAccessRequest SigningInfo -> comp St goerror bool).

(** The mux of [setup]; [None] is a panic of [Handle]. *)
Definition plugin_mux {SigningInfo} (shutdown wait : comp St goerror unit)
    (plugin : option (@plugin_handler SigningInfo)) : option (result goerror ServeMux) :=
  httpMux ← Handle ("/health", fun _ s => (http_OK "ok", s)) [];
  httpMux ← Handle (NewPluginServiceHandler {| ps_Shutdown := pluginService_Shutdown shutdown |} no_option) httpMux;
  let gated := setupInterceptor wait in
  match plugin with
  | Some (SecretsProviderPlugin p) =>
      httpMux ← Handle (NewResolverServiceHandler {| rs_GetSecrets := resolverService_GetSecrets p |} gated) httpMux;
      Some (Ok httpMux)
  | Some (AccessControlPlugin fromProto m) =>
      httpMux ← Handle (NewAccessControlServiceHandler
        {| ac_CheckAccess := AccessControl.CheckAccess fromProto m |} gated) httpMux;
      Some (Ok httpMux)
  | None => Some (Err (ErrorNew "no service handler configured for plugin"))
  end.

(** ** client/client.go *)

(** [NewResolverClient] and the clients of [New]. *)
Definition NewResolverClient (httpClient : HTTPClient) : Resolver St :=
  resolverClient_GetSecrets (rs_GetSecrets (NewResolverServiceClient httpClient "http://unix")).

Record client : Type := {
  resolverClient : Resolver St;
  engineClient : PluginManagementService;
  versionClient : VersionService
}.

(** [PluginManagementFromClient]: the assertion that a [Client] has these methods
    as well, which the one of [New] has. *)
Definition PluginManagementFromClient {C} (as_PluginManagement : C -> option client) (c : C) : result goerror client :=
  match as_PluginManagement c with
  | None => Err (ErrorNew "client does not implement PluginManagement")
  | Some m => Ok m
  end.

Definition client_over (httpClient : HTTPClient) : client :=
  {| resolverClient := NewResolverClient httpClient;
     engineClient := NewPluginManagementServiceClient httpClient "http://unix";
     versionClient := NewVersionServiceClient httpClient "http://unix" |}.

Definition client_GetSecrets (c : client) : Resolver St := Client.GetSecrets (resolverClient c).

Definition client_Version (c : client) : comp St goerror Api.DaemonVersion :=
  try (vs_GetVersion (versionClient c) Build_GetVersionRequest) (fun resp => lift (Client.Version resp)).

Definition client_ListPlugins (c : client) : comp St goerror (list Client.PluginInfo) :=
  try (pms_ListPlugins (engineClient c) Build_ListPluginsRequest) (fun resp =>
    lift (Client.ListPlugins (resp <-? resp ;; Ok (lp_Plugins resp)))).

Definition client_EnablePlugin (c : client) : string -> comp St goerror unit :=
  Client.EnablePlugin (fun name => _ <-! pms_EnablePlugin (engineClient c) {| en_Name := name |} ;; ret tt).

Definition client_DisablePlugin (c : client) : string -> comp St goerror unit :=
  Client.DisablePlugin (fun name => _ <-! pms_DisablePlugin (engineClient c) {| dis_Name := name |} ;; ret tt).

(** ** Lemmas: the program's routes *)

Context `{!ConnectSpec (St := St) (Request := Request) (Response := Response)}.

(** Every procedure belongs to its service. *)
Lemma procedures_routed :
  routed "/resolver.v1.ResolverService/" ResolverServiceGetSecretsProcedure = true /\
  routed "/accesscontrol.v1.AccessControlService/" AccessControlServiceCheckAccessProcedure = true /\
  routed "/health.v1.VersionService/" VersionServiceGetVersionProcedure = true /\
  routed "/plugins.v1.RegisterService/" RegisterServiceRegisterPluginProcedure = true /\
  routed "/plugins.v1.PluginService/" PluginServiceShutdownProcedure = true /\
  forallb (routed "/plugins.v1.PluginManagementService/")
    [PluginManagementServiceListPluginsProcedure; PluginManagementServiceEnablePluginProcedure;
     PluginManagementServiceDisablePluginProcedure] = true.
Proof. by vm_compute. Qed.

Lemma well_mounted_compute (mux : @ServeMux St Request Response) l : mux.*1 = l ->
  bool_decide (NoDup l) && forallb (fun q => bool_decide (q ∈ patterns)) l = true -> well_mounted mux.
Proof.
  intros <- [Hnd Hp]%andb_true_iff. apply bool_decide_eq_true in Hnd. split; [done|].
  intros q Hq. rewrite forallb_elem in Hp. by eapply bool_decide_eq_true, Hp.
Qed.

Section mounted.
Context (mux : @ServeMux St Request Response) (Hm : well_mounted mux) (base : string) (Hb : server_base base).

Ltac relay pat h :=
  eapply (call_relays mux base pat _ h); try done; try (by vm_compute);
  intros r s Hp; cbn; rewrite Hp; reflexivity.

Lemma resolver_relays svc (opts : HandlerOption) : NewResolverServiceHandler svc opts ∈ mux ->
  relays (opts _ _ (rs_GetSecrets svc)) (rs_GetSecrets (NewResolverServiceClient (over (mux_ServeHTTP mux)) base)).
Proof. intros Hin. relay "/resolver.v1.ResolverService/" (NewResolverServiceHandler svc opts).2. Qed.

Lemma accesscontrol_relays svc (opts : HandlerOption) : NewAccessControlServiceHandler svc opts ∈ mux ->
  relays (opts _ _ (ac_CheckAccess svc))
    (ac_CheckAccess (NewAccessControlServiceClient (over (mux_ServeHTTP mux)) base)).
Proof.
  intros Hin. relay "/accesscontrol.v1.AccessControlService/" (NewAccessControlServiceHandler svc opts).2.
Qed.

Lemma version_relays svc (opts : HandlerOption) : NewVersionServiceHandler svc opts ∈ mux ->
  relays (opts _ _ (vs_GetVersion svc)) (vs_GetVersion (NewVersionServiceClient (over (mux_ServeHTTP mux)) base)).
Proof. intros Hin. relay "/health.v1.VersionService/" (NewVersionServiceHandler svc opts).2. Qed.

Lemma plugin_relays svc (opts : HandlerOption) : NewPluginServiceHandler svc opts ∈ mux ->
  relays (opts _ _ (ps_Shutdown svc)) (ps_Shutdown (NewPluginServiceClient (over (mux_ServeHTTP mux)) base)).
Proof. intros Hin. relay "/plugins.v1.PluginService/" (NewPluginServiceHandler svc opts).2. Qed.

Lemma register_relays svc (opts : HandlerOption) : NewRegisterServiceHandler svc opts ∈ mux ->
  relays (opts _ _ (reg_RegisterPlugin svc))
    (reg_RegisterPlugin (NewRegisterServiceClient (over (mux_ServeHTTP mux)) base)).
Proof. intros Hin. relay "/plugins.v1.RegisterService/" (NewRegisterServiceHandler svc opts).2. Qed.

Lemma management_relays svc (opts : HandlerOption) : NewPluginManagementServiceHandler svc opts ∈ mux ->
  let c := NewPluginManagementServiceClient (over (mux_ServeHTTP mux)) base in
  relays (opts _ _ (pms_ListPlugins svc)) (pms_ListPlugins c) /\
  relays (opts _ _ (pms_EnablePlugin svc)) (pms_EnablePlugin c) /\
  relays (opts _ _ (pms_DisablePlugin svc)) (pms_DisablePlugin c).
Proof.
  intros Hin c. split_and!;
    relay "/plugins.v1.PluginManagementService/" (NewPluginManagementServiceHandler svc opts).2.
Qed.

(** A service that is not mounted is refused. *)
Lemma services_refused (cl := over (mux_ServeHTTP mux)) :
  ("/resolver.v1.ResolverService/" ∉ mux.*1 -> refused (rs_GetSecrets (NewResolverServiceClient cl base))) /\
  ("/accesscontrol.v1.AccessControlService/" ∉ mux.*1 ->
     refused (ac_CheckAccess (NewAccessControlServiceClient cl base))) /\
  ("/health.v1.VersionService/" ∉ mux.*1 -> refused (vs_GetVersion (NewVersionServiceClient cl base))) /\
  ("/plugins.v1.RegisterService/" ∉ mux.*1 -> refused (reg_RegisterPlugin (NewRegisterServiceClient cl base))) /\
  ("/plugins.v1.PluginService/" ∉ mux.*1 -> refused (ps_Shutdown (NewPluginServiceClient cl base))) /\
  ("/plugins.v1.PluginManagementService/" ∉ mux.*1 ->
     refused (pms_ListPlugins (NewPluginManagementServiceClient cl base)) /\
     refused (pms_EnablePlugin (NewPluginManagementServiceClient cl base)) /\
     refused (pms_DisablePlugin (NewPluginManagementServiceClient cl base))).
Proof.
  split_and!; intros Hin; split_and?; by (eapply call_refused; [exact Hm|exact Hb|exact Hin|by vm_compute]).
Qed.
End mounted.

Context `{!Utf8 utf8}.

(** A resolver behind a gate, seen by a client whose calls are relayed. *)
Lemma relayed_resolver wait (p : Resolver St) g pattern s : validPattern pattern = true ->
  relays (setupInterceptor wait _ _ (resolverService_GetSecrets p)) g ->
  match wait s with
  | (Ok _, s1) => forall r s2, p pattern s1 = (r, s2) -> sendable utf8 r ->
      exists out, resolverClient_GetSecrets g pattern s = (out, s2) /\ remote_outcome r out
  | (Err err, s1) => connect_CodeOf err <> CodeNotFound -> exists text,
      resolverClient_GetSecrets g pattern s = (Err (ConnectError (connect_CodeOf err) (ErrorNew text)), s1)
  end.
Proof.
  intros Hp Hg. specialize (Hg {| req_Pattern := Some pattern |} s (encodable_pattern utf8 pattern Hp)).
  unfold setupInterceptor, bind in Hg. destruct (wait s) as [[u|err] s1].
  - intros r s2. by apply resolverClient_carried.
  - intros Hc. destruct Hg as [text Hg]. exists text. unfold resolverClient_GetSecrets, try. rewrite Hg. cbn.
    by destruct (connect_CodeOf err).
Qed.

(** An operation of the client whose call is relayed: an error of the engine is
    no dial error. *)
Lemma client_error_remote code text : Client.client_error (ConnectError code (ErrorNew text)) =
  ConnectError code (ErrorNew text).
Proof. done. Qed.

(** A call over a connection that cannot be dialled. *)
Lemma call_down {Req Res} `{Message Req} `{Message Res} (down : HTTPClient) procedure (msg : Req) s err s' :
  Client.isDialError err = true -> errors_As_Connect err = None -> (forall r, down r s = (Err err, s')) ->
  encodable msg = true ->
  exists e, CallUnary (Res := Res) down (trim_base "http://unix" +:+ procedure) msg s = (Err e, s') /\
    errors_Is (Client.client_error e) Client.ErrSecretsEngineNotAvailable = true /\
    connect_CodeOf e = CodeUnavailable.
Proof.
  intros Hd Hne Hdown He.
  destruct (call_fails (Res := Res) down (trim_base "http://unix" +:+ procedure) msg s err s')
    as (e & Hc & Hop & Hcode); [by intros|done..|].
  exists e. split; [done|]. split; [|done]. apply Client.client_error_unavailable.
  unfold Client.isDialError in *. by rewrite Hop.
Qed.

(** What an operation made of a call of the engine, whose answer is [sent],
    comes to; and an engine that is not there. *)
Definition relayed {A B} (sent : result goerror A * St) (sendable : A -> Prop) (f : A -> result goerror B)
    (got : result goerror B * St) : Prop :=
  match sent with
  | (Ok a, s') => sendable a -> got = (f a, s')
  | (Err err, s') => exists text, got = (Err (ConnectError (connect_CodeOf err) (ErrorNew text)), s')
  end.

Definition unavailable {A} (s' : St) (got : result goerror A * St) : Prop :=
  exists e, got = (Err e, s') /\ errors_Is e Client.ErrSecretsEngineNotAvailable = true.

Lemma client_down (down : HTTPClient) err s s' pattern name :
  Client.isDialError err = true -> errors_As_Connect err = None -> (forall r, down r s = (Err err, s')) ->
  validPattern pattern = true -> utf8 name = true ->
  let c := client_over down in
  unavailable s' (client_GetSecrets c pattern s) /\ unavailable s' (client_Version c s) /\
  unavailable s' (client_ListPlugins c s) /\ unavailable s' (client_EnablePlugin c name s) /\
  unavailable s' (client_DisablePlugin c name s).
Proof.
  intros Hd Hne Hdown Hp Hn c'.
  assert (Hq : encodable {| req_Pattern := Some pattern |} = true) by exact (encodable_pattern utf8 pattern Hp).
  assert (Hen : encodable {| en_Name := name |} = true) by exact Hn.
  assert (Hdis : encodable {| dis_Name := name |} = true) by exact Hn.
  assert (Hgv : encodable Build_GetVersionRequest = true) by done.
  assert (Hlp : encodable Build_ListPluginsRequest = true) by done.
  split_and!.
  - destruct (call_down (Res := GetSecretsResponse) down ResolverServiceGetSecretsProcedure
      {| req_Pattern := Some pattern |} s err s' Hd Hne Hdown Hq) as (e & He & Hu & Hc).
    exists (Client.client_error e). split; [|done].
    unfold client_GetSecrets, Client.GetSecrets, try. cbn [resolverClient client_over c'].
    unfold NewResolverClient, resolverClient_GetSecrets, try. cbn [rs_GetSecrets NewResolverServiceClient].
    rewrite He. unfold throw. by rewrite Hc.
  - destruct (call_down (Res := Client.GetVersionResponse) down VersionServiceGetVersionProcedure
      Build_GetVersionRequest s err s' Hd Hne Hdown Hgv) as (e & He & Hu & _).
    exists (Client.client_error e). split; [|done]. unfold client_Version, try.
    cbn [versionClient client_over c' vs_GetVersion NewVersionServiceClient]. by rewrite He.
  - destruct (call_down (Res := ListPluginsResponse) down PluginManagementServiceListPluginsProcedure
      Build_ListPluginsRequest s err s' Hd Hne Hdown Hlp) as (e & He & Hu & _).
    exists (Client.client_error e). split; [|done]. unfold client_ListPlugins, try.
    cbn [engineClient client_over c' pms_ListPlugins NewPluginManagementServiceClient]. by rewrite He.
  - destruct (call_down (Res := EnablePluginResponse) down PluginManagementServiceEnablePluginProcedure
      {| en_Name := name |} s err s' Hd Hne Hdown Hen) as (e & He & Hu & _).
    exists (Client.client_error e). split; [|done]. unfold client_EnablePlugin, Client.EnablePlugin, try, bind.
    cbn [engineClient client_over c' pms_EnablePlugin NewPluginManagementServiceClient]. by rewrite He.
  - destruct (call_down (Res := DisablePluginResponse) down PluginManagementServiceDisablePluginProcedure
      {| dis_Name := name |} s err s' Hd Hne Hdown Hdis) as (e & He & Hu & _).
    exists (Client.client_error e). split; [|done]. unfold client_DisablePlugin, Client.DisablePlugin, try, bind.
    cbn [engineClient client_over c' pms_DisablePlugin NewPluginManagementServiceClient]. by rewrite He.
Qed.

(** ** Properties *)

(** C17: A plugin that provides secrets serves them over its connection, and
    nothing else: its mux registers without a panic; a resolver client sees the
    plugin's own answer as [remote_outcome] says once the registration is there,
    and before that the error of the wait, without the plugin being asked; a
    shutdown reaches the plugin whether it is registered or not; and a call of any
    other service the packages know is refused as unimplemented and changes
    nothing. All of it for every base of the URLs, with slashes at its end or
    not. *)
Theorem plugin_provides {SigningInfo} shutdown wait (p : Resolver St) base : server_base base ->
  exists mux, plugin_mux (SigningInfo := SigningInfo) shutdown wait (Some (SecretsProviderPlugin p)) =
    Some (Ok mux) /\
  let cl := over (mux_ServeHTTP mux) in
  (forall pattern s, validPattern pattern = true ->
     let call := rs_GetSecrets (NewResolverServiceClient cl base) in
     match wait s with
     | (Ok _, s1) => forall r s2, p pattern s1 = (r, s2) -> sendable utf8 r ->
         exists out, resolverClient_GetSecrets call pattern s = (out, s2) /\ remote_outcome r out
     | (Err err, s1) => connect_CodeOf err <> CodeNotFound -> exists text,
         resolverClient_GetSecrets call pattern s = (Err (ConnectError (connect_CodeOf err) (ErrorNew text)), s1)
     end) /\
  (forall s, match shutdown s with
     | (Ok _, s') => ps_Shutdown (NewPluginServiceClient cl base) Build_ShutdownRequest s =
         (Ok Build_ShutdownResponse, s')
     | (Err err, s') => exists err', ps_Shutdown (NewPluginServiceClient cl base) Build_ShutdownRequest s =
         (Err err', s')
     end) /\
  refused (ac_CheckAccess (NewAccessControlServiceClient cl base)) /\
  refused (vs_GetVersion (NewVersionServiceClient cl base)) /\
  refused (reg_RegisterPlugin (NewRegisterServiceClient cl base)) /\
  refused (pms_ListPlugins (NewPluginManagementServiceClient cl base)) /\
  refused (pms_EnablePlugin (NewPluginManagementServiceClient cl base)) /\
  refused (pms_DisablePlugin (NewPluginManagementServiceClient cl base)).
Proof.
  intros Hb. eexists. split; [reflexivity|]. match goal with |- context [mux_ServeHTTP ?m] => set (mux := m) end.
  assert (Hm : well_mounted mux) by (eapply well_mounted_compute; [reflexivity|by vm_compute]).
  destruct (services_refused mux Hm base Hb) as (_ & Ha & Hv & Hr & _ & Hp). intros cl. split_and!.
  - intros pattern s Hpat. apply (relayed_resolver wait p _ pattern s Hpat).
    apply (resolver_relays mux Hm base Hb {| rs_GetSecrets := resolverService_GetSecrets p |}). by left.
  - intros s. assert (Hin : NewPluginServiceHandler {| ps_Shutdown := pluginService_Shutdown shutdown |} no_option ∈ mux)
      by (right; by left).
    pose proof (plugin_relays mux Hm base Hb _ _ Hin Build_ShutdownRequest s eq_refl) as Hs.
    unfold no_option, pluginService_Shutdown, bind in Hs. cbn [ps_Shutdown] in Hs.
    destruct (shutdown s) as [[u|err] s']; cbn in Hs; [by apply Hs|]. destruct Hs as [text Hs]. eexists. exact Hs.
  - apply Ha. cbn. set_solver.
  - apply Hv. cbn. set_solver.
  - apply Hr. cbn. set_solver.
  - apply Hp. cbn. set_solver.
  - apply Hp. cbn. set_solver.
  - apply Hp. cbn. set_solver.
Qed.

(** C18: What the engine reads as ALLOW is what the access control module said: it
    gets that decision over the connection exactly when the registration is
    there and the module, asked about the requester of the message, said yes. An
    error of the wait or of the handler arrives with its code. A plugin for
    access control serves no secrets. *)
Theorem access_over_connection {SigningInfo} shutdown wait fromProto
    (m : AccessControl.CheckAccessRequest SigningInfo -> comp St goerror bool) base : server_base base ->
  exists mux, plugin_mux shutdown wait (Some (AccessControlPlugin fromProto m)) = Some (Ok mux) /\
  let cl := over (mux_ServeHTTP mux) in
  let call := ac_CheckAccess (NewAccessControlServiceClient cl base) in
  (forall msg s, encodable_CheckAccess msg = true ->
     (forall s', call msg s = (Ok AccessControl.DECISION_ALLOW, s') <->
        exists s1 req, wait s = (Ok tt, s1) /\ AccessControl.question fromProto msg = Some req /\
          m req s1 = (Ok true, s')) /\
     (forall err s1, wait s = (Err err, s1) ->
        exists text, call msg s = (Err (ConnectError (connect_CodeOf err) (ErrorNew text)), s1)) /\
     (forall s1 err s', wait s = (Ok tt, s1) -> AccessControl.CheckAccess fromProto m msg s1 = (Err err, s') ->
        exists text, call msg s = (Err (ConnectError (connect_CodeOf err) (ErrorNew text)), s'))) /\
  refused (rs_GetSecrets (NewResolverServiceClient cl base)).
Proof.
  intros Hb. eexists. split; [reflexivity|]. match goal with |- context [mux_ServeHTTP ?m] => set (mux := m) end.
  assert (Hm : well_mounted mux) by (eapply well_mounted_compute; [reflexivity|by vm_compute]).
  destruct (services_refused mux Hm base Hb) as (Hr & _). intros cl call. split; [|apply Hr; cbn; set_solver].
  intros msg s He. set (svc := {| ac_CheckAccess := AccessControl.CheckAccess fromProto m |}).
  assert (Hin : NewAccessControlServiceHandler svc (setupInterceptor wait) ∈ mux) by by left.
  pose proof (accesscontrol_relays mux Hm base Hb svc (setupInterceptor wait) Hin msg s He) as Hs.
  fold cl call in Hs. unfold setupInterceptor, bind in Hs. cbn [ac_CheckAccess svc] in Hs.
  destruct (wait s) as [[[]|err] s1]; cycle 1.
  { split_and!; [|intros ? ? [= -> ->]; exact Hs|by intros].
    intros s'. destruct Hs as [text ->]. split; [done|]. by intros (? & ? & [=] & _). }
  rewrite AccessControl.CheckAccess_question in Hs. split_and!; [|done|].
  - intros s'. destruct (AccessControl.question fromProto msg) as [req|] eqn:Hq; cycle 1.
    { destruct Hs as [text ->]. split; [done|]. by intros (? & ? & _ & [=] & _). }
    destruct (m req s1) as [[[]|err] s2] eqn:Hreq.
    + rewrite (Hs eq_refl). split; [intros [= <-]; by exists s1, req|].
      intros (? & ? & [= <-] & [= <-] & Hreq'). rewrite Hreq in Hreq'. by injection Hreq' as ->.
    + rewrite (Hs eq_refl). split; [done|].
      intros (? & ? & [= <-] & [= <-] & Hreq'). by rewrite Hreq in Hreq'.
    + destruct Hs as [text ->]. split; [done|].
      intros (? & ? & [= <-] & [= <-] & Hreq'). by rewrite Hreq in Hreq'.
  - intros s1' err s' [= <-] Hc. rewrite AccessControl.CheckAccess_question in Hc.
    destruct (AccessControl.question fromProto msg) as [req|].
    + destruct (m req s1) as [[[]|e] s2]; simplify_eq. exact Hs.
    + simplify_eq. exact Hs.
Qed.

(** C19: A client of the package is the engine behind its connection: over a mux
    that mounts the resolver, the version and the plugin management service, in
    any order and beside any other services of the program, [GetSecrets] is the
    resolver as [remote_outcome] says, [Version], [ListPlugins], [EnablePlugin]
    and [DisablePlugin] act on what the services answered, and an error arrives
    with its code. When the engine cannot be dialled all five say so with
    [ErrSecretsEngineNotAvailable]. *)
Theorem client_over_engine mux (p : Resolver St) ms vs :
  well_mounted mux ->
  NewResolverServiceHandler {| rs_GetSecrets := resolverService_GetSecrets p |} no_option ∈ mux ->
  NewPluginManagementServiceHandler ms no_option ∈ mux -> NewVersionServiceHandler vs no_option ∈ mux ->
  let c := client_over (over (mux_ServeHTTP mux)) in
  (forall pattern s r s', validPattern pattern = true -> p pattern s = (r, s') -> sendable utf8 r ->
     exists out, client_GetSecrets c pattern s = (out, s') /\ remote_outcome r out) /\
  (forall s, relayed (vs_GetVersion vs Build_GetVersionRequest s) (fun v => encodable v = true)
     (fun v => Client.Version (Ok v)) (client_Version c s)) /\
  (forall s, relayed (pms_ListPlugins ms Build_ListPluginsRequest s) (fun l => encodable l = true)
     (fun l => Ok (Client.list_plugins (lp_Plugins l))) (client_ListPlugins c s)) /\
  (forall name s, utf8 name = true ->
     relayed (pms_EnablePlugin ms {| en_Name := name |} s) (fun _ => True) (fun _ => Ok tt)
       (client_EnablePlugin c name s) /\
     relayed (pms_DisablePlugin ms {| dis_Name := name |} s) (fun _ => True) (fun _ => Ok tt)
       (client_DisablePlugin c name s)) /\
  (forall (down : HTTPClient) err s s' pattern name,
     Client.isDialError err = true -> errors_As_Connect err = None -> (forall r, down r s = (Err err, s')) ->
     validPattern pattern = true -> utf8 name = true ->
     let c := client_over down in
     unavailable s' (client_GetSecrets c pattern s) /\ unavailable s' (client_Version c s) /\
     unavailable s' (client_ListPlugins c s) /\ unavailable s' (client_EnablePlugin c name s) /\
     unavailable s' (client_DisablePlugin c name s)).
Proof.
  intros Hm Hr Hms Hvs c. pose proof server_base_unix as Hb. split_and!.
  - intros pattern s r s' Hp Hpr Hs.
    destruct (resolverClient_carried utf8 p (rs_GetSecrets (NewResolverServiceClient (over (mux_ServeHTTP mux)) "http://unix"))
      pattern s s r s' Hp) as (out & Ho & Hro); [|done..|].
    + exact (resolver_relays mux Hm _ Hb _ _ Hr {| req_Pattern := Some pattern |} s (encodable_pattern utf8 pattern Hp)).
    + exists out. split; [|done]. by eapply Client.GetSecrets_remote.
  - intros s. pose proof (version_relays mux Hm _ Hb _ _ Hvs Build_GetVersionRequest s eq_refl) as Hs.
    unfold no_option in Hs. unfold relayed, client_Version, try. cbn [versionClient client_over c].
    destruct (vs_GetVersion vs _ s) as [[v|err] s']; [intros He; by rewrite (Hs He)|].
    destruct Hs as [text ->]. by exists text.
  - intros s. destruct (management_relays mux Hm _ Hb _ _ Hms) as (Hl & _).
    specialize (Hl Build_ListPluginsRequest s eq_refl).
    unfold no_option in Hl. unfold relayed, client_ListPlugins, try. cbn [engineClient client_over c].
    destruct (pms_ListPlugins ms _ s) as [[v|err] s']; [intros He; by rewrite (Hl He)|].
    destruct Hl as [text ->]. by exists text.
  - intros name s Hn. destruct (management_relays mux Hm _ Hb _ _ Hms) as (_ & He & Hd).
    specialize (He {| en_Name := name |} s Hn). specialize (Hd {| dis_Name := name |} s Hn).
    unfold no_option in He, Hd.
    unfold relayed, client_EnablePlugin, client_DisablePlugin, Client.EnablePlugin, Client.DisablePlugin, try, bind.
    cbn [engineClient client_over c]. split.
    + destruct (pms_EnablePlugin ms _ s) as [[v|err] s']; [intros _; by rewrite (He eq_refl)|].
      destruct He as [text ->]. by exists text.
    + destruct (pms_DisablePlugin ms _ s) as [[v|err] s']; [intros _; by rewrite (Hd eq_refl)|].
      destruct Hd as [text ->]. by exists text.
  - intros. by eapply client_down.
Qed.
End services.

(** ** Examples *)

(** The state counts the calls of the resolver. *)
Lemma plugin_provides_witness :
  exists mux : @ServeMux nat (string * wire) wire_response,
    plugin_mux (SigningInfo := unit) (string_forallb ascii_byte) (ret tt) (ret tt)
      (Some (SecretsProviderPlugin Client.sample_resolver)) = Some (Ok mux) /\
    exists out, resolverClient_GetSecrets
      (rs_GetSecrets (NewResolverServiceClient (string_forallb ascii_byte) (over (mux_ServeHTTP mux)) "http://unix//"))
      "docker/auth/hub/**" 0 = (out, 1) /\ remote_outcome (Ok [Client.sample_envelope]) out.
Proof.
  destruct (plugin_provides (H := wire_connect) (SigningInfo := unit) (string_forallb ascii_byte) (ret tt) (ret tt)
    Client.sample_resolver "http://unix//") as (mux & Hmux & Hget & _).
  - exists "unix". split; reflexivity.
  - exists mux. split; [exact Hmux|].
    exact (Hget "docker/auth/hub/**" 0 eq_refl (Ok [Client.sample_envelope]) 1 eq_refl ltac:(vm_compute; reflexivity)).
Defined.

Definition sample_access : AccessControl.CheckAccessMessage :=
  {| AccessControl.cam_pattern := "docker/**";
     AccessControl.cam_requester := Some {| AccessControl.r_pid := 7; AccessControl.r_name := "docker";
       AccessControl.r_absolute_binary_path := "/usr/bin/docker"; AccessControl.r_signed_by_docker := true;
       AccessControl.r_signing_info := AccessControl.Requester_not_set |} |}.

(** A module that allows what is signed by Docker, over a counter. *)
Definition sample_module (req : AccessControl.CheckAccessRequest bool) : comp nat goerror bool :=
  fun n => (Ok (AccessControl.car_SigningInfo req), S n).

Lemma access_over_connection_witness :
  exists mux : @ServeMux nat (string * wire) wire_response,
    plugin_mux (string_forallb ascii_byte) (ret tt) (ret tt)
      (Some (AccessControlPlugin AccessControl.r_signed_by_docker sample_module)) = Some (Ok mux) /\
    ac_CheckAccess (NewAccessControlServiceClient (string_forallb ascii_byte) (over (mux_ServeHTTP mux)) "http://unix")
      sample_access 0 = (Ok AccessControl.DECISION_ALLOW, 1).
Proof.
  destruct (access_over_connection (H := wire_connect) (string_forallb ascii_byte) (ret tt) (ret tt)
    AccessControl.r_signed_by_docker sample_module "http://unix" server_base_unix) as (mux & Hmux & Hcall & _).
  exists mux. split; [exact Hmux|].
  destruct (Hcall sample_access 0 ltac:(vm_compute; reflexivity)) as [Hallow _]. apply (Hallow 1).
  exists 0. eexists. split; [reflexivity|]. split; reflexivity.
Defined.

(** An engine of one plugin, and a socket nobody listens on. *)
Definition sample_management : @PluginManagementService nat :=
  {| pms_ListPlugins _ := ret {| lp_Plugins := [] |};
     pms_EnablePlugin _ := ret Build_EnablePluginResponse;
     pms_DisablePlugin _ := throw (ConnectError CodeNotFound (ErrorNew "no such plugin")) |}.
Definition sample_version : @VersionService nat :=
  {| vs_GetVersion _ := ret {| Client.gv_version := "v1.2.3"; Client.gv_date := ""; Client.gv_commitHash := "" |} |}.
Definition sample_engine : @ServeMux nat (string * wire) wire_response :=
  [NewVersionServiceHandler (string_forallb ascii_byte) sample_version no_option;
   NewResolverServiceHandler (string_forallb ascii_byte)
     {| rs_GetSecrets := resolverService_GetSecrets Client.sample_resolver |} no_option;
   NewPluginManagementServiceHandler (string_forallb ascii_byte) sample_management no_option].

Definition no_socket : goerror := OpError "dial" (ErrorNew "connect: no such file or directory").

Lemma client_over_engine_witness :
  (exists out, client_GetSecrets (client_over (string_forallb ascii_byte) (over (mux_ServeHTTP sample_engine)))
     "docker/auth/hub/**" 0 = (out, 1) /\ remote_outcome (Ok [Client.sample_envelope]) out) /\
  (exists text, client_DisablePlugin (client_over (string_forallb ascii_byte) (over (mux_ServeHTTP sample_engine)))
     "p" 0 = (Err (ConnectError CodeNotFound (ErrorNew text)), 0)) /\
  unavailable 0 (client_Version (client_over (string_forallb ascii_byte)
    (fun _ => throw no_socket)) 0).
Proof.
  destruct (client_over_engine (H := wire_connect) (string_forallb ascii_byte) sample_engine
    Client.sample_resolver sample_management sample_version) as (Hget & _ & _ & Hname & Hdown).
  - eapply well_mounted_compute; [reflexivity|vm_compute; reflexivity].
  - right. left.
  - right. right. left.
  - left.
  - split; [|split].
    + exact (Hget "docker/auth/hub/**" 0 (Ok [Client.sample_envelope]) 1 eq_refl eq_refl ltac:(vm_compute; reflexivity)).
    + exact (proj2 (Hname "p" 0 eq_refl)).
    + exact (proj1 (proj2 (Hdown (fun _ => throw no_socket) no_socket 0 0 "**" "p" eq_refl eq_refl (fun _ => eq_refl) eq_refl eq_refl))).
Defined.
