(* ===== verification/Launch.v ===== *)
(** A launch from both ends: the plugin registers over its connection with the
    engine's mux (plugin/register.go, plugin/setup.go) and the engine calls the
    services of the plugin's mux over the same connection, which the interceptor
    of plugin/lifecycle.go holds back until the registration is through. *)

From S2P Require Import Prelude GoErrors GoStrings Secrets Api Ipc Resolver Rpc.
From S2P Require Client AccessControl Plugin.

#[local] Existing Instances GetSecretsRequest_Message GetSecretsResponse_Message
  RegisterPluginRequest_Message RegisterPluginResponse_Message.

Section launch.
Context {St Request Response : Type} `{Connect St Request Response} (utf8 : string -> bool).

(** The channel that [setup] closes: whether it is closed, and the closing. *)
Context (setupCompleted : St -> bool) (complete : St -> St).

(** [newRegisterClient]. *)
Definition registerClient (c : @HTTPClient St Request Response)
  : Plugin.RegisterPluginRequest -> comp St goerror Plugin.runtimeConfig :=
  reg_RegisterPlugin (NewRegisterServiceClient utf8 c "http://unix").

(** What the selects of [setupInterceptor] come to for a request that is not
    cancelled: it passes once the channel is closed and times out before. *)
Definition setup_wait : comp St goerror unit := fun s =>
  if setupCompleted s then (Ok tt, s)
  else (Err (ConnectError CodeDeadlineExceeded (ErrorNew "registration incomplete (timeout after %s)")), s).

(** [setup] from the registration on. *)
Definition plugin_launch {Conn} (engine : @HTTPClient St Request Response) (ipc_Close : comp St goerror unit)
    (yamux_Client : option goerror) (s : @Plugin.stub Conn) : comp St goerror unit :=
  _ <-! Plugin.setup (registerClient engine) ipc_Close yamux_Client s ;;
  fun w => (Ok tt, complete w).

(** ** Property *)

Context `{!ConnectSpec (St := St) (Request := Request) (Response := Response)} `{!Utf8 utf8}.

(** The registration over the engine's mux. *)
Lemma doRegister_relayed engine_mux reg name config s : well_mounted engine_mux ->
  NewRegisterServiceHandler utf8 reg no_option ∈ engine_mux ->
  encodable (Message := RegisterPluginRequest_Message utf8) (Plugin.register_request name config) = true ->
  match reg_RegisterPlugin reg (Plugin.register_request name config) s with
  | (Ok rc, s') => encodable (Message := RegisterPluginResponse_Message utf8) rc = true ->
      Plugin.doRegister (registerClient (over (mux_ServeHTTP engine_mux))) name config s = (Ok rc, s')
  | (Err err, s') => exists e,
      Plugin.doRegister (registerClient (over (mux_ServeHTTP engine_mux))) name config s = (Err e, s') /\
      connect_CodeOf e = connect_CodeOf err
  end.
Proof.
  intros Hm Hin He. pose proof server_base_unix as Hb.
  pose proof (register_relays utf8 engine_mux Hm _ Hb reg no_option Hin (Plugin.register_request name config) s He) as Hr.
  unfold no_option in Hr. unfold Plugin.doRegister, Plugin.register, try, registerClient.
  destruct (reg_RegisterPlugin reg _ s) as [[rc|err] s'].
  - intros Hrc. by rewrite (Hr Hrc).
  - destruct Hr as [text ->]. unfold throw. eexists. split; [reflexivity|]. by destruct (connect_CodeOf err).
Qed.

(** The plugin's end, seen by the engine's client. *)
Lemma plugin_resolves {SigningInfo} shutdown (p : Resolver St) base : server_base base ->
  exists mux, plugin_mux utf8 (SigningInfo := SigningInfo) shutdown setup_wait (Some (SecretsProviderPlugin p)) =
    Some (Ok mux) /\
  forall pattern s, validPattern pattern = true ->
    let got := resolverClient_GetSecrets
      (rs_GetSecrets (NewResolverServiceClient utf8 (over (mux_ServeHTTP mux)) base)) pattern s in
    (setupCompleted s = false -> exists text, got = (Err (ConnectError CodeDeadlineExceeded (ErrorNew text)), s)) /\
    (setupCompleted s = true -> forall r s', p pattern s = (r, s') -> sendable utf8 r ->
       exists out, got = (out, s') /\ remote_outcome r out).
Proof.
  intros Hb. eexists. split; [reflexivity|]. match goal with |- context [mux_ServeHTTP ?m] => set (mux := m) end.
  assert (Hm : well_mounted mux) by (eapply well_mounted_compute; [reflexivity|by vm_compute]).
  intros pattern s Hp got. pose proof (relayed_resolver utf8 setup_wait p _ pattern s Hp
    (resolver_relays utf8 mux Hm base Hb {| rs_GetSecrets := resolverService_GetSecrets p |} _ ltac:(by left))) as Hr.
  fold got in Hr. unfold setup_wait in Hr at 1. split; intros Hs; rewrite Hs in Hr.
  - by apply Hr.
  - exact Hr.
Qed.

End launch.

(** ** Example *)

(** The state: whether the plugin is registered, and what the engine has seen. *)
Definition sample_registry : @RegisterService (bool * list string) :=
  {| reg_RegisterPlugin req := fun '(done, seen) =>
       (Ok {| Plugin.rc_Engine := "engine"; Plugin.rc_Version := "v1.0.0" |}, (done, seen ++ [Plugin.rr_Name req])) |}.

Definition sample_vault : Resolver (bool * list string) := fun _ => ret [Client.sample_envelope].

Definition sample_engine_mux : @ServeMux (bool * list string) (string * wire) wire_response :=
  [NewRegisterServiceHandler (string_forallb ascii_byte) sample_registry no_option].

