(* ===== verification/Helpers.v ===== *)
(** Small packages around the engine: the parser of x-secret labels
    (x/injector/parser.go), contexts that end with a signal
    (x/oshelper/context.go), the endpoint of the telemetry exporters
    (x/telemetry/otel.go) and the loggers (x/logging/logging.go). *)

From S2P Require Import Prelude GoErrors GoStrings.

(** ** x/injector/parser.go *)

Definition xSecretPrefix : string := "x-secret".

(** [filepath.ToSlash] is a parameter: it depends on the platform. *)
Section injector.
Context (ToSlash : string -> string).

Definition parseXSecretLabel (key value : string) : result goerror (string * string) :=
  if negb (HasPrefix key (xSecretPrefix +:+ ":"))
  then Err (ErrorNew "label does not start with x-secret: %s")
  else
    let name := TrimPrefix key (xSecretPrefix +:+ ":") in
    if negb (HasPrefix value "/") then Err (ErrorNew "%s is not an absolute path")
    else Ok (name, ToSlash value).

(** The loop of [SecretMapFromLabels]; a label that does not parse is logged. *)
Fixpoint labels_loop (labels : list (string * string)) (result : gmap string string) : gmap string string :=
  match labels with
  | [] => result
  | (k, v) :: labels' =>
      if negb (HasPrefix k (xSecretPrefix +:+ ":")) then labels_loop labels' result
      else match parseXSecretLabel k v with
           | Err _ => labels_loop labels' result
           | Ok (name, path) => labels_loop labels' (<[name := path]> result)
           end
  end.

Definition SecretMapFromLabels (ord : list (string * string) -> list (string * string))
    (labels : gmap string string) : gmap string string :=
  labels_loop (range_map ord labels) ∅.
End injector.

(** ** x/oshelper/context.go *)

(** What can end a context of [NotifyContext], and with which cause. *)
Inductive cause : Type :=
| Canceled
| Parent (err : goerror)
| Signaled_ (sig : Z).

(** The state of the context it returns: its cause, the pending signal, whether
    signals are still delivered and whether the goroutine runs. *)
Record notify : Type := {
  nc_cause : option cause;
  nc_parent : option goerror;
  nc_pending : option Z;
  nc_listening : bool;
  nc_goroutine : bool
}.

Definition NotifyContext : notify :=
  {| nc_cause := None; nc_parent := None; nc_pending := None; nc_listening := true; nc_goroutine := true |}.

(** Only the first cause of a context counts. *)
Definition end_with (c : cause) (s : notify) : notify :=
  {| nc_cause := match nc_cause s with Some _ => nc_cause s | None => Some c end;
     nc_parent := nc_parent s; nc_pending := nc_pending s; nc_listening := nc_listening s;
     nc_goroutine := nc_goroutine s |}.
Definition stop (goroutine : bool) (s : notify) : notify :=
  {| nc_cause := nc_cause s; nc_parent := nc_parent s; nc_pending := nc_pending s; nc_listening := false;
     nc_goroutine := goroutine |}.
Definition set_pending (sig : option Z) (s : notify) : notify :=
  {| nc_cause := nc_cause s; nc_parent := nc_parent s; nc_pending := sig; nc_listening := nc_listening s;
     nc_goroutine := nc_goroutine s |}.

(** A signal arrives, the parent ends, the caller cancels, the goroutine takes
    one of its two cases. *)
Inductive notify_event : Type :=
| SignalArrives (sig : Z)
| ParentEnds (err : goerror)
| CallerCancels
| TakeSignal
| TakeParent.

Definition notify_step (e : notify_event) (s : notify) : option notify :=
  match e with
  | SignalArrives sig =>
      Some (if nc_listening s && bool_decide (nc_pending s = None) then set_pending (Some sig) s else s)
  | ParentEnds err =>
      match nc_parent s with
      | Some _ => None
      | None =>
          Some (end_with (Parent err) {| nc_cause := nc_cause s; nc_parent := Some err;
            nc_pending := nc_pending s; nc_listening := nc_listening s; nc_goroutine := nc_goroutine s |})
      end
  | CallerCancels => Some (end_with Canceled (stop (nc_goroutine s) s))
  | TakeSignal =>
      match nc_goroutine s, nc_pending s with
      | true, Some sig => Some (stop false (end_with (Signaled_ sig) (set_pending None s)))
      | _, _ => None
      end
  | TakeParent =>
      match nc_goroutine s, nc_parent s with
      | true, Some _ => Some (stop false s)
      | _, _ => None
      end
  end.

Fixpoint notify_run (es : list notify_event) (s : notify) : option notify :=
  match es with
  | [] => Some s
  | e :: es' => match notify_step e s with Some s' => notify_run es' s' | None => None end
  end.

(** ** x/telemetry/otel.go *)

Record URL : Type := { u_Scheme : string; u_Host : string; u_Path : string }.

(** The endpoint the exporters dial and whether the connection is secure;
    [url.Parse] and [path.Join] are parameters. *)
Definition sanitizeEndpoint (url_Parse : string -> result goerror URL) (path_Join2 : string -> string -> string)
    (endpoint : string) : string * bool :=
  match url_Parse endpoint with
  | Err _ => ("", false)
  | Ok u =>
      if String.eqb (u_Scheme u) "https" then (path_Join2 (u_Host u) (u_Path u), true)
      else if String.eqb (u_Scheme u) "http" then (path_Join2 (u_Host u) (u_Path u), false)
      else (endpoint, false)
  end.

(** ** x/logging/logging.go *)

(** A logger is known by its prefix and where it writes; [None] is standard
    error. *)
Record defaultLogger : Type := { log_prefix : string; log_out : option string }.

(** [WithOut]; a nil writer changes nothing. *)
Definition WithOut (out : option string) (l : defaultLogger) : defaultLogger :=
  match out with
  | None => l
  | Some _ => {| log_prefix := log_prefix l; log_out := out |}
  end.

Definition NewDefaultLogger (prefix : string) (options : list (defaultLogger -> defaultLogger)) : defaultLogger :=
  let prefix := if negb (String.eqb prefix "") && negb (HasSuffix prefix ": ") then prefix +:+ ": " else prefix in
  foldl (fun l o => o l) {| log_prefix := prefix; log_out := None |} options.

(** The formats of the three levels; [suffix] is the position of the caller. *)
Definition Printf_format (suffix : string) (d : defaultLogger) (format : string) : string :=
  suffix +:+ log_prefix d +:+ format.
Definition Warnf_format (suffix : string) (d : defaultLogger) (format : string) : string :=
  suffix +:+ "[WARN] " +:+ log_prefix d +:+ format.
Definition Errorf_format (suffix : string) (d : defaultLogger) (format stackTrace : string) : string :=
  suffix +:+ "[ERR] " +:+ log_prefix d +:+ format +:+ String "010" stackTrace.

(** The logger a context carries. *)
Definition WithLogger (ctx : option defaultLogger) (logger : defaultLogger) : option defaultLogger := Some logger.

Definition FromContext (ctx : option defaultLogger) : result goerror defaultLogger :=
  match ctx with
  | Some logger => Ok logger
  | None => Err (ErrorNew "no logger found in context")
  end.

(** ** Lemmas: labels *)

Lemma parse_label_name key value name path ToSlash : parseXSecretLabel ToSlash key value = Ok (name, path) <->
  key = "x-secret:" +:+ name /\ HasPrefix value "/" = true /\ path = ToSlash value.
Proof.
  unfold parseXSecretLabel. change (xSecretPrefix +:+ ":") with "x-secret:".
  destruct (HasPrefix key "x-secret:") eqn:Hk; cbn [negb].
  - apply HasPrefix_spec in Hk as [r ->]. rewrite TrimPrefix_append.
    destruct (HasPrefix value "/"); cbn [negb].
    + split; [by intros [= <- <-]|]. intros (He & _ & ->). by apply append_inj_l in He as ->.
    + split; [done|]. by intros (_ & ? & _).
  - split; [done|]. intros (-> & _). by rewrite HasPrefix_append in Hk.
Qed.

(** The loop, label by label: a name comes from its label, if that is one with
    an absolute path. *)
Lemma labels_loop_lookup ToSlash labels result name : NoDup labels.*1 ->
  labels_loop ToSlash labels result !! name =
  match list_to_map (M := gmap string string) labels !! ("x-secret:" +:+ name) with
  | Some v => if HasPrefix v "/" then Some (ToSlash v) else result !! name
  | None => result !! name
  end.
Proof.
  revert result. induction labels as [|[k v] labels IH]; intros result Hnd; [done|].
  cbn [fmap list_fmap fst] in Hnd. apply list.NoDup_cons in Hnd as [Hk Hnd]. cbn [labels_loop].
  rewrite list_to_map_cons. destruct (decide (k = "x-secret:" +:+ name)) as [->|Hne].
  - rewrite lookup_insert_eq. change (xSecretPrefix +:+ ":") with "x-secret:".
    rewrite HasPrefix_append. cbn [negb].
    assert (Hnone : list_to_map (M := gmap string string) labels !! ("x-secret:" +:+ name) = None)
      by by apply not_elem_of_list_to_map_1.
    destruct (parseXSecretLabel ToSlash ("x-secret:" +:+ name) v) as [[n p]|e] eqn:Hp; rewrite IH, Hnone by done.
    + apply parse_label_name in Hp as (He & -> & ->). apply append_inj_l in He as <-. by rewrite lookup_insert_eq.
    + destruct (HasPrefix v "/") eqn:Hv; [|done].
      assert (Hok : parseXSecretLabel ToSlash ("x-secret:" +:+ name) v = Ok (name, ToSlash v))
        by by apply parse_label_name. congruence.
  - rewrite lookup_insert_ne by done.
    destruct (negb _); [by apply IH|].
    destruct (parseXSecretLabel ToSlash k v) as [[n p]|e] eqn:Hp; rewrite IH by done; [|done].
    apply parse_label_name in Hp as (-> & _ & _). rewrite lookup_insert_ne; [done|].
    intros ->. by apply Hne.
Qed.

(** The secrets of a container are those of its labels with an absolute path,
    in whatever order the labels are visited. *)
Lemma SecretMapFromLabels_spec ToSlash ord `{!MapOrder ord} labels name :
  SecretMapFromLabels ToSlash ord labels !! name =
  match labels !! ("x-secret:" +:+ name) with
  | Some v => if HasPrefix v "/" then Some (ToSlash v) else None
  | None => None
  end.
Proof.
  unfold SecretMapFromLabels. rewrite labels_loop_lookup by by apply NoDup_range_map.
  rewrite lookup_empty.
  assert (Hl : list_to_map (range_map ord labels) = labels).
  { apply map_eq. intros k. apply option_eq. intros v. rewrite <- elem_of_list_to_map by by apply NoDup_range_map.
    by rewrite (elem_of_range_map ord). }
  by rewrite Hl.
Qed.

(** ** Lemmas: contexts *)

(** The first cause stays, and a context that ended with a signal ended with
    one that arrived. *)
Definition sound_cause (es : list notify_event) (s : notify) : Prop :=
  (forall sig, nc_pending s = Some sig -> SignalArrives sig ∈ es) /\
  match nc_cause s with
  | Some (Signaled_ sig) => SignalArrives sig ∈ es
  | Some (Parent err) => ParentEnds err ∈ es
  | Some Canceled => CallerCancels ∈ es
  | None => True
  end.

Lemma sound_cause_step es s e s' : sound_cause es s -> notify_step e s = Some s' -> sound_cause (es ++ [e]) s'.
Proof.
  intros [Hp Hc] Hs.
  assert (Hin : forall x, x ∈ es -> x ∈ es ++ [e]) by (intros; apply elem_of_app; by left).
  assert (He : e ∈ es ++ [e]) by (apply elem_of_app; right; by left).
  assert (Hold : match nc_cause s with
    | Some (Signaled_ sig) => SignalArrives sig ∈ es ++ [e]
    | Some (Parent err) => ParentEnds err ∈ es ++ [e]
    | Some Canceled => CallerCancels ∈ es ++ [e]
    | None => True end) by (destruct (nc_cause s) as [[]|]; auto).
  destruct e as [sig|err| | |]; cbn in Hs.
  - injection Hs as <-. destruct (_ && _); [|split; auto]. split; [|exact Hold].
    intros x [= <-]. exact He.
  - destruct (nc_parent s); [done|]. injection Hs as <-. split; [auto|]. cbn. by destruct (nc_cause s).
  - injection Hs as <-. split; [auto|]. cbn. by destruct (nc_cause s).
  - destruct (nc_goroutine s); [|done]. destruct (nc_pending s) as [sig|] eqn:Hpend; [|done]. injection Hs as <-.
    split; [done|]. cbn. destruct (nc_cause s); [done|]. auto.
  - destruct (nc_goroutine s), (nc_parent s); try done. injection Hs as <-. split; auto.
Qed.

Lemma notify_cause es s : notify_run es NotifyContext = Some s -> sound_cause es s.
Proof.
  assert (Hgen : forall pre s0, sound_cause pre s0 -> notify_run es s0 = Some s -> sound_cause (pre ++ es) s).
  { induction es as [|e es IH]; intros pre s0 Hs0 Hr; cbn in Hr; [by simplify_eq; rewrite app_nil_r|].
    destruct (notify_step e s0) as [s1|] eqn:He; [|done].
    rewrite (app_assoc pre [e] es : pre ++ e :: es = _). apply (IH _ s1); [by eapply sound_cause_step|done]. }
  intros Hr. apply (Hgen [] NotifyContext); [|done]. by split.
Qed.

(** The function [NotifyContext] returns stops the signals but not the
    goroutine, which waits for the parent: unless the parent ends, it never
    runs again. *)
Definition leaked (s : notify) : Prop :=
  nc_goroutine s = true /\ nc_listening s = false /\ nc_pending s = None /\ nc_parent s = None.

Lemma notify_leak es s s' : leaked s -> (forall err, ParentEnds err ∉ es) -> notify_run es s = Some s' -> leaked s'.
Proof.
  revert s. induction es as [|e es IH]; intros s Hl Hp Hr; cbn in Hr; [by simplify_eq|].
  destruct (notify_step e s) as [s1|] eqn:He; [|done].
  apply (IH s1); [|intros err Hin; apply (Hp err); by right|done].
  destruct Hl as (Hg & Hli & Hpe & Hpa).
  destruct e as [sig|err| | |]; cbn in He; rewrite ?Hg, ?Hli, ?Hpe, ?Hpa in He; cbn in He; try done.
  - by injection He as <-.
  - destruct (Hp err). by left.
  - by injection He as <-.
Qed.

Example cancel_leaks : exists s, notify_run [CallerCancels] NotifyContext = Some s /\ leaked s.
Proof. eexists. split; [reflexivity|]. by repeat split. Qed.
