(* ===== verification/Logging.v ===== *)
(** Package x/logging, what its loggers print (logging.go), and the logger that
    x/ipc/ipc.go gives to yamux ([loggerWrapper]): the text around a message is
    part of the format of [log.Logger.Printf]. *)

From S2P Require Import Prelude GoErrors GoStrings Helpers.

(** ** fmt.Sprintf *)

(** Flags, width and precision of a directive. *)
Definition directive_char (c : ascii) : bool :=
  existsb (Ascii.eqb c) (list_ascii_of_string "+-# 0123456789.").

Section Sprintf.
Context {A : Type}.
(** How a verb prints an argument, and what [fmt] says of arguments too many. *)
Context (render : ascii -> A -> string) (extra : list A -> string).

(** The rest of a format, inside a directive or not. *)
Fixpoint Sprintf_from (directive : bool) (format : string) (v : list A) : string :=
  match format with
  | "" => (if directive then "%!(NOVERB)" else "") +:+ match v with [] => "" | _ => extra v end
  | String c format' =>
      if directive then
        if directive_char c then Sprintf_from true format' v
        else if Ascii.eqb c "%" then String "%" (Sprintf_from false format' v)
        else match v with
        | [] => "%!" +:+ String c ("(MISSING)" +:+ Sprintf_from false format' [])
        | a :: v' => render c a +:+ Sprintf_from false format' v'
        end
      else if Ascii.eqb c "%" then Sprintf_from true format' v
      else String c (Sprintf_from false format' v)
  end.

Definition Sprintf (format : string) (v : list A) : string := Sprintf_from false format v.

(** ** logging.go *)

(** A frame of [runtime.CallersFrames]. *)
Record Frame : Type := { f_Function : string; f_File : string; f_Line : Z }.

(** [runtime.Caller(2)], nil when there is no such caller. *)
Definition suffix (caller : option Frame) : string :=
  match caller with
  | None => ""
  | Some f => "[" +:+ f_File f +:+ ":" +:+ Itoa (f_Line f) +:+ "] "
  end.

Definition frame_line (f : Frame) : string :=
  f_Function f +:+ String "010" (String "009" (f_File f +:+ ":" +:+ Itoa (f_Line f) +:+ String "010" "")).

Definition no_frame : Frame := {| f_Function := ""; f_File := ""; f_Line := 0 |}.

(** The loop over the frames; [Next] on none of them is the zero frame. *)
Fixpoint trace_loop (frames : list Frame) : string :=
  match frames with
  | [] => ""
  | f :: frames' => frame_line f +:+ trace_loop frames'
  end.

Definition stackTrace (frames : list Frame) : string :=
  match frames with [] => frame_line no_frame | _ => trace_loop frames end.

(** The lines of the three levels: [log.Logger.Printf], but for the time stamp. *)
Definition logger_Printf (d : defaultLogger) (caller : option Frame) (format : string) (v : list A) : string :=
  Sprintf (Printf_format (suffix caller) d format) v.
Definition logger_Warnf (d : defaultLogger) (caller : option Frame) (format : string) (v : list A) : string :=
  Sprintf (Warnf_format (suffix caller) d format) v.
Definition logger_Errorf (d : defaultLogger) (caller : option Frame) (frames : list Frame) (format : string)
    (v : list A) : string :=
  Sprintf (Errorf_format (suffix caller) d format (stackTrace frames)) v.

(** ** ipc.go: loggerWrapper *)

(** [Sprint] and [Sprintln] of the arguments are the format. *)
Definition wrapper_Print (Sprint : list A -> string) (Errorf : string -> list A -> string) (v : list A) : string :=
  Errorf (Sprint v) [].
Definition wrapper_Printf (Errorf : string -> list A -> string) (format : string) (v : list A) : string :=
  Errorf format v.
Definition wrapper_Println (Sprintln : list A -> string) (Errorf : string -> list A -> string) (v : list A) : string :=
  Errorf (Sprintln v) [].

(** ** Lemmas *)

(** No percent sign. *)
Fixpoint plain_text (s : string) : bool :=
  match s with "" => true | String c s' => negb (Ascii.eqb c "%") && plain_text s' end.

(** The arguments a format takes; [None] if it ends inside a directive. *)
Fixpoint takes (directive : bool) (format : string) : option nat :=
  match format with
  | "" => if directive then None else Some 0%nat
  | String c format' =>
      if directive then
        if directive_char c then takes true format'
        else if Ascii.eqb c "%" then takes false format'
        else Datatypes.S <$> takes false format'
      else takes (Ascii.eqb c "%") format'
  end.

Lemma plain_text_app a b : plain_text (a +:+ b) = plain_text a && plain_text b.
Proof. induction a as [|c a IH]; [done|]. cbn. by rewrite IH, andb_assoc. Qed.

Lemma Sprintf_plain s rest v : plain_text s = true ->
  Sprintf_from false (s +:+ rest) v = s +:+ Sprintf_from false rest v.
Proof.
  induction s as [|c s IH]; [done|]. cbn [plain_text]. rewrite andb_true_iff, negb_true_iff. intros [Hc Hs].
  cbn [String.append Sprintf_from]. by rewrite Hc, IH.
Qed.

(** A format that is complete, in front of another. *)
Lemma Sprintf_takes d f rest v w : takes d f = Some (length v) ->
  Sprintf_from d (f +:+ rest) (v ++ w) = Sprintf_from d f v +:+ Sprintf_from false rest w.
Proof.
  revert d v. induction f as [|c f IH]; intros d v Ht; cbn [takes] in Ht.
  { destruct d; [done|]. injection Ht as Ht. by destruct v. }
  cbn [String.append Sprintf_from]. destruct d.
  - destruct (directive_char c); [by apply IH|]. destruct (Ascii.eqb c "%").
    + cbn [String.append]. by rewrite IH.
    + apply fmap_Some in Ht as (n & Ht & Hn). destruct v as [|a v]; [done|]. injection Hn as Hn. subst n.
      cbn [app]. rewrite IH by done. by rewrite append_assoc.
  - destruct (Ascii.eqb c "%"); [by apply IH|]. cbn [String.append]. by rewrite IH.
Qed.

Lemma Sprintf_surrounded pre f post v : plain_text pre = true -> plain_text post = true ->
  takes false f = Some (length v) -> Sprintf (pre +:+ f +:+ post) v = pre +:+ Sprintf f v +:+ post.
Proof.
  intros Hpre Hpost Hf. unfold Sprintf. rewrite Sprintf_plain by done.
  pose proof (Sprintf_takes false f post v [] Hf) as Hs. rewrite app_nil_r in Hs. rewrite Hs. do 2 f_equal.
  pose proof (Sprintf_plain post "" [] Hpost) as Hp. cbn in Hp. by rewrite !append_nil_r in Hp.
Qed.
End Sprintf.

Lemma plain_uint u : plain_text (DecimalString.NilZero.string_of_uint u) = true.
Proof.
  assert (Hz : forall u, plain_text (DecimalString.NilEmpty.string_of_uint u) = true) by (clear; induction u; done).
  destruct u; try apply (Hz (_ _)). done.
Qed.

Lemma plain_Itoa z : plain_text (Itoa z) = true.
Proof. destruct z; [done|apply plain_uint|]. cbn. apply plain_uint. Qed.

(** Neither the function nor the file of a frame has a percent sign. *)
Definition plain_frame (f : Frame) : bool := plain_text (f_Function f) && plain_text (f_File f).

Lemma plain_frame_line f : plain_frame f = true -> plain_text (frame_line f) = true.
Proof.
  unfold plain_frame, frame_line. rewrite andb_true_iff. intros [Hfn Hfile].
  rewrite plain_text_app, Hfn. cbn. rewrite plain_text_app, Hfile. cbn. by rewrite plain_text_app, plain_Itoa.
Qed.

Lemma plain_trace frames : forallb plain_frame frames = true -> plain_text (stackTrace frames) = true.
Proof.
  intros Hf. assert (Hl : plain_text (trace_loop frames) = true).
  { induction frames as [|f frames IH]; [done|]. cbn [forallb trace_loop] in *. apply andb_true_iff in Hf as [Hf Hfs].
    by rewrite plain_text_app, plain_frame_line, IH. }
  by destruct frames.
Qed.

Lemma plain_suffix caller : (forall f, caller = Some f -> plain_text (f_File f) = true) ->
  plain_text (suffix caller) = true.
Proof.
  destruct caller as [f|]; [|done]. intros Hf. cbn. rewrite plain_text_app, (Hf f eq_refl). cbn.
  by rewrite plain_text_app, plain_Itoa.
Qed.

(** What a logger prints at each level when the format fits its arguments and
    the prefix, the file of the caller and the frames are free of percent signs:
    the message between the position, the level, the prefix and the trace. A
    message that yamux hands over whole ([Print], [Println]) must be free of them
    too. *)
Theorem logger_lines {A} (render : ascii -> A -> string) extra d caller frames format (v : list A) :
  plain_text (log_prefix d) = true -> (forall f, caller = Some f -> plain_text (f_File f) = true) ->
  forallb plain_frame frames = true -> takes false format = Some (length v) ->
  logger_Printf render extra d caller format v = suffix caller +:+ log_prefix d +:+ Sprintf render extra format v /\
  logger_Warnf render extra d caller format v =
    suffix caller +:+ "[WARN] " +:+ log_prefix d +:+ Sprintf render extra format v /\
  logger_Errorf render extra d caller frames format v =
    suffix caller +:+ "[ERR] " +:+ log_prefix d +:+ Sprintf render extra format v +:+
      String "010" (stackTrace frames) /\
  (forall Sprint w, plain_text (Sprint w) = true ->
     wrapper_Print Sprint (logger_Errorf render extra d caller frames) w =
       suffix caller +:+ "[ERR] " +:+ log_prefix d +:+ Sprint w +:+ String "010" (stackTrace frames)).
Proof.
  intros Hp Hc Hf Hv. apply plain_suffix in Hc. apply plain_trace in Hf.
  assert (Htrace : plain_text (String "010" (stackTrace frames)) = true) by done.
  assert (Hsur : forall level fmt w, plain_text level = true -> takes false fmt = Some (length w) -> forall post,
    plain_text post = true ->
    Sprintf render extra (suffix caller +:+ level +:+ log_prefix d +:+ fmt +:+ post) w =
    suffix caller +:+ level +:+ log_prefix d +:+ Sprintf render extra fmt w +:+ post).
  { intros level fmt w Hl Hw post Hpost.
    pose proof (Sprintf_surrounded render extra (suffix caller +:+ level +:+ log_prefix d) fmt post w) as Hs.
    rewrite !append_assoc in Hs. apply Hs; [|done..]. by rewrite !plain_text_app, Hc, Hl, Hp. }
  split_and!.
  - specialize (Hsur "" format v eq_refl Hv "" eq_refl). cbn in Hsur. by rewrite !append_nil_r in Hsur.
  - specialize (Hsur "[WARN] " format v eq_refl Hv "" eq_refl). by rewrite !append_nil_r in Hsur.
  - by apply Hsur.
  - intros Sprint w Hw. unfold wrapper_Print, logger_Errorf, Errorf_format.
    assert (Htk : takes false (Sprint w) = Some 0%nat).
    { revert Hw. generalize (Sprint w). clear. induction s as [|c s IH]; [done|]. cbn.
      rewrite andb_true_iff, negb_true_iff. intros [-> Hs]. by apply IH. }
    rewrite (Hsur "[ERR] " (Sprint w) [] eq_refl Htk _ Htrace). do 4 f_equal.
    pose proof (Sprintf_plain render extra (Sprint w) "" [] Hw) as Hs. cbn in Hs. rewrite !append_nil_r in Hs. exact Hs.
Qed.

Definition render_string (verb : ascii) (s : string) : string := s.
Definition extra_strings (l : list string) : string := "%!(EXTRA " +:+ String.concat ", " l +:+ ")".

(** Go writes the dot of a package like yaml.v3 as "%2e" in the names of its
    functions: in a stack trace, which is part of the format, it is a directive. *)
Example trace_is_format :
  logger_Errorf render_string extra_strings {| log_prefix := "engine: "; log_out := None |} None
    [{| f_Function := "gopkg.in/yaml%2ev3.Unmarshal"; f_File := "yaml.go"; f_Line := 7 |}] "failed: %v" ["oops"] =
  "[ERR] engine: failed: oops" +:+ String "010" ("gopkg.in/yaml%!e(MISSING)v3.Unmarshal" +:+
    String "010" (String "009" ("yaml.go:7" +:+ String "010" ""))).
Proof. vm_compute. reflexivity. Qed.

(** What yamux prints with [Println] is taken for a format. *)
Example println_is_format :
  wrapper_Println (String.concat " ") (Sprintf render_string extra_strings) ["50%"; "done"] = "50%!d(MISSING)one".
Proof. vm_compute. reflexivity. Qed.

Lemma logger_lines_witness :
  logger_Errorf render_string extra_strings {| log_prefix := "engine: "; log_out := None |}
    (Some {| f_Function := "main"; f_File := "main.go"; f_Line := 12 |})
    [{| f_Function := "main"; f_File := "main.go"; f_Line := 12 |}] "%d%% of %s" ["50"; "it"] =
  "[main.go:12] [ERR] engine: 50% of it" +:+ String "010" (stackTrace [{| f_Function := "main"; f_File := "main.go"; f_Line := 12 |}]).
Proof.
  destruct (logger_lines render_string extra_strings {| log_prefix := "engine: "; log_out := None |}
    (Some {| f_Function := "main"; f_File := "main.go"; f_Line := 12 |})
    [{| f_Function := "main"; f_File := "main.go"; f_Line := 12 |}] "%d%% of %s" ["50"; "it"]) as (_ & _ & He & _).
  - reflexivity.
  - intros f [= <-]. reflexivity.
  - reflexivity.
  - reflexivity.
  - rewrite He. vm_compute. reflexivity.
Defined.
