(* ===== verification/Telemetry.v ===== *)
(** Package x/telemetry (otel.go): the set-up of OpenTelemetry, as the calls it
    makes of the SDK, and the function it returns to shut it down. *)

From S2P Require Import Prelude GoErrors GoStrings Helpers.

(** ** The SDK *)

(** A provider, or the nil pointer that stands for one. *)
Inductive otel_provider : Type := NilProvider | TracerProvider | MeterProvider.

(** The calls of the package, in order. *)
Inductive otel_call : Type :=
| SetErrorHandler
| SetTextMapPropagator
| NewResource
| Handle (err : goerror)
| NewTraceExporter (endpoint : string) (insecure : bool)
| NewMetricExporter (endpoint : string) (insecure : bool)
| SetTracerProvider (p : otel_provider)
| SetMeterProvider (p : otel_provider)
| Shutdown (p : otel_provider)
| Warnf (err : goerror).

Section otel.
Context (url_Parse : string -> result goerror URL) (path_Join2 : string -> string -> string).

(** [otel.Handle] in [sanitizeEndpoint]. *)
Definition parse_calls (endpoint : string) : list otel_call :=
  match url_Parse endpoint with Err err => [Handle (ErrorNew "invalid otel endpoint '%s': %s")] | Ok _ => [] end.

(** [newResource]; the resource is used as it is when there is an error. *)
Definition newResource (err : option goerror) : list otel_call :=
  NewResource :: match err with Some err => [Handle err] | None => [] end.

(** The errors are those of the exporters. *)
Definition createTraceProvider (exp : option goerror) (endpoint : string) (secure : bool)
  : list otel_call * otel_provider :=
  match exp with
  | Some err => ([NewTraceExporter endpoint (negb secure); Handle err], NilProvider)
  | None => ([NewTraceExporter endpoint (negb secure)], TracerProvider)
  end.

Definition createMetricProvider (exp : option goerror) (endpoint : string) (secure : bool)
  : list otel_call * otel_provider :=
  match exp with
  | Some err => ([NewMetricExporter endpoint (negb secure); Handle err], NilProvider)
  | None => ([NewMetricExporter endpoint (negb secure)], MeterProvider)
  end.

(** What fails around the package. *)
Record otel_env : Type := {
  oe_resource : option goerror;
  oe_trace : option goerror;
  oe_metric : option goerror
}.

(** [InitializeOTel]: the calls, and the providers that the cleanup closes over. *)
Definition InitializeOTel (ctx : option defaultLogger) (env : otel_env) (endpoint : string)
  : result goerror (list otel_call * (otel_provider * otel_provider)) :=
  _ <-? FromContext ctx ;;
  let '(sanitized, secure) := sanitizeEndpoint url_Parse path_Join2 endpoint in
  let '(trace_calls, tracerProvider) := createTraceProvider (oe_trace env) sanitized secure in
  let '(metric_calls, metricsProvider) := createMetricProvider (oe_metric env) sanitized secure in
  Ok ([SetErrorHandler; SetTextMapPropagator] ++ newResource (oe_resource env) ++ parse_calls endpoint ++
      trace_calls ++ metric_calls ++ [SetTracerProvider tracerProvider; SetMeterProvider metricsProvider],
      (tracerProvider, metricsProvider)).

(** [Shutdown] reads the provider it is called on: a nil one is a panic. *)
Definition shutdown_provider (p : otel_provider) (err : option goerror) : outcome (list otel_call) (list otel_call) :=
  match p with
  | NilProvider => Panics []
  | _ => Returns (Shutdown p :: match err with Some err => [Warnf err] | None => [] end)
  end.

(** The cleanup; the errors are those of the two shutdowns. A panic keeps the
    calls before it. *)
Definition cleanup (providers : otel_provider * otel_provider) (trace_err metric_err : option goerror)
  : outcome (list otel_call) (list otel_call) :=
  match shutdown_provider providers.1 trace_err with
  | Panics l => Panics l
  | Returns l =>
      match shutdown_provider providers.2 metric_err with
      | Panics l' => Panics (l ++ l')
      | Returns l' => Returns (l ++ l')
      end
  end.

(** ** Property *)

Definition shut_down (c : otel_call) : option otel_provider := match c with Shutdown p => Some p | _ => None end.

(** Both exporters get the same endpoint, without TLS exactly when it is not
    https; errors on the way are handed to the handler, which is set first, and
    end nothing. With both exporters the cleanup shuts both providers down, the
    tracer first, whatever fails; without one of them a nil provider is set in its
    place and the cleanup panics, without shutting down the metrics if it is the
    tracer that is missing. *)
Theorem InitializeOTel_calls ctx env endpoint : match InitializeOTel ctx env endpoint with
  | Err err => ctx = None /\ err = ErrorNew "no logger found in context"
  | Ok (calls, (tp, mp)) =>
      hd_error calls = Some SetErrorHandler /\
      (exists e i, NewTraceExporter e i ∈ calls /\ NewMetricExporter e i ∈ calls /\
         (e, negb i) = sanitizeEndpoint url_Parse path_Join2 endpoint) /\
      SetTracerProvider tp ∈ calls /\ SetMeterProvider mp ∈ calls /\
      (forall trace_err metric_err,
         match cleanup (tp, mp) trace_err metric_err with
         | Returns l => oe_trace env = None /\ oe_metric env = None /\
             omap shut_down l = [TracerProvider; MeterProvider]
         | Panics l => (is_Some (oe_trace env) \/ is_Some (oe_metric env)) /\
             omap shut_down l = if oe_trace env then [] else [TracerProvider]
         end)
  end.
Proof.
  unfold InitializeOTel. destruct ctx as [logger|]; [|done]. cbn [FromContext result_bind].
  destruct (sanitizeEndpoint url_Parse path_Join2 endpoint) as [e secure] eqn:He.
  destruct env as [re te me]. unfold createTraceProvider, createMetricProvider. cbn [oe_trace oe_metric oe_resource].
  destruct te as [te|], me as [me|]; (split; [done|]; split; [exists e, (negb secure); rewrite negb_involutive|]);
    split_and!; try (rewrite !elem_of_app, !elem_of_cons; tauto); try done;
    intros [err|] [err'|]; cbn; (split_and!; try done; first [left; by eexists | right; by eexists]).
Qed.
End otel.

(** What stands for a missing exporter. *)
Example nil_provider_panics :
  match InitializeOTel (fun _ => Err (ErrorNew "parse")) (fun a b => a) (Some {| log_prefix := ""; log_out := None |})
    {| oe_resource := None; oe_trace := None; oe_metric := Some (ErrorNew "no exporter") |} "::" with
  | Ok (calls, providers) => cleanup providers None None = Panics [Shutdown TracerProvider]
  | Err _ => False
  end.
Proof. reflexivity. Qed.
