(* ===== verification/TestHelpers.v ===== *)
(** Package x/testhelper (testing.go), which other packages build their tests
    on, and the trackers of x/telemetry/tracker.go: the resolver over a map, the
    waits on channels, the socket names, the filter of metrics, and the trackers
    with the goroutines of [AsyncWrapper]. *)

From stdpp Require Import sorting.
From S2P Require Import Prelude GoErrors GoStrings Secrets Resolver Client.

(** ** MockResolver *)

Section mock.
Context {St : Type} (ord : list (ID * string) -> list (ID * string)).

Definition mock_envelope (id : ID) (v : string) : Envelope :=
  {| env_ID := id; env_Value := list_byte_of_string v; env_Metadata := ∅; env_Provider := ""; env_Version := "";
     env_CreatedAt := time_zero; env_ResolvedAt := time_zero; env_ExpiresAt := time_zero |}.

(** The loop over the map. *)
Fixpoint mock_loop (pattern : Pattern) (l : list (ID * string)) : list Envelope :=
  match l with
  | [] => []
  | (id, v) :: l' => if pattern_Match pattern id then mock_envelope id v :: mock_loop pattern l' else mock_loop pattern l'
  end.

(** The comparison that [slices.SortFunc] is given. *)
Definition env_le (a b : Envelope) : Prop := String.le (env_ID a) (env_ID b).

#[export] Instance env_le_dec : RelDecision env_le.
Proof. intros a b. unfold env_le. apply _. Defined.

Definition MockResolver_GetSecrets (Store : gmap ID string) : Resolver St := fun pattern =>
  ret (merge_sort env_le (mock_loop pattern (range_map ord Store))).
End mock.

(** ** Waits *)

(** What a channel does first: [Some v] is a value, [None] the close. *)
Definition WaitForWithExplicitTimeoutV {V} (ch : option (Z * option V)) (timeout : Z) (timer_first : bool)
  : result goerror V :=
  match ch with
  | None => Err (ErrorNew "timeout")
  | Some (at_, ev) =>
      if (timeout <? at_)%Z || (at_ =? timeout)%Z && timer_first then Err (ErrorNew "timeout")
      else match ev with Some val => Ok val | None => Err (ErrorNew "channel closed") end
  end.

(** Milliseconds. *)
Definition WaitForWithTimeoutV {V} (ch : option (Z * option V)) (timer_first : bool) : result goerror V :=
  WaitForWithExplicitTimeoutV ch 2000 timer_first.

(** The error that comes over the channel, which may be nil. *)
Definition WaitForErrorWithTimeout (in_ : option (Z * option (option goerror))) (timer_first : bool) : option goerror :=
  match WaitForWithExplicitTimeoutV in_ 2000 timer_first with
  | Err err => Some err
  | Ok val => val
  end.

(** Any receive ends this wait, a value as much as the close. *)
Definition WaitForClosedWithTimeout (in_ : option Z) (timer_first : bool) : option goerror :=
  match in_ with
  | None => Some (ErrorNew "timeout")
  | Some at_ => if (4000 <? at_)%Z || (at_ =? 4000)%Z && timer_first then Some (ErrorNew "timeout") else None
  end.

(** ** Socket names *)

Definition letters : string := "abcdefghijklmnopqrstuvwxyz".

(** [rand.Intn] returns [Intn i] at its [i]-th call; out of range, [None], the
    index panics. *)
Fixpoint randString_from (Intn : nat -> nat) (i n : nat) : option string :=
  match n with
  | O => Some ""
  | Datatypes.S n' =>
      c ← String.get (Intn i) letters;
      s ← randString_from Intn (Datatypes.S i) n';
      Some (String c s)
  end.

Definition randString (Intn : nat -> nat) (n : nat) : option string := randString_from Intn 0 n.

Definition RandomShortSocketName (Intn : nat -> nat) : option string :=
  s ← randString Intn 6; Some (s +:+ ".sock").

(** ** Metrics *)

Record Metrics (D : Type) : Type := { m_Name : string; m_Data : D }.
Arguments m_Name {D}.
Arguments m_Data {D}.

(** [rm] is the metrics of each scope. *)
Definition FilterMetrics {D} (rm : list (list (Metrics D))) (name : string) : list (Metrics D) :=
  flat_map (fun sm => filter (fun m => String.eqb (m_Name m) name) sm) rm.

(** ** Trackers *)

(** [telemetry.Tracker] over a state of its own. *)
Class Tracker (S E : Type) : Type := {
  TrackEvent : E -> S -> S;
  Notify : E -> S -> S
}.

Definition noopTracker_TrackEvent {E} (_ : E) (s : unit) : unit := s.
Definition noopTracker_Notify {E} (_ : E) (s : unit) : unit := s.

#[export] Instance noopTracker {E} : Tracker unit E := {
  TrackEvent := noopTracker_TrackEvent;
  Notify := noopTracker_Notify
}.

(** The queue of [testTracker], whose lock makes each call one step. *)
Definition testTracker_TrackEvent {E} (event : E) (Queue : list E) : list E := Queue ++ [event].
Definition testTracker_Notify {E} (_ : E) (Queue : list E) : list E := Queue.

#[export] Instance testTracker {E} : Tracker (list E) E := {
  TrackEvent := testTracker_TrackEvent;
  Notify := testTracker_Notify
}.

(** A call that [asyncTracker] has started in a goroutine. *)
Inductive tracker_call (E : Type) : Type :=
| CallTrackEvent (event : E)
| CallNotify (err : E).
Arguments CallTrackEvent {E}.
Arguments CallNotify {E}.

Definition asyncTracker_TrackEvent {S E} (event : E) : S * list (tracker_call E) -> S * list (tracker_call E) :=
  fun '(s, started) => (s, started ++ [CallTrackEvent event]).
Definition asyncTracker_Notify {S E} (err : E) : S * list (tracker_call E) -> S * list (tracker_call E) :=
  fun '(s, started) => (s, started ++ [CallNotify err]).

#[export] Instance asyncTracker {S E} : Tracker (S * list (tracker_call E)) E := {
  TrackEvent := asyncTracker_TrackEvent;
  Notify := asyncTracker_Notify
}.

Definition perform_call {S E} `{Tracker S E} (c : tracker_call E) : S -> S :=
  match c with CallTrackEvent event => TrackEvent event | CallNotify err => Notify err end.

(** What happens: the program calls the wrapper, the scheduler runs one of the
    goroutines. *)
Inductive tracker_step (E : Type) : Type :=
| Call (c : tracker_call E)
| Goroutine (i : nat).
Arguments Call {E}.
Arguments Goroutine {E}.

Fixpoint async_run {S E} `{Tracker S E} (l : list (tracker_step E)) (w : S * list (tracker_call E))
  : option (S * list (tracker_call E)) :=
  match l with
  | [] => Some w
  | Call c :: l' => async_run l' (perform_call c w)
  | Goroutine i :: l' =>
      let '(s, started) := w in
      c ← started !! i;
      async_run l' (perform_call c s, delete i started)
  end.

Definition events {E} (l : list (tracker_call E)) : list E :=
  omap (fun c => match c with CallTrackEvent event => Some event | CallNotify _ => None end) l.
Definition calls {E} (l : list (tracker_step E)) : list (tracker_call E) :=
  omap (fun st => match st with Call c => Some c | Goroutine _ => None end) l.

(** ** Lemmas *)

Section mock_lemmas.
Context {St : Type}.

Lemma mock_loop_map pattern l :
  mock_loop pattern l = map (fun kv => mock_envelope kv.1 kv.2) (filter (fun kv => pattern_Match pattern kv.1) l).
Proof.
  induction l as [|[id v] l IH]; [done|]. cbn [mock_loop]. rewrite filter_cons. cbn [fst].
  destruct (pattern_Match pattern id) eqn:Hm; cbn; [|exact IH]. by rewrite IH.
Qed.

#[local] Instance env_le_trans : Transitive env_le.
Proof. intros a b c. unfold env_le. by transitivity (env_ID b). Qed.

#[local] Instance env_le_total : Total env_le.
Proof. intros a b. unfold env_le. apply String.le_total. Qed.

Lemma mock_loop_ids ord `{!MapOrder ord} pattern (store : gmap ID string) :
  NoDup (map env_ID (mock_loop pattern (range_map ord store))).
Proof.
  assert (Hl : forall l : list (ID * string), NoDup l.*1 ->
    NoDup (map env_ID (mock_loop pattern l)) /\ forall id, id ∈ map env_ID (mock_loop pattern l) -> id ∈ l.*1).
  { induction l as [|[id v] l IH]; intros Hnd; [split; [constructor|done]|].
    cbn [fmap list_fmap fst] in Hnd. apply list.NoDup_cons in Hnd as [Hid Hnd]. destruct (IH Hnd) as [IH1 IH2].
    cbn [mock_loop fmap list_fmap fst]. destruct (pattern_Match pattern id).
    - cbn [map env_ID mock_envelope]. split; [apply list.NoDup_cons; split; [by intros Hin; apply Hid, IH2|done]|].
      intros id' [->|Hin]%elem_of_cons; [by left|right; by apply IH2].
    - split; [done|]. intros id' Hin. right. by apply IH2. }
  apply Hl, (NoDup_range_map ord).
Qed.

Lemma mock_sorted_unique (l1 l2 : list Envelope) : NoDup (map env_ID l1) -> l1 ≡ₚ l2 ->
  merge_sort env_le l1 = merge_sort env_le l2.
Proof.
  intros Hnd Hp. apply (StronglySorted_unique_strong env_le).
  - intros x1 x2 H1 H2 H12 H21. rewrite merge_sort_Permutation in H1, H2. rewrite <- Hp in H2.
    assert (Hid : env_ID x1 = env_ID x2) by (apply (anti_symm String.le); done).
    apply list_elem_of_lookup in H1 as [i Hi], H2 as [j Hj].
    assert (i = j); [|by simplify_eq].
    apply (NoDup_lookup _ _ _ (env_ID x1) Hnd); rewrite list_lookup_fmap; [by rewrite Hi|by rewrite Hj, Hid].
  - apply StronglySorted_merge_sort; apply _.
  - apply StronglySorted_merge_sort; apply _.
  - by rewrite !merge_sort_Permutation.
Qed.
End mock_lemmas.

Lemma events_app {E} (l1 l2 : list (tracker_call E)) : events (l1 ++ l2) = events l1 ++ events l2.
Proof. unfold events. induction l1 as [|[e|e] l1 IH]; cbn; [done|by rewrite IH|done]. Qed.

Lemma events_delete {E} (l : list (tracker_call E)) i c : l !! i = Some c -> events l ≡ₚ events [c] ++ events (delete i l).
Proof.
  intros Hi. rewrite <- events_app. unfold events. apply omap_Permutation. by apply delete_Permutation.
Qed.

Lemma perform_queue {E} (c : tracker_call E) (q : list E) : perform_call c q = q ++ events [c].
Proof. destruct c; cbn; [done|by rewrite app_nil_r]. Qed.

Lemma async_run_events {E} (l : list (tracker_step E)) (q : list E) st q' st' :
  async_run l (q, st) = Some (q', st') -> q' ++ events st' ≡ₚ (q ++ events st) ++ events (calls l).
Proof.
  revert q st. induction l as [|[c|i] l IH]; intros q st Hl; cbn [async_run] in Hl.
  - injection Hl as <- <-. cbn. by rewrite app_nil_r.
  - assert (Hc : perform_call c (q, st) = (q, st ++ [c])) by (by destruct c).
    rewrite Hc in Hl. rewrite (IH _ _ Hl). change (calls (Call c :: l)) with ([c] ++ calls l).
    by rewrite !events_app, !app_assoc.
  - destruct (st !! i) as [c|] eqn:Hi; [|done]. rewrite (IH _ _ Hl), perform_queue.
    change (calls (Goroutine i :: l)) with (calls l). rewrite (events_delete st i c Hi).
    by rewrite !app_assoc.
Qed.

(** The goroutines can run, the oldest first. *)
Lemma async_drain {E} (st : list (tracker_call E)) (q : list E) :
  async_run (replicate (length st) (Goroutine 0)) (q, st) = Some (q ++ events st, []).
Proof.
  revert q. induction st as [|c st IH]; intros q; cbn [length replicate async_run].
  - by rewrite app_nil_r.
  - cbn [lookup list_lookup mbind option_bind delete list_delete]. rewrite IH, perform_queue.
    change (c :: st) with ([c] ++ st). by rewrite events_app, app_assoc.
Qed.

(** ** Properties *)

(** The answer of [MockResolver] is the same whatever order Go visits the
    map in: the envelopes of exactly the identifiers of the map that match, each
    once, in increasing order; it never fails. *)
Theorem MockResolver_deterministic {St} ord ord' (store : gmap ID string) pattern (s : St) :
  MapOrder ord -> MapOrder ord' ->
  exists l, MockResolver_GetSecrets ord store pattern s = (Ok l, s) /\
    MockResolver_GetSecrets ord' store pattern s = (Ok l, s) /\
    StronglySorted env_le l /\ NoDup (map env_ID l) /\
    (forall e, e ∈ l <-> exists v, store !! env_ID e = Some v /\ pattern_Match pattern (env_ID e) = true /\
       e = mock_envelope (env_ID e) v).
Proof.
  intros Ho Ho'. set (m := fun o => mock_loop pattern (range_map o store)).
  assert (Hp : m ord ≡ₚ m ord').
  { unfold m. rewrite !mock_loop_map. by rewrite (range_map_perm ord), (range_map_perm ord'). }
  assert (Hnd : NoDup (map env_ID (m ord))) by (by apply mock_loop_ids).
  exists (merge_sort env_le (m ord)). split; [done|]. split.
  { unfold MockResolver_GetSecrets. fold (m ord'). by rewrite (mock_sorted_unique _ _ Hnd Hp). }
  split; [by apply StronglySorted_merge_sort; [exact env_le_trans|exact env_le_total]|]. split.
  { change (NoDup (env_ID <$> merge_sort env_le (m ord))). by rewrite merge_sort_Permutation. }
  intros e. rewrite merge_sort_Permutation. unfold m. rewrite mock_loop_map, list_elem_of_fmap. split.
  - intros ([id v] & -> & [Hm Hin]%list_elem_of_filter). apply (elem_of_range_map ord) in Hin. exists v.
    split_and!; [exact Hin|by apply Is_true_true|done].
  - intros (v & Hv & Hm & He). exists (env_ID e, v). split; [exact He|]. apply list_elem_of_filter.
    split; [by apply Is_true_true|by apply (elem_of_range_map ord)].
Qed.

(** Through [AsyncWrapper] every event reaches the tracker exactly once, in
    some order: at every moment the queue and what the goroutines still carry are
    the events tracked so far; the goroutines can always run to the end, after
    which the queue has all of them. *)
Theorem AsyncWrapper_once {E} (l : list (tracker_step E)) (queue : list E) started :
  async_run l ([], []) = Some (queue, started) ->
  queue ++ events started ≡ₚ events (calls l) /\
  exists l' queue', calls l' = [] /\ async_run l' (queue, started) = Some (queue', []) /\ queue' ≡ₚ events (calls l).
Proof.
  intros Hl. pose proof (async_run_events l [] [] _ _ Hl) as Hp. cbn in Hp. split; [exact Hp|].
  exists (replicate (length started) (Goroutine 0)), (queue ++ events started).
  split; [|split; [apply async_drain|exact Hp]].
  clear. induction started; [done|exact IHstarted].
Qed.

(** The order is not kept. *)
Example async_reorders :
  async_run [Call (CallTrackEvent 1%nat); Call (CallTrackEvent 2%nat); Goroutine 1; Goroutine 0] ([], []) =
    Some ([2%nat; 1%nat], []).
Proof. reflexivity. Qed.

Lemma get_is_Some s : forall n, (n < String.length s)%nat -> is_Some (String.get n s).
Proof.
  induction s as [|c s IH]; intros n Hn; [cbn in Hn; lia|]. destruct n as [|n]; [by eexists|]. apply IH. cbn in Hn. lia.
Qed.

(** A socket name has six letters, if [Intn] keeps below its bound. *)
Lemma RandomShortSocketName_length Intn : (forall i, (Intn i < 26)%nat) ->
  exists s, RandomShortSocketName Intn = Some (s +:+ ".sock") /\ String.length s = 6%nat.
Proof.
  intros Hn. assert (Hs : forall n i, exists s, randString_from Intn i n = Some s /\ String.length s = n).
  { induction n as [|n IH]; intros i; [by exists ""|]. cbn [randString_from].
    assert (Hc : is_Some (String.get (Intn i) letters)).
    { apply get_is_Some. apply Hn. }
    destruct Hc as [c Hc]. destruct (IH (Datatypes.S i)) as (s & Hs & Hl). exists (String c s).
    rewrite Hc. cbn [mbind option_bind]. rewrite Hs. split; [done|cbn; by rewrite Hl]. }
  destruct (Hs 6%nat 0%nat) as (s & Hs6 & Hl). exists s. unfold RandomShortSocketName, randString. by rewrite Hs6.
Qed.

Lemma MockResolver_deterministic_witness : exists l,
  MockResolver_GetSecrets (fun l => l) {["b/x" := "1"; "a/x" := "2"; "a/y" := "3"]} "*/x" tt = (Ok l, tt) /\
  MockResolver_GetSecrets (@rev _) {["b/x" := "1"; "a/x" := "2"; "a/y" := "3"]} "*/x" tt = (Ok l, tt) /\
  map env_ID l = ["a/x"; "b/x"].
Proof.
  destruct (MockResolver_deterministic (fun l => l) (@rev _) {["b/x" := "1"; "a/x" := "2"; "a/y" := "3"]} "*/x" tt)
    as (l & H1 & H2 & _); [apply _..|].
  exists l. split; [exact H1|]. split; [exact H2|]. vm_compute in H1. injection H1 as <-. reflexivity.
Defined.

Lemma AsyncWrapper_once_witness : exists l' queue',
  async_run l' ([2%nat], [CallNotify 9%nat; CallTrackEvent 3%nat]) = Some (queue', []) /\ queue' ≡ₚ [2%nat; 3%nat].
Proof.
  destruct (AsyncWrapper_once [Call (CallTrackEvent 2%nat); Call (CallNotify 9%nat); Goroutine 0; Call (CallTrackEvent 3%nat)]
    [2%nat] [CallNotify 9%nat; CallTrackEvent 3%nat] eq_refl) as (_ & l' & queue' & _ & Hl & Hp).
  exists l', queue'. split; [exact Hl|exact Hp].
Defined.
